(* ===== verification/_CoqProject ===== *)
-Q . S2P
Prelude.v
SlidingWindow.v
Json.v
JsonFacts.v
JsonRaw.v
JsonCompact.v
Geth.v
Rpc.v
Duration.v
Util.v
RateLimiter.v
Rewriter.v
Cache.v
Http.v
Backend.v
BackendFacts.v
Tracker.v
HaCluster.v
Consensus.v
Metrics.v
ConsensusFacts.v
ConsensusInvariant.v
PollerLoop.v
BackendGroup.v
BackendGroupFacts.v
Server.v
Wire.v
Replies.v
ServerFacts.v
Interop.v
InteropFacts.v
Config.v
Semaphore.v
Main.v
Lifecycle.v
WsProxy.v
Routes.v
Sessions.v
System.v
MockServer.v
