(* ===== verification/Prelude.v ===== *)
(** * A verification development for proxyd

    proxyd is an RPC proxy for Ethereum nodes. A request passes through these parts, all under src/:

    - the server (server.go) reads the body through a size limit (reader.go), parses JSON-RPC calls
      (rpc.go), checks a signature header, applies rate limits (frontend_rate_limiter.go), checks the
      sender of a transaction and, for interop transactions, asks supervisors (interop.go,
      interop_strategy.go); it groups the calls into upstream batches, answers from the cache
      (cache.go, methods.go) or forwards them to a backend group;
    - a backend group (backend.go) orders its backends, rewrites block tags to the consensus blocks
      (rewriter.go) and fails over from backend to backend, or asks all of them at once;
    - a backend (backend.go) translates and sends requests over HTTP, retries, sorts the responses and
      keeps moving windows (pkg/avg-sliding-window) of its errors and latency, which decide its health;
    - the consensus poller (consensus_poller.go) polls the backends of a group, bans the unreliable
      ones and agrees on the latest, safe and finalized blocks, which a tracker (consensus_tracker.go)
      stores in memory or shares through Redis;
    - WebSocket connections are proxied message by message (backend.go);
    - the configuration (config.go, proxyd.go, redis.go, tls.go, cmd/proxyd/main.go) is turned into
      backends, groups and routes;
    - all of them record metrics (metrics.go); a mock backend for tests is under tools/.

    ** The files

    Foundations. [Prelude]: panics, machine integers, times, strings, shared lemmas and tactics.
    [Json], [JsonFacts], [JsonRaw], [JsonCompact]: the decoder and encoder of [encoding/json], their round
    trip, that raw messages are valid texts, and that compacting a text keeps its value. [Geth]: the parts of go-ethereum's [hexutil] and [rpc] the proxy
    calls, as classes with laws and instances. [Http]: headers, basic authentication, the values of a
    request's context.

    Components. Each file opens with the sources it models; a function has the name it has in Go
    (with a prefix where two Go methods share one).

    - [SlidingWindow]: sliding.go. [Rpc]: rpc.go, errors.go and the error table of backend.go. [Util]:
      string_set.go and reader.go. [RateLimiter]: frontend_rate_limiter.go.
    - [Rewriter]: rewriter.go. [Cache]: cache.go and methods.go.
    - [Backend], [BackendFacts]: a backend of backend.go: its options, [doForward], [Forward],
      [ForwardRPC], health.
      [Semaphore]: [LimitedHTTPClient], the limit on concurrent requests.
    - [Tracker]: consensus_tracker.go; [HaCluster]: its goroutine in several proxies that share a Redis.
      [Consensus], [ConsensusFacts]: consensus_poller.go and the data of a group; [ConsensusInvariant]:
      its critical sections as steps; [PollerLoop]: its goroutines, cut at these sections, and the
      invariant they keep. [BackendGroup], [BackendGroupFacts]: the methods of a group in
      backend.go.
    - [Metrics]: metrics.go and the functions of backend.go that record batches.
    - [Server], [ServerFacts]: server.go from the request's body to the reply. [Wire]: the texts of
      requests and replies, with the functions of server.go that write them; [Replies]: what backends,
      groups, cache and server answer can be written.
    - [Interop], [InteropFacts]: interop.go, interop_strategy.go and [ParseInteropError] of backend.go.
    - [WsProxy]: the pumps of [WSProxier] in backend.go. [Routes]: the routes of server.go and
      [HandleWS]. [Sessions]: the sessions of a server and their gauges.
    - [Config]: config.go, redis.go, tls.go and [Start] of proxyd.go; [Duration]: the durations in it;
      [Main]: cmd/proxyd/main.go; [Lifecycle]: the listeners and [Shutdown]. [MockServer]: tools/mockserver/handler/handler.go.

    The whole. [System]: the server over groups of backends, with the facts the server relies on proved
    of them, and the proxy as a transition system of requests and poller steps.

    ** How the code is represented

    A Go call returns or panics ([outcome]). Mutated receivers and arguments are passed in and
    returned; a pointer that identifies an object in a collection is its position. Clock readings,
    random shuffles, the order in which Go ranges over a map, what the network answers and whether a
    semaphore is acquired are arguments, so that a theorem holds for all of them. Concurrency is
    explicit where the code's correctness depends on it: the two critical sections of the in-memory
    limiter, the goroutines of the interop multicall ([mc_step]), of a WebSocket session ([ws_step]) and of
    the poller ([ah_step], whose rounds are cut where the code takes or releases a lock), the Redis commands of several proxies ([cluster_step]), the calls that share
    the semaphore ([client_step]), the sessions of a server ([sessions_step]), requests between steps
    of the pollers ([system_step]), and the process from its start to the end of [main] ([process_step]). Times are nanoseconds, [uint64] and [int64] are integers with their
    wrap-around written out, [float64] sums are rationals. Third-party libraries are type classes of
    operations with laws that state what they document, and each has an instance. Components use each
    other through such classes as well: [MovingWindow], [FrontendRateLimiter], [Cache],
    [ConsensusTracker], [BlockFetcher], [InteropStrategy] and [Groups].

    ** What the theorems show

    - The proxy as a whole: in every reachable state requests are served without a panic and with a reply
      that the client can read ([proxy_serves], which composes server, rewriter, group, backend and
      encoder; its hypotheses say what is asked of the backends, what a configuration needs beyond the
      checks of [Start] ([config_safe]) and which two kinds of call are left out;
      [strategies_ok] shows what it asks of the errors of the interop strategies); a shutdown
      waits for requests and stops the pollers ([graceful_shutdown]).
    - On the wire: a backend reads the calls the client made ([requests_on_the_wire]), the client reads what
      the backend answered ([relayed_response]) and what the proxy replied ([reply_on_the_wire], with the
      size that is recorded).
    - Serving: a batch is answered completely and at the right positions ([batch_complete]); only
      admitted calls are forwarded ([forwarded_admitted]), in bounded batches without repeated ids
      ([upstream_batches]); a group keeps positions, fails over and orders its backends
      ([group_positions], [routing_order], [multicall_success]); [failover] also says what the next backend
      is sent in place of receipts the first one translated; a backend sorts, counts and
      retries as it should ([sortBatchRPCResponse_order], [doForward_bookkeeping], [Forward_attempts]).
    - Consensus: the poller's invariant - with the window in which tags are stored and not yet checked -, its
      goroutines, its candidates and the agreed block ([poller_invariant], [poller_goroutines],
      [candidates_conditions], [consensus_agreement]); the handover of the leader's lock between
      interleaved heartbeats and the state that followers read ([heartbeat_handover], [follower_reads_leader]), and that proxies which share a Redis
      only serve what one of them polled ([ha_cluster]); rewritten requests only name
      settled blocks, parameters that name no block at all apart ([RewriteRequest_settles] and the theorems
      beside it).
    - Limits and caches: the limiters implement a windowed limit, also under interleaving; windows sum
      the live points; health is what the windows say; a hit of the cache was put for that request;
      no more requests are sent at once than configured ([rpc_concurrency]).
    - Metrics: recording never panics for valid texts ([metrics_never_panic]); forwards are counted
      ([forwards_counted]) and the gauges of WebSockets equal the open sessions ([ws_gauges]).
    - Interop: the cleanup of access lists, the load balancing against a reference, and the multicall.
    - Start-up and WebSockets: a configuration that starts is routable, and its consensus aware groups get
      their pollers or the documented failure ([Start_routes]); [proxy_serves]
      starts from one; a configured backend has the options of its section ([configured_backend]);
      the whitelist is enforced and refused messages are answered ([ws_whitelisted]);
      when one side of a session stops, both are closed ([ws_teardown]); durations never wrap around
      ([duration_text]).
    - Faults of the code, stated as theorems where they are reachable: [multicall_blocks],
      [deposed_leader_stuck], [rpc_auth_unusable], [RewriteTags_panics], [cache_key_header_collision],
      [semaphore_failure_counts], [Clear_keeps_buckets], [high_prio_without_redis], [negative_log_length].

    ** Fuel

    The JSON parser gets twice the length of its input ([parse_enough] of JsonRaw: no text needs more),
    [ReadAll] one step per byte and more as its
    theorem requires, the deduplication of an access list its length (every step consumes an entry),
    a directive of a format consumes a character, a heartbeat has at most four commands
    ([heartbeat_commands]), a duration has at most one part per character. The walk back of the consensus gets a number of
    rounds; [consensus_agreement] shows that the distance to an agreed block is enough. [Forward] and
    the load balancing count their attempts down as the code does.

    ** Not modelled

    Logs, but for the cutting of a logged body ([log_request]); sockets, CORS, the metrics and pprof servers (net/http's server is modelled as far as its
    [Shutdown] is documented); WebSocket dialling and deadlines, which set fields of the library's
    connections; the timers between two rounds of the poller and of the heartbeat (any time may
    pass); the Prometheus, Redis, LRU and semaphore libraries, the parsing of certificates, cryptography
    and go-ethereum's transactions (parameters); TOML and YAML decoding; the overriding of three error
    messages at start-up; backends shared between several groups (every group has its own copy). The
    calls of the metrics are not part of the other components' definitions, since nothing reads them. *)

From stdpp Require Export base tactics gmap strings list sorting fin_maps.
From Stdlib Require Export ZArith QArith Lia Lqa.
From Stdlib Require Export Permutation Sorted.

#[global] Open Scope string_scope.
#[global] Open Scope Z_scope.
#[global] Open Scope list_scope.

(** ** Go's run-time panics

    A Go call either returns or panics (nil dereference, index out of range, integer division by
    zero, failed type assertion without [, ok]).  The models keep panics as values, so that a
    theorem can say that an operation never panics or exhibit the input on which it does. *)

Inductive outcome (A : Type) : Type :=
| Returns (a : A)
| Panics (reason : string).
Arguments Returns {A} a.
Arguments Panics {A} reason.

Definition outcome_bind {A B} (f : A -> outcome B) (m : outcome A) : outcome B :=
  match m with
  | Returns a => f a
  | Panics r => Panics r
  end.

#[global] Instance outcome_mret : MRet outcome := fun A a => Returns a.
#[global] Instance outcome_mbind : MBind outcome := fun A B f m => outcome_bind f m.

Definition returns {A} (m : outcome A) : Prop := exists a, m = Returns a.

Declare Scope go_scope.
Delimit Scope go_scope with go.
Notation "'let!' x ':=' m 'in' k" := (outcome_bind (fun x => k) m)
  (at level 10, x pattern, m at level 100, k at level 200) : go_scope.
#[global] Open Scope go_scope.

(** Runs one step of a computation that is known to return. *)
Ltac step_outcome H :=
  match type of H with
  | outcome_bind _ ?m = Returns _ => let E := fresh "E" in destruct m eqn:E; cbn [outcome_bind] in H; [|discriminate]
  end.

(** ** Machine integers: [uint64]/[uint] and [int64]/[int] with their wrap-around *)

Definition u64 (z : Z) : Z := z mod 2 ^ 64.
Definition i64 (z : Z) : Z := (z + 2 ^ 63) mod 2 ^ 64 - 2 ^ 63.

Definition in_u64 (z : Z) : Prop := 0 <= z < 2 ^ 64.
Definition in_i64 (z : Z) : Prop := - 2 ^ 63 <= z < 2 ^ 63.

(** ** [time.Time] and [time.Duration]

    An instant is the number of nanoseconds since Go's zero time (January 1, year 1, UTC), so the
    zero [time.Time] is [0]; a duration is a number of nanoseconds. *)

Definition Millisecond : Z := 1000000.
Definition Second : Z := 1000 * Millisecond.
Definition Minute : Z := 60 * Second.
Definition Hour : Z := 60 * Minute.

(** Seconds between the zero time and the Unix epoch. *)
Definition unixEpoch : Z := 62135596800.

Definition time_Round (t d : Z) : Z :=
  if d <=? 0 then t
  else let r := t mod d in if r + r <? d then t - r else t + (d - r).

Definition time_Truncate (t d : Z) : Z := if d <=? 0 then t else t - t mod d.

Definition time_Unix (t : Z) : Z := t / Second - unixEpoch.

(** ** Go's [strings] package on byte strings *)

Definition quote_char : Ascii.ascii := Ascii.ascii_of_nat 34.
Definition quote : string := String quote_char EmptyString.

Definition str_HasPrefix (s p : string) : bool := String.prefix p s.

Fixpoint str_drop (n : nat) (s : string) : string :=
  match n, s with
  | O, _ => s
  | S _, EmptyString => EmptyString
  | S n', String _ s' => str_drop n' s'
  end.

Fixpoint str_take (n : nat) (s : string) : string :=
  match n, s with
  | O, _ => EmptyString
  | S _, EmptyString => EmptyString
  | S n', String c s' => String c (str_take n' s')
  end.

Definition str_HasSuffix (s suf : string) : bool :=
  (String.length suf <=? String.length s)%nat
  && bool_decide (str_drop (String.length s - String.length suf) s = suf).

Definition str_TrimSuffix (s suf : string) : string :=
  if str_HasSuffix s suf then str_take (String.length s - String.length suf) s else s.

Definition str_TrimPrefix (s p : string) : string :=
  if str_HasPrefix s p then str_drop (String.length p) s else s.

Fixpoint str_Contains (s sub : string) : bool :=
  str_HasPrefix s sub
  || match s with
     | EmptyString => false
     | String _ s' => str_Contains s' sub
     end.

(** [strings.Split(s, sep)] for a one-byte separator: always at least one field. *)
Fixpoint str_Split (s : string) (sep : Ascii.ascii) : list string :=
  match s with
  | EmptyString => [EmptyString]
  | String c s' =>
      if bool_decide (c = sep) then EmptyString :: str_Split s' sep
      else
        match str_Split s' sep with
        | [] => [String c EmptyString]
        | f :: fs => String c f :: fs
        end
  end.

Definition is_space (c : Ascii.ascii) : bool :=
  let n := Ascii.nat_of_ascii c in
  ((n =? 32) || ((9 <=? n) && (n <=? 13)))%nat.

Fixpoint str_TrimLeftSpace (s : string) : string :=
  match s with
  | EmptyString => EmptyString
  | String c s' => if is_space c then str_TrimLeftSpace s' else s
  end.

(** Drops trailing spaces: a character stays when something non-blank follows or it is non-blank. *)
Fixpoint str_TrimRightSpace (s : string) : string :=
  match s with
  | EmptyString => EmptyString
  | String c s' =>
      match str_TrimRightSpace s' with
      | EmptyString => if is_space c then EmptyString else String c EmptyString
      | t => String c t
      end
  end.

Definition str_TrimSpace (s : string) : string := str_TrimRightSpace (str_TrimLeftSpace s).

Fixpoint str_Join (l : list string) (sep : string) : string :=
  match l with
  | [] => EmptyString
  | [s] => s
  | s :: l' => s +:+ sep +:+ str_Join l' sep
  end.

(** ** Sums of rationals *)

Fixpoint qsum {A} (f : A -> Q) (l : list A) : Q :=
  match l with
  | [] => 0%Q
  | x :: l' => (f x + qsum f l')%Q
  end.

Fixpoint zsum {A} (f : A -> Z) (l : list A) : Z :=
  match l with
  | [] => 0
  | x :: l' => f x + zsum f l'
  end.

(** [select p l]: the elements on which the boolean test holds, in order. *)
Fixpoint select {A} (p : A -> bool) (l : list A) : list A :=
  match l with
  | [] => []
  | x :: l' => if p x then x :: select p l' else select p l'
  end.

(** ** Automation *)

Create HintDb proxyd.

Ltac bool_to_prop :=
  repeat match goal with
  | H : context [?a <? ?b] |- _ => destruct (Z.ltb_spec a b)
  | H : context [?a <=? ?b] |- _ => destruct (Z.leb_spec a b)
  | H : context [?a =? ?b] |- _ => destruct (Z.eqb_spec a b)
  | |- context [?a <? ?b] => destruct (Z.ltb_spec a b)
  | |- context [?a <=? ?b] => destruct (Z.leb_spec a b)
  | |- context [?a =? ?b] => destruct (Z.eqb_spec a b)
  end.

(** Splits every [match] or [if] of a hypothesis or the goal, clearing absurd branches. *)
Ltac split_matches :=
  repeat (case_match; simplify_eq/=; try done).

(** ** Integers *)

Lemma u64_small z : in_u64 z -> u64 z = z.
Proof. apply Z.mod_small. Qed.

Lemma u64_range z : in_u64 (u64 z).
Proof. unfold in_u64, u64. apply Z.mod_pos_bound. lia. Qed.

Lemma u64_add_idemp a b : u64 (u64 a + b) = u64 (a + b).
Proof. unfold u64. by rewrite Zplus_mod_idemp_l. Qed.

Lemma u64_sub_idemp a b : u64 (u64 a - b) = u64 (a - b).
Proof. unfold u64. by rewrite Zminus_mod_idemp_l. Qed.

Lemma i64_small z : in_i64 z -> i64 z = z.
Proof. unfold in_i64, i64. intros. rewrite Z.mod_small; lia. Qed.

#[export] Hint Resolve u64_range : proxyd.

(** ** Time *)

Lemma time_Round_mono t1 t2 d : t1 <= t2 -> time_Round t1 d <= time_Round t2 d.
Proof.
  intros H. unfold time_Round. destruct (Z.leb_spec d 0); [lia|].
  pose proof (Z.div_mod t1 d). pose proof (Z.div_mod t2 d).
  pose proof (Z.mod_pos_bound t1 d). pose proof (Z.mod_pos_bound t2 d).
  destruct (Z.ltb_spec (t1 mod d + t1 mod d) d), (Z.ltb_spec (t2 mod d + t2 mod d) d);
    destruct (Z.eq_dec (t1 / d) (t2 / d)) as [E|E];
    try (rewrite E in *; lia);
    assert (t1 / d <= t2 / d) by (apply Z.div_le_mono; lia); nia.
Qed.

Lemma time_Round_nearest t d : 0 < d -> Z.abs (time_Round t d - t) * 2 <= d.
Proof.
  intros. unfold time_Round. pose proof (Z.mod_pos_bound t d). bool_to_prop; lia.
Qed.

(** ** Lists *)

Lemma elem_of_select {A} (p : A -> bool) l x : x ∈ select p l <-> p x = true /\ x ∈ l.
Proof.
  induction l as [|y l IH]; simpl; [set_solver|].
  destruct (p y) eqn:E; rewrite ?elem_of_cons, IH; split;
    [intros [->|[? ?]] | intros [? [->|?]] | intros [? ?] | intros [? [->|?]]]; auto; congruence.
Qed.

Lemma select_app {A} (p : A -> bool) l1 l2 : select p (l1 ++ l2) = select p l1 ++ select p l2.
Proof. induction l1 as [|x l1 IH]; simpl; [done|]. destruct (p x); simpl; by rewrite IH. Qed.

Lemma select_ext_in {A} (p q : A -> bool) l :
  (forall x, x ∈ l -> p x = q x) -> select p l = select q l.
Proof.
  induction l as [|x l IH]; simpl; intros H; [done|].
  rewrite (H x) by set_solver. rewrite IH; [done|]. set_solver.
Qed.

Lemma select_nil {A} (p : A -> bool) l : (forall x, x ∈ l -> p x = false) -> select p l = [].
Proof.
  induction l as [|x l IH]; simpl; intros H; [done|].
  rewrite (H x) by set_solver. apply IH. set_solver.
Qed.

Lemma length_select {A} (p : A -> bool) l : (length (select p l) <= length l)%nat.
Proof. induction l as [|x l IH]; simpl; [lia|]. destruct (p x); simpl; lia. Qed.

Lemma qsum_app {A} (f : A -> Q) l1 l2 : (qsum f (l1 ++ l2) == qsum f l1 + qsum f l2)%Q.
Proof. induction l1 as [|x l1 IH]; simpl; [lra|]. rewrite IH. lra. Qed.

Lemma zsum_app {A} (f : A -> Z) l1 l2 : zsum f (l1 ++ l2) = zsum f l1 + zsum f l2.
Proof. induction l1 as [|x l1 IH]; simpl; lia. Qed.

Lemma qsum_ext_in {A} (f g : A -> Q) l :
  (forall x, x ∈ l -> (f x == g x)%Q) -> (qsum f l == qsum g l)%Q.
Proof.
  induction l as [|x l IH]; simpl; intros H; [lra|].
  rewrite (H x) by set_solver. rewrite IH; [lra|]. set_solver.
Qed.

Lemma zsum_ext_in {A} (f g : A -> Z) l :
  (forall x, x ∈ l -> f x = g x) -> zsum f l = zsum g l.
Proof.
  induction l as [|x l IH]; simpl; intros H; [done|].
  rewrite (H x) by set_solver. rewrite IH; [done|]. set_solver.
Qed.

(** Summing each class of a partition sums the whole selection. *)
Lemma qsum_classes {A} (f : A -> Q) (r : A -> Z) (ks : list Z) (l : list A) :
  NoDup ks ->
  (qsum (fun k => qsum f (select (fun x => r x =? k) l)) ks
   == qsum f (select (fun x => bool_decide (r x ∈ ks)) l))%Q.
Proof.
  induction l as [|x l IH]; intros Hnd.
  - simpl. clear Hnd. induction ks; simpl; [lra|]. rewrite IHks. lra.
  - simpl. destruct (decide (r x ∈ ks)) as [Hin|Hin].
    + rewrite bool_decide_eq_true_2 by done. simpl. rewrite <- IH by done. clear IH.
      induction Hnd as [|k ks Hk Hnd IHk]; [set_solver|]. simpl.
      apply elem_of_cons in Hin as [<-|Hin].
      * rewrite Z.eqb_refl. simpl.
        rewrite (qsum_ext_in _ (fun k => qsum f (select (fun x0 => r x0 =? k) l)) ks); [lra|].
        intros k' Hk'. destruct (Z.eqb_spec (r x) k'); [set_solver|lra].
      * rewrite IHk by done. destruct (Z.eqb_spec (r x) k); [set_solver|lra].
    + rewrite bool_decide_eq_false_2 by done. rewrite <- IH by done.
      apply qsum_ext_in. intros k Hk. destruct (Z.eqb_spec (r x) k); [set_solver|lra].
Qed.

Lemma zsum_classes {A} (f : A -> Z) (r : A -> Z) (ks : list Z) (l : list A) :
  NoDup ks ->
  zsum (fun k => zsum f (select (fun x => r x =? k) l)) ks
  = zsum f (select (fun x => bool_decide (r x ∈ ks)) l).
Proof.
  induction l as [|x l IH]; intros Hnd.
  - simpl. clear Hnd. induction ks; simpl; lia.
  - simpl. destruct (decide (r x ∈ ks)) as [Hin|Hin].
    + rewrite bool_decide_eq_true_2 by done. simpl. rewrite <- IH by done. clear IH.
      induction Hnd as [|k ks Hk Hnd IHk]; [set_solver|]. simpl.
      apply elem_of_cons in Hin as [<-|Hin].
      * rewrite Z.eqb_refl. simpl.
        rewrite (zsum_ext_in _ (fun k => zsum f (select (fun x0 => r x0 =? k) l)) ks); [lia|].
        intros k' Hk'. destruct (Z.eqb_spec (r x) k'); [set_solver|lia].
      * rewrite IHk by done. destruct (Z.eqb_spec (r x) k); [set_solver|lia].
    + rewrite bool_decide_eq_false_2 by done. rewrite <- IH by done.
      apply zsum_ext_in. intros k Hk. destruct (Z.eqb_spec (r x) k); [set_solver|lia].
Qed.

(** Changing the summed function at one element of a duplicate-free list. *)
Lemma qsum_update (f g : Z -> Q) k l :
  NoDup l -> k ∈ l -> (forall x, x ∈ l -> x <> k -> f x = g x) ->
  (qsum f l == qsum g l - g k + f k)%Q.
Proof.
  induction 1 as [|x l Hx Hnd IH]; intros Hk H; [set_solver|]. simpl.
  destruct (decide (x = k)) as [->|Hne].
  - rewrite (qsum_ext_in f g l); [lra|]. intros y Hy. rewrite H; [lra|set_solver|set_solver].
  - rewrite IH by set_solver. rewrite (H x) by set_solver. lra.
Qed.

Lemma zsum_update (f g : Z -> Z) k l :
  NoDup l -> k ∈ l -> (forall x, x ∈ l -> x <> k -> f x = g x) ->
  zsum f l = zsum g l - g k + f k.
Proof.
  induction 1 as [|x l Hx Hnd IH]; intros Hk H; [set_solver|]. simpl.
  destruct (decide (x = k)) as [->|Hne].
  - rewrite (zsum_ext_in f g l); [lia|]. intros y Hy. apply H; set_solver.
  - rewrite IH by set_solver. rewrite (H x) by set_solver. lia.
Qed.

Lemma u64_zsum_idemp {A} (f g : A -> Z) l :
  (forall x, x ∈ l -> f x = u64 (g x)) -> u64 (zsum f l) = u64 (zsum g l).
Proof.
  induction l as [|x l IH]; simpl; intros H; [done|].
  rewrite (H x) by set_solver. rewrite u64_add_idemp.
  rewrite !(Z.add_comm (g x)), <- (u64_add_idemp (zsum f l)), IH, u64_add_idemp by set_solver.
  done.
Qed.

Lemma zsum_const_length {A} (l : list A) : zsum (fun _ => 1) l = Z.of_nat (length l).
Proof. induction l; simpl; lia. Qed.

Lemma select_neq_notin (k : Z) l : k ∉ l -> select (fun k' => negb (k' =? k)) l = l.
Proof.
  induction l as [|x l IH]; simpl; intros H; [done|].
  destruct (Z.eqb_spec x k); [set_solver|]. simpl. rewrite IH; set_solver.
Qed.

Lemma StronglySorted_lt_app_inv (l1 l2 : list Z) :
  StronglySorted Z.lt (l1 ++ l2) -> StronglySorted Z.lt l2.
Proof. induction l1 as [|x l1 IH]; simpl; [done|]. inversion 1; auto. Qed.

Lemma StronglySorted_lt_snoc (l : list Z) k :
  StronglySorted Z.lt l -> (forall x, x ∈ l -> x < k) -> StronglySorted Z.lt (l ++ [k]).
Proof.
  induction 1 as [|x l Hs IH Hx]; simpl; intros H; [repeat constructor|].
  constructor; [apply IH; set_solver|].
  apply Forall_app; split; [done|]. constructor; [apply H; set_solver|constructor].
Qed.

#[global] Instance qsum_proper {A} :
  Proper (pointwise_relation A Qeq ==> eq ==> Qeq) (@qsum A).
Proof. intros f g Hfg l ? <-. apply qsum_ext_in. intros; apply Hfg. Qed.

(** ** Sublists, searches and positions modulo a length *)

Lemma sublist_full {A} (l k : list A) : l `sublist_of` k -> (length k <= length l)%nat -> l = k.
Proof.
  induction 1 as [|x l k H IH|x l k H IH]; cbn; intros Hl; [done|by rewrite IH by lia|].
  apply sublist_length in H. lia.
Qed.

Lemma map_lookup_seq {A} (l : list (option A)) : map (fun i => default None (l !! i)) (seq 0 (length l)) = l.
Proof.
  apply list_eq. intros i. destruct (decide (i < length l)%nat) as [Hi|Hi].
  - destruct (lookup_lt_is_Some_2 l i Hi) as [x Hx]. rewrite Hx, list_lookup_fmap, (lookup_seq_lt 0 (length l) i Hi). cbn. by rewrite Hx.
  - by rewrite !lookup_ge_None_2 by (rewrite ?length_map, ?length_seq; lia).
Qed.

Lemma succ_mod a n : (0 < n)%nat -> (S (a mod n) mod n = S a mod n)%nat.
Proof. intros Hn. rewrite <- (Nat.add_1_r (a mod n)), <- (Nat.add_1_r a). by rewrite Nat.Div0.add_mod_idemp_l. Qed.

Lemma mod_distinct a j k n : (k < j < n)%nat -> ((a + j) mod n <> (a + k) mod n)%nat.
Proof.
  intros H E. assert (Hj := Nat.div_mod_eq (a + j) n). assert (Hk := Nat.div_mod_eq (a + k) n). rewrite E in Hj.
  assert (Hd : (n * ((a + j) / n) = n * ((a + k) / n) + (j - k))%nat) by lia.
  assert (((a + j) / n <= (a + k) / n)%nat \/ ((a + k) / n + 1 <= (a + j) / n)%nat) as [Hle|Hle] by lia; nia.
Qed.

Lemma list_find_none {A} (P : A -> Prop) `{!forall x, Decision (P x)} l : list_find P l = None -> forall x, x ∈ l -> ~ P x.
Proof. intros Hf x Hx Hp. destruct (list_find_elem_of P l x Hx Hp) as [r Hr]. congruence. Qed.
