(* ===== verification/SlidingWindow.v ===== *)
(** * The moving-average window (src/pkg/avg-sliding-window/sliding.go)

    [AvgSlidingWindow] keeps data points in buckets of [bucketSize], in an insertion-ordered map
    from the rounded time of a bucket to its sum and count, together with the running total of all
    buckets.  Every operation of the Go type is a definition here; the clock readings an operation
    makes are its arguments, in the order in which the code reads the clock.

    The bucket map is the third-party [linkedhashmap] of emirpasic/gods: it is the parameter [M]
    with the operations of [LinkedHashMap], and [LinkedHashMapLaws] states what its documentation
    promises (a hash map that iterates in insertion order).  A [float64] is an exact rational: the
    data points of the program are the constant 1 and whole numbers of nanoseconds.  The counters
    are [uint], with their wrap-around.

    Shown: the running totals always agree with the buckets (whatever times are inserted); with a
    clock that does not run backwards the window refines the list of all data points filtered by
    their rounded time; [Clear] does not restore the agreement. *)

From S2P Require Import Prelude.

Record bucket : Type := Bucket { b_sum : Q; b_qty : Z }.

Class LinkedHashMap (M : Type) : Type := {
  lm_New : M;
  lm_Get : M -> Z -> option bucket;
  lm_Put : M -> Z -> bucket -> M;
  lm_Remove : M -> Z -> M;
  lm_Keys : M -> list Z;
  lm_Size : M -> Z;
}.

Class LinkedHashMapLaws (M : Type) `{!LinkedHashMap M} : Prop := {
  lm_Keys_New : lm_Keys lm_New = [];
  lm_Keys_NoDup m : NoDup (lm_Keys m);
  lm_Get_Keys m k : is_Some (lm_Get m k) <-> k ∈ lm_Keys m;
  lm_Keys_Put m k b :
    lm_Keys (lm_Put m k b) = if bool_decide (k ∈ lm_Keys m) then lm_Keys m else lm_Keys m ++ [k];
  lm_Get_Put m k b k' :
    lm_Get (lm_Put m k b) k' = if bool_decide (k = k') then Some b else lm_Get m k';
  lm_Keys_Remove m k : lm_Keys (lm_Remove m k) = select (fun k' => negb (k' =? k)) (lm_Keys m);
  lm_Get_Remove m k k' :
    lm_Get (lm_Remove m k) k' = if bool_decide (k = k') then None else lm_Get m k';
  lm_Size_Keys m : lm_Size m = Z.of_nat (length (lm_Keys m));
}.

Record AvgSlidingWindow (M : Type) : Type := Window {
  bucketSize : Z;
  windowLength : Z;
  buckets : M;
  w_qty : Z;
  w_sum : Q;
}.
Arguments Window {M}.
Arguments bucketSize {M}.
Arguments windowLength {M}.
Arguments buckets {M}.
Arguments w_qty {M}.
Arguments w_sum {M}.

Section Operations.
Context {M : Type} `{!LinkedHashMap M}.
Implicit Types (sw : AvgSlidingWindow M).

Definition with_totals sw (m : M) (q : Z) (s : Q) : AvgSlidingWindow M :=
  Window (bucketSize sw) (windowLength sw) m q s.

(** The functional options of the constructor. *)
Definition WithWindowLength (d : Z) sw : AvgSlidingWindow M :=
  Window (bucketSize sw) d (buckets sw) (w_qty sw) (w_sum sw).

Definition WithBucketSize (d : Z) sw : AvgSlidingWindow M :=
  Window d (windowLength sw) (buckets sw) (w_qty sw) (w_sum sw).

Definition NewSlidingWindow (opts : list (AvgSlidingWindow M -> AvgSlidingWindow M)) :
    AvgSlidingWindow M :=
  let sw := foldl (fun sw opt => opt sw) (Window 0 0 lm_New 0 0%Q) opts in
  let sw := if bucketSize sw =? 0 then WithBucketSize Second sw else sw in
  if windowLength sw =? 0 then WithWindowLength (5 * Minute) sw else sw.

Definition inWindow sw (clock : Z) (t : Z) : bool :=
  let now := time_Round clock (bucketSize sw) in
  let windowStart := now - windowLength sw in
  (windowStart <? t) && negb (now <? t).

(** The loop of [advance] over the keys that were in the map when it started. *)
Fixpoint evict (windowStart : Z) (keys : list Z) sw : outcome (AvgSlidingWindow M) :=
  match keys with
  | [] => Returns sw
  | k :: keys' =>
      if windowStart <? k then Returns sw
      else
        match lm_Get (buckets sw) k with
        | None => Panics "interface conversion: interface is nil, not *bucket"
        | Some b =>
            let m := lm_Remove (buckets sw) k in
            if 0 <? lm_Size m
            then evict windowStart keys'
                   (with_totals sw m (u64 (w_qty sw - b_qty b)) (w_sum sw - b_sum b)%Q)
            else evict windowStart keys' (with_totals sw m 0 0%Q)
        end
  end.

Definition advance sw (clock : Z) : outcome (AvgSlidingWindow M) :=
  let now := time_Round clock (bucketSize sw) in
  let windowStart := now - windowLength sw in
  evict windowStart (lm_Keys (buckets sw)) sw.

(** [clock1] is read by [advance], [clock2] by [inWindow]. *)
Definition AddWithTime sw (clock1 clock2 : Z) (t : Z) (val : Q) : outcome (AvgSlidingWindow M) :=
  let! sw := advance sw clock1 in
  let key := time_Round t (bucketSize sw) in
  if negb (inWindow sw clock2 key) then Returns sw
  else
    let b := match lm_Get (buckets sw) key with Some b => b | None => Bucket 0%Q 0 end in
    let bsum := b_sum b in
    let b := Bucket (bsum + val)%Q (u64 (b_qty b + 1)) in
    let wsum := w_sum sw in
    Returns (with_totals sw (lm_Put (buckets sw) key b)
               (u64 (w_qty sw + 1)) (wsum - bsum + b_sum b)%Q).

Definition Add sw (clock0 clock1 clock2 : Z) (val : Q) : outcome (AvgSlidingWindow M) :=
  AddWithTime sw clock1 clock2 clock0 val.

Definition Incr sw (clock0 clock1 clock2 : Z) : outcome (AvgSlidingWindow M) :=
  Add sw clock0 clock1 clock2 1%Q.

Definition Avg sw (clock : Z) : outcome (AvgSlidingWindow M * Q) :=
  let! sw := advance sw clock in
  Returns (sw, if w_qty sw =? 0 then 0%Q else (w_sum sw / inject_Z (w_qty sw))%Q).

Definition Sum sw (clock : Z) : outcome (AvgSlidingWindow M * Q) :=
  let! sw := advance sw clock in Returns (sw, w_sum sw).

Definition Count sw (clock : Z) : outcome (AvgSlidingWindow M * Z) :=
  let! sw := advance sw clock in Returns (sw, w_qty sw).

Definition Clear sw : AvgSlidingWindow M := with_totals sw (buckets sw) 0 0%Q.

(** ** The invariant: the running totals are those of the buckets *)

Definition bucket_sum (m : M) (k : Z) : Q :=
  match lm_Get m k with Some b => b_sum b | None => 0%Q end.

Definition bucket_qty (m : M) (k : Z) : Z :=
  match lm_Get m k with Some b => b_qty b | None => 0 end.

Record totals_agree sw : Prop := {
  ta_sum : (w_sum sw == qsum (bucket_sum (buckets sw)) (lm_Keys (buckets sw)))%Q;
  ta_qty : w_qty sw = u64 (zsum (bucket_qty (buckets sw)) (lm_Keys (buckets sw)));
}.

Definition valid_opts (opts : list (AvgSlidingWindow M -> AvgSlidingWindow M)) : Prop :=
  forall opt, opt ∈ opts ->
    (exists d, opt = WithWindowLength d) \/ (exists d, opt = WithBucketSize d).

(** Every window the program can build: any options, then any insertions and reads with any clock
    readings and any data-point times. *)
Inductive window_reachable : AvgSlidingWindow M -> Prop :=
| wr_new opts :
    valid_opts opts -> window_reachable (NewSlidingWindow opts)
| wr_add sw c1 c2 t v sw' :
    window_reachable sw -> AddWithTime sw c1 c2 t v = Returns sw' -> window_reachable sw'
| wr_read sw c sw' :
    window_reachable sw -> advance sw c = Returns sw' -> window_reachable sw'.

(** ** The abstract window: the list of every data point ever added, oldest first *)

Definition point_key (bs : Z) (p : Z * Q) : Z := time_Round p.1 bs.

Definition live sw (clock : Z) (p : Z * Q) : bool :=
  time_Round clock (bucketSize sw) - windowLength sw <? point_key (bucketSize sw) p.

Definition spec_Sum sw (clock : Z) (pts : list (Z * Q)) : Q := qsum snd (select (live sw clock) pts).

Definition spec_Count sw (clock : Z) (pts : list (Z * Q)) : Z :=
  u64 (Z.of_nat (length (select (live sw clock) pts))).

(** Runs of [Add]/[Incr] and reads whose clock readings never decrease; [last] is the latest. *)
Inductive monotone_run (sw0 : AvgSlidingWindow M) :
    AvgSlidingWindow M -> Z -> list (Z * Q) -> Prop :=
| mr_start last : monotone_run sw0 sw0 last []
| mr_add sw last pts c0 c1 c2 v sw' :
    monotone_run sw0 sw last pts -> last <= c0 <= c1 -> c1 <= c2 ->
    Add sw c0 c1 c2 v = Returns sw' ->
    monotone_run sw0 sw' c2 (pts ++ [(c0, v)])
| mr_read sw last pts c sw' :
    monotone_run sw0 sw last pts -> last <= c ->
    advance sw c = Returns sw' ->
    monotone_run sw0 sw' c pts.

End Operations.

(** ** Lemmas *)

Section Lemmas.
Context {M : Type} `{!LinkedHashMap M} `{!LinkedHashMapLaws M}.
Implicit Types (sw : AvgSlidingWindow M).

Definition same_config sw sw' : Prop :=
  bucketSize sw' = bucketSize sw /\ windowLength sw' = windowLength sw.

Lemma lm_Get_None m k : k ∉ lm_Keys m -> lm_Get m k = None.
Proof. intros H. apply eq_None_not_Some. by rewrite lm_Get_Keys. Qed.

Lemma lm_Keys_Remove_head m k ks : lm_Keys m = k :: ks -> lm_Keys (lm_Remove m k) = ks.
Proof.
  intros E. rewrite lm_Keys_Remove, E. simpl. rewrite Z.eqb_refl. simpl.
  apply select_neq_notin. pose proof (lm_Keys_NoDup m) as H. rewrite E in H. by inversion H.
Qed.

Lemma bucket_Remove_ne m k k' :
  k <> k' -> lm_Get (lm_Remove m k) k' = lm_Get m k'.
Proof. intros. rewrite lm_Get_Remove. by rewrite bool_decide_eq_false_2. Qed.

Lemma bucket_sums_ext m m' ks :
  (forall k, k ∈ ks -> lm_Get m' k = lm_Get m k) ->
  (qsum (bucket_sum m') ks == qsum (bucket_sum m) ks)%Q
  /\ zsum (bucket_qty m') ks = zsum (bucket_qty m) ks.
Proof.
  intros H. split; [apply qsum_ext_in | apply zsum_ext_in]; intros k Hk;
    unfold bucket_sum, bucket_qty; by rewrite H.
Qed.

(** One eviction keeps the totals in agreement with the remaining buckets. *)
Lemma evict_one sw k ks b :
  totals_agree sw -> lm_Keys (buckets sw) = k :: ks -> lm_Get (buckets sw) k = Some b ->
  let m := lm_Remove (buckets sw) k in
  totals_agree (if 0 <? lm_Size m
                then with_totals sw m (u64 (w_qty sw - b_qty b)) (w_sum sw - b_sum b)%Q
                else with_totals sw m 0 0%Q).
Proof.
  intros [Hs Hq] Hk Hb m. pose proof (lm_Keys_Remove_head _ _ _ Hk) as Hm.
  assert (k ∉ ks) as Hn.
  { pose proof (lm_Keys_NoDup (buckets sw)) as H. rewrite Hk in H. by inversion H. }
  destruct (bucket_sums_ext (buckets sw) m ks) as [Es Eq].
  { intros k' Hk'. apply bucket_Remove_ne. set_solver. }
  rewrite Hk in Hs, Hq. simpl in Hs, Hq.
  unfold bucket_sum at 1 in Hs. unfold bucket_qty at 1 in Hq. rewrite Hb in Hs, Hq.
  destruct (Z.ltb_spec 0 (lm_Size m)) as [Hz|Hz]; fold m in Hm; rewrite lm_Size_Keys, Hm in Hz;
    split; simpl; rewrite Hm, ?Es, ?Eq.
  - rewrite Hs. lra.
  - rewrite Hq, u64_sub_idemp. f_equal. lia.
  - destruct ks; simpl in *; [lra|lia].
  - destruct ks; simpl in *; [done|lia].
Qed.

Lemma evict_spec ws keys sw :
  totals_agree sw -> lm_Keys (buckets sw) = keys ->
  exists sw' gone,
    evict ws keys sw = Returns sw' /\ totals_agree sw' /\ same_config sw sw'
    /\ keys = gone ++ lm_Keys (buckets sw') /\ (forall k, k ∈ gone -> k <= ws)
    /\ (forall k ks, lm_Keys (buckets sw') = k :: ks -> ws < k)
    /\ (forall k, k ∈ lm_Keys (buckets sw') -> lm_Get (buckets sw') k = lm_Get (buckets sw) k).
Proof.
  revert sw. induction keys as [|k ks IH]; intros sw Ha Hk; simpl.
  - exists sw, []. rewrite Hk. split_and!; try done; set_solver.
  - destruct (Z.ltb_spec ws k).
    { exists sw, []. rewrite Hk. split_and!; try done; [set_solver|by intros ?? [= <- <-]]. }
    destruct (lm_Get_Keys (buckets sw) k) as [_ [b Hb]]; [rewrite Hk; set_solver|].
    rewrite Hb. pose proof (evict_one _ _ _ _ Ha Hk Hb) as Ha'. simpl in Ha'.
    pose proof (lm_Keys_Remove_head _ _ _ Hk) as Hm.
    pose proof (lm_Keys_NoDup (buckets sw)) as Hnd. rewrite Hk in Hnd.
    apply NoDup_cons in Hnd as [Hnk _].
    destruct (0 <? lm_Size _);
      destruct (IH _ Ha' Hm) as (sw' & gone & He & Hta & Hc & Hks & Hg & Hh & Hget);
      exists sw', (k :: gone); split_and!; try done;
      try (intros k' [->|?]%elem_of_cons; auto);
      try (simpl; by f_equal);
      intros k' Hk'; rewrite (Hget k' Hk'); simpl; apply bucket_Remove_ne;
      intros ->; apply Hnk; rewrite Hks; set_solver.
Qed.

Lemma advance_spec sw clock :
  totals_agree sw ->
  exists sw' gone,
    advance sw clock = Returns sw' /\ totals_agree sw' /\ same_config sw sw'
    /\ lm_Keys (buckets sw) = gone ++ lm_Keys (buckets sw')
    /\ (forall k, k ∈ gone -> k <= time_Round clock (bucketSize sw) - windowLength sw)
    /\ (forall k ks, lm_Keys (buckets sw') = k :: ks ->
          time_Round clock (bucketSize sw) - windowLength sw < k)
    /\ (forall k, k ∈ lm_Keys (buckets sw') -> lm_Get (buckets sw') k = lm_Get (buckets sw) k).
Proof. intros. by apply evict_spec. Qed.

Lemma bucket_Put m k b k' :
  bucket_sum (lm_Put m k b) k' = (if bool_decide (k = k') then b_sum b else bucket_sum m k')
  /\ bucket_qty (lm_Put m k b) k' = (if bool_decide (k = k') then b_qty b else bucket_qty m k').
Proof. unfold bucket_sum, bucket_qty. rewrite lm_Get_Put. by case_bool_decide. Qed.

Lemma put_totals m k b :
  (qsum (bucket_sum (lm_Put m k b)) (lm_Keys (lm_Put m k b))
   == qsum (bucket_sum m) (lm_Keys m) - bucket_sum m k + b_sum b)%Q
  /\ zsum (bucket_qty (lm_Put m k b)) (lm_Keys (lm_Put m k b))
     = zsum (bucket_qty m) (lm_Keys m) - bucket_qty m k + b_qty b.
Proof.
  assert (bucket_sum (lm_Put m k b) k = b_sum b /\ bucket_qty (lm_Put m k b) k = b_qty b) as [E1 E2].
  { destruct (bucket_Put m k b k) as [-> ->]. by rewrite bool_decide_eq_true_2. }
  assert (forall x, x <> k -> bucket_sum (lm_Put m k b) x = bucket_sum m x
                           /\ bucket_qty (lm_Put m k b) x = bucket_qty m x) as En.
  { intros x Hx. destruct (bucket_Put m k b x) as [-> ->]. by rewrite bool_decide_eq_false_2. }
  rewrite lm_Keys_Put. case_bool_decide as Hk.
  - rewrite <- E1, <- E2. split; [apply qsum_update | apply zsum_update];
      try apply lm_Keys_NoDup; try done; intros; by apply En.
  - assert (bucket_sum m k = 0%Q /\ bucket_qty m k = 0) as [-> ->].
    { unfold bucket_sum, bucket_qty. by rewrite lm_Get_None. }
    rewrite qsum_app, zsum_app. simpl. rewrite E1, E2.
    rewrite (qsum_ext_in _ (bucket_sum m)), (zsum_ext_in _ (bucket_qty m)); [split; [lra|lia]|..];
      intros x Hx; (destruct (En x) as [E3 E4]; [set_solver|]); rewrite ?E3, ?E4; done.
Qed.

Lemma fresh_agree bs wl : totals_agree (Window bs wl lm_New 0 0%Q).
Proof. split; simpl; rewrite lm_Keys_New; simpl; [lra|done]. Qed.

Lemma fold_opts_fresh opts bs0 wl0 :
  valid_opts opts ->
  exists bs wl, foldl (fun (sw : AvgSlidingWindow M) opt => opt sw)
                  (Window bs0 wl0 lm_New 0 0%Q) opts = Window bs wl lm_New 0 0%Q.
Proof.
  revert bs0 wl0. induction opts as [|o opts IH]; intros bs0 wl0 Hv; simpl; [eauto|].
  destruct (Hv o) as [[d ->]|[d ->]]; [set_solver|..]; apply IH; intros ??; apply Hv; set_solver.
Qed.

Lemma NewSlidingWindow_fresh opts :
  valid_opts opts -> exists bs wl, NewSlidingWindow opts = Window bs wl lm_New 0 0%Q.
Proof.
  intros Hv. unfold NewSlidingWindow. destruct (fold_opts_fresh opts 0 0 Hv) as (bs & wl & ->).
  simpl. repeat case_match; unfold WithBucketSize, WithWindowLength; simpl; eauto.
Qed.

Lemma AddWithTime_spec sw c1 c2 t v :
  totals_agree sw ->
  exists sw1 sw', advance sw c1 = Returns sw1 /\ AddWithTime sw c1 c2 t v = Returns sw'
    /\ totals_agree sw' /\ same_config sw sw'
    /\ (if inWindow sw c2 (time_Round t (bucketSize sw))
        then buckets sw' = lm_Put (buckets sw1) (time_Round t (bucketSize sw))
               (Bucket (bucket_sum (buckets sw1) (time_Round t (bucketSize sw)) + v)%Q
                  (u64 (bucket_qty (buckets sw1) (time_Round t (bucketSize sw)) + 1)))
        else sw' = sw1).
Proof.
  intros Ha. destruct (advance_spec sw c1 Ha) as (sw1 & gone & E1 & Ha1 & [Eb Ew] & _).
  exists sw1. unfold AddWithTime. rewrite E1. simpl.
  replace (inWindow sw1 c2) with (inWindow sw c2) by (unfold inWindow; by rewrite Eb, Ew).
  rewrite Eb. set (key := time_Round t (bucketSize sw)).
  destruct (inWindow sw c2 key); simpl; [|eexists; split_and!; try done].
  set (b := match lm_Get (buckets sw1) key with Some b => b | None => Bucket 0%Q 0 end).
  assert (b_sum b = bucket_sum (buckets sw1) key /\ b_qty b = bucket_qty (buckets sw1) key)
    as [Es Eq] by (unfold b, bucket_sum, bucket_qty; by case_match).
  eexists; split_and!; try done; [|simpl; by rewrite Es, Eq].
  destruct (put_totals (buckets sw1) key (Bucket (b_sum b + v)%Q (u64 (b_qty b + 1)))) as [P1 P2].
  destruct Ha1 as [Hs Hq]. split; simpl in *; rewrite ?P1, ?P2, ?Hs, ?Hq; simpl.
  - rewrite Es. lra.
  - rewrite <- Eq, u64_add_idemp, (Z.add_comm _ (u64 (_ + 1))), u64_add_idemp. f_equal. lia.
Qed.

(** ** The window refines the list of its data points *)

Record Rep sw (last : Z) (pts : list (Z * Q)) : Prop := {
  rep_agree : totals_agree sw;
  rep_sorted : StronglySorted Z.lt (lm_Keys (buckets sw));
  rep_upper k : k ∈ lm_Keys (buckets sw) -> k <= time_Round last (bucketSize sw);
  rep_bucket k : k ∈ lm_Keys (buckets sw) ->
    time_Round last (bucketSize sw) - windowLength sw < k ->
    (bucket_sum (buckets sw) k
     == qsum snd (select (fun p => point_key (bucketSize sw) p =? k) pts))%Q
    /\ bucket_qty (buckets sw) k
       = u64 (Z.of_nat (length (select (fun p => point_key (bucketSize sw) p =? k) pts)));
  rep_evicted p : p ∈ pts -> point_key (bucketSize sw) p ∉ lm_Keys (buckets sw) ->
    point_key (bucketSize sw) p <= time_Round last (bucketSize sw) - windowLength sw;
}.

Lemma Rep_start bs wl last : Rep (Window bs wl lm_New 0 0%Q) last [].
Proof.
  split; simpl; rewrite ?lm_Keys_New; [apply fresh_agree|constructor|set_solver..].
Qed.

(** After [advance], the remaining buckets are exactly those inside the window. *)
Lemma Rep_advance sw last pts clock sw' :
  Rep sw last pts -> last <= clock -> advance sw clock = Returns sw' ->
  Rep sw' clock pts
  /\ (forall k, k ∈ lm_Keys (buckets sw') ->
        time_Round clock (bucketSize sw) - windowLength sw < k)
  /\ same_config sw sw'.
Proof.
  intros [Ha Hs Hu Hb He] Hle Hadv.
  destruct (advance_spec sw clock Ha) as (sw'' & gone & E & Ha' & [Eb Ew] & Hks & Hg & Hh & Hget).
  rewrite E in Hadv. injection Hadv as ->. rewrite Hks in Hs. pose proof (StronglySorted_lt_app_inv _ _ Hs) as Hs'.
  pose proof (time_Round_mono last clock (bucketSize sw) Hle).
  assert (forall k, k ∈ lm_Keys (buckets sw') ->
            time_Round clock (bucketSize sw) - windowLength sw < k) as Hin.
  { intros k Hk. destruct (lm_Keys (buckets sw')) as [|k0 ks] eqn:Ek; [set_solver|].
    specialize (Hh k0 ks eq_refl). apply elem_of_cons in Hk as [->|Hk]; [done|].
    inversion Hs' as [|??? Hall]; subst. rewrite Forall_forall in Hall.
    specialize (Hall k Hk). lia. }
  split_and!; [|done..]. split; rewrite ?Eb, ?Ew; [done|done|..].
  - intros k Hk. transitivity (time_Round last (bucketSize sw)); [|done].
    apply Hu. rewrite Hks. set_solver.
  - intros k Hk Hlive. unfold bucket_sum, bucket_qty. rewrite Hget by done.
    apply Hb; [rewrite Hks; set_solver|lia].
  - intros p Hp Hn. destruct (decide (point_key (bucketSize sw) p ∈ gone)) as [Hg'|Hg'].
    + by apply Hg.
    + transitivity (time_Round last (bucketSize sw) - windowLength sw); [|lia].
      apply He; [done|]. rewrite Hks. set_solver.
Qed.

Lemma select_snoc_key bs pts (q : Z * Q) k :
  select (fun p => point_key bs p =? k) (pts ++ [q])
  = select (fun p => point_key bs p =? k) pts ++ (if point_key bs q =? k then [q] else []).
Proof. rewrite select_app. simpl. by destruct (point_key bs q =? k). Qed.

(** A bucket that is new to the map starts from no live data point. *)
Lemma Rep_new_bucket sw last pts k :
  Rep sw last pts -> k ∉ lm_Keys (buckets sw) ->
  time_Round last (bucketSize sw) - windowLength sw < k ->
  select (fun p => point_key (bucketSize sw) p =? k) pts = [].
Proof.
  intros HR Hk Hlt. apply select_nil. intros p Hp.
  destruct (Z.eqb_spec (point_key (bucketSize sw) p) k) as [<-|]; [|done].
  pose proof (rep_evicted _ _ _ HR p Hp Hk). lia.
Qed.

Lemma Rep_put sw c1 c2 pts t v m q s :
  let key := time_Round t (bucketSize sw) in
  Rep sw c1 pts -> t <= c1 <= c2 ->
  time_Round c2 (bucketSize sw) - windowLength sw < key ->
  (forall k, k ∈ lm_Keys (buckets sw) -> k <= key) ->
  m = lm_Put (buckets sw) key
        (Bucket (bucket_sum (buckets sw) key + v)%Q (u64 (bucket_qty (buckets sw) key + 1))) ->
  totals_agree (with_totals sw m q s) ->
  Rep (with_totals sw m q s) c2 (pts ++ [(t, v)]).
Proof.
  intros key HR Hle Hwin Hmax -> Ha.
  pose proof (time_Round_mono c1 c2 (bucketSize sw) ltac:(lia)) as Hm1.
  pose proof (time_Round_mono t c1 (bucketSize sw) ltac:(lia)) as Hm0. fold key in Hm0.
  split; simpl; [done|..].
  - rewrite lm_Keys_Put. case_bool_decide as Hk; [apply HR|].
    apply StronglySorted_lt_snoc; [apply HR|]. intros x Hx. specialize (Hmax x Hx).
    assert (x <> key) by set_solver. lia.
  - intros k Hk. rewrite lm_Keys_Put in Hk. case_bool_decide; [specialize (Hmax k Hk); lia|].
    apply elem_of_app in Hk as [Hk| ->%list_elem_of_singleton]; [specialize (Hmax k Hk)|]; lia.
  - intros k Hk Hlive. rewrite select_snoc_key. change (point_key (bucketSize sw) (t, v)) with key.
    match goal with |- context [lm_Put ?m ?k0 ?b] => destruct (bucket_Put m k0 b k) as [-> ->] end.
    case_bool_decide as Hkk.
    + subst k. rewrite Z.eqb_refl, qsum_app, length_app. simpl.
      destruct (decide (key ∈ lm_Keys (buckets sw))) as [Hin|Hin].
      * destruct (rep_bucket _ _ _ HR key Hin) as [-> ->]; [lia|]. split; [lra|].
        rewrite u64_add_idemp. f_equal. lia.
      * rewrite (Rep_new_bucket _ _ _ key HR Hin) by lia. unfold bucket_sum, bucket_qty.
        rewrite lm_Get_None by done. simpl. split; [lra|done].
    + rewrite (proj2 (Z.eqb_neq key k)) by done. rewrite app_nil_r.
      apply (rep_bucket _ _ _ HR); [|lia]. rewrite lm_Keys_Put in Hk.
      case_bool_decide; [done|]. set_solver.
  - intros p Hp Hn. rewrite lm_Keys_Put in Hn.
    apply elem_of_app in Hp as [Hp| ->%list_elem_of_singleton].
    + transitivity (time_Round c1 (bucketSize sw) - windowLength sw); [|lia].
      apply (rep_evicted _ _ _ HR); [done|]. case_bool_decide; set_solver.
    + exfalso. change (point_key (bucketSize sw) (t, v)) with key in Hn.
      case_bool_decide; set_solver.
Qed.

(** A data point already outside the window when it arrives changes nothing that is live. *)
Lemma Rep_drop sw c1 c2 pts t v :
  Rep sw c1 pts -> c1 <= c2 ->
  time_Round t (bucketSize sw) <= time_Round c2 (bucketSize sw) - windowLength sw ->
  Rep sw c2 (pts ++ [(t, v)]).
Proof.
  intros HR Hle Hd. pose proof (time_Round_mono c1 c2 (bucketSize sw) Hle).
  split; [apply HR|apply HR|..].
  - intros k Hk. pose proof (rep_upper _ _ _ HR k Hk). lia.
  - intros k Hk Hlive. rewrite select_snoc_key.
    change (point_key (bucketSize sw) (t, v)) with (time_Round t (bucketSize sw)).
    rewrite (proj2 (Z.eqb_neq (time_Round t (bucketSize sw)) k)) by lia. rewrite app_nil_r. apply (rep_bucket _ _ _ HR); [done|lia].
  - intros p Hp Hn. apply elem_of_app in Hp as [Hp| ->%list_elem_of_singleton]; [|done].
    pose proof (rep_evicted _ _ _ HR p Hp Hn). lia.
Qed.

Lemma Rep_add sw last pts c0 c1 c2 v sw' :
  Rep sw last pts -> last <= c0 <= c1 -> c1 <= c2 -> Add sw c0 c1 c2 v = Returns sw' ->
  Rep sw' c2 (pts ++ [(c0, v)]) /\ same_config sw sw'.
Proof.
  intros HR Hle1 Hle2 Hadd. unfold Add in Hadd.
  destruct (AddWithTime_spec sw c1 c2 c0 v (rep_agree _ _ _ HR))
    as (sw1 & sw2 & Hadv & Hadd' & Ha' & [Eb Ew] & Hcase).
  rewrite Hadd' in Hadd. injection Hadd as ->. split; [|done].
  destruct (Rep_advance sw last pts c1 sw1 HR ltac:(lia) Hadv) as (HR1 & Hlive1 & [Eb1 Ew1]).
  destruct (advance_spec sw c1 (rep_agree _ _ _ HR)) as (sw1' & gone & E & _ & _ & Hks & _).
  rewrite Hadv in E. injection E as <-.
  pose proof (time_Round_mono last c0 (bucketSize sw) ltac:(lia)) as Hm0.
  pose proof (time_Round_mono c0 c2 (bucketSize sw) ltac:(lia)) as Hm2.
  destruct (inWindow sw c2 (time_Round c0 (bucketSize sw))) eqn:Hw; unfold inWindow in Hw.
  - apply andb_true_iff in Hw as [Hw _]. apply Z.ltb_lt in Hw.
    destruct sw' as [bs wl m q s]. simpl in *.
    replace (Window bs wl m q s) with (with_totals sw1 m q s) in * by
      (unfold with_totals; congruence).
    eapply Rep_put; try done; rewrite ?Eb1, ?Ew1; try lia; try done.
    intros k Hk. etransitivity; [apply (rep_upper _ _ _ HR)|done]. rewrite Hks. set_solver.
  - subst sw'. apply (Rep_drop _ c1); [done|done|]. rewrite Eb1, Ew1.
    apply andb_false_iff in Hw as [Hw%Z.ltb_ge|Hw]; [lia|].
    apply negb_false_iff, Z.ltb_lt in Hw. lia.
Qed.

Lemma monotone_run_Rep sw0 sw last pts :
  (forall l, Rep sw0 l []) -> monotone_run sw0 sw last pts -> Rep sw last pts.
Proof.
  intros H0. induction 1 as [l|sw last pts c0 c1 c2 v sw' _ IH H1 H2 Ha|sw last pts c sw' _ IH Hl Ha].
  - apply H0.
  - eapply Rep_add in Ha as [? ?]; eauto.
  - eapply Rep_advance in Ha as (? & ? & ?); eauto.
Qed.

(** In a represented window that has just been advanced, the totals are the abstract ones. *)
Lemma Rep_totals sw clock pts :
  Rep sw clock pts ->
  (forall k, k ∈ lm_Keys (buckets sw) -> time_Round clock (bucketSize sw) - windowLength sw < k) ->
  (w_sum sw == spec_Sum sw clock pts)%Q /\ w_qty sw = spec_Count sw clock pts.
Proof.
  intros HR Hlive. destruct (rep_agree _ _ _ HR) as [-> ->].
  assert (select (live sw clock) pts
          = select (fun p => bool_decide (point_key (bucketSize sw) p ∈ lm_Keys (buckets sw))) pts)
    as Esel.
  { apply select_ext_in. intros p Hp. unfold live. symmetry.
    case_bool_decide as Hk; symmetry.
    - apply Z.ltb_lt. by apply Hlive.
    - apply Z.ltb_ge. by apply (rep_evicted _ _ _ HR). }
  unfold spec_Sum, spec_Count. rewrite Esel. split.
  - rewrite <- (qsum_classes snd (point_key (bucketSize sw))) by apply lm_Keys_NoDup.
    apply qsum_ext_in. intros k Hk. by apply (rep_bucket _ _ _ HR); [|apply Hlive].
  - rewrite <- zsum_const_length.
    rewrite <- (zsum_classes (fun _ => 1) (point_key (bucketSize sw))) by apply lm_Keys_NoDup.
    apply u64_zsum_idemp. intros k Hk. rewrite zsum_const_length.
    by apply (rep_bucket _ _ _ HR); [|apply Hlive].
Qed.

Lemma window_reads sw last pts now :
  Rep sw last pts -> last <= now ->
  exists sw', advance sw now = Returns sw' /\ same_config sw sw'
    /\ (w_sum sw' == spec_Sum sw now pts)%Q /\ w_qty sw' = spec_Count sw now pts.
Proof.
  intros HR Hle. destruct (advance_spec sw now (rep_agree _ _ _ HR)) as (sw' & gone & E & _).
  exists sw'. destruct (Rep_advance _ _ _ _ _ HR Hle E) as (HR' & Hlive & [Eb Ew]).
  destruct (Rep_totals sw' now pts HR') as [Hs Hq]; [by rewrite Eb, Ew|].
  split_and!; [done|done|..].
  - rewrite Hs. unfold spec_Sum, live. by rewrite Eb, Ew.
  - rewrite Hq. unfold spec_Count, live. by rewrite Eb, Ew.
Qed.

Lemma Rep_new opts last : valid_opts opts -> Rep (NewSlidingWindow opts) last [].
Proof. intros Hv. destruct (NewSlidingWindow_fresh opts Hv) as (bs & wl & ->). apply Rep_start. Qed.

Lemma window_reachable_agree sw : window_reachable sw -> totals_agree sw.
Proof.
  induction 1 as [opts Hv|sw c1 c2 t v sw' _ IH Ha|sw c sw' _ IH Ha].
  - destruct (NewSlidingWindow_fresh opts Hv) as (bs & wl & ->). apply fresh_agree.
  - destruct (AddWithTime_spec sw c1 c2 t v IH) as (? & sw2 & _ & E & ? & _). congruence.
  - destruct (advance_spec sw c IH) as (sw2 & ? & E & ? & _). congruence.
Qed.

End Lemmas.

(** ** An instance of the bucket map, for concrete runs *)

Definition assoc_map : Type := list (Z * bucket).

Fixpoint assoc_get (m : assoc_map) (k : Z) : option bucket :=
  match m with
  | [] => None
  | (k', b) :: m' => if k' =? k then Some b else assoc_get m' k
  end.

Fixpoint assoc_put (m : assoc_map) (k : Z) (b : bucket) : assoc_map :=
  match m with
  | [] => [(k, b)]
  | (k', b') :: m' => if k' =? k then (k, b) :: m' else (k', b') :: assoc_put m' k b
  end.

(** The map keeps its keys distinct; the subset type makes that part of its type. *)
Record ordered_map : Type := OrderedMap {
  om_list : assoc_map;
  om_nodup : bool_decide (NoDup om_list.*1);
}.

Lemma assoc_put_fst m k b :
  (assoc_put m k b).*1 = if bool_decide (k ∈ m.*1) then m.*1 else m.*1 ++ [k].
Proof.
  induction m as [|[k' b'] m IH]; csimpl; [done|].
  destruct (Z.eqb_spec k' k) as [->|Hne]; csimpl.
  - by rewrite bool_decide_eq_true_2 by set_solver.
  - rewrite IH. repeat case_bool_decide; set_solver.
Qed.

Lemma assoc_put_nodup m k b : NoDup m.*1 -> NoDup (assoc_put m k b).*1.
Proof.
  intros H. rewrite assoc_put_fst. case_bool_decide; [done|].
  apply NoDup_app. split_and!; [done|set_solver|apply NoDup_singleton].
Qed.

Lemma select_fst_nodup (m : assoc_map) (p : Z -> bool) :
  (select (fun kb => p kb.1) m).*1 = select p m.*1.
Proof. induction m as [|[k b] m IH]; csimpl; [done|]. destruct (p k); csimpl; by rewrite IH. Qed.

Lemma NoDup_select {A} (p : A -> bool) l : NoDup l -> NoDup (select p l).
Proof.
  induction 1 as [|x l Hx Hnd IH]; simpl; [constructor|].
  destruct (p x); [constructor|]; auto. rewrite elem_of_select. tauto.
Qed.

Definition om_put (m : ordered_map) (k : Z) (b : bucket) : ordered_map :=
  OrderedMap (assoc_put (om_list m) k b)
    (bool_decide_pack _ (assoc_put_nodup _ k b (bool_decide_unpack _ (om_nodup m)))).

Lemma assoc_remove_nodup (m : assoc_map) k :
  NoDup m.*1 -> NoDup (select (fun kb => negb (kb.1 =? k)) m).*1.
Proof. intros H. rewrite (select_fst_nodup m (fun k' => negb (k' =? k))). by apply NoDup_select. Qed.

Definition om_remove (m : ordered_map) (k : Z) : ordered_map :=
  OrderedMap (select (fun kb => negb (kb.1 =? k)) (om_list m))
    (bool_decide_pack _ (assoc_remove_nodup _ k (bool_decide_unpack _ (om_nodup m)))).

#[global] Instance ordered_map_ops : LinkedHashMap ordered_map := {|
  lm_New := OrderedMap [] (bool_decide_pack _ (NoDup_nil_2));
  lm_Get m k := assoc_get (om_list m) k;
  lm_Put := om_put;
  lm_Remove := om_remove;
  lm_Keys m := (om_list m).*1;
  lm_Size m := Z.of_nat (length (om_list m));
|}.

Lemma assoc_get_put m k b k' :
  assoc_get (assoc_put m k b) k' = if bool_decide (k = k') then Some b else assoc_get m k'.
Proof.
  induction m as [|[k1 b1] m IH]; simpl.
  - destruct (Z.eqb_spec k k'); case_bool_decide; done.
  - destruct (Z.eqb_spec k1 k) as [->|]; simpl.
    + destruct (Z.eqb_spec k k'); case_bool_decide; done.
    + rewrite IH. destruct (Z.eqb_spec k1 k'); case_bool_decide; congruence.
Qed.

Lemma assoc_get_remove m k k' :
  assoc_get (select (fun kb => negb (kb.1 =? k)) m) k'
  = if bool_decide (k = k') then None else assoc_get m k'.
Proof.
  induction m as [|[k1 b1] m IH]; simpl; [by case_bool_decide|].
  destruct (Z.eqb_spec k1 k) as [->|]; simpl; rewrite IH;
    [destruct (Z.eqb_spec k k')|destruct (Z.eqb_spec k1 k')]; case_bool_decide; congruence.
Qed.

Lemma assoc_get_is_Some m k : is_Some (assoc_get m k) <-> k ∈ m.*1.
Proof.
  induction m as [|[k1 b1] m IH]; csimpl; [by split; [intros [? [=]]|set_solver]|].
  destruct (Z.eqb_spec k1 k) as [->|].
  - split; intros; [set_solver|eauto].
  - rewrite IH. set_solver.
Qed.

#[global] Instance ordered_map_laws : LinkedHashMapLaws ordered_map.
Proof.
  split; intros; simpl.
  - done.
  - apply (bool_decide_unpack _ (om_nodup m)).
  - apply assoc_get_is_Some.
  - apply assoc_put_fst.
  - apply assoc_get_put.
  - apply (select_fst_nodup (om_list m) (fun k' => negb (k' =? k))).
  - apply assoc_get_remove.
  - by rewrite length_fmap.
Qed.

(** ** Theorems *)

(** C14: with a clock that never runs backwards, [Sum], [Count] and [Avg] of a window return exactly
    the sum, the number and the mean of the data points whose rounded time lies inside the window
    [(now - windowLength, now]], however the points were added and whenever buckets were evicted. *)
Theorem window_refines_points {M : Type} `{!LinkedHashMap M} `{!LinkedHashMapLaws M}
    (opts : list (AvgSlidingWindow M -> AvgSlidingWindow M))
    (sw : AvgSlidingWindow M) (last now : Z) (pts : list (Z * Q)) :
  valid_opts opts ->
  monotone_run (NewSlidingWindow opts) sw last pts ->
  last <= now ->
  exists sw' s a,
    Sum sw now = Returns (sw', s) /\ (s == spec_Sum sw now pts)%Q
    /\ Count sw now = Returns (sw', spec_Count sw now pts)
    /\ Avg sw now = Returns (sw', a)
    /\ (a == if spec_Count sw now pts =? 0 then 0
             else spec_Sum sw now pts / inject_Z (spec_Count sw now pts))%Q.
Proof.
  intros Hv Hrun Hle.
  pose proof (monotone_run_Rep _ _ _ _ (fun l => Rep_new opts l Hv) Hrun) as HR.
  destruct (window_reads _ _ _ _ HR Hle) as (sw' & E & _ & Hs & Hq).
  unfold Sum, Count, Avg. rewrite E. simpl. rewrite Hq. do 3 eexists. split_and!; try done.
  case_match; [done|]. by rewrite Hs.
Qed.

Lemma window_refines_points_witness :
  exists (sw : AvgSlidingWindow ordered_map) (sw' : AvgSlidingWindow ordered_map) (s : Q),
    Sum sw (12 * Second) = Returns (sw', s) /\ (s == 6)%Q.
Proof.
  pose (opts := [WithWindowLength (M := ordered_map) (10 * Second)]).
  assert (valid_opts opts) as Hv.
  { intros o Ho. apply list_elem_of_singleton in Ho as ->. left. by exists (10 * Second). }
  destruct (AddWithTime_spec (NewSlidingWindow opts) Second Second Second 5
              (fresh_agree Second (10 * Second))) as (a1 & sw1 & _ & E1 & A1 & _ & _).
  destruct (AddWithTime_spec sw1 (4 * Second) (4 * Second) (4 * Second) 6 A1)
    as (a2 & sw2 & _ & E2 & A2 & [B2 W2] & _).
  assert (monotone_run (NewSlidingWindow opts) sw2 (4 * Second) [(Second, 5%Q); (4 * Second, 6%Q)])
    as Hrun.
  { apply (mr_add _ sw1 Second [(Second, 5%Q)] (4 * Second) (4 * Second) (4 * Second));
      [|unfold Second, Millisecond; lia..|done].
    apply (mr_add _ (NewSlidingWindow opts) 0 [] Second Second Second);
      [constructor|unfold Second, Millisecond; lia..|done]. }
  destruct (window_refines_points opts sw2 (4 * Second) (12 * Second) _ Hv Hrun
              ltac:(unfold Second, Millisecond; lia)) as (sw' & s & a & ES & HS & _).
  exists sw2, sw', s. split; [done|]. rewrite HS. unfold spec_Sum, live. rewrite B2, W2.
  assert (sw1 = match AddWithTime (NewSlidingWindow opts) Second Second Second 5 with
                | Returns x => x | Panics _ => sw1 end) as -> by (by rewrite E1).
  vm_compute. reflexivity.
Defined.

(** No sequence of insertions and reads, with any clock readings and any data-point times, makes
    a window operation panic or lets the running totals [sum] and [qty] disagree with the buckets. *)
Theorem window_totals_invariant {M : Type} `{!LinkedHashMap M} `{!LinkedHashMapLaws M}
    (sw : AvgSlidingWindow M) (c1 c2 t : Z) (v : Q) :
  window_reachable sw ->
  totals_agree sw /\ returns (advance sw c1) /\ returns (AddWithTime sw c1 c2 t v)
  /\ returns (Sum sw c1) /\ returns (Count sw c1) /\ returns (Avg sw c1).
Proof.
  intros Hr. pose proof (window_reachable_agree _ Hr) as Ha.
  destruct (advance_spec sw c1 Ha) as (sw1 & ? & E & _).
  destruct (AddWithTime_spec sw c1 c2 t v Ha) as (? & sw2 & _ & E2 & _).
  unfold Sum, Count, Avg. rewrite E, E2. simpl. split_and!; try done; eexists; done.
Qed.

Lemma window_totals_invariant_witness :
  totals_agree (NewSlidingWindow (M := ordered_map) []).
Proof.
  apply (window_totals_invariant (NewSlidingWindow (M := ordered_map) []) 0 0 0 1%Q).
  apply wr_new. intros o Ho. set_solver.
Defined.

(** [Clear] resets the totals but keeps the buckets, so the invariant does not survive it: after
    three points, a [Clear] and one more point, evicting the first bucket makes the [uint] counter
    wrap around and the sum negative. *)
Theorem Clear_keeps_buckets :
  exists sw1 sw2 sw3 sw' : AvgSlidingWindow ordered_map,
    (let! a := Incr (NewSlidingWindow [WithWindowLength (10 * Second)]) Second Second Second in
     let! b := Incr a Second Second Second in Incr b Second Second Second) = Returns sw1
    /\ sw2 = Clear sw1
    /\ Incr sw2 (5 * Second) (5 * Second) (5 * Second) = Returns sw3
    /\ Count sw3 (12 * Second) = Returns (sw', 2 ^ 64 - 2)
    /\ (w_sum sw' == -2)%Q /\ ~ totals_agree sw'.
Proof.
  do 4 eexists. split; [vm_compute; reflexivity|]. split; [reflexivity|].
  split; [vm_compute; reflexivity|]. split; [vm_compute; reflexivity|].
  split; [vm_compute; reflexivity|]. intros [Hs _]. vm_compute in Hs. discriminate.
Qed.
