(* ===== verification/Json.v ===== *)
(** * The part of [encoding/json] the proxy relies on

    A concrete decoder and encoder on byte strings: white space, literals, numbers, strings with
    their escapes and UTF-8 repair, arrays and objects.  [json_parse] keeps number tokens as they
    are written; [json_Unmarshal] is decoding into an [interface{}], where a number becomes a
    [float64]: it is stored as the text [json.Marshal] prints for that float.  The nesting limit
    of 10000 is not modelled. *)

From S2P Require Import Prelude.

(** ** Values *)

Inductive json : Type :=
| JNull
| JBool (b : bool)
| JNum (lit : string)
| JStr (s : string)
| JArr (l : list json)
| JObj (fields : list (string * json)).

(** ** Characters *)

Definition code (c : Ascii.ascii) : Z := Z.of_N (Ascii.N_of_ascii c).
Definition chr (z : Z) : Ascii.ascii := Ascii.ascii_of_N (Z.to_N z).

Definition json_space (c : Ascii.ascii) : bool :=
  (code c =? 32) || (code c =? 9) || (code c =? 10) || (code c =? 13).

Fixpoint skip_ws (s : string) : string :=
  match s with
  | EmptyString => EmptyString
  | String c s' => if json_space c then skip_ws s' else s
  end.

Definition is_digit (c : Ascii.ascii) : bool := (48 <=? code c) && (code c <=? 57).

Definition hex_val (c : Ascii.ascii) : option Z :=
  let n := code c in
  if (48 <=? n) && (n <=? 57) then Some (n - 48)
  else if (97 <=? n) && (n <=? 102) then Some (n - 87)
  else if (65 <=? n) && (n <=? 70) then Some (n - 55)
  else None.

Definition hex_digit (z : Z) : Ascii.ascii := if z <? 10 then chr (z + 48) else chr (z + 87).

(** ** UTF-8 *)

Definition utf8_encode (r : Z) : string :=
  if r <? 128 then String (chr r) ""
  else if r <? 2048 then String (chr (192 + r / 64)) (String (chr (128 + r mod 64)) "")
  else if r <? 65536 then
    String (chr (224 + r / 4096)) (String (chr (128 + (r / 64) mod 64))
      (String (chr (128 + r mod 64)) ""))
  else
    String (chr (240 + r / 262144)) (String (chr (128 + (r / 4096) mod 64))
      (String (chr (128 + (r / 64) mod 64)) (String (chr (128 + r mod 64)) ""))).

Definition utf8_error : string := utf8_encode 65533.

Definition in_range (lo hi : Z) (c : Ascii.ascii) : bool := (lo <=? code c) && (code c <=? hi).

(** [utf8.DecodeRune]: how many continuation bytes follow the lead byte [c] of a valid rune. *)
Definition rune_extra (c : Ascii.ascii) (s : string) : option nat :=
  let cont := in_range 128 191 in
  match s with
  | String c1 s1 =>
      if in_range 194 223 c then (if cont c1 then Some 1%nat else None)
      else
        match s1 with
        | String c2 s2 =>
            let lo1 := if code c =? 224 then 160 else if code c =? 240 then 144 else 128 in
            let hi1 := if code c =? 237 then 159 else if code c =? 244 then 143 else 191 in
            if in_range 224 239 c then
              (if in_range lo1 hi1 c1 && cont c2 then Some 2%nat else None)
            else
              match s2 with
              | String c3 _ =>
                  if in_range 240 244 c && in_range lo1 hi1 c1 && cont c2 && cont c3
                  then Some 3%nat else None
              | EmptyString => None
              end
        | EmptyString => None
        end
  | EmptyString => None
  end.

(** ** Strings *)

Definition read_hex4 (s : string) : option (Z * string) :=
  match s with
  | String a (String b (String c (String d s'))) =>
      match hex_val a, hex_val b, hex_val c, hex_val d with
      | Some a, Some b, Some c, Some d => Some (((a * 16 + b) * 16 + c) * 16 + d, s')
      | _, _, _, _ => None
      end
  | _ => None
  end.

Definition simple_escape (c : Ascii.ascii) : option Ascii.ascii :=
  let n := code c in
  if (n =? 34) || (n =? 92) || (n =? 47) then Some c
  else if n =? 98 then Some (chr 8)
  else if n =? 102 then Some (chr 12)
  else if n =? 110 then Some (chr 10)
  else if n =? 114 then Some (chr 13)
  else if n =? 116 then Some (chr 9)
  else None.

Definition surrogate (r : Z) : bool := (55296 <=? r) && (r <? 57344).

(** [utf16.DecodeRune]: a high surrogate followed by a low one. *)
Definition utf16_pair (r1 r2 : Z) : option Z :=
  if (55296 <=? r1) && (r1 <? 56320) && (56320 <=? r2) && (r2 <? 57344)
  then Some ((r1 - 55296) * 1024 + (r2 - 56320) + 65536) else None.

Definition prepend (p : string) (r : option (string * string)) : option (string * string) :=
  match r with Some (s, rest) => Some (p +:+ s, rest) | None => None end.

(** The characters of a string literal up to its closing quote, and what follows it.  [copy] is
    the number of continuation bytes of a valid rune still to be copied. *)
Fixpoint parse_str (fuel copy : nat) (s : string) : option (string * string) :=
  match fuel, s with
  | S fuel, String c s1 =>
      match copy with
      | S copy' => prepend (String c "") (parse_str fuel copy' s1)
      | O =>
          if code c =? 34 then Some (EmptyString, s1)
          else if code c <? 32 then None
          else if code c =? 92 then
            match s1 with
            | String e s2 =>
                if code e =? 117 then
                  match read_hex4 s2 with
                  | Some (r1, s3) =>
                      if surrogate r1 then
                        match s3 with
                        | String b (String u s4) =>
                            if (code b =? 92) && (code u =? 117) then
                              match read_hex4 s4 with
                              | Some (r2, s5) =>
                                  match utf16_pair r1 r2 with
                                  | Some r => prepend (utf8_encode r) (parse_str fuel 0 s5)
                                  | None => prepend utf8_error (parse_str fuel 0 s3)
                                  end
                              | None => None
                              end
                            else prepend utf8_error (parse_str fuel 0 s3)
                        | _ => prepend utf8_error (parse_str fuel 0 s3)
                        end
                      else prepend (utf8_encode r1) (parse_str fuel 0 s3)
                  | None => None
                  end
                else
                  match simple_escape e with
                  | Some x => prepend (String x "") (parse_str fuel 0 s2)
                  | None => None
                  end
            | EmptyString => None
            end
          else if code c <? 128 then prepend (String c "") (parse_str fuel 0 s1)
          else
            match rune_extra c s1 with
            | Some n => prepend (String c "") (parse_str fuel n s1)
            | None => prepend utf8_error (parse_str fuel 0 s1)
            end
      end
  | _, _ => None
  end.

(** What [json.Marshal] writes for one byte below [0x80], with HTML escaping on. *)
Definition escape_ascii (c : Ascii.ascii) : string :=
  let n := code c in
  let bs := String (chr 92) "" in
  if (n =? 34) || (n =? 92) then bs +:+ String c ""
  else if n =? 8 then bs +:+ "b"
  else if n =? 12 then bs +:+ "f"
  else if n =? 10 then bs +:+ "n"
  else if n =? 13 then bs +:+ "r"
  else if n =? 9 then bs +:+ "t"
  else if (n <? 32) || (n =? 60) || (n =? 62) || (n =? 38)
  then bs +:+ "u00" +:+ String (hex_digit (n / 16)) (String (hex_digit (n mod 16)) "")
  else String c "".

(** U+2028 and U+2029 are the byte sequences [e2 80 a8] and [e2 80 a9]. *)
Definition line_separator (c : Ascii.ascii) (s : string) : option Ascii.ascii :=
  match s with
  | String c1 (String c2 _) =>
      if (code c =? 226) && (code c1 =? 128) && ((code c2 =? 168) || (code c2 =? 169))
      then Some (hex_digit (code c2 - 160)) else None
  | _ => None
  end.

(** [copy] continuation bytes are written as they are, [skip] ones have been written already. *)
Fixpoint escape_str (copy skip : nat) (s : string) : string :=
  match s with
  | EmptyString => EmptyString
  | String c s1 =>
      match skip, copy with
      | S skip', _ => escape_str 0 skip' s1
      | O, S copy' => String c (escape_str copy' 0 s1)
      | O, O =>
          if code c <? 128 then escape_ascii c +:+ escape_str 0 0 s1
          else
            match line_separator c s1 with
            | Some d => String (chr 92) "u202" +:+ String d (escape_str 0 2 s1)
            | None =>
                match rune_extra c s1 with
                | Some n => String c (escape_str n 0 s1)
                | None => String (chr 92) "ufffd" +:+ escape_str 0 0 s1
                end
            end
      end
  end.

(** Valid UTF-8: [copy] continuation bytes are still due. *)
Fixpoint valid_utf8 (copy : nat) (s : string) : bool :=
  match s with
  | EmptyString => bool_decide (copy = 0%nat)
  | String c s1 =>
      match copy with
      | S copy' => in_range 128 191 c && valid_utf8 copy' s1
      | O =>
          if code c <? 128 then valid_utf8 0 s1
          else match rune_extra c s1 with Some n => valid_utf8 n s1 | None => false end
      end
  end.

Definition quoted (s : string) : string := quote +:+ escape_str 0 0 s +:+ quote.

(** ** Number tokens *)

Fixpoint span_digits (s : string) : string * string :=
  match s with
  | String c s' =>
      if is_digit c then let '(d, r) := span_digits s' in (String c d, r) else (EmptyString, s)
  | EmptyString => (EmptyString, EmptyString)
  end.

Definition one_char (p : Ascii.ascii -> bool) (s : string) : string * string :=
  match s with
  | String c s' => if p c then (String c "", s') else (EmptyString, s)
  | EmptyString => (EmptyString, EmptyString)
  end.

(** The parts of a number token: sign, integer digits, fraction digits, exponent sign and digits. *)
Record number : Type := mkNumber {
  num_neg : bool;
  num_int : string;
  num_frac : string;
  num_exp_neg : bool;
  num_exp : string;
}.

(** A fraction, when there is a dot: at least one digit. *)
Definition scan_frac (s : string) : option (string * string * string) :=
  match s with
  | String c s' =>
      if code c =? 46 then
        match span_digits s' with
        | (EmptyString, _) => None
        | (d, r) => Some (String c d, d, r)
        end
      else Some (EmptyString, EmptyString, s)
  | EmptyString => Some (EmptyString, EmptyString, EmptyString)
  end.

(** An exponent, when there is an e: an optional sign and at least one digit. *)
Definition scan_exp (s : string) : option (string * bool * string * string) :=
  match s with
  | String c s' =>
      if (code c =? 101) || (code c =? 69) then
        let '(sg, r) := one_char (fun x => (code x =? 43) || (code x =? 45)) s' in
        match span_digits r with
        | (EmptyString, _) => None
        | (d, r') => Some (String c (sg +:+ d), bool_decide (sg = "-"), d, r')
        end
      else Some (EmptyString, false, EmptyString, s)
  | EmptyString => Some (EmptyString, false, EmptyString, EmptyString)
  end.

(** The integer part: a single 0, or digits that do not start with 0. *)
Definition scan_int (s : string) : option (string * string) :=
  match s with
  | String c s' =>
      if code c =? 48 then Some (String c "", s')
      else match span_digits s with (EmptyString, _) => None | (d, r) => Some (d, r) end
  | EmptyString => None
  end.

(** The token, its parts and the rest of the input. *)
Definition scan_number (s : string) : option (string * number * string) :=
  let '(sg, r0) := one_char (fun x => code x =? 45) s in
  match scan_int r0 with
  | None => None
  | Some (i, r1) =>
      match scan_frac r1 with
      | None => None
      | Some (ft, f, r2) =>
          match scan_exp r2 with
          | None => None
          | Some (et, eneg, e, r3) =>
              Some (sg +:+ i +:+ ft +:+ et, mkNumber (bool_decide (sg = "-")) i f eneg e, r3)
          end
      end
  end.

Fixpoint digits_val (acc : Z) (s : string) : Z :=
  match s with
  | EmptyString => acc
  | String c s' => digits_val (acc * 10 + (code c - 48)) s'
  end.

(** ** float64: the nearest binary fraction, and the shortest decimal that denotes it *)

(** The decimal [d * 10^p] of a token, without its sign. *)
Definition number_decimal (n : number) : Z * Z :=
  let e := digits_val 0 (num_exp n) in
  (digits_val 0 (num_int n +:+ num_frac n),
   (if num_exp_neg n then - e else e) - Z.of_nat (String.length (num_frac n))).

(** [num / den] rounded to the nearest integer, ties to even. *)
Definition div_even (num den : Z) : Z :=
  let q := num / den in
  let r := num mod den in
  if 2 * r <? den then q
  else if den <? 2 * r then q + 1
  else if Z.even q then q else q + 1.

(** The float64 [q * 2^k] nearest to [d * 10^p] ([q < 2^53], [k >= -1074]); [None] on overflow. *)
Definition nearest_float (d p : Z) : option (Z * Z) :=
  if d =? 0 then Some (0, 0)
  else if 400 <? Z.log2 d / 4 + p then None
  else
    let num := if 0 <=? p then d * 10 ^ p else d in
    let den := if 0 <=? p then 1 else 10 ^ (- p) in
    let k0 := Z.log2 num - Z.log2 den - 52 in
    let scaled k := if 0 <=? k then (num, den * 2 ^ k) else (num * 2 ^ (- k), den) in
    let k1 := if 2 ^ 53 * snd (scaled k0) <=? fst (scaled k0) then k0 + 1
              else if fst (scaled k0) <? 2 ^ 52 * snd (scaled k0) then k0 - 1 else k0 in
    let k := Z.max k1 (-1074) in
    let q := div_even (fst (scaled k)) (snd (scaled k)) in
    let '(q, k) := if q =? 2 ^ 53 then (2 ^ 52, k + 1) else (q, k) in
    if q =? 0 then Some (0, 0) else if 971 <? k then None else Some (q, k).

Definition float_eqb (a b : option (Z * Z)) : bool := bool_decide (a = b).

(** The number of decimal digits of [z >= 1]. *)
Fixpoint ndigits (fuel : nat) (z : Z) : Z :=
  match fuel with
  | O => 0
  | S f => if z <? 10 then 1 else 1 + ndigits f (z / 10)
  end.

(** The [n]-digit decimals around [q * 2^k], closest first. *)
Definition candidates (q k n : Z) : list (Z * Z) :=
  let num := if 0 <=? k then q * 2 ^ k else q in
  let den := if 0 <=? k then 1 else 2 ^ (- k) in
  let e :=
    if den <=? num then ndigits 400 (num / den)
    else - (ndigits 400 (den / num)) + (if (den / num) * num =? den then 2 else 1) in
  let p := e - n in
  let '(a, b) := if 0 <=? p then (num, den * 10 ^ p) else (num * 10 ^ (- p), den) in
  let lo := a / b in
  if 2 * (a - lo * b) <=? b then [(lo, p); (lo + 1, p)] else [(lo + 1, p); (lo, p)].

(** The first decimal, by increasing number of digits, that denotes the float [q * 2^k]. *)
Fixpoint shortest (fuel : nat) (n q k : Z) : option (Z * Z) :=
  match fuel with
  | O => None
  | S f =>
      match List.find (fun c => float_eqb (nearest_float (fst c) (snd c)) (Some (q, k)))
              (candidates q k n) with
      | Some c => Some c
      | None => shortest f (n + 1) q k
      end
  end.

Fixpoint digits_of (fuel : nat) (z : Z) (acc : string) : string :=
  match fuel with
  | O => acc
  | S f =>
      let acc := String (chr (48 + z mod 10)) acc in
      if z <? 10 then acc else digits_of f (z / 10) acc
  end.

(** [strconv.FormatInt(z, 10)] for the integers of a 64-bit machine. *)
Definition dec_string (z : Z) : string :=
  if z <? 0 then "-" +:+ digits_of 25 (- z) "" else digits_of 25 z "".

Fixpoint zeros (n : nat) : string := match n with O => "" | S n => String (chr 48) (zeros n) end.

(** Drops the trailing zeros of [d * 10^p]. *)
Fixpoint strip_zeros (fuel : nat) (d p : Z) : Z * Z :=
  match fuel with
  | O => (d, p)
  | S f => if (d mod 10 =? 0) && negb (d =? 0) then strip_zeros f (d / 10) (p + 1) else (d, p)
  end.

(** The ['f'] and ['e'] formats of [floatEncoder]. *)
Definition format_decimal (d p : Z) : string :=
  let '(d, p) := strip_zeros 25 d p in
  let ds := digits_of 25 d "" in
  let n := Z.of_nat (String.length ds) in
  let e := n + p - 1 in
  if (d =? 0) then "0"
  else if (e <? -6) || (21 <=? e) then
    String.substring 0 1 ds
    +:+ (if n =? 1 then "" else "." +:+ str_drop 1 ds)
    +:+ "e" +:+ (if e <? 0 then "-" +:+ digits_of 25 (- e) "" else "+" +:+ digits_of 25 e "")
  else if 0 <=? p then ds +:+ zeros (Z.to_nat p)
  else if 0 <=? e then str_take (Z.to_nat (e + 1)) ds +:+ "." +:+ str_drop (Z.to_nat (e + 1)) ds
  else "0." +:+ zeros (Z.to_nat (- e - 1)) +:+ ds.

(** The text of the float64 a number token decodes to; [None] when it overflows.  The token read
    back is the same float, which is checked rather than proved: the last test never fails. *)
Definition float_text (lit : string) : option string :=
  match scan_number lit with
  | Some (_, n, EmptyString) =>
      let '(d, p) := number_decimal n in
      match nearest_float d p with
      | None => None
      | Some (q, k) =>
          let sign := if num_neg n then "-" else "" in
          match (if q =? 0 then Some (0, 0) else shortest 20 1 q k) with
          | None => None
          | Some (d', p') =>
              let t := sign +:+ format_decimal d' p' in
              match scan_number t with
              | Some (_, n', EmptyString) =>
                  if Bool.eqb (num_neg n') (num_neg n)
                     && float_eqb (nearest_float (fst (number_decimal n')) (snd (number_decimal n')))
                                  (Some (q, k))
                  then Some t else None
              | _ => None
              end
          end
      end
  | _ => None
  end.

(** ** The grammar *)

(** One literal word at the head of the input. *)
Definition expect (w s : string) : option string :=
  if str_HasPrefix s w then Some (str_drop (String.length w) s) else None.

Fixpoint parse_value (fuel : nat) (s : string) : option (json * string) :=
  match fuel with
  | O => None
  | S fuel =>
      let s := skip_ws s in
      match s with
      | EmptyString => None
      | String c r =>
          if code c =? 34 then
            match parse_str (S (String.length r)) 0 r with
            | Some (x, r') => Some (JStr x, r')
            | None => None
            end
          else if code c =? 91 then
            match skip_ws r with
            | String c' r' =>
                if code c' =? 93 then Some (JArr [], r')
                else
                  match parse_elems fuel r with
                  | Some (l, r'') => Some (JArr l, r'')
                  | None => None
                  end
            | EmptyString => None
            end
          else if code c =? 123 then
            match skip_ws r with
            | String c' r' =>
                if code c' =? 125 then Some (JObj [], r')
                else
                  match parse_members fuel r with
                  | Some (l, r'') => Some (JObj l, r'')
                  | None => None
                  end
            | EmptyString => None
            end
          else if code c =? 110 then
            match expect "null" s with Some r' => Some (JNull, r') | None => None end
          else if code c =? 116 then
            match expect "true" s with Some r' => Some (JBool true, r') | None => None end
          else if code c =? 102 then
            match expect "false" s with Some r' => Some (JBool false, r') | None => None end
          else
            match scan_number s with
            | Some (t, _, r') => Some (JNum t, r')
            | None => None
            end
      end
  end
with parse_elems (fuel : nat) (s : string) : option (list json * string) :=
  match fuel with
  | O => None
  | S fuel =>
      match parse_value fuel s with
      | None => None
      | Some (v, r) =>
          match skip_ws r with
          | String c r' =>
              if code c =? 44 then
                match parse_elems fuel r' with
                | Some (l, r'') => Some (v :: l, r'')
                | None => None
                end
              else if code c =? 93 then Some ([v], r')
              else None
          | EmptyString => None
          end
      end
  end
with parse_members (fuel : nat) (s : string) : option (list (string * json) * string) :=
  match fuel with
  | O => None
  | S fuel =>
      match skip_ws s with
      | EmptyString => None
      | String q r0 =>
          if negb (code q =? 34) then None
          else
            match parse_str (S (String.length r0)) 0 r0 with
            | None => None
            | Some (k, r1) =>
                match skip_ws r1 with
                | EmptyString => None
                | String c r2 =>
                    if negb (code c =? 58) then None
                    else
                      match parse_value fuel r2 with
                      | None => None
                      | Some (v, r) =>
                          match skip_ws r with
                          | EmptyString => None
                          | String c r' =>
                              if code c =? 44 then
                                match parse_members fuel r' with
                                | Some (l, r'') => Some ((k, v) :: l, r'')
                                | None => None
                                end
                              else if code c =? 125 then Some ([(k, v)], r')
                              else None
                          end
                      end
                end
            end
      end
  end.

Definition parse_fuel (s : string) : nat := S (2 * String.length s).

(** A whole text: one value, then only white space. *)
Definition json_parse (s : string) : option json :=
  match parse_value (parse_fuel s) s with
  | Some (v, r) => match skip_ws r with EmptyString => Some v | _ => None end
  | None => None
  end.

(** ** Objects as Go maps: the members in increasing order of their keys *)

Fixpoint obj_insert (k : string) (v : json) (fs : list (string * json)) : list (string * json) :=
  match fs with
  | [] => [(k, v)]
  | (k', v') :: fs' =>
      match String.compare k k' with
      | Lt => (k, v) :: fs
      | Eq => (k, v) :: fs'
      | Gt => (k', v') :: obj_insert k v fs'
      end
  end.

Fixpoint obj_lookup (k : string) (fs : list (string * json)) : option json :=
  match fs with
  | [] => None
  | (k', v) :: fs' => if bool_decide (k = k') then Some v else obj_lookup k fs'
  end.

Definition obj_of_members (fs : list (string * json)) : list (string * json) :=
  fold_left (fun m kv => obj_insert (fst kv) (snd kv) m) fs [].

(** Decoding into an [interface{}]: every number becomes a float64, every object a map (a member
    that occurs twice keeps its last value). *)
Fixpoint to_interface (j : json) : option json :=
  match j with
  | JNum lit => match float_text lit with Some t => Some (JNum t) | None => None end
  | JArr l =>
      match (fix go l := match l with
                         | [] => Some []
                         | x :: l' => match to_interface x, go l' with
                                      | Some x, Some l' => Some (x :: l')
                                      | _, _ => None
                                      end
                         end) l with
      | Some l => Some (JArr l)
      | None => None
      end
  | JObj fs =>
      match (fix go fs := match fs with
                          | [] => Some []
                          | (k, x) :: fs' => match to_interface x, go fs' with
                                             | Some x, Some fs' => Some ((k, x) :: fs')
                                             | _, _ => None
                                             end
                          end) fs with
      | Some fs => Some (JObj (obj_of_members fs))
      | None => None
      end
  | j => Some j
  end.

(** [json.Unmarshal(raw, &v)] for [v interface{}]. *)
Definition json_Unmarshal (s : string) : option json :=
  match json_parse s with Some j => to_interface j | None => None end.

(** [json.Unmarshal(raw, &p)] for [p []interface{}]: null leaves the slice nil. *)
Definition unmarshal_slice (raw : string) : option (list json) :=
  match json_Unmarshal raw with
  | Some (JArr l) => Some l
  | Some JNull => Some []
  | _ => None
  end.

(** [json.Marshal] of a decoded value. *)
Fixpoint json_Marshal (j : json) : string :=
  match j with
  | JNull => "null"
  | JBool true => "true"
  | JBool false => "false"
  | JNum lit => lit
  | JStr s => quoted s
  | JArr l => "[" +:+ str_Join (map json_Marshal l) "," +:+ "]"
  | JObj fs =>
      "{" +:+ str_Join (map (fun kv => quoted (fst kv) +:+ ":" +:+ json_Marshal (snd kv)) fs) ","
      +:+ "}"
  end.

(** [compact]: white space outside of strings goes, HTML characters are escaped; [esc] is set after
    a backslash inside a string. *)
Fixpoint compact_go (instr esc : bool) (s : string) : string :=
  match s with
  | EmptyString => EmptyString
  | String c s' =>
      let n := code c in
      if instr then
        match line_separator c s', s' with
        | Some d, String _ (String _ s'') =>
            String (chr 92) "u202" +:+ String d (compact_go true false s'')
        | _, _ =>
            let c' := if (n =? 60) || (n =? 62) || (n =? 38) then escape_ascii c else String c "" in
            c' +:+ (if esc then compact_go true false s'
                    else if n =? 92 then compact_go true true s'
                    else if n =? 34 then compact_go false false s'
                    else compact_go true false s')
        end
      else if json_space c then compact_go false false s'
      else if n =? 34 then String c (compact_go true false s')
      else String c (compact_go false false s')
  end.

(** [json.Marshal] of a [json.RawMessage]: a nil message is null, an invalid one is an error. *)
Definition marshal_raw (raw : string) : option string :=
  if bool_decide (raw = "") then Some "null"
  else match json_parse raw with Some _ => Some (compact_go false false raw) | None => None end.

(** ** Raw members: decoding into structs and into [[]json.RawMessage] *)

(** The text of the value at the head of [s] (without surrounding white space) and the rest. *)
Definition raw_value (s : string) : option (string * string) :=
  let s := skip_ws s in
  match parse_value (parse_fuel s) s with
  | Some (_, r) => Some (str_take (String.length s - String.length r) s, r)
  | None => None
  end.

Fixpoint raw_elems (fuel : nat) (s : string) : option (list string) :=
  match fuel with
  | O => None
  | S fuel =>
      match raw_value s with
      | None => None
      | Some (v, r) =>
          match skip_ws r with
          | String c r' =>
              if code c =? 44 then
                match raw_elems fuel r' with Some l => Some (v :: l) | None => None end
              else Some [v]
          | EmptyString => None
          end
      end
  end.

Fixpoint raw_members (fuel : nat) (s : string) : option (list (string * string)) :=
  match fuel with
  | O => None
  | S fuel =>
      match skip_ws s with
      | EmptyString => None
      | String _ r0 =>
          match parse_str (S (String.length r0)) 0 r0 with
          | None => None
          | Some (k, r1) =>
              match raw_value (str_drop 1 (skip_ws r1)) with
              | None => None
              | Some (v, r) =>
                  match skip_ws r with
                  | EmptyString => None
                  | String c r' =>
                      if code c =? 44 then
                        match raw_members fuel r' with Some l => Some ((k, v) :: l) | None => None end
                      else Some [(k, v)]
                  end
              end
          end
      end
  end.

(** What a text holds, one level deep: its raw elements, its raw members, or a scalar. *)
Inductive raw_shape : Type :=
| RawArr (l : list string)
| RawObj (l : list (string * string))
| RawScalar (j : json).

Definition json_shape (s : string) : option raw_shape :=
  match json_parse s with
  | None => None
  | Some (JArr []) => Some (RawArr [])
  | Some (JArr _) =>
      match raw_elems (parse_fuel s) (str_drop 1 (skip_ws s)) with
      | Some l => Some (RawArr l)
      | None => None
      end
  | Some (JObj []) => Some (RawObj [])
  | Some (JObj _) =>
      match raw_members (parse_fuel s) (str_drop 1 (skip_ws s)) with
      | Some l => Some (RawObj l)
      | None => None
      end
  | Some j => Some (RawScalar j)
  end.

(** [json.Unmarshal(raw, &b)] for [b []json.RawMessage]. *)
Definition unmarshal_raw_slice (s : string) : option (list string) :=
  match json_shape s with
  | Some (RawArr l) => Some l
  | Some (RawScalar JNull) => Some []
  | _ => None
  end.

(** A JSON text with its quotes written as apostrophes. *)
Fixpoint jtext (s : string) : string :=
  match s with
  | EmptyString => EmptyString
  | String c s' => String (if code c =? 39 then quote_char else c) (jtext s')
  end.
