(* ===== verification/JsonFacts.v ===== *)
(** * Round trip of the JSON encoder and decoder

    A decoded value ([wf_json]: valid UTF-8 strings, numbers that are the text of a float64, objects
    with increasing keys) marshals to a text that decodes to the same value. *)

From S2P Require Import Prelude Json.

(** ** Strings *)

Lemma str_app_cons c (a b : string) : String c a +:+ b = String c (a +:+ b).
Proof. reflexivity. Qed.

Lemma str_app_empty (b : string) : EmptyString +:+ b = b.
Proof. reflexivity. Qed.

Lemma str_app_assoc (a b c : string) : (a +:+ b) +:+ c = a +:+ (b +:+ c).
Proof. induction a as [|x a IH]; [done|]. rewrite !str_app_cons. by rewrite IH. Qed.

Lemma str_app_nil (a : string) : a +:+ "" = a.
Proof. induction a as [|x a IH]; [done|]. rewrite str_app_cons. by rewrite IH. Qed.

Lemma str_length_app (a b : string) :
  String.length (a +:+ b) = (String.length a + String.length b)%nat.
Proof. induction a as [|x a IH]; [done|]. rewrite str_app_cons. simpl. by rewrite IH. Qed.

Create Rewrite HintDb str_app.

#[export] Hint Rewrite str_app_assoc str_app_cons str_app_empty : str_app.

Ltac str_norm := autorewrite with str_app.

(** Text [a] is followed by something the number scanner stops at. *)
Definition num_stop (rest : string) : bool :=
  match rest with
  | EmptyString => true
  | String c _ =>
      negb (is_digit c) && negb (code c =? 46) && negb (code c =? 101) && negb (code c =? 69)
      && negb (code c =? 43) && negb (code c =? 45)
  end.

Definition plain_char (c : Ascii.ascii) : bool :=
  (32 <=? code c) && (code c <? 128) && negb (code c =? 34) && negb (code c =? 92).

(** One escaped byte is read back. *)
Lemma parse_str_escape_ascii c fuel t :
  (code c <? 128) = true ->
  parse_str (S fuel) 0 (escape_ascii c +:+ t) = prepend (String c "") (parse_str fuel 0 t).
Proof.
  destruct c as [[] [] [] [] [] [] [] []]; intros H; vm_compute in H; try discriminate; reflexivity.
Qed.

Lemma rune_extra_pos c s n : rune_extra c s = Some n -> (n = 1 \/ n = 2 \/ n = 3)%nat.
Proof. unfold rune_extra. intros. split_matches; auto. Qed.

Lemma in_range_high c lo : in_range lo 191 c = true -> 128 <= lo -> (code c <? 128) = false.
Proof. unfold in_range. intros H ?. apply andb_true_iff in H as [? ?]. lia. Qed.

(** The continuation bytes are written as they are, so the rune is recognised again. *)
Lemma rune_extra_escape c s n t :
  rune_extra c s = Some n -> rune_extra c (escape_str n 0 s +:+ t) = Some n.
Proof.
  intros H. destruct (rune_extra_pos _ _ _ H) as [-> | [-> | ->]]; unfold rune_extra in *;
    split_matches.
Qed.

Lemma line_separator_spec c s d :
  line_separator c s = Some d ->
  exists c1 c2 s', s = String c1 (String c2 s') /\
    escape_str 0 2 s = escape_str 0 0 s' /\ rune_extra c s = Some 2%nat /\
    (valid_utf8 2 s = true -> valid_utf8 0 s' = true) /\
    forall fuel t, parse_str (S fuel) 0 (String (chr 92) "u202" +:+ String d t)
      = prepend (String c (String c1 (String c2 ""))) (parse_str fuel 0 t).
Proof.
  unfold line_separator. destruct s as [|c1 [|c2 s']]; try done.
  destruct c as [[] [] [] [] [] [] [] []]; try done.
  destruct c1 as [[] [] [] [] [] [] [] []]; try done.
  destruct c2 as [[] [] [] [] [] [] [] []]; try done; intros [= <-];
    do 3 eexists; (split; [reflexivity|]); (split; [reflexivity|]); (split; [reflexivity|]);
    (split; [simpl; intros H; exact H|]); intros; reflexivity.
Qed.

Lemma prepend_prepend a b r : prepend a (prepend b r) = prepend (a +:+ b) r.
Proof. destruct r as [[s t]|]; simpl; [by rewrite str_app_assoc|done]. Qed.

Lemma escape_ascii_length c : (1 <= String.length (escape_ascii c))%nat.
Proof. unfold escape_ascii. split_matches; str_norm; simpl; lia. Qed.

Lemma code_high_ne c n : (code c <? 128) = false -> n < 128 -> (code c =? n) = false.
Proof. lia. Qed.

(** The state of the decoder after a lead byte of a rune, or in the middle of one. *)
Lemma parse_str_copy fuel copy c t :
  parse_str (S fuel) (S copy) (String c t) = prepend (String c "") (parse_str fuel copy t).
Proof. reflexivity. Qed.

Lemma parse_str_lead fuel c n t :
  (code c <? 128) = false -> rune_extra c t = Some n ->
  parse_str (S fuel) 0 (String c t) = prepend (String c "") (parse_str fuel n t).
Proof.
  intros Hc Hr. simpl. rewrite (code_high_ne c 34), (code_high_ne c 92), Hc, Hr by lia.
  destruct (Z.ltb_spec (code c) 32); [lia|done].
Qed.

Lemma escape_str_roundtrip n : forall s copy fuel rest,
  (String.length s <= n)%nat -> valid_utf8 copy s = true ->
  (String.length (escape_str copy 0 s) < fuel)%nat ->
  parse_str fuel copy (escape_str copy 0 s +:+ quote +:+ rest) = Some (s, rest).
Proof.
  induction n as [|n IH]; intros s copy fuel rest Hn Hv Hf.
  { destruct s; [|simpl in Hn; lia]. destruct copy; [|done]. destruct fuel; [simpl in Hf; lia|done]. }
  destruct s as [|c s]; [destruct copy; [destruct fuel; [simpl in Hf; lia|done]|done]|].
  destruct fuel as [|fuel]; [lia|]. simpl in Hn.
  destruct copy as [|copy].
  2: { simpl in Hv, Hf. cbn [escape_str]. apply andb_true_iff in Hv as [_ Hv].
       rewrite str_app_cons, parse_str_copy, IH by (done || lia). done. }
  simpl in Hv, Hf. cbn [escape_str]. destruct (code c <? 128) eqn:Hc.
  { rewrite str_app_assoc, parse_str_escape_ascii by done. rewrite str_length_app in Hf.
    pose proof (escape_ascii_length c). rewrite IH by (done || lia). done. }
  destruct (line_separator c s) as [d|] eqn:Hl.
  { apply line_separator_spec in Hl as (c1 & c2 & s' & -> & He & Hr & Hvs & Hp).
    rewrite Hr in Hv. rewrite He, str_app_assoc, (str_app_cons d), Hp.
    rewrite He, str_length_app in Hf. simpl in Hf, Hn. rewrite IH by (auto || lia). done. }
  destruct (rune_extra c s) as [k|] eqn:Hr; [|done].
  rewrite str_app_cons, (parse_str_lead _ _ k) by (done || by apply rune_extra_escape).
  simpl in Hf. rewrite IH by (done || lia). done.
Qed.

(** A quoted string is read back by the decoder, from just after its opening quote. *)
Lemma quoted_roundtrip s rest :
  valid_utf8 0 s = true ->
  let r := escape_str 0 0 s +:+ quote +:+ rest in
  parse_str (S (String.length r)) 0 r = Some (s, rest).
Proof.
  intros H r. apply (escape_str_roundtrip (String.length s)); [done|done|].
  unfold r. rewrite !str_length_app. lia.
Qed.

(** ** Numbers *)

Lemma span_digits_app s d r rest :
  span_digits s = (d, r) -> num_stop rest = true ->
  span_digits (s +:+ rest) = (d, r +:+ rest).
Proof.
  revert d r. induction s as [|c s IH]; simpl; intros d r H Hs.
  - injection H as <- <-. destruct rest as [|c rest]; [done|]. unfold num_stop in Hs.
    rewrite ?str_app_empty. simpl. destruct (is_digit c); done.
  - rewrite ?str_app_cons. simpl. destruct (is_digit c) eqn:E; [|by injection H as <- <-].
    destruct (span_digits s) as [d' r'] eqn:E'. injection H as <- <-. by rewrite (IH d' r').
Qed.

Lemma one_char_app p s a r rest :
  one_char p s = (a, r) -> (s = "" -> forall c t, rest = String c t -> p c = false) ->
  one_char p (s +:+ rest) = (a, r +:+ rest).
Proof.
  destruct s as [|c s]; simpl; intros H Hp.
  - injection H as <- <-. rewrite ?str_app_empty. destruct rest as [|c t]; [done|].
    simpl. by rewrite (Hp eq_refl c t).
  - rewrite ?str_app_cons. simpl. destruct (p c); by injection H as <- <-.
Qed.

Lemma num_stop_cons c t :
  num_stop (String c t) = true ->
  is_digit c = false /\ (code c =? 46) = false /\ (code c =? 101) = false /\ (code c =? 69) = false /\
  (code c =? 43) = false /\ (code c =? 45) = false.
Proof. simpl. rewrite !andb_true_iff, !negb_true_iff. naive_solver. Qed.

Lemma scan_frac_app s a f r rest :
  scan_frac s = Some (a, f, r) -> num_stop rest = true ->
  scan_frac (s +:+ rest) = Some (a, f, r +:+ rest).
Proof.
  destruct s as [|c s]; simpl; intros H Hs.
  - injection H as <- <- <-. destruct rest as [|c t]; [done|].
    apply num_stop_cons in Hs as (_ & H & _). rewrite ?str_app_empty. simpl. by rewrite H.
  - rewrite ?str_app_cons. simpl. destruct (code c =? 46); [|by injection H as <- <- <-].
    destruct (span_digits s) as [d r'] eqn:E. rewrite (span_digits_app _ _ _ _ E Hs).
    destruct d; [done|]. by injection H as <- <- <-.
Qed.

Lemma scan_exp_app s a b e r rest :
  scan_exp s = Some (a, b, e, r) -> num_stop rest = true ->
  scan_exp (s +:+ rest) = Some (a, b, e, r +:+ rest).
Proof.
  destruct s as [|c s]; simpl; intros H Hs.
  - injection H as <- <- <- <-. destruct rest as [|c t]; [done|].
    apply num_stop_cons in Hs as (_ & _ & H1 & H2 & _). rewrite ?str_app_empty. simpl.
    by rewrite H1, H2.
  - rewrite ?str_app_cons. simpl.
    destruct ((code c =? 101) || (code c =? 69)); [|by injection H as <- <- <- <-].
    destruct (one_char _ s) as [sg r0] eqn:E.
    rewrite (one_char_app _ _ _ _ rest E).
    2: { intros -> c' t ->. apply num_stop_cons in Hs as (_ & _ & _ & _ & H1 & H2).
         by rewrite H1, H2. }
    destruct (span_digits r0) as [d r'] eqn:E'. rewrite (span_digits_app _ _ _ _ E' Hs).
    destruct d; [done|]. by injection H as <- <- <- <-.
Qed.

Lemma scan_int_app s i r rest :
  scan_int s = Some (i, r) -> num_stop rest = true -> scan_int (s +:+ rest) = Some (i, r +:+ rest).
Proof.
  destruct s as [|c s]; [done|]. intros H Hs. rewrite ?str_app_cons. unfold scan_int in *.
  destruct (code c =? 48); [by injection H as <- <-|].
  destruct (span_digits (String c s)) as [d r'] eqn:E.
  apply (span_digits_app _ _ _ rest) in E; [|done]. rewrite str_app_cons in E. rewrite E.
  destruct d; [done|]. by injection H as <- <-.
Qed.

Lemma scan_number_app s t n r rest :
  scan_number s = Some (t, n, r) -> num_stop rest = true ->
  scan_number (s +:+ rest) = Some (t, n, r +:+ rest).
Proof.
  unfold scan_number. intros H Hs. destruct (one_char _ s) as [sg r0] eqn:E0.
  rewrite (one_char_app _ _ _ _ rest E0).
  2: { intros -> c t' ->. by apply num_stop_cons in Hs as (_ & _ & _ & _ & _ & ?). }
  destruct (scan_int r0) as [[i r1]|] eqn:E1; [|done]. rewrite (scan_int_app _ _ _ _ E1 Hs).
  destruct (scan_frac r1) as [[[ft f] r2]|] eqn:E2; [|done]. rewrite (scan_frac_app _ _ _ _ _ E2 Hs).
  destruct (scan_exp r2) as [[[[et en] e] r3]|] eqn:E3; [|done].
  rewrite (scan_exp_app _ _ _ _ _ _ E3 Hs). by injection H as <- <- <-.
Qed.

Lemma scan_number_head s t n r :
  scan_number s = Some (t, n, r) ->
  exists c s', s = String c s' /\ (code c = 45 \/ is_digit c = true).
Proof.
  unfold scan_number. destruct s as [|c s]; [done|]. simpl. intros H. exists c, s. split; [done|].
  destruct (Z.eqb_spec (code c) 45); [by left|]. right. unfold scan_int in H.
  destruct (Z.eqb_spec (code c) 48) as [E|E]; [unfold is_digit; by rewrite E|].
  simpl in H. destruct (is_digit c); done.
Qed.

(** ** Values *)

Fixpoint keys_increasing (fs : list (string * json)) : bool :=
  match fs with
  | (k, _) :: (((k', _) :: _) as fs') =>
      bool_decide (String.compare k k' = Lt) && keys_increasing fs'
  | _ => true
  end.

(** The values an [interface{}] holds after decoding. *)
Fixpoint wf_json (j : json) : bool :=
  match j with
  | JNum lit =>
      bool_decide (float_text lit = Some lit)
      && match scan_number lit with Some (t, _, EmptyString) => bool_decide (t = lit) | _ => false end
  | JStr s => valid_utf8 0 s
  | JArr l => forallb wf_json l
  | JObj fs =>
      keys_increasing fs && forallb (fun kv => valid_utf8 0 (fst kv) && wf_json (snd kv)) fs
  | _ => true
  end.

Lemma json_ind' (P : json -> Prop) :
  P JNull -> (forall b, P (JBool b)) -> (forall lit, P (JNum lit)) -> (forall s, P (JStr s)) ->
  (forall l, Forall P l -> P (JArr l)) ->
  (forall fs, Forall (fun kv => P (snd kv)) fs -> P (JObj fs)) ->
  forall j, P j.
Proof.
  intros H1 H2 H3 H4 H5 H6. fix IH 1. intros [| | | |l|fs]; [done|done|done|done| |].
  - apply H5. induction l as [|x l IHl]; constructor; [apply IH|apply IHl].
  - apply H6. induction fs as [|[k x] fs IHl]; constructor; [apply IH|apply IHl].
Qed.

(** A text that starts a value. *)
Definition head_ok (s : string) : bool :=
  match s with
  | String c _ => negb (json_space c) && negb (code c =? 93) && negb (code c =? 125)
  | EmptyString => false
  end.

Lemma head_ok_app s t : head_ok s = true -> head_ok (s +:+ t) = true.
Proof. destruct s; [done|]. intros H. exact H. Qed.

Lemma head_ok_skip_ws s : head_ok s = true -> skip_ws s = s.
Proof. destruct s as [|c s]; simpl; [done|]. by destruct (json_space c). Qed.

Lemma digit_head_ok c : code c = 45 \/ is_digit c = true ->
  json_space c = false /\ (code c =? 34) = false /\ (code c =? 91) = false /\
  (code c =? 93) = false /\ (code c =? 123) = false /\ (code c =? 125) = false /\
  (code c =? 110) = false /\ (code c =? 116) = false /\ (code c =? 102) = false.
Proof.
  unfold is_digit, json_space. rewrite andb_true_iff, !Z.leb_le.
  intros H. repeat rewrite orb_false_iff. rewrite !Z.eqb_neq. lia.
Qed.

Lemma scan_number_dispatch s t n r :
  scan_number s = Some (t, n, r) -> head_ok s = true /\
  forall fuel, parse_value (S fuel) s = Some (JNum t, r).
Proof.
  intros H. destruct (scan_number_head _ _ _ _ H) as (c & s' & -> & Hc).
  apply digit_head_ok in Hc as (H1 & H2 & H3 & H4 & H5 & H6 & H7 & H8 & H9).
  split; [simpl; by rewrite H1, H4, H6|]. intros fuel. cbn [parse_value skip_ws].
  by rewrite H1, H2, H3, H5, H7, H8, H9, H.
Qed.

Lemma marshal_head j : wf_json j = true -> head_ok (json_Marshal j) = true.
Proof.
  destruct j as [|[]|lit| | |]; try done. simpl. rewrite andb_true_iff. intros [_ H].
  destruct (scan_number lit) as [[[t n] []]|] eqn:E; try done.
  by apply scan_number_dispatch in E as [? _].
Qed.

Definition elems_text (l : list json) : string := str_Join (map json_Marshal l) ",".

Definition member_text (kv : string * json) : string :=
  quoted (fst kv) +:+ ":" +:+ json_Marshal (snd kv).

Definition members_text (fs : list (string * json)) : string := str_Join (map member_text fs) ",".

(** What the decoder must do on one value: the induction hypothesis of the round trip. *)
Definition parses_back (j : json) : Prop :=
  forall fuel rest, (2 * String.length (json_Marshal j) <= fuel)%nat -> num_stop rest = true ->
  parse_value fuel (json_Marshal j +:+ rest) = Some (j, rest).

(** Evaluates the tests on concrete characters. *)
Ltac eval_chars :=
  repeat (match goal with
  | |- context [json_space ?c] =>
      let b := eval vm_compute in (json_space c) in
      match b with true => idtac | false => idtac end; change (json_space c) with b
  | |- context [code ?c =? ?n] =>
      let b := eval vm_compute in (code c =? n) in
      match b with true => idtac | false => idtac end; change (code c =? n) with b
  end; cbn [negb skip_ws]; cbn beta iota).

Lemma parse_elems_back l : l <> [] ->
  Forall parses_back l -> forall fuel rest,
  (2 * String.length (elems_text l) + 1 <= fuel)%nat ->
  parse_elems fuel (elems_text l +:+ String (chr 93) rest) = Some (l, rest).
Proof.
  induction l as [|x l IH]; [done|]. intros _ Hall fuel rest Hf.
  inversion Hall as [|? ? Hx Hl]; subst. destruct fuel as [|fuel]; [lia|].
  destruct l as [|y l].
  - unfold elems_text in *. simpl in Hf. cbn [map str_Join parse_elems].
    rewrite Hx by (done || lia). done.
  - assert (E : elems_text (x :: y :: l) = json_Marshal x +:+ String (chr 44) (elems_text (y :: l)))
      by done.
    rewrite E in Hf |- *. rewrite !str_length_app in Hf. simpl in Hf.
    rewrite str_app_assoc, str_app_cons. cbn [parse_elems].
    rewrite Hx by (done || lia). cbn [skip_ws]. eval_chars. rewrite IH by (done || lia). done.
Qed.

Lemma parse_members_back fs : fs <> [] ->
  Forall (fun kv => valid_utf8 0 (fst kv) = true /\ parses_back (snd kv)) fs -> forall fuel rest,
  (2 * String.length (members_text fs) + 1 <= fuel)%nat ->
  parse_members fuel (members_text fs +:+ String (chr 125) rest) = Some (fs, rest).
Proof.
  induction fs as [|[k x] fs IH]; [done|]. intros _ Hall fuel rest Hf.
  inversion Hall as [|? ? [Hk Hx] Hl]; subst. destruct fuel as [|fuel]; [lia|]. simpl in Hk, Hx.
  assert (Hhead : forall t, member_text (k, x) +:+ t =
    String quote_char (escape_str 0 0 k +:+ quote +:+ String (chr 58) (json_Marshal x +:+ t))).
  { intros. unfold member_text, quoted. simpl (fst _). simpl (snd _). by str_norm. }
  assert (Hlen : (String.length (member_text (k, x)) >= 2 + String.length (json_Marshal x))%nat).
  { unfold member_text, quoted. rewrite !str_length_app. simpl. lia. }
  assert (Hgo : forall t, num_stop t = true ->
    parse_members (S fuel) (member_text (k, x) +:+ t) =
      match skip_ws t with
      | EmptyString => None
      | String c r' =>
          if code c =? 44
          then match parse_members fuel r' with Some (l, r'') => Some ((k, x) :: l, r'') | None => None end
          else if code c =? 125 then Some ([(k, x)], r') else None
      end).
  { intros t Ht. rewrite Hhead. cbn [parse_members skip_ws]. eval_chars.
    rewrite (quoted_roundtrip k) by done. cbn [skip_ws]. eval_chars.
    rewrite Hx; [done| |done]. destruct fs; unfold members_text in Hf; cbn [map str_Join] in Hf;
      rewrite ?str_length_app in Hf; lia. }
  destruct fs as [|y fs].
  - unfold members_text. cbn [map str_Join]. rewrite Hgo by done. done.
  - assert (E : members_text ((k, x) :: y :: fs) =
      member_text (k, x) +:+ String (chr 44) (members_text (y :: fs))) by done.
    rewrite E in Hf |- *. rewrite str_app_assoc, str_app_cons, Hgo by done.
    rewrite str_length_app in Hf. simpl in Hf. cbn [skip_ws]. eval_chars.
    rewrite IH by (done || lia). done.
Qed.

Lemma head_ok_length s : head_ok s = true -> (1 <= String.length s)%nat.
Proof. destruct s; simpl; [done|lia]. Qed.

Lemma forallb_Forall_imp {A} (p : A -> bool) (P : A -> Prop) l :
  Forall (fun x => p x = true -> P x) l -> forallb p l = true -> Forall P l.
Proof.
  induction 1 as [|x l H _ IH]; simpl; [done|]. rewrite andb_true_iff. intros [? ?]. auto.
Qed.

Lemma elems_text_head l : l <> [] -> forallb wf_json l = true -> head_ok (elems_text l) = true.
Proof.
  destruct l as [|x [|y l]]; [done| |]; simpl; rewrite andb_true_iff; intros _ [H _];
    apply marshal_head in H; [done|by apply head_ok_app].
Qed.

Lemma members_text_head fs : fs <> [] -> head_ok (members_text fs) = true.
Proof. by destruct fs as [|x [|y fs]]. Qed.

Lemma head_ok_tests s : head_ok s = true -> exists c t,
  s = String c t /\ (code c =? 93) = false /\ (code c =? 125) = false.
Proof.
  destruct s as [|c t]; [done|]. simpl. rewrite !andb_true_iff, !negb_true_iff. intros [[_ ?] ?].
  by exists c, t.
Qed.

Lemma marshal_parses_back j : wf_json j = true -> parses_back j.
Proof.
  induction j as [|b|lit|s|l IH|fs IH] using json_ind'; intros Hw fuel rest Hf Hr;
    (destruct fuel as [|fuel];
      [pose proof (head_ok_length _ (marshal_head _ Hw)); lia|]).
  - cbn [parse_value json_Marshal]. rewrite !str_app_cons, str_app_empty. by destruct rest.
  - destruct b; cbn [parse_value json_Marshal]; rewrite !str_app_cons, str_app_empty; by destruct rest.
  - simpl in Hw. apply andb_true_iff in Hw as [_ Hw].
    destruct (scan_number lit) as [[[t n] []]|] eqn:E; try done.
    apply bool_decide_eq_true in Hw as ->. apply (scan_number_app _ _ _ _ rest) in E; [|done].
    by apply scan_number_dispatch in E as [_ ->].
  - simpl in Hw. unfold json_Marshal, quoted. rewrite !str_app_assoc. unfold quote at 1.
    rewrite str_app_cons, str_app_empty. cbn [parse_value skip_ws]. eval_chars.
    by rewrite quoted_roundtrip.
  - destruct l as [|x l]; [done|]. simpl (wf_json _) in Hw.
    assert (E : json_Marshal (JArr (x :: l)) +:+ rest =
      String (chr 91) (elems_text (x :: l) +:+ String (chr 93) rest)).
    { change (json_Marshal (JArr (x :: l))) with ("[" +:+ elems_text (x :: l) +:+ "]"). by str_norm. }
    change (json_Marshal (JArr (x :: l))) with ("[" +:+ elems_text (x :: l) +:+ "]") in Hf.
    rewrite !str_length_app in Hf. simpl in Hf. rewrite E. cbn [parse_value skip_ws]. eval_chars.
    pose proof (head_ok_app _ (String (chr 93) rest) (elems_text_head (x :: l) ltac:(done) Hw)) as Hh.
    rewrite (head_ok_skip_ws _ Hh).
    apply head_ok_tests in Hh as (c & t & Et & Hc & _). rewrite Et at 1. rewrite Hc.
    rewrite parse_elems_back; [done|done|by eapply forallb_Forall_imp|lia].
  - destruct fs as [|x fs]; [done|]. simpl (wf_json _) in Hw. apply andb_true_iff in Hw as [_ Hw].
    assert (E : json_Marshal (JObj (x :: fs)) +:+ rest =
      String (chr 123) (members_text (x :: fs) +:+ String (chr 125) rest)).
    { change (json_Marshal (JObj (x :: fs))) with ("{" +:+ members_text (x :: fs) +:+ "}"). by str_norm. }
    change (json_Marshal (JObj (x :: fs))) with ("{" +:+ members_text (x :: fs) +:+ "}") in Hf.
    rewrite !str_length_app in Hf. simpl in Hf. rewrite E. cbn [parse_value skip_ws]. eval_chars.
    pose proof (head_ok_app _ (String (chr 125) rest) (members_text_head (x :: fs) ltac:(done))) as Hh.
    rewrite (head_ok_skip_ws _ Hh).
    apply head_ok_tests in Hh as (c & t & Et & _ & Hc). rewrite Et at 1. rewrite Hc.
    rewrite parse_members_back; [done|done| |lia].
    eapply (forallb_Forall_imp (fun kv => valid_utf8 0 (fst kv) && wf_json (snd kv))); [|exact Hw].
    eapply Forall_impl; [exact IH|]. intros [k v] Hk. simpl. rewrite andb_true_iff. naive_solver.
Qed.

(** ** Objects *)

Lemma ascii_compare_trans a b c o :
  Ascii.compare a b = o -> Ascii.compare b c = o -> o <> Gt -> Ascii.compare a c = o.
Proof.
  unfold Ascii.compare. intros H1 H2 H3. destruct o; [|rewrite N.compare_lt_iff in *; lia|done].
  apply N.compare_eq_iff in H1, H2. apply N.compare_eq_iff. lia.
Qed.

Lemma ascii_compare_eq a b : Ascii.compare a b = Eq -> a = b.
Proof.
  unfold Ascii.compare. intros H%N.compare_eq_iff.
  by rewrite <- (Ascii.ascii_N_embedding a), H, Ascii.ascii_N_embedding.
Qed.

Lemma str_compare_trans : forall a b c,
  String.compare a b = Lt -> String.compare b c = Lt -> String.compare a c = Lt.
Proof.
  induction a as [|x a IH]; intros [|y b] [|z c]; simpl; try done. intros H1 H2.
  destruct (Ascii.compare x y) eqn:E1; [| |done]; destruct (Ascii.compare y z) eqn:E2; try done.
  - rewrite (ascii_compare_trans x y z Eq) by done. eauto.
  - apply ascii_compare_eq in E1 as ->. by rewrite E2.
  - apply ascii_compare_eq in E2 as ->. by rewrite E1.
  - by rewrite (ascii_compare_trans x y z Lt).
Qed.

Lemma keys_increasing_cons k v fs :
  keys_increasing ((k, v) :: fs) = true <->
  keys_increasing fs = true /\ forall k' v', (k', v') ∈ fs -> String.compare k k' = Lt.
Proof.
  revert k v. induction fs as [|[k1 v1] fs IH]; intros k v.
  { split; [|done]. intros _. split; [done|]. set_solver. }
  change (keys_increasing ((k, v) :: (k1, v1) :: fs)) with
    (bool_decide (String.compare k k1 = Lt) && keys_increasing ((k1, v1) :: fs)).
  rewrite andb_true_iff, bool_decide_eq_true. split.
  - intros [H1 H2]. split; [done|]. intros k' v' [[= -> ->]|Hin]%elem_of_cons; [done|].
    apply IH in H2 as [_ H2]. eapply str_compare_trans; [done|]. by eapply H2.
  - intros [H1 H2]. split; [|done]. apply (H2 k1 v1). by left.
Qed.

Lemma obj_insert_last k v fs :
  (forall k' v', (k', v') ∈ fs -> String.compare k' k = Lt) -> obj_insert k v fs = fs ++ [(k, v)].
Proof.
  induction fs as [|[k' v'] fs IH]; intros H; [done|]. simpl.
  rewrite String.compare_antisym, (H k' v') by (by left). simpl.
  rewrite IH; [done|]. intros k1 v1 ?. apply (H k1 v1). by right.
Qed.

Lemma obj_of_members_sorted_aux fs : forall acc,
  keys_increasing fs = true ->
  (forall k v k' v', (k, v) ∈ acc -> (k', v') ∈ fs -> String.compare k k' = Lt) ->
  fold_left (fun m kv => obj_insert (fst kv) (snd kv) m) fs acc = acc ++ fs.
Proof.
  induction fs as [|[k v] fs IH]; intros acc Hk Ha; simpl; [by rewrite app_nil_r|].
  apply keys_increasing_cons in Hk as [Hk1 Hk2].
  rewrite obj_insert_last by (intros k' v' ?; eapply Ha; [done|by left]).
  rewrite IH; [by rewrite <- app_assoc|done|].
  intros k1 v1 k2 v2 [H1|[= -> ->]%list_elem_of_singleton]%elem_of_app H2;
    [eapply Ha; [done|by right]|by eapply Hk2].
Qed.

Lemma obj_of_members_sorted fs : keys_increasing fs = true -> obj_of_members fs = fs.
Proof. intros H. unfold obj_of_members. by rewrite obj_of_members_sorted_aux by set_solver. Qed.

Lemma obj_insert_keys k v fs k' v' :
  (k', v') ∈ obj_insert k v fs -> (k' = k /\ v' = v) \/ (k', v') ∈ fs.
Proof.
  induction fs as [|[k1 v1] fs IH]; simpl.
  - intros [= -> ->]%list_elem_of_singleton. by left.
  - destruct (String.compare k k1) eqn:E; rewrite !elem_of_cons; naive_solver.
Qed.

Lemma obj_insert_increasing k v fs :
  keys_increasing fs = true -> keys_increasing (obj_insert k v fs) = true.
Proof.
  induction fs as [|[k1 v1] fs IH]; intros H; [done|]. simpl.
  apply keys_increasing_cons in H as [H1 H2]. destruct (String.compare k k1) eqn:E.
  - apply String.compare_eq_iff in E as ->. by apply keys_increasing_cons.
  - apply keys_increasing_cons. split; [by apply keys_increasing_cons|].
    intros k' v' [[= -> ->]|?]%elem_of_cons; [done|]. eapply str_compare_trans; [done|by eapply H2].
  - apply keys_increasing_cons. split; [auto|]. intros k' v' [[-> ->]|?]%obj_insert_keys; [|eauto].
    rewrite String.compare_antisym, E. done.
Qed.

Lemma obj_insert_forallb p k v fs :
  p (k, v) = true -> forallb p fs = true -> forallb p (obj_insert k v fs) = true.
Proof.
  intros Hp. induction fs as [|[k1 v1] fs IH]; simpl; [by rewrite Hp|].
  rewrite andb_true_iff. intros [H1 H2].
  destruct (String.compare k k1); simpl; rewrite ?Hp, ?H1, ?H2; simpl; auto.
Qed.

Lemma obj_of_members_wf p fs :
  forallb p fs = true ->
  keys_increasing (obj_of_members fs) = true /\ forallb p (obj_of_members fs) = true.
Proof.
  unfold obj_of_members. assert (H : keys_increasing [] = true /\ forallb p [] = true) by done.
  revert H. generalize (@nil (string * json)).
  induction fs as [|[k v] fs IH]; intros acc [Ha1 Ha2]; simpl; [done|].
  rewrite andb_true_iff. intros [H1 H2]. apply IH; [|done].
  split; [by apply obj_insert_increasing|by apply obj_insert_forallb].
Qed.

(** ** Decoding into an interface *)

Lemma to_interface_arr l : to_interface (JArr l) = JArr <$> mapM to_interface l.
Proof.
  cbn [to_interface]. match goal with |- match ?f l with _ => _ end = _ => set (go := f) end.
  assert (E : go l = mapM to_interface l).
  { induction l as [|x l IH]; [done|]. cbn. fold go. rewrite IH.
    destruct (to_interface x), (mapM to_interface l); done. }
  rewrite E. by destruct (mapM to_interface l).
Qed.

Definition member_to_interface (kv : string * json) : option (string * json) :=
  pair (fst kv) <$> to_interface (snd kv).

Lemma to_interface_obj fs :
  to_interface (JObj fs) = (JObj ∘ obj_of_members) <$> mapM member_to_interface fs.
Proof.
  cbn [to_interface]. match goal with |- match ?f fs with _ => _ end = _ => set (go := f) end.
  assert (E : go fs = mapM member_to_interface fs).
  { induction fs as [|[k x] fs IH]; [done|]. cbn. fold go. rewrite IH. unfold member_to_interface.
    simpl. destruct (to_interface x), (mapM _ fs); done. }
  rewrite E. by destruct (mapM member_to_interface fs).
Qed.

Lemma mapM_id {A} (f : A -> option A) l : Forall (fun x => f x = Some x) l -> mapM f l = Some l.
Proof. induction 1 as [|x l H _ IH]; [done|]. cbn. by rewrite H, IH. Qed.

Lemma to_interface_wf j : wf_json j = true -> to_interface j = Some j.
Proof.
  induction j as [|b|lit|s|l IH|fs IH] using json_ind'; intros Hw; try done.
  - simpl in *. apply andb_true_iff in Hw as [Hw _]. apply bool_decide_eq_true in Hw. by rewrite Hw.
  - rewrite to_interface_arr, mapM_id; [done|]. by eapply forallb_Forall_imp.
  - simpl in Hw. apply andb_true_iff in Hw as [Hk Hw]. rewrite to_interface_obj, mapM_id.
    + simpl. by rewrite obj_of_members_sorted.
    + eapply (forallb_Forall_imp (fun kv => valid_utf8 0 (fst kv) && wf_json (snd kv))); [|exact Hw].
      eapply Forall_impl; [exact IH|]. intros [k v] H. simpl. rewrite andb_true_iff. intros [_ ?].
      unfold member_to_interface. simpl in *. by rewrite H.
Qed.

Lemma json_roundtrip j : wf_json j = true -> json_Unmarshal (json_Marshal j) = Some j.
Proof.
  intros Hw. unfold json_Unmarshal, json_parse.
  pose proof (marshal_parses_back j Hw (parse_fuel (json_Marshal j)) "") as H.
  rewrite str_app_nil in H. rewrite H by (done || (unfold parse_fuel; lia)). simpl.
  by apply to_interface_wf.
Qed.

(** ** What the decoder produces is well formed *)

Lemma code_chr z : 0 <= z < 256 -> code (chr z) = z.
Proof. intros. unfold code, chr. rewrite Ascii.N_ascii_embedding by lia. lia. Qed.

(** Decides the comparisons of the goal from the linear facts of the context. *)
Ltac decide_tests :=
  repeat (match goal with
  | |- context [?a <=? ?b] =>
      first [replace (a <=? b) with true by lia | replace (a <=? b) with false by lia]
  | |- context [?a <? ?b] =>
      first [replace (a <? b) with true by lia | replace (a <? b) with false by lia]
  | |- context [?a =? ?b] =>
      first [replace (a =? b) with true by lia | replace (a =? b) with false by lia]
  end; cbn [andb orb negb]; cbn beta iota).

Lemma utf8_encode_valid r s :
  0 <= r < 1114112 -> surrogate r = false -> valid_utf8 0 (utf8_encode r +:+ s) = valid_utf8 0 s.
Proof.
  intros Hr Hs. unfold surrogate in Hs. apply andb_false_iff in Hs.
  rewrite Z.leb_gt, Z.ltb_ge in Hs. unfold utf8_encode.
  assert (Hm : 0 <= r mod 64 < 64) by (apply Z.mod_pos_bound; lia).
  assert (Hm1 : 0 <= (r / 64) mod 64 < 64) by (apply Z.mod_pos_bound; lia).
  assert (Hm2 : 0 <= (r / 4096) mod 64 < 64) by (apply Z.mod_pos_bound; lia).
  pose proof (Z.div_mod r 64 ltac:(lia)) as E0.
  pose proof (Z.div_mod (r / 64) 64 ltac:(lia)) as E1.
  rewrite Z.div_div in E1 by lia. change (64 * 64) with 4096 in E1.
  pose proof (Z.div_mod (r / 4096) 64 ltac:(lia)) as E2.
  rewrite Z.div_div in E2 by lia. change (4096 * 64) with 262144 in E2.
  destruct (Z.ltb_spec r 128); [|destruct (Z.ltb_spec r 2048); [|destruct (Z.ltb_spec r 65536)]];
    str_norm; cbn [valid_utf8]; unfold rune_extra, in_range; rewrite ?code_chr by lia.
  - by decide_tests.
  - by decide_tests.
  - decide_tests. destruct (Z.eqb_spec (224 + r / 4096) 224), (Z.eqb_spec (224 + r / 4096) 237);
      by decide_tests.
  - decide_tests. destruct (Z.eqb_spec (240 + r / 262144) 240), (Z.eqb_spec (240 + r / 262144) 244);
      by decide_tests.
Qed.

(** The next [n] bytes are continuation bytes. *)
Fixpoint conts (n : nat) (s : string) : bool :=
  match n with
  | O => true
  | S n' => match s with String c s' => in_range 128 191 c && conts n' s' | EmptyString => false end
  end.

Lemma in_range_weaken lo hi c : in_range lo hi c = true -> 128 <= lo -> hi <= 191 ->
  in_range 128 191 c = true.
Proof. unfold in_range. rewrite !andb_true_iff, !Z.leb_le. lia. Qed.

Lemma rune_extra_conts c s n : rune_extra c s = Some n -> conts n s = true.
Proof.
  unfold rune_extra. intros H.
  destruct s as [|c1 s1]; [done|]. destruct (in_range 194 223 c); [split_matches; simpl; by rewrite H0|].
  destruct s1 as [|c2 s2]; [done|].
  set (lo := if code c =? 224 then _ else _) in H. set (hi := if code c =? 237 then _ else _) in H.
  assert (Hc1 : in_range lo hi c1 = true -> in_range 128 191 c1 = true).
  { intros Hc. apply (in_range_weaken _ _ _ Hc); unfold lo, hi; split_matches; lia. }
  destruct (in_range 224 239 c).
  - destruct (in_range lo hi c1 && in_range 128 191 c2) eqn:E; [|done]. injection H as <-.
    apply andb_true_iff in E as [E1 E2]. simpl. by rewrite Hc1, E2.
  - destruct s2 as [|c3 s3]; [done|].
    destruct (in_range 240 244 c && in_range lo hi c1 && in_range 128 191 c2 && in_range 128 191 c3)
      eqn:E; [|done]. injection H as <-. rewrite !andb_true_iff in E. destruct E as [[[_ E1] E2] E3].
    simpl. by rewrite Hc1, E2, E3.
Qed.

Lemma rune_extra_take c s s' n :
  rune_extra c s = Some n -> str_take n s = str_take n s' -> rune_extra c s' = Some n.
Proof.
  intros H E. pose proof (rune_extra_conts _ _ _ H) as Hc.
  destruct (rune_extra_pos _ _ _ H) as [-> | [-> | ->]];
    destruct s as [|c1 [|c2 [|c3 s]]]; try done; destruct s' as [|c1' [|c2' [|c3' s']]]; try done;
    injection E as ->; subst; unfold rune_extra in *; split_matches.
Qed.

Lemma hex_val_range c z : hex_val c = Some z -> 0 <= z < 16.
Proof. unfold hex_val. intros. split_matches; lia. Qed.

Lemma read_hex4_range s z t : read_hex4 s = Some (z, t) -> 0 <= z < 65536.
Proof.
  unfold read_hex4. intros. split_matches.
  repeat match goal with H : hex_val _ = Some _ |- _ => apply hex_val_range in H end. lia.
Qed.

Lemma utf16_pair_range r1 r2 r : utf16_pair r1 r2 = Some r -> 65536 <= r < 1114112.
Proof. unfold utf16_pair. intros. split_matches. lia. Qed.

Lemma prepend_Some p r x t : prepend p r = Some (x, t) -> exists y, r = Some (y, t) /\ x = p +:+ y.
Proof. destruct r as [[y u]|]; simpl; [|done]. intros [= <- <-]. by exists y. Qed.

Lemma surrogate_big r : 65536 <= r -> surrogate r = false.
Proof. unfold surrogate. lia. Qed.

Lemma simple_escape_low e x : simple_escape e = Some x -> (code x <? 128) = true.
Proof.
  unfold simple_escape. intros H. repeat (destruct (_ || _) eqn:? in H || destruct (_ =? _) in H);
    try discriminate H; injection H as <-; try reflexivity; lia.
Qed.

Lemma valid_utf8_low c s : (code c <? 128) = true -> valid_utf8 0 (String c "" +:+ s) = valid_utf8 0 s.
Proof. intros H. str_norm. simpl. by rewrite H. Qed.

Lemma parse_str_valid fuel : forall copy s x r,
  parse_str fuel copy s = Some (x, r) -> conts copy s = true ->
  valid_utf8 copy x = true /\ str_take copy s = str_take copy x.
Proof.
  induction fuel as [|fuel IH]; [done|]. intros copy s x r H Hc. destruct s as [|c s]; [done|].
  destruct copy as [|copy].
  2: { cbn [parse_str] in H. apply prepend_Some in H as (y & H & ->). simpl in Hc.
       apply andb_true_iff in Hc as [Hc1 Hc2]. apply IH in H as [H1 H2]; [|done].
       str_norm. simpl. by rewrite Hc1, H1, H2. }
  split; [|done]. cbn [parse_str] in H. destruct (code c =? 34); [by injection H as <- <-|].
  destruct (Z.ltb_spec (code c) 32); [done|].
  destruct (Z.eqb_spec (code c) 92) as [E92|E92].
  - destruct s as [|e s]; [done|]. destruct (code e =? 117).
    + destruct (read_hex4 s) as [[r1 s3]|] eqn:E1; [|done]. apply read_hex4_range in E1.
      destruct (surrogate r1) eqn:Es.
      * assert (Herr : forall t, prepend utf8_error (parse_str fuel 0 t) = Some (x, r) ->
          valid_utf8 0 x = true).
        { intros t (y & Hy & ->)%prepend_Some. unfold utf8_error.
          rewrite utf8_encode_valid by done. by apply IH in Hy as [? _]. }
        destruct s3 as [|b [|u s4]]; [by eapply Herr|by eapply Herr|].
        destruct ((code b =? 92) && (code u =? 117)); [|by eapply Herr].
        destruct (read_hex4 s4) as [[r2 s5]|]; [|done].
        destruct (utf16_pair r1 r2) as [rr|] eqn:Ep; [|by eapply Herr].
        apply utf16_pair_range in Ep. apply prepend_Some in H as (y & Hy & ->).
        rewrite utf8_encode_valid by (lia || (apply surrogate_big; lia)). by apply IH in Hy as [? _].
      * apply prepend_Some in H as (y & Hy & ->). rewrite utf8_encode_valid by (lia || done).
        by apply IH in Hy as [? _].
    + destruct (simple_escape e) as [xe|] eqn:Ee; [|done]. apply prepend_Some in H as (y & Hy & ->).
      rewrite valid_utf8_low by (by eapply simple_escape_low). by apply IH in Hy as [? _].
  - destruct (code c <? 128) eqn:Hlow.
    + apply prepend_Some in H as (y & Hy & ->). rewrite valid_utf8_low by done.
      by apply IH in Hy as [? _].
    + destruct (rune_extra c s) as [n'|] eqn:Er.
      * apply prepend_Some in H as (y & Hy & ->). str_norm. simpl. rewrite Hlow.
        apply IH in Hy as [H1 H2]; [|by eapply rune_extra_conts].
        by rewrite (rune_extra_take _ _ _ _ Er H2).
      * apply prepend_Some in H as (y & Hy & ->). unfold utf8_error.
        rewrite utf8_encode_valid by done. by apply IH in Hy as [? _].
Qed.

Lemma span_digits_token s d r : span_digits s = (d, r) -> s = d +:+ r.
Proof.
  revert d r. induction s as [|c s IH]; simpl; intros d r H; [by injection H as <- <-|].
  destruct (is_digit c); [|by injection H as <- <-].
  destruct (span_digits s) as [d' r'] eqn:E. injection H as <- <-.
  str_norm. by rewrite <- (IH d' r').
Qed.

Lemma one_char_token p s a r : one_char p s = (a, r) -> s = a +:+ r.
Proof. destruct s as [|c s]; simpl; intros H; [|destruct (p c)]; by injection H as <- <-. Qed.

Lemma scan_int_token s i r : scan_int s = Some (i, r) -> s = i +:+ r.
Proof.
  unfold scan_int. destruct s as [|c s]; [done|].
  destruct (code c =? 48); [by intros [= <- <-]|].
  destruct (span_digits (String c s)) as [d r'] eqn:E. apply span_digits_token in E.
  destruct d; [done|]. by intros [= <- <-].
Qed.

Lemma scan_frac_token s a f r : scan_frac s = Some (a, f, r) -> s = a +:+ r.
Proof.
  unfold scan_frac. destruct s as [|c s]; [by intros [= <- <- <-]|].
  destruct (code c =? 46); [|by intros [= <- <- <-]].
  destruct (span_digits s) as [d r'] eqn:E. apply span_digits_token in E.
  destruct d; [done|]. intros [= <- <- <-]. str_norm. by rewrite E.
Qed.

Lemma scan_exp_token s a b e r : scan_exp s = Some (a, b, e, r) -> s = a +:+ r.
Proof.
  unfold scan_exp. destruct s as [|c s]; [by intros [= <- <- <- <-]|].
  destruct ((code c =? 101) || (code c =? 69)); [|by intros [= <- <- <- <-]].
  destruct (one_char _ s) as [sg r0] eqn:E0. apply one_char_token in E0.
  destruct (span_digits r0) as [d r'] eqn:E. apply span_digits_token in E.
  destruct d; [done|]. intros [= <- <- <- <-]. str_norm. rewrite E0, E. by str_norm.
Qed.

Lemma scan_number_token s t n r : scan_number s = Some (t, n, r) -> s = t +:+ r.
Proof.
  unfold scan_number. destruct (one_char _ s) as [sg r0] eqn:E0. apply one_char_token in E0.
  destruct (scan_int r0) as [[i r1]|] eqn:E1; [|done]. apply scan_int_token in E1.
  destruct (scan_frac r1) as [[[ft f] r2]|] eqn:E2; [|done]. apply scan_frac_token in E2.
  destruct (scan_exp r2) as [[[[et en] e] r3]|] eqn:E3; [|done]. apply scan_exp_token in E3.
  intros [= <- <- <-]. rewrite E0, E1, E2, E3. by str_norm.
Qed.

#[local] Opaque shortest nearest_float format_decimal number_decimal.

Lemma float_text_wf lit t : float_text lit = Some t -> wf_json (JNum t) = true.
Proof.
  intros H. unfold float_text in H.
  destruct (scan_number lit) as [[[t0 n] []]|] eqn:E0; try done.
  destruct (number_decimal n) as [d p] eqn:Ed. destruct (nearest_float d p) as [[q k]|] eqn:Ef; [|done].
  destruct (if q =? 0 then _ else _) as [[d' p']|] eqn:Es; [|done].
  set (u := (if num_neg n then "-" else "") +:+ format_decimal d' p') in *.
  destruct (scan_number u) as [[[t1 n'] []]|] eqn:E1; try done.
  destruct (Bool.eqb _ _ && _) eqn:Ec; [|done]. injection H as <-.
  apply andb_true_iff in Ec as [Hneg Hval]. apply Bool.eqb_prop in Hneg.
  unfold float_eqb in Hval. apply bool_decide_eq_true in Hval.
  cbn [wf_json]. apply andb_true_iff. split.
  - apply bool_decide_eq_true. unfold float_text. rewrite E1.
    destruct (number_decimal n') as [d1 p1] eqn:Ed1. cbn [fst snd] in Hval. rewrite Hval, Es, Hneg.
    fold u. rewrite E1, Ed1, Hneg, Bool.eqb_reflx. cbn [fst snd andb]. rewrite Hval.
    unfold float_eqb. by rewrite bool_decide_eq_true_2.
  - rewrite E1. apply scan_number_token in E1. rewrite str_app_nil in E1.
    by rewrite bool_decide_eq_true_2.
Qed.

Fixpoint strings_valid (j : json) : bool :=
  match j with
  | JStr s => valid_utf8 0 s
  | JArr l => forallb strings_valid l
  | JObj fs => forallb (fun kv => valid_utf8 0 (fst kv) && strings_valid (snd kv)) fs
  | _ => true
  end.

(** Splits the head [match] of hypothesis [H] without simplifying the rest. *)
Ltac head_match H :=
  repeat match type of H with
  | match ?x with _ => _ end = _ => destruct x eqn:?; try discriminate H
  end.

Lemma parse_valid fuel :
  (forall s j r, parse_value fuel s = Some (j, r) -> strings_valid j = true) /\
  (forall s l r, parse_elems fuel s = Some (l, r) -> forallb strings_valid l = true) /\
  (forall s fs r, parse_members fuel s = Some (fs, r) ->
     forallb (fun kv => valid_utf8 0 (fst kv) && strings_valid (snd kv)) fs = true).
Proof.
  induction fuel as [|fuel (IH1 & IH2 & IH3)]; [done|]. split; [|split].
  - intros s j r H. cbn [parse_value] in H. head_match H; injection H as <- <-; try reflexivity;
      [by eapply parse_str_valid|by eapply IH2|by eapply IH3].
  - intros s l r H. cbn [parse_elems] in H. head_match H; injection H as <- <-;
      cbn [forallb]; rewrite ?andb_true_iff; eauto.
  - intros s fs r H. cbn [parse_members] in H. head_match H; injection H as <- <-;
      cbn [forallb fst snd]; rewrite !andb_true_iff;
      (split; [split; [by eapply parse_str_valid|by eapply IH1]|]); eauto.
Qed.

Lemma mapM_forallb {A B} (f : A -> option B) (p : A -> bool) (q : B -> bool) l k :
  Forall (fun x => forall y, f x = Some y -> p x = true -> q y = true) l ->
  mapM f l = Some k -> forallb p l = true -> forallb q k = true.
Proof.
  intros H. revert k. induction H as [|x l Hx _ IH]; intros k E Hp; [by injection E as <-|].
  cbn in E. destruct (f x) as [y|] eqn:Ey; [|done]. cbn in E.
  destruct (mapM f l) as [k'|]; [|done]. injection E as <-.
  simpl in *. apply andb_true_iff in Hp as [? ?]. rewrite (Hx y) by done. simpl. by apply IH.
Qed.

Lemma to_interface_decoded j : forall j',
  to_interface j = Some j' -> strings_valid j = true -> wf_json j' = true.
Proof.
  induction j as [|b|lit|s|l IH|fs IH] using json_ind'; intros j' H Hv;
    try (by injection H as <-).
  - simpl in H. destruct (float_text lit) eqn:E; [|done]. injection H as <-.
    by eapply float_text_wf.
  - rewrite to_interface_arr in H. destruct (mapM _ l) as [k|] eqn:E; [|done]. injection H as <-.
    simpl in *. by eapply mapM_forallb.
  - rewrite to_interface_obj in H. destruct (mapM _ fs) as [k|] eqn:E; [|done]. injection H as <-.
    cbn [wf_json]. apply andb_true_iff, obj_of_members_wf. simpl in Hv.
    eapply mapM_forallb; [|exact E|exact Hv]. eapply Forall_impl; [exact IH|].
    intros [k1 v1] H1 [k2 v2] H2. unfold member_to_interface in H2. simpl in *.
    destruct (to_interface v1) as [v'|]; [|done]. injection H2 as <- <-.
    rewrite !andb_true_iff. intros [? ?]. split; [done|]. by apply H1.
Qed.

(** What a text decodes to is well formed, so it survives being marshalled and decoded again. *)
Lemma json_Unmarshal_wf s j : json_Unmarshal s = Some j -> wf_json j = true.
Proof.
  unfold json_Unmarshal, json_parse. intros H.
  destruct (parse_value _ s) as [[v r]|] eqn:E; [|done]. destruct (skip_ws r); [|done].
  eapply to_interface_decoded; [done|]. by eapply (proj1 (parse_valid _)).
Qed.

(** Decoding is stable: whatever text a client sends, the value it decodes to, marshalled and
    decoded again, is the same value. *)
Lemma json_decoded_roundtrip s j :
  json_Unmarshal s = Some j -> json_Unmarshal (json_Marshal j) = Some j.
Proof. intros H. by apply json_roundtrip, (json_Unmarshal_wf s). Qed.

Example json_decoded_roundtrip_sample :
  json_Unmarshal (jtext " [2.5e2, {'b':7, 'a' : 'é<', 'b': 1000000000000000000000}]")
  = Some (JArr [JNum "250"; JObj [("a", JStr "é<"); ("b", JNum "1e+21")]]).
Proof. vm_compute. reflexivity. Qed.

(** ** Locality: a value is read the same way whatever follows it *)

Lemma skip_ws_app s c t rest : skip_ws s = String c t -> skip_ws (s +:+ rest) = String c (t +:+ rest).
Proof.
  induction s as [|x s IH]; simpl; [done|]. rewrite ?str_app_cons. simpl.
  destruct (json_space x); [done|]. by intros [= <- <-].
Qed.

Fixpoint has_low (s : string) : bool :=
  match s with
  | EmptyString => false
  | String c s' => (code c <? 128) || has_low s'
  end.

Lemma has_low_app s t : has_low t = true -> has_low (s +:+ t) = true.
Proof. intros H. induction s as [|c s IH]; [done|]. rewrite str_app_cons. simpl. rewrite IH. lia. Qed.

Lemma read_hex4_token s z t : read_hex4 s = Some (z, t) -> exists a, s = a +:+ t.
Proof.
  unfold read_hex4. intros H. head_match H. injection H as _ <-.
  by eexists (String _ (String _ (String _ (String _ "")))).
Qed.

Lemma read_hex4_app s z t rest : read_hex4 s = Some (z, t) -> read_hex4 (s +:+ rest) = Some (z, t +:+ rest).
Proof.
  destruct s as [|a [|b [|c [|d s]]]]; try done. str_norm. unfold read_hex4.
  destruct (hex_val a), (hex_val b), (hex_val c), (hex_val d); try done. by intros [= <- <-].
Qed.

Lemma parse_str_low fuel : forall copy s x r, parse_str fuel copy s = Some (x, r) -> has_low s = true.
Proof.
  induction fuel as [|fuel IH]; [done|]. intros copy s x r H. destruct s as [|c s]; [done|].
  destruct copy as [|copy]; cbn [parse_str] in H; cbn [has_low].
  - destruct (Z.eqb_spec (code c) 34); [lia|]. destruct (Z.ltb_spec (code c) 32); [done|].
    destruct (Z.eqb_spec (code c) 92); [lia|]. destruct (Z.ltb_spec (code c) 128); [done|]. simpl.
    destruct (rune_extra c s); apply prepend_Some in H as (y & H & _); by eapply IH.
  - apply prepend_Some in H as (y & H & _). rewrite (IH _ _ _ _ H). by rewrite orb_true_r.
Qed.

Lemma in_range_low c lo hi : (code c <? 128) = true -> 128 <= lo -> in_range lo hi c = false.
Proof. unfold in_range. lia. Qed.

Lemma rune_extra_app c s rest :
  has_low s = true -> rune_extra c (s +:+ rest) = rune_extra c s.
Proof.
  intros H. destruct s as [|c1 s]; [done|]. rewrite str_app_cons.
  destruct (code c1 <? 128) eqn:E1.
  - assert (L : forall t, rune_extra c (String c1 t) = None).
    { intros t. unfold rune_extra. rewrite (in_range_low c1 128) by (done || lia).
      set (lo := if code c =? 224 then _ else _). set (hi := if code c =? 237 then _ else _).
      rewrite (in_range_low c1 lo) by (done || unfold lo; split_matches; lia).
      rewrite andb_false_r. by split_matches. }
    by rewrite !L.
  - simpl in H. rewrite E1 in H. simpl in H. destruct s as [|c2 s]; [done|]. rewrite str_app_cons.
    destruct (code c2 <? 128) eqn:E2; [|by destruct s; simpl in H; rewrite ?E2 in H].
    assert (L : forall t, rune_extra c (String c1 (String c2 t)) =
      if in_range 194 223 c then (if in_range 128 191 c1 then Some 1%nat else None) else None).
    { intros t. unfold rune_extra. rewrite (in_range_low c2 128) by (done || lia).
      rewrite !andb_false_r. by split_matches. }
    by rewrite !L.
Qed.

Lemma prepend_app p r x t (f : option (string * string)) rest :
  prepend p r = Some (x, t) ->
  (forall y, r = Some (y, t) -> f = Some (y, t +:+ rest)) ->
  prepend p f = Some (x, t +:+ rest).
Proof. intros (y & -> & ->)%prepend_Some H. by rewrite (H y). Qed.

Lemma code_inj c z : 0 <= z < 256 -> code c = z -> c = chr z.
Proof.
  intros Hz <-. unfold code, chr. by rewrite N2Z.id, Ascii.ascii_N_embedding.
Qed.

(** Only a closing quote ends a string. *)
Lemma parse_str_quote fuel b x r : parse_str fuel 0 (String b "") = Some (x, r) -> b = quote_char.
Proof.
  destruct fuel as [|fuel]; [done|]. cbn [parse_str]. destruct (Z.eqb_spec (code b) 34) as [E|E].
  - intros _. by apply (code_inj b 34).
  - destruct (code b <? 32); [done|]. destruct (code b =? 92); [done|].
    destruct (code b <? 128); [by destruct fuel|]. by destruct fuel.
Qed.

Lemma parse_str_app fuel : forall copy s x r fuel' rest,
  parse_str fuel copy s = Some (x, r) -> (fuel <= fuel')%nat ->
  parse_str fuel' copy (s +:+ rest) = Some (x, r +:+ rest).
Proof.
  induction fuel as [|fuel IH]; [done|]. intros copy s x r fuel' rest H Hf.
  destruct fuel' as [|fuel']; [lia|]. destruct s as [|c s]; [done|]. rewrite str_app_cons.
  assert (Hrec : forall p n t, prepend p (parse_str fuel n t) = Some (x, r) ->
    prepend p (parse_str fuel' n (t +:+ rest)) = Some (x, r +:+ rest)).
  { intros p n t Hp. eapply prepend_app; [exact Hp|]. intros y Hy. apply (IH _ _ _ _ _ _ Hy). lia. }
  destruct copy as [|copy]; cbn [parse_str] in H |- *; [|by apply Hrec].
  destruct (code c =? 34); [by injection H as <- <-|].
  destruct (code c <? 32); [done|]. destruct (code c =? 92).
  - destruct s as [|e s]; [done|]. rewrite str_app_cons. destruct (code e =? 117).
    + destruct (read_hex4 s) as [[r1 s3]|] eqn:E1; [|done]. rewrite (read_hex4_app _ _ _ _ E1).
      destruct (surrogate r1); [|by apply Hrec].
      destruct s3 as [|b [|u s4]].
      * apply prepend_Some in H as (y & Hy & _). by destruct fuel.
      * pose proof (prepend_Some _ _ _ _ H) as (y & Hy & _). apply parse_str_quote in Hy as ->.
        rewrite str_app_cons, str_app_empty. apply Hrec in H. rewrite str_app_cons, str_app_empty in H.
        by destruct rest.
      * rewrite !str_app_cons. destruct ((code b =? 92) && (code u =? 117)); [|by apply Hrec in H].
        destruct (read_hex4 s4) as [[r2 s5]|] eqn:E2; [|done]. rewrite (read_hex4_app _ _ _ _ E2).
        destruct (utf16_pair r1 r2); [by apply Hrec|by apply Hrec in H].
    + destruct (simple_escape e); [by apply Hrec|done].
  - destruct (code c <? 128); [by apply Hrec|].
    assert (Hl : has_low s = true).
    { destruct (rune_extra c s); apply prepend_Some in H as (y & Hy & _); by eapply parse_str_low. }
    rewrite rune_extra_app by done. destruct (rune_extra c s); by apply Hrec.
Qed.

Lemma expect_app w s r rest : expect w s = Some r -> expect w (s +:+ rest) = Some (r +:+ rest).
Proof.
  unfold expect, str_HasPrefix. revert s. induction w as [|c w IH]; intros s.
  - destruct s; intros [= <-]; by destruct rest.
  - destruct s as [|c' s]; [done|]. rewrite str_app_cons. cbn [String.prefix str_drop].
    destruct (Ascii.ascii_dec c c'); [apply IH|done].
Qed.

Lemma parse_app fuel :
  (forall s j r fuel' rest, parse_value fuel s = Some (j, r) -> (fuel <= fuel')%nat ->
     num_stop rest = true -> parse_value fuel' (s +:+ rest) = Some (j, r +:+ rest)) /\
  (forall s l r fuel' rest, parse_elems fuel s = Some (l, r) -> (fuel <= fuel')%nat ->
     num_stop rest = true -> parse_elems fuel' (s +:+ rest) = Some (l, r +:+ rest)) /\
  (forall s fs r fuel' rest, parse_members fuel s = Some (fs, r) -> (fuel <= fuel')%nat ->
     num_stop rest = true -> parse_members fuel' (s +:+ rest) = Some (fs, r +:+ rest)).
Proof.
  induction fuel as [|fuel (IH1 & IH2 & IH3)]; [done|].
  assert (Hstr : forall t x r rest, parse_str (S (String.length t)) 0 t = Some (x, r) ->
    parse_str (S (String.length (t +:+ rest))) 0 (t +:+ rest) = Some (x, r +:+ rest)).
  { intros t x r rest H. apply (parse_str_app _ _ _ _ _ _ _ H). rewrite str_length_app. lia. }
  split; [|split]; intros s ? r [|fuel'] rest H Hf Hs; try lia; apply le_S_n in Hf.
  - cbn [parse_value] in H |- *. destruct (skip_ws s) as [|c t] eqn:Es; [done|].
    rewrite (skip_ws_app _ _ _ _ Es). destruct (code c =? 34).
    { head_match H. injection H as <- <-. by erewrite Hstr. }
    destruct (code c =? 91).
    { destruct (skip_ws t) as [|c' t'] eqn:Et; [done|]. rewrite (skip_ws_app _ _ _ _ Et).
      head_match H; injection H as <- <-; [done|]. by erewrite IH2. }
    destruct (code c =? 123).
    { destruct (skip_ws t) as [|c' t'] eqn:Et; [done|]. rewrite (skip_ws_app _ _ _ _ Et).
      head_match H; injection H as <- <-; [done|]. by erewrite IH3. }
    rewrite <- str_app_cons.
    destruct (code c =? 110); [head_match H; injection H as <- <-; by erewrite expect_app|].
    destruct (code c =? 116); [head_match H; injection H as <- <-; by erewrite expect_app|].
    destruct (code c =? 102); [head_match H; injection H as <- <-; by erewrite expect_app|].
    head_match H. injection H as <- <-. by erewrite scan_number_app.
  - cbn [parse_elems] in H |- *. destruct (parse_value fuel s) as [[v r0]|] eqn:Ev; [|done].
    rewrite (IH1 _ _ _ _ _ Ev) by done. destruct (skip_ws r0) as [|c t] eqn:Et; [done|].
    rewrite (skip_ws_app _ _ _ _ Et). head_match H; injection H as <- <-; [|done].
    by erewrite IH2.
  - cbn [parse_members] in H |- *. destruct (skip_ws s) as [|q t] eqn:Es; [done|].
    rewrite (skip_ws_app _ _ _ _ Es). destruct (negb (code q =? 34)); [done|].
    destruct (parse_str _ 0 t) as [[k r1]|] eqn:Ek; [|done]. rewrite (Hstr _ _ _ _ Ek).
    destruct (skip_ws r1) as [|c r2] eqn:E1; [done|]. rewrite (skip_ws_app _ _ _ _ E1).
    destruct (negb (code c =? 58)); [done|].
    destruct (parse_value fuel r2) as [[v r3]|] eqn:Ev; [|done].
    rewrite (IH1 _ _ _ _ _ Ev) by done. destruct (skip_ws r3) as [|c' t'] eqn:E3; [done|].
    rewrite (skip_ws_app _ _ _ _ E3). head_match H; injection H as <- <-; [|done].
    by erewrite IH3.
Qed.

(** ** Objects written from raw members *)

(** A raw message without surrounding white space that holds one value. *)
Definition raw_ok (v : string) : bool :=
  head_ok v && match parse_value (parse_fuel v) v with Some (_, EmptyString) => true | _ => false end.

Definition raw_member_text (kv : string * string) : string := quoted (fst kv) +:+ ":" +:+ snd kv.

Definition raw_object (kvs : list (string * string)) : string :=
  "{" +:+ str_Join (map raw_member_text kvs) "," +:+ "}".

Lemma str_take_app a b : str_take (String.length a) (a +:+ b) = a.
Proof. induction a as [|c a IH]; [done|]. rewrite str_app_cons. simpl. by rewrite IH. Qed.

Lemma raw_ok_parse v rest fuel : raw_ok v = true -> num_stop rest = true ->
  (parse_fuel v <= fuel)%nat -> exists j, parse_value fuel (v +:+ rest) = Some (j, rest).
Proof.
  unfold raw_ok. rewrite andb_true_iff. intros [_ H] Hs Hf.
  destruct (parse_value (parse_fuel v) v) as [[j []]|] eqn:E; try done. exists j.
  by apply (proj1 (parse_app _) _ _ _ _ rest E).
Qed.

Lemma raw_value_ok v rest : raw_ok v = true -> num_stop rest = true ->
  raw_value (v +:+ rest) = Some (v, rest).
Proof.
  intros Hv Hs. unfold raw_value.
  rewrite head_ok_skip_ws by (apply head_ok_app; unfold raw_ok in Hv; by apply andb_true_iff in Hv as [? _]).
  destruct (raw_ok_parse v rest (parse_fuel (v +:+ rest)) Hv Hs) as [j ->].
  { unfold parse_fuel. rewrite str_length_app. lia. }
  rewrite str_length_app. replace (_ + _ - _)%nat with (String.length v) by lia.
  by rewrite str_take_app.
Qed.

Definition raw_members_text (kvs : list (string * string)) : string :=
  str_Join (map raw_member_text kvs) ",".

Definition member_ok (kv : string * string) : bool := valid_utf8 0 (fst kv) && raw_ok (snd kv).

Lemma raw_member_text_app k v t :
  raw_member_text (k, v) +:+ t =
  String quote_char (escape_str 0 0 k +:+ quote +:+ String (chr 58) (v +:+ t)).
Proof. unfold raw_member_text, quoted. simpl (fst _). simpl (snd _). by str_norm. Qed.

Lemma raw_members_text_cons kv kv' kvs :
  raw_members_text (kv :: kv' :: kvs) = raw_member_text kv +:+ String (chr 44) (raw_members_text (kv' :: kvs)).
Proof. done. Qed.

Lemma raw_members_ok kvs : kvs <> [] -> Forall (fun kv => member_ok kv = true) kvs ->
  forall fuel rest, (length kvs <= fuel)%nat ->
  raw_members fuel (raw_members_text kvs +:+ String (chr 125) rest) = Some kvs.
Proof.
  induction kvs as [|[k v] kvs IH]; [done|]. intros _ Hall fuel rest Hf.
  inversion Hall as [|? ? Hk Hl]; subst. apply andb_true_iff in Hk as [Hk Hv]. simpl in Hk, Hv, Hf.
  destruct fuel as [|fuel]; [lia|].
  assert (Hgo : forall t, num_stop t = true -> raw_members (S fuel) (raw_member_text (k, v) +:+ t) =
      match skip_ws t with
      | EmptyString => None
      | String c r' =>
          if code c =? 44
          then match raw_members fuel r' with Some l => Some ((k, v) :: l) | None => None end
          else Some [(k, v)]
      end).
  { intros t Ht. rewrite raw_member_text_app. cbn [raw_members skip_ws]. eval_chars.
    rewrite (quoted_roundtrip k) by done. cbn [skip_ws]. eval_chars. cbn [str_drop].
    by rewrite raw_value_ok. }
  destruct kvs as [|kv' kvs]; [unfold raw_members_text; cbn [map str_Join]; by rewrite Hgo|].
  rewrite raw_members_text_cons, str_app_assoc, str_app_cons, Hgo by done. cbn [skip_ws]. eval_chars.
  rewrite IH by (done || lia). done.
Qed.

Lemma raw_members_parse kvs : kvs <> [] -> Forall (fun kv => member_ok kv = true) kvs ->
  forall fuel rest, (2 * String.length (raw_members_text kvs) + 1 <= fuel)%nat ->
  exists fs, fs <> [] /\
    parse_members fuel (raw_members_text kvs +:+ String (chr 125) rest) = Some (fs, rest).
Proof.
  induction kvs as [|[k v] kvs IH]; [done|]. intros _ Hall fuel rest Hf.
  inversion Hall as [|? ? Hk Hl]; subst. apply andb_true_iff in Hk as [Hk Hv]. simpl in Hk, Hv.
  destruct fuel as [|fuel]; [lia|].
  assert (Hlen : (String.length (raw_member_text (k, v)) >= 3 + String.length v)%nat).
  { unfold raw_member_text, quoted. rewrite !str_length_app. simpl. lia. }
  assert (Hfv : (parse_fuel v <= fuel)%nat).
  { unfold parse_fuel. destruct kvs; unfold raw_members_text in Hf; cbn [map str_Join] in Hf;
      rewrite ?str_length_app in Hf; lia. }
  assert (Hgo : forall t, num_stop t = true -> exists j,
      parse_members (S fuel) (raw_member_text (k, v) +:+ t) =
      match skip_ws t with
      | EmptyString => None
      | String c r' =>
          if code c =? 44
          then match parse_members fuel r' with Some (l, r'') => Some ((k, j) :: l, r'') | None => None end
          else if code c =? 125 then Some ([(k, j)], r') else None
      end).
  { intros t Ht. destruct (raw_ok_parse v t fuel Hv Ht Hfv) as [j Hj]. exists j.
    rewrite raw_member_text_app. cbn [parse_members skip_ws]. eval_chars.
    rewrite (quoted_roundtrip k) by done. cbn [skip_ws]. eval_chars. by rewrite Hj. }
  destruct kvs as [|kv' kvs].
  - unfold raw_members_text. cbn [map str_Join].
    destruct (Hgo (String (chr 125) rest) eq_refl) as [j ->]. by exists [(k, j)].
  - rewrite raw_members_text_cons in Hf |- *. rewrite str_length_app in Hf. simpl in Hf.
    rewrite str_app_assoc, str_app_cons.
    destruct (Hgo (String (chr 44) (raw_members_text (kv' :: kvs) +:+ String (chr 125) rest)) eq_refl)
      as [j ->]. destruct (IH ltac:(done) Hl fuel rest ltac:(lia)) as (fs & _ & E).
    cbn [skip_ws]. eval_chars. rewrite E. by exists ((k, j) :: fs).
Qed.

Lemma raw_members_text_length kvs : (length kvs <= String.length (raw_members_text kvs))%nat.
Proof.
  induction kvs as [|kv [|kv' kvs] IH]; [done| |].
  - unfold raw_members_text, raw_member_text, quoted. cbn [map str_Join length].
    rewrite !str_length_app. simpl. lia.
  - rewrite raw_members_text_cons, str_length_app. cbn [length String.length] in *. lia.
Qed.

Lemma raw_object_parse kvs : kvs <> [] -> Forall (fun kv => member_ok kv = true) kvs ->
  exists fs, fs <> [] /\
    parse_value (parse_fuel (raw_object kvs)) (raw_object kvs) = Some (JObj fs, "").
Proof.
  intros Hn Hall.
  assert (E : raw_object kvs = String (chr 123) (raw_members_text kvs +:+ String (chr 125) "")) by done.
  assert (Hh : head_ok (raw_members_text kvs) = true) by (by destruct kvs as [|? [|? ?]]).
  rewrite E. set (body := raw_members_text kvs +:+ String (chr 125) "").
  assert (Hf : (2 * String.length (raw_members_text kvs) + 3 <= parse_fuel (String (chr 123) body))%nat).
  { unfold parse_fuel, body. cbn [String.length]. rewrite str_length_app. simpl. lia. }
  destruct (parse_fuel (String (chr 123) body)) as [|fuel]; [lia|].
  destruct (raw_members_parse kvs Hn Hall fuel "" ltac:(lia)) as (fs & Hfs & Ep). exists fs.
  pose proof (head_ok_app _ (String (chr 125) "") Hh) as Hb. fold body in Hb, Ep.
  cbn [parse_value skip_ws]. eval_chars. rewrite (head_ok_skip_ws _ Hb).
  destruct (head_ok_tests _ Hb) as (c & t & Et & _ & Hc). rewrite Et at 1. by rewrite Hc, Ep.
Qed.

(** An object written member by member holds these raw members. *)
Lemma json_shape_raw_object kvs : kvs <> [] -> Forall (fun kv => member_ok kv = true) kvs ->
  json_shape (raw_object kvs) = Some (RawObj kvs).
Proof.
  intros Hn Hall. destruct (raw_object_parse kvs Hn Hall) as (fs & Hfs & Ep).
  unfold json_shape, json_parse. rewrite Ep. cbn [skip_ws]. destruct fs; [done|].
  assert (E : raw_object kvs = String (chr 123) (raw_members_text kvs +:+ String (chr 125) "")) by done.
  rewrite E. cbn [skip_ws]. eval_chars. cbn [str_drop]. rewrite raw_members_ok; [done|done|done|].
  pose proof (raw_members_text_length kvs). unfold parse_fuel. simpl. rewrite str_length_app. lia.
Qed.

Lemma raw_object_ok kvs : kvs <> [] -> Forall (fun kv => member_ok kv = true) kvs ->
  raw_ok (raw_object kvs) = true /\ exists fs, json_parse (raw_object kvs) = Some (JObj fs).
Proof.
  intros Hn Hall. destruct (raw_object_parse kvs Hn Hall) as (fs & Hfs & Ep).
  unfold raw_ok, json_parse. rewrite Ep. split; [done|]. by exists fs.
Qed.

Lemma marshal_raw_ok j : wf_json j = true -> raw_ok (json_Marshal j) = true.
Proof.
  intros H. unfold raw_ok. rewrite marshal_head by done. cbn [andb].
  pose proof (marshal_parses_back j H (parse_fuel (json_Marshal j)) "") as P.
  rewrite str_app_nil in P. rewrite P by (done || (unfold parse_fuel; lia)). done.
Qed.

Lemma json_parse_marshal j : wf_json j = true -> json_parse (json_Marshal j) = Some j.
Proof.
  intros H. unfold json_parse.
  pose proof (marshal_parses_back j H (parse_fuel (json_Marshal j)) "") as P.
  rewrite str_app_nil in P. by rewrite P by (done || (unfold parse_fuel; lia)).
Qed.

Lemma raw_ok_json_parse v : raw_ok v = true -> exists j, json_parse v = Some j.
Proof.
  unfold raw_ok, json_parse. rewrite andb_true_iff. intros [_ H].
  destruct (parse_value (parse_fuel v) v) as [[j []]|]; try done. by exists j.
Qed.

Lemma raw_ok_ne v : raw_ok v = true -> v <> "".
Proof. by intros H ->. Qed.

(** A raw message in compact form marshals to itself. *)
Lemma marshal_raw_compact v :
  raw_ok v = true -> compact_go false false v = v -> marshal_raw v = Some v.
Proof.
  intros H Hc. unfold marshal_raw. rewrite bool_decide_eq_false_2 by (by apply raw_ok_ne).
  destruct (raw_ok_json_parse v H) as [j ->]. by rewrite Hc.
Qed.

(** ** Integers *)

Fixpoint all_digits (s : string) : bool :=
  match s with EmptyString => true | String c s' => is_digit c && all_digits s' end.

Lemma span_all_digits s : all_digits s = true -> span_digits s = (s, "").
Proof.
  induction s as [|c s IH]; simpl; [done|]. rewrite andb_true_iff. intros [H1 H2].
  by rewrite H1, (IH H2).
Qed.

Lemma digit_chr d : 0 <= d < 10 -> is_digit (chr (48 + d)) = true /\ code (chr (48 + d)) - 48 = d.
Proof. intros. unfold is_digit. rewrite code_chr by lia. split; [|lia]. lia. Qed.

Lemma digits_val_app s : forall a t, digits_val a (s +:+ t) = digits_val (digits_val a s) t.
Proof. induction s as [|c s IH]; intros a t; [done|]. rewrite str_app_cons. simpl. apply IH. Qed.

(** The decimal digits of [z]: no leading zero, and they denote [z]. *)
Lemma digits_of_spec f : forall z acc, 0 <= z < 10 ^ Z.of_nat f -> (1 <= f)%nat ->
  exists d c ds, d = String c ds /\ digits_of f z acc = d +:+ acc /\ all_digits d = true /\
    digits_val 0 d = z /\ (code c = 48 -> ds = "" /\ z = 0).
Proof.
  induction f as [|f IH]; intros z acc Hz Hf; [lia|]. cbn [digits_of].
  assert (Hm : 0 <= z mod 10 < 10) by (apply Z.mod_pos_bound; lia).
  destruct (digit_chr (z mod 10) Hm) as [Hd Hv].
  destruct (Z.ltb_spec z 10) as [Hlt|Hge].
  - exists (String (chr (48 + z mod 10)) ""), (chr (48 + z mod 10)), "".
    rewrite Z.mod_small in * by lia. split_and!; [done|done|simpl; by rewrite Hd|simpl; lia|].
    rewrite code_chr by lia. intros ?. split; [done|lia].
  - assert (Hq : 1 <= z / 10 < 10 ^ Z.of_nat f).
    { rewrite Nat2Z.inj_succ, Z.pow_succ_r in Hz by lia. split; [apply Z.div_le_lower_bound; lia|].
      apply Z.div_lt_upper_bound; lia. }
    destruct f as [|f]; [simpl in Hq; lia|].
    destruct (IH (z / 10) (String (chr (48 + z mod 10)) acc) ltac:(lia) ltac:(lia))
      as (d & c & ds & -> & E & Ha & Hval & Hz0).
    exists (String c (ds +:+ String (chr (48 + z mod 10)) "")), c,
      (ds +:+ String (chr (48 + z mod 10)) ""). split; [done|]. split.
    { rewrite E. by str_norm. }
    split.
    { simpl in *. apply andb_true_iff in Ha as [H1 H2]. rewrite H1. simpl. clear - H2 Hd.
      induction ds as [|x ds IH]; str_norm; simpl in *; [by rewrite Hd|].
      apply andb_true_iff in H2 as [-> H2]. by apply IH. }
    split; [|intros H0; destruct (Hz0 H0); lia].
    rewrite <- str_app_cons, digits_val_app, Hval. cbn [digits_val]. rewrite Hv.
    pose proof (Z.div_mod z 10). lia.
Qed.

Lemma scan_int_digits c ds :
  all_digits (String c ds) = true -> (code c = 48 -> ds = "") -> scan_int (String c ds) = Some (String c ds, "").
Proof.
  intros H H0. unfold scan_int. destruct (Z.eqb_spec (code c) 48) as [E|E]; [by rewrite H0|].
  by rewrite span_all_digits.
Qed.

Lemma dec_string_scan z : in_i64 z -> exists i, digits_val 0 i = Z.abs z /\
  scan_number (dec_string z) = Some (dec_string z, mkNumber (z <? 0) i "" false "", "").
Proof.
  intros Hz. unfold in_i64 in Hz. unfold dec_string.
  assert (H : 0 <= Z.abs z < 10 ^ Z.of_nat 25) by (change (10 ^ Z.of_nat 25) with (10 ^ 25); lia).
  destruct (digits_of_spec 25 (Z.abs z) "" H ltac:(lia)) as (d & c & ds & -> & E & Ha & Hv & H0).
  rewrite str_app_nil in E. exists (String c ds). split; [done|].
  assert (Hi : scan_int (String c ds) = Some (String c ds, "")) by (apply scan_int_digits; naive_solver).
  destruct (Z.ltb_spec z 0).
  - replace (- z) with (Z.abs z) by lia. rewrite E. unfold scan_number. str_norm. cbn [one_char].
    eval_chars. rewrite Hi. cbn [scan_frac scan_exp]. str_norm. by rewrite ?str_app_nil.
  - replace z with (Z.abs z) at 1 2 by lia. rewrite E. unfold scan_number. cbn [one_char].
    assert (Hd : is_digit c = true) by (simpl in Ha; by apply andb_true_iff in Ha as [? _]).
    unfold is_digit in Hd. destruct (Z.eqb_spec (code c) 45); [lia|]. rewrite Hi.
    cbn [scan_frac scan_exp]. str_norm. by rewrite ?str_app_nil.
Qed.

(** ** Decoded slices and maps *)

Lemma unmarshal_slice_wf raw l : unmarshal_slice raw = Some l -> forallb wf_json l = true.
Proof.
  unfold unmarshal_slice. destruct (json_Unmarshal raw) as [j|] eqn:E; [|done].
  apply json_Unmarshal_wf in E. destruct j; try done; by intros [= <-].
Qed.

Lemma unmarshal_slice_marshal l : forallb wf_json l = true -> unmarshal_slice (json_Marshal (JArr l)) = Some l.
Proof. intros H. unfold unmarshal_slice. by rewrite json_roundtrip. Qed.

Lemma forallb_lookup {A} (p : A -> bool) l i x : forallb p l = true -> l !! i = Some x -> p x = true.
Proof. rewrite forallb_forall. intros H Hi. apply H. apply list_elem_of_In. by eapply list_elem_of_lookup_2. Qed.

Lemma forallb_insert {A} (p : A -> bool) l i x :
  forallb p l = true -> p x = true -> forallb p (<[i := x]> l) = true.
Proof.
  revert i. induction l as [|y l IH]; intros [|i]; simpl; try done; rewrite !andb_true_iff; naive_solver.
Qed.

Lemma obj_lookup_insert_eq k v fs : keys_increasing fs = true -> obj_lookup k (obj_insert k v fs) = Some v.
Proof.
  induction fs as [|[k' v'] fs IH]; intros H; simpl; [by rewrite bool_decide_eq_true_2|].
  apply keys_increasing_cons in H as [H1 H2].
  destruct (String.compare k k') eqn:E; simpl.
  - by rewrite bool_decide_eq_true_2.
  - by rewrite bool_decide_eq_true_2.
  - rewrite bool_decide_eq_false_2; [by apply IH|]. intros ->.
    pose proof (String.compare_antisym k' k') as Ha. rewrite E in Ha. done.
Qed.

Lemma str_compare_refl k : String.compare k k = Eq.
Proof.
  pose proof (String.compare_antisym k k) as H. by destruct (String.compare k k).
Qed.

Lemma obj_lookup_insert_ne k k' v fs : k <> k' -> obj_lookup k' (obj_insert k v fs) = obj_lookup k' fs.
Proof.
  intros N. induction fs as [|[k1 v1] fs IH]; simpl; [by rewrite bool_decide_eq_false_2|].
  destruct (String.compare k k1) eqn:E; simpl.
  - apply String.compare_eq_iff in E as ->. by rewrite !bool_decide_eq_false_2.
  - by rewrite (bool_decide_eq_false_2 (k' = k)).
  - by rewrite IH.
Qed.

Lemma obj_lookup_wf k v fs : wf_json (JObj fs) = true -> obj_lookup k fs = Some v -> wf_json v = true.
Proof.
  cbn [wf_json]. rewrite andb_true_iff. intros [_ H]. revert H.
  induction fs as [|[k1 v1] fs IH]; simpl; [done|]. rewrite !andb_true_iff. intros [[_ H1] H2].
  case_bool_decide; [by intros [= <-]|auto].
Qed.

Lemma obj_insert_wf k v fs : wf_json (JObj fs) = true -> valid_utf8 0 k = true -> wf_json v = true ->
  wf_json (JObj (obj_insert k v fs)) = true.
Proof.
  cbn [wf_json]. rewrite !andb_true_iff. intros [H1 H2] Hk Hv.
  split; [by apply obj_insert_increasing|]. apply obj_insert_forallb; [|done]. simpl. by rewrite Hk, Hv.
Qed.

(** ** Fields joined by colons: the last colon separates a part without colons *)

Fixpoint no_colon (s : string) : bool :=
  match s with EmptyString => true | String c s' => negb (code c =? 58) && no_colon s' end.

Lemma all_digits_no_colon s : all_digits s = true -> no_colon s = true.
Proof.
  induction s as [|c s IH]; simpl; [done|]. rewrite !andb_true_iff. intros [H1 H2]. split; [|auto].
  unfold is_digit in H1. destruct (Z.eqb_spec (code c) 58); [lia|done].
Qed.

Lemma colon_split a b d e : no_colon d = true -> no_colon e = true ->
  a +:+ ":" +:+ d = b +:+ ":" +:+ e -> a = b /\ d = e.
Proof.
  intros Hd He. revert b.
  assert (Hcol : forall x y, no_colon (x +:+ String (chr 58) y) = false).
  { induction x as [|c x IH]; intros y; [done|]. rewrite str_app_cons. simpl. rewrite IH. apply andb_false_r. }
  change ":" with (String (chr 58) "").
  induction a as [|c a IH]; intros [|c' b] H; rewrite ?str_app_cons, ?str_app_empty in H.
  - by injection H as ->.
  - exfalso. injection H as <- ->. by rewrite Hcol in Hd.
  - exfalso. injection H as -> <-. by rewrite Hcol in He.
  - injection H as -> H. apply IH in H as [-> ->]. done.
Qed.

Lemma str_app_inv_head a b c : a +:+ b = a +:+ c -> b = c.
Proof. induction a as [|x a IH]; [done|]. rewrite !str_app_cons. intros [= H]. auto. Qed.
