(* ===== verification/JsonRaw.v ===== *)
(** Raw messages: the text a [json.RawMessage] holds after decoding is itself valid JSON.

    A value is read from its own text the way it is read from the whole input, so cutting the text
    out of the input (what [raw_value] of Json does) loses nothing.  With it the raw parameters and
    ids of a decoded request can always be marshalled again. *)

From S2P Require Import Prelude Json JsonFacts.

Open Scope Z_scope.

(** ** Strings *)

Lemma read_hex4_cut s z t : read_hex4 s = Some (z, t) ->
  exists a, s = a +:+ t /\ String.length a = 4%nat /\ forall t', read_hex4 (a +:+ t') = Some (z, t').
Proof.
  destruct s as [|a [|b [|c [|d s]]]]; try done. unfold read_hex4 at 1. intros H. head_match H. injection H as <- <-.
  exists (String a (String b (String c (String d "")))). split; [done|]. split; [done|]. intros t'. str_norm.
  unfold read_hex4. by rewrite Heqo, Heqo0, Heqo1, Heqo2.
Qed.

(** The text of a string literal, with its closing quote. *)
Definition str_cut (copy : nat) (s x r v : string) : Prop :=
  s = v +:+ r /\ forall fuel, (String.length v <= fuel)%nat -> parse_str fuel copy v = Some (x, "").

Lemma str_cut_low copy s x r v : str_cut copy s x r v -> has_low v = true.
Proof. intros [_ H]. eapply parse_str_low, (H _ (le_n _)). Qed.

Lemma str_cut_cons c copy s x r v : str_cut copy s x r v -> str_cut (S copy) (String c s) (String c "" +:+ x) r (String c v).
Proof.
  intros [-> H]. split; [by str_norm|]. intros [|fuel] Hf; [cbn in Hf; lia|]. cbn [parse_str].
  rewrite H by (cbn in Hf; lia). done.
Qed.

(** What the decoder does after [\uXXXX]. *)
Definition after_hex (fuel : nat) (r1 : Z) (s3 : string) : option (string * string) :=
  if surrogate r1 then
    match s3 with
    | String b (String u s4) =>
        if (code b =? 92) && (code u =? 117) then
          match read_hex4 s4 with
          | Some (r2, s5) =>
              match utf16_pair r1 r2 with
              | Some q => prepend (utf8_encode q) (parse_str fuel 0 s5)
              | None => prepend utf8_error (parse_str fuel 0 s3)
              end
          | None => None
          end
        else prepend utf8_error (parse_str fuel 0 s3)
    | _ => prepend utf8_error (parse_str fuel 0 s3)
    end
  else prepend (utf8_encode r1) (parse_str fuel 0 s3).

Section after_hex.
Context (fuel : nat) (IH : forall s x r, parse_str fuel 0 s = Some (x, r) -> exists v, str_cut 0 s x r v).

Lemma prepend_cut p s x r : prepend p (parse_str fuel 0 s) = Some (x, r) ->
  exists v, s = v +:+ r /\ has_low v = true /\
    forall f, (String.length v <= f)%nat -> prepend p (parse_str f 0 v) = Some (x, "") /\ is_Some (parse_str f 0 v).
Proof.
  intros (y & Hy & ->)%prepend_Some. apply IH in Hy as [v Hv]. exists v. pose proof (str_cut_low _ _ _ _ _ Hv) as Hl.
  destruct Hv as [-> Hv]. split; [done|]. split; [done|]. intros f Hf. by rewrite Hv by done.
Qed.

(** A text that is read and starts with an escape holds the whole escape. *)
Lemma escape_whole f b u s4 r r2 s5 : (code b =? 92) && (code u =? 117) = true ->
  is_Some (parse_str f 0 (String b (String u s4))) -> read_hex4 (s4 +:+ r) = Some (r2, s5) -> exists s5', read_hex4 s4 = Some (r2, s5').
Proof.
  intros [Eb%Z.eqb_eq Eu%Z.eqb_eq]%andb_true_iff [p Hp] Hr. destruct f as [|f]; [done|]. cbn [parse_str] in Hp. rewrite Eb, Eu in Hp.
  cbn in Hp. destruct (read_hex4 s4) as [[r2' s5']|] eqn:E; [|done]. rewrite (read_hex4_app _ _ _ r E) in Hr.
  injection Hr as <- _. by exists s5'.
Qed.

Lemma after_hex_cut r1 s3 x r : after_hex fuel r1 s3 = Some (x, r) ->
  exists v, s3 = v +:+ r /\ forall f, (String.length v <= f)%nat -> after_hex f r1 v = Some (x, "").
Proof.
  unfold after_hex. destruct (surrogate r1); [|intros (v & -> & _ & Hv)%prepend_cut; exists v; split; [done|intros; by apply Hv]].
  intros H. assert (Hpair : (exists b u s4 r2 s5 q, s3 = String b (String u s4) /\ (code b =? 92) && (code u =? 117) = true /\
      read_hex4 s4 = Some (r2, s5) /\ utf16_pair r1 r2 = Some q /\ prepend (utf8_encode q) (parse_str fuel 0 s5) = Some (x, r))
    \/ (prepend utf8_error (parse_str fuel 0 s3) = Some (x, r) /\ forall b u s4, s3 = String b (String u s4) ->
          (code b =? 92) && (code u =? 117) = true -> exists r2 s5, read_hex4 s4 = Some (r2, s5) /\ utf16_pair r1 r2 = None)).
  { destruct s3 as [|b [|u s4]]; [by right|by right|]. destruct (_ && _) eqn:E.
    - destruct (read_hex4 s4) as [[r2 s5]|] eqn:Er; [|done]. destruct (utf16_pair r1 r2) as [q|] eqn:Eq.
      + left. by exists b, u, s4, r2, s5, q.
      + right. split; [done|]. intros ? ? ? [= <- <- <-] _. by exists r2, s5.
    - right. split; [done|]. intros ? ? ? [= <- <- <-]. by rewrite E. }
  clear H. destruct Hpair as [(b & u & s4 & r2 & s5 & q & -> & E & Er & Eq & H)|[H Hn]].
  - apply prepend_cut in H as (v & -> & _ & Hv). apply read_hex4_cut in Er as (a & -> & Ha & Hr).
    exists (String b (String u (a +:+ v))). split; [by str_norm|]. intros f Hf. rewrite E, Hr, Eq. apply Hv.
    cbn in Hf. rewrite str_length_app in Hf. lia.
  - apply prepend_cut in H as (v & -> & _ & Hv). exists v. split; [done|]. intros f Hf. destruct (Hv f Hf) as [Hp Hs].
    destruct v as [|b [|u s4]]; [done|done|]. destruct (_ && _) eqn:E; [|done].
    destruct (Hn b u (s4 +:+ r)) as (r2 & s5 & Hr & Hq); [by str_norm|done|].
    destruct (escape_whole _ _ _ _ _ _ _ E Hs Hr) as [s5' ->]. by rewrite Hq.
Qed.

End after_hex.

Lemma parse_str_cut fuel : forall copy s x r, parse_str fuel copy s = Some (x, r) -> exists v, str_cut copy s x r v.
Proof.
  induction fuel as [|fuel IH]; [done|]. intros copy s x r H. destruct s as [|c s]; [done|].
  destruct copy as [|copy]; cbn [parse_str] in H.
  2: { apply prepend_Some in H as (y & Hy & ->). apply IH in Hy as [v Hv]. exists (String c v). by apply str_cut_cons. }
  assert (Hcons : forall t v, s = t +:+ v +:+ r -> (forall f, (String.length v <= f)%nat ->
      parse_str (S f) 0 (String c (t +:+ v)) = Some (x, "")) -> exists v', str_cut 0 (String c s) x r v').
  { intros t v -> Hv. exists (String c (t +:+ v)). split; [by str_norm|]. intros [|f] Hf; cbn in Hf; [lia|].
    apply Hv. rewrite str_length_app in Hf. lia. }
  destruct (code c =? 34) eqn:E1.
  { injection H as <- <-. apply (Hcons "" ""); [done|]. intros f _. cbn [parse_str String.append]. str_norm. cbn [parse_str]. by rewrite E1. }
  destruct (code c <? 32) eqn:E2; [done|]. destruct (code c =? 92) eqn:E3.
  - destruct s as [|e s]; [done|]. destruct (code e =? 117) eqn:E4.
    + destruct (read_hex4 s) as [[r1 s3]|] eqn:Eh; [|done]. apply read_hex4_cut in Eh as (a & -> & _ & Hh).
      apply (after_hex_cut fuel (IH 0%nat)) in H as (v & -> & Hv). apply (Hcons (String e a) v); [by str_norm|].
      intros f Hf. str_norm. cbn [parse_str]. rewrite E1, E2, E3, E4, Hh. by apply Hv.
    + destruct (simple_escape e) as [y|] eqn:Ey; [|done]. apply (prepend_cut fuel (IH 0%nat)) in H as (v & -> & _ & Hv).
      apply (Hcons (String e "") v); [by str_norm|]. intros f Hf. str_norm. cbn [parse_str]. rewrite E1, E2, E3, E4, Ey. by apply Hv.
  - destruct (code c <? 128) eqn:E4.
    + apply (prepend_cut fuel (IH 0%nat)) in H as (v & -> & _ & Hv). apply (Hcons "" v); [done|].
      intros f Hf. str_norm. cbn [parse_str]. rewrite E1, E2, E3, E4. by apply Hv.
    + assert (Hn : exists n p, rune_extra c s = n /\ prepend p (parse_str fuel (default 0%nat n) s) = Some (x, r) /\
          p = (match n with Some _ => String c "" | None => utf8_error end)) by (destruct (rune_extra c s); by eexists _, _).
      destruct Hn as (n & p & En & (y & Hy & ->)%prepend_Some & Ep). apply IH in Hy as [v Hv].
      pose proof (str_cut_low _ _ _ _ _ Hv) as Hl. destruct Hv as [-> Hv]. rewrite rune_extra_app in En by done.
      apply (Hcons "" v); [done|]. intros f Hf. str_norm. cbn [parse_str]. rewrite E1, E2, E3, E4, En.
      destruct n; cbn in Hv; rewrite Hv by done; subst p; done.
Qed.

(** ** Numbers *)

(** A scanner that stops at [r] stops at the end of the token, too. *)
Lemma span_digits_cut s d r : span_digits s = (d, r) -> forall t,
  match t with String c _ => is_digit c = false | EmptyString => True end -> span_digits (d +:+ t) = (d, t).
Proof.
  revert d r. induction s as [|c s IH]; intros d r H t Ht; cbn [span_digits] in H.
  - injection H as <- <-. str_norm. destruct t; cbn; [done|]. by rewrite Ht.
  - destruct (is_digit c) eqn:E.
    + destruct (span_digits s) as [d' r'] eqn:E'. injection H as <- <-. str_norm. cbn. by rewrite E, (IH d' r') by done.
    + injection H as <- <-. str_norm. destruct t; cbn; [done|]. by rewrite Ht.
Qed.

Lemma one_char_cut p s a r : one_char p s = (a, r) -> forall t,
  (a = "" -> match t with String c _ => p c = false | EmptyString => True end) -> one_char p (a +:+ t) = (a, t).
Proof.
  destruct s as [|c s]; cbn; intros H t Ht; [injection H as <- <-|destruct (p c) eqn:E; injection H as <- <-]; str_norm.
  - destruct t; cbn; [done|]. by rewrite Ht.
  - cbn. by rewrite E.
  - destruct t; cbn; [done|]. by rewrite Ht.
Qed.

Lemma scan_int_cut s i r : scan_int s = Some (i, r) ->
  (exists c i', i = String c i' /\ is_digit c = true) /\ forall t,
  match t with String c _ => is_digit c = false | EmptyString => True end -> scan_int (i +:+ t) = Some (i, t).
Proof.
  unfold scan_int. destruct s as [|c s]; [done|]. destruct (code c =? 48) eqn:E.
  - intros [= <- <-]. split; [exists c, ""; split; [done|]; unfold is_digit; lia|]. intros t _. str_norm. by rewrite E.
  - destruct (span_digits (String c s)) as [[|c' d] r'] eqn:Es; [done|]. intros [= <- <-].
    assert (c' = c /\ is_digit c = true) as [-> Ed].
    { cbn in Es. destruct (is_digit c); [|done]. destruct (span_digits s). by injection Es as <- _ _. }
    split; [by exists c, d|]. intros t Ht. rewrite str_app_cons, E, <- str_app_cons. by rewrite (span_digits_cut _ _ _ Es).
Qed.

Lemma scan_frac_cut s a f r : scan_frac s = Some (a, f, r) ->
  (match a with String c _ => is_digit c = false /\ (code c =? 45) = false | EmptyString => True end) /\ forall t,
  match t with String c _ => is_digit c = false /\ (code c =? 46) = false | EmptyString => True end -> scan_frac (a +:+ t) = Some (a, f, t).
Proof.
  assert (Hnone : forall t, match t with String c _ => is_digit c = false /\ (code c =? 46) = false | EmptyString => True end ->
    scan_frac ("" +:+ t) = Some ("", "", t)).
  { intros [|c t] Ht; [done|]. str_norm. cbn. by rewrite (proj2 Ht). }
  unfold scan_frac at 1. destruct s as [|c s]; [by intros [= <- <- <-]|].
  destruct (code c =? 46) eqn:E; [|by intros [= <- <- <-]]. destruct (span_digits s) as [[|c' d] r'] eqn:Es; [done|].
  intros [= <- <- <-]. split; [unfold is_digit; lia|]. intros t Ht. rewrite str_app_cons. cbn [scan_frac].
  rewrite E, (span_digits_cut _ _ _ Es); [done|]. destruct t; [done|]. by destruct Ht.
Qed.

Lemma scan_exp_cut s a b e r : scan_exp s = Some (a, b, e, r) ->
  match a with String c _ => is_digit c = false /\ (code c =? 46) = false | EmptyString => True end /\ scan_exp a = Some (a, b, e, "").
Proof.
  unfold scan_exp at 1. destruct s as [|c s]; [by intros [= <- <- <- <-]|].
  destruct ((code c =? 101) || (code c =? 69)) eqn:E; [|by intros [= <- <- <- <-]].
  destruct (one_char _ s) as [sg r0] eqn:E0. destruct (span_digits r0) as [[|c' d] r'] eqn:Es; [done|].
  intros [= <- <- <- <-]. split; [unfold is_digit; lia|]. cbn [scan_exp]. rewrite E.
  assert (Hc : is_digit c' = true).
  { destruct r0 as [|c0 r0]; [done|]. cbn in Es. destruct (is_digit c0) eqn:Ed; [|done]. destruct (span_digits r0). by injection Es as <- _ _. }
  rewrite (one_char_cut _ _ _ _ E0); [|intros _; unfold is_digit in Hc; lia].
  pose proof (span_digits_cut _ _ _ Es "" I) as Hd. rewrite str_app_nil in Hd. by rewrite Hd.
Qed.

Lemma scan_number_cut s t n r : scan_number s = Some (t, n, r) -> s = t +:+ r /\ scan_number t = Some (t, n, "").
Proof.
  intros H. split; [by eapply scan_number_token|]. unfold scan_number in H.
  destruct (one_char _ s) as [sg r0] eqn:E0. destruct (scan_int r0) as [[i r1]|] eqn:E1; [|done].
  destruct (scan_frac r1) as [[[ft f] r2]|] eqn:E2; [|done]. destruct (scan_exp r2) as [[[[et en] e] r3]|] eqn:E3; [|done].
  injection H as <- <- <-. apply scan_int_cut in E1 as [(c & i' & -> & Hc) H1]. apply scan_frac_cut in E2 as [Hf H2].
  apply scan_exp_cut in E3 as [He H3]. unfold scan_number.
  rewrite (one_char_cut _ _ _ _ E0); [|intros _; str_norm; unfold is_digit in Hc; lia].
  rewrite H1; [|destruct ft; str_norm; [destruct et; [done|by destruct He]|by destruct Hf]]. by rewrite H2, H3.
Qed.

(** ** Values *)

Lemma skip_ws_cut s c t : skip_ws s = String c t -> exists w, s = w +:+ String c t /\ skip_ws w = "" /\ json_space c = false.
Proof.
  induction s as [|x s IH]; [done|]. cbn. destruct (json_space x) eqn:E.
  - intros (w & -> & Hw & Hc)%IH. exists (String x w). split; [by str_norm|]. cbn. by rewrite E.
  - intros [= -> ->]. by exists "".
Qed.

Lemma skip_ws_spaces w c t : skip_ws w = "" -> json_space c = false -> skip_ws (w +:+ String c t) = String c t.
Proof.
  intros Hw Hc. induction w as [|x w IH]; str_norm; cbn; [by rewrite Hc|]. cbn in Hw. destruct (json_space x); [by apply IH|done].
Qed.

Lemma space_stops x t : json_space x = true -> num_stop (String x t) = true.
Proof. unfold json_space, num_stop, is_digit. lia. Qed.

Lemma spaces_stop w c t : skip_ws w = "" -> num_stop (String c "") = true -> num_stop (w +:+ String c t) = true.
Proof.
  intros Hw Hc. destruct w as [|x w]; str_norm; [done|]. cbn in Hw. destruct (json_space x) eqn:E; [|done]. by apply space_stops.
Qed.

Lemma expect_cut w s r : expect w s = Some r -> s = w +:+ r.
Proof.
  unfold expect, str_HasPrefix. revert s. induction w as [|c w IH]; intros s.
  - destruct s; by intros [= <-].
  - destruct s as [|c' s]; [done|]. cbn [String.prefix str_drop String.length].
    destruct (Ascii.ascii_dec c c') as [->|]; [|done]. intros ->%IH. by str_norm.
Qed.

(** The text of a value, of the rest of an array and of the rest of an object, up to where they end. *)
Definition value_cut (s : string) (j : json) (r v : string) : Prop :=
  s = v +:+ r /\ forall fuel, (2 * String.length v + 1 <= fuel)%nat -> parse_value fuel v = Some (j, "").
Definition elems_cut (s : string) (l : list json) (r v : string) : Prop :=
  s = v +:+ r /\ forall fuel, (2 * String.length v <= fuel)%nat -> parse_elems fuel v = Some (l, "").
Definition members_cut (s : string) (fs : list (string * json)) (r v : string) : Prop :=
  s = v +:+ r /\ forall fuel, (2 * String.length v <= fuel)%nat -> parse_members fuel v = Some (fs, "").

Lemma skip_ws_app_l w v : skip_ws w = "" -> skip_ws (w +:+ v) = skip_ws v.
Proof. intros Hw. induction w as [|x w IH]; str_norm; [done|]. cbn in *. destruct (json_space x); [by apply IH|done]. Qed.

Lemma value_cut_spaces w s j r v : skip_ws w = "" -> value_cut s j r v -> value_cut (w +:+ s) j r (w +:+ v).
Proof.
  intros Hw [-> Hv]. split; [by str_norm|]. intros fuel Hf. rewrite str_length_app in Hf. rewrite <- (Hv fuel) by lia.
  destruct fuel; [done|]. cbn [parse_value]. by rewrite skip_ws_app_l.
Qed.

Lemma parse_elems_head fuel s p : parse_elems fuel s = Some p -> skip_ws s <> "".
Proof. destruct fuel as [|[|fuel]]; cbn [parse_elems parse_value]; [done|done|]. by intros H E; rewrite E in H. Qed.

Lemma parse_members_head fuel s p : parse_members fuel s = Some p -> skip_ws s <> "".
Proof. destruct fuel as [|fuel]; cbn [parse_members]; [done|]. by intros H E; rewrite E in H. Qed.

Lemma skip_ws_head v r c t : skip_ws v <> "" -> skip_ws (v +:+ r) = String c t -> exists t', skip_ws v = String c t'.
Proof.
  intros Hv H. destruct (skip_ws v) as [|x y] eqn:E; [done|]. rewrite (skip_ws_app _ _ _ _ E) in H. injection H as -> _. by exists y.
Qed.

Section grammar.
Context (fuel : nat).
Context (IHv : forall s j r, parse_value fuel s = Some (j, r) -> exists v, value_cut s j r v).
Context (IHe : forall s l r, parse_elems fuel s = Some (l, r) -> exists v, elems_cut s l r v).
Context (IHm : forall s fs r, parse_members fuel s = Some (fs, r) -> exists v, members_cut s fs r v).

(** A literal word. *)
Lemma word_cut c t w r j : expect w (String c t) = Some r ->
  (forall f, parse_value (S f) w = Some (j, "")) -> exists v, value_cut (String c t) j r v.
Proof.
  intros ->%expect_cut Hw. exists w. split; [done|]. intros [|f] Hf; [lia|]. apply Hw.
Qed.

Lemma parse_value_cut s j r : parse_value (S fuel) s = Some (j, r) -> exists v, value_cut s j r v.
Proof.
  intros H. cbn [parse_value] in H. destruct (skip_ws s) as [|c t] eqn:Es; [done|].
  apply skip_ws_cut in Es as (w & -> & Hw & Hc).
  assert (exists v, value_cut (String c t) j r v) as [v Hv]; [|eexists; by apply value_cut_spaces].
  destruct (code c =? 34) eqn:E1.
  { head_match H. injection H as <- <-. match goal with H : parse_str _ _ _ = _ |- _ => apply parse_str_cut in H as [v [-> Hv]] end.
    exists (String c v). split; [by str_norm|]. intros [|f] Hf; [lia|]. cbn [parse_value skip_ws]. rewrite Hc, E1. by rewrite Hv by lia. }
  destruct (code c =? 91) eqn:E2.
  { destruct (skip_ws t) as [|c' t'] eqn:Et; [done|]. destruct (code c' =? 93) eqn:E3.
    - injection H as <- <-. apply skip_ws_cut in Et as (w' & -> & Hw' & Hc'). exists (String c (w' +:+ String c' "")).
      split; [by str_norm|]. intros [|f] Hf; [lia|]. cbn [parse_value skip_ws]. rewrite Hc, E1, E2, skip_ws_spaces by done. by rewrite E3.
    - head_match H. injection H as <- <-. match goal with H : parse_elems _ _ = _ |- _ => apply IHe in H as [v [-> Hv]] end.
      exists (String c v). split; [by str_norm|]. intros [|f] Hf; [lia|]. cbn [String.length] in Hf. cbn [parse_value skip_ws].
      rewrite Hc, E1, E2. rewrite Hv by lia. pose proof (Hv _ (le_n _)) as Hh. apply parse_elems_head in Hh.
      destruct (skip_ws_head _ _ _ _ Hh Et) as [t'' ->]. by rewrite E3. }
  destruct (code c =? 123) eqn:E3.
  { destruct (skip_ws t) as [|c' t'] eqn:Et; [done|]. destruct (code c' =? 125) eqn:E4.
    - injection H as <- <-. apply skip_ws_cut in Et as (w' & -> & Hw' & Hc'). exists (String c (w' +:+ String c' "")).
      split; [by str_norm|]. intros [|f] Hf; [lia|]. cbn [parse_value skip_ws]. rewrite Hc, E1, E2, E3, skip_ws_spaces by done. by rewrite E4.
    - head_match H. injection H as <- <-. match goal with H : parse_members _ _ = _ |- _ => apply IHm in H as [v [-> Hv]] end.
      exists (String c v). split; [by str_norm|]. intros [|f] Hf; [lia|]. cbn [String.length] in Hf. cbn [parse_value skip_ws].
      rewrite Hc, E1, E2, E3. rewrite Hv by lia. pose proof (Hv _ (le_n _)) as Hh. apply parse_members_head in Hh.
      destruct (skip_ws_head _ _ _ _ Hh Et) as [t'' ->]. by rewrite E4. }
  destruct (code c =? 110); [head_match H; injection H as <- <-; by eapply word_cut|].
  destruct (code c =? 116); [head_match H; injection H as <- <-; by eapply word_cut|].
  destruct (code c =? 102); [head_match H; injection H as <- <-; by eapply word_cut|].
  head_match H. injection H as <- <-. match goal with H : scan_number _ = _ |- _ => apply scan_number_cut in H as [-> H]; rename H into Hn end.
  apply scan_number_dispatch in Hn as [_ Hn]. eexists. split; [done|]. intros [|f] Hf; [lia|]. apply Hn.
Qed.

(** A value, white space and the delimiter [c]. *)
Lemma value_then v j r w c t f : value_cut (v +:+ r) j r v -> skip_ws w = "" -> num_stop (String c "") = true ->
  (2 * String.length v + 1 <= f)%nat -> parse_value f (v +:+ w +:+ String c t) = Some (j, w +:+ String c t).
Proof.
  intros [_ Hv] Hw Hc Hf. apply (proj1 (parse_app f) v j "" f); [by apply Hv|done|by apply spaces_stop].
Qed.

Lemma parse_elems_cut s l r : parse_elems (S fuel) s = Some (l, r) -> exists v, elems_cut s l r v.
Proof.
  intros H. cbn [parse_elems] in H. destruct (parse_value fuel s) as [[x r0]|] eqn:Ev; [|done].
  apply IHv in Ev as [v Hv]. pose proof (proj1 Hv) as ->. destruct (skip_ws r0) as [|c t] eqn:Es; [done|].
  apply skip_ws_cut in Es as (w & -> & Hw & Hc). destruct (code c =? 44) eqn:E1.
  - head_match H. injection H as <- <-. match goal with H : parse_elems _ _ = _ |- _ => apply IHe in H as [v' [-> Hv']] end.
    exists (v +:+ w +:+ String c v'). split; [by str_norm|]. intros [|f] Hf; rewrite !str_length_app in Hf; cbn [String.length] in Hf; [lia|].
    cbn [parse_elems]. erewrite value_then; [|exact Hv|done|cbn; unfold is_digit; lia|lia].
    rewrite skip_ws_spaces by done. rewrite E1. by rewrite Hv' by lia.
  - destruct (code c =? 93) eqn:E2; [|done]. injection H as <- <-. exists (v +:+ w +:+ String c "").
    split; [by str_norm|]. intros [|f] Hf; rewrite !str_length_app in Hf; cbn [String.length] in Hf; [lia|].
    cbn [parse_elems]. erewrite value_then; [|exact Hv|done|cbn; unfold is_digit; lia|lia].
    rewrite skip_ws_spaces by done. by rewrite E1, E2.
Qed.

Lemma key_then s x r v t : str_cut 0 s x r v -> parse_str (S (String.length (v +:+ t))) 0 (v +:+ t) = Some (x, t).
Proof. intros [_ Hv]. eapply (parse_str_app (String.length v) _ _ _ ""); [by apply Hv|]. rewrite str_length_app. lia. Qed.

Lemma parse_members_cut s fs r : parse_members (S fuel) s = Some (fs, r) -> exists v, members_cut s fs r v.
Proof.
  intros H. cbn [parse_members] in H. destruct (skip_ws s) as [|q t0] eqn:Es; [done|].
  apply skip_ws_cut in Es as (w0 & -> & Hw0 & Hq). destruct (negb (code q =? 34)) eqn:Eq; [done|].
  destruct (parse_str _ 0 t0) as [[k r1]|] eqn:Ek; [|done]. apply parse_str_cut in Ek as [kt Hk]. pose proof (proj1 Hk) as ->.
  destruct (skip_ws r1) as [|c1 r2] eqn:E1; [done|]. apply skip_ws_cut in E1 as (w1 & -> & Hw1 & Hc1).
  destruct (negb (code c1 =? 58)) eqn:Ec1; [done|]. destruct (parse_value fuel r2) as [[x r3]|] eqn:Ev; [|done].
  apply IHv in Ev as [v Hv]. pose proof (proj1 Hv) as ->. destruct (skip_ws r3) as [|c t] eqn:E3; [done|].
  apply skip_ws_cut in E3 as (w & -> & Hw & Hc).
  assert (Hstep : forall t' f, num_stop (String c "") = true -> (2 * String.length v + 1 <= f)%nat ->
    parse_members (S f) (w0 +:+ String q (kt +:+ w1 +:+ String c1 (v +:+ w +:+ String c t'))) =
    if code c =? 44 then match parse_members f t' with Some (l, r'') => Some ((k, x) :: l, r'') | None => None end
    else if code c =? 125 then Some ([(k, x)], t') else None).
  { intros t' f Hs Hf. cbn [parse_members]. rewrite (skip_ws_spaces w0) by done. rewrite Eq, (key_then _ _ _ _ _ Hk).
    rewrite (skip_ws_spaces w1), Ec1 by done. erewrite value_then; [|exact Hv|done|done|lia]. by rewrite skip_ws_spaces. }
  assert (Hlen : forall t' f, (2 * String.length (w0 +:+ String q (kt +:+ w1 +:+ String c1 (v +:+ w +:+ String c t'))) <= f)%nat ->
    exists f', f = S f' /\ (2 * String.length v + 1 <= f')%nat /\ (2 * String.length t' <= f')%nat).
  { intros t' [|f] Hf; repeat (rewrite !str_length_app in Hf; cbn [String.length] in Hf); [lia|]. exists f. split; [done|]. lia. }
  destruct (code c =? 44) eqn:E44.
  - head_match H. injection H as <- <-. match goal with H : parse_members _ _ = _ |- _ => apply IHm in H as [v' [-> Hv']] end.
    eexists (w0 +:+ String q (kt +:+ w1 +:+ String c1 (v +:+ w +:+ String c v'))). split; [by str_norm|].
    intros f (f' & -> & H1 & H2)%Hlen. rewrite Hstep; [|cbn; unfold is_digit; lia|done]. by rewrite Hv'.
  - destruct (code c =? 125) eqn:E125; [|done]. injection H as <- <-.
    eexists (w0 +:+ String q (kt +:+ w1 +:+ String c1 (v +:+ w +:+ String c ""))). split; [by str_norm|].
    intros f (f' & -> & H1 & H2)%Hlen. rewrite Hstep; [done|cbn; unfold is_digit; lia|done].
Qed.

End grammar.

Lemma parse_cut fuel :
  (forall s j r, parse_value fuel s = Some (j, r) -> exists v, value_cut s j r v) /\
  (forall s l r, parse_elems fuel s = Some (l, r) -> exists v, elems_cut s l r v) /\
  (forall s fs r, parse_members fuel s = Some (fs, r) -> exists v, members_cut s fs r v).
Proof.
  induction fuel as [|fuel (IH1 & IH2 & IH3)]; [done|].
  split; [|split]; [by apply parse_value_cut|by apply parse_elems_cut|by apply parse_members_cut].
Qed.

(** ** Raw values *)

Lemma skip_ws_idem s : skip_ws (skip_ws s) = skip_ws s.
Proof. induction s as [|c s IH]; [done|]. cbn. destruct (json_space c) eqn:E; [done|]. cbn. by rewrite E. Qed.

Lemma skip_ws_length s : (String.length (skip_ws s) <= String.length s)%nat.
Proof. induction s as [|c s IH]; [done|]. cbn. destruct (json_space c); cbn; lia. Qed.

(** A text that is read as a value and starts without white space is a raw message. *)
Lemma value_head fuel c t p : parse_value fuel (String c t) = Some p -> json_space c = false -> head_ok (String c t) = true.
Proof.
  destruct fuel as [|fuel]; [done|]. cbn [parse_value skip_ws]. intros H Hc. rewrite Hc in H. cbn. rewrite Hc. cbn.
  destruct (Z.eqb_spec (code c) 93) as [E|]; [|destruct (Z.eqb_spec (code c) 125) as [E|]; [|done]];
    rewrite E in H; cbn in H; (destruct (scan_number _) as [[[? ?] ?]|] eqn:En; [|done]);
    apply scan_number_head in En as (c' & s' & [= <- <-] & Hd); unfold is_digit in Hd; lia.
Qed.

Lemma raw_value_sound s v r : raw_value s = Some (v, r) ->
  raw_ok v = true /\ exists j fuel, skip_ws s = v +:+ r /\ parse_value fuel (skip_ws s) = Some (j, r) /\ json_parse v = Some j.
Proof.
  unfold raw_value. destruct (parse_value _ (skip_ws s)) as [[j r']|] eqn:E; [|done]. intros [= <- <-].
  pose proof E as E'. apply (proj1 (parse_cut _)) in E as [v [Es Hv]].
  assert (str_take (String.length (skip_ws s) - String.length r') (skip_ws s) = v) as ->.
  { rewrite Es, str_length_app. replace (_ + _ - _)%nat with (String.length v) by lia. apply str_take_app. }
  assert (Hp : parse_value (parse_fuel v) v = Some (j, "")) by (apply Hv; unfold parse_fuel; lia).
  assert (Hh : head_ok v = true).
  { destruct v as [|c v]; [by specialize (Hv 1%nat (le_n _))|]. eapply value_head; [exact Hp|].
    pose proof (skip_ws_idem s) as Hi. rewrite Es, str_app_cons in Hi. cbn in Hi. destruct (json_space c) eqn:Ec; [|done].
    exfalso. apply (f_equal String.length) in Hi. cbn in Hi. pose proof (skip_ws_length (v +:+ r')). lia. }
  split; [unfold raw_ok; by rewrite Hh, Hp|]. exists j, (parse_fuel (skip_ws s)). split; [done|]. split; [done|].
  unfold json_parse. by rewrite Hp.
Qed.

(** ** The fuel is enough *)

Lemma parse_shrinks fuel s :
  (forall j r, parse_value fuel s = Some (j, r) -> (String.length r < String.length s)%nat) /\
  (forall l r, parse_elems fuel s = Some (l, r) -> (String.length r < String.length s)%nat) /\
  (forall fs r, parse_members fuel s = Some (fs, r) -> (String.length r < String.length s)%nat).
Proof.
  destruct (parse_cut fuel) as (Hv & He & Hm). split_and!; intros x r H.
  - apply Hv in H as [[|c v] [-> H]]; [by specialize (H 1%nat (le_n _))|]. str_norm. cbn. rewrite str_length_app. lia.
  - apply He in H as [[|c v] [-> H]]; [by specialize (H O (le_n _))|]. str_norm. cbn. rewrite str_length_app. lia.
  - apply Hm in H as [[|c v] [-> H]]; [by specialize (H O (le_n _))|]. str_norm. cbn. rewrite str_length_app. lia.
Qed.

Lemma skip_ws_shrinks s c t : skip_ws s = String c t -> (S (String.length t) <= String.length s)%nat.
Proof. intros H. pose proof (skip_ws_length s) as Hl. rewrite H in Hl. done. Qed.

Ltac shrinks :=
  repeat match goal with
  | H : skip_ws _ = String _ _ |- _ => apply skip_ws_shrinks in H
  | H : parse_value _ _ = Some _ |- _ => apply (proj1 (parse_shrinks _ _)) in H
  | H : parse_elems _ _ = Some _ |- _ => apply (proj1 (proj2 (parse_shrinks _ _))) in H
  | H : parse_members _ _ = Some _ |- _ => apply (proj2 (proj2 (parse_shrinks _ _))) in H
  | H : parse_str _ _ _ = Some _ |- _ => apply parse_str_cut in H as [? [-> _]]
  end; rewrite ?str_length_app in *; lia.

(** Twice the text that is consumed is enough fuel. *)
Lemma parse_enough fuel :
  (forall s j r f, parse_value fuel s = Some (j, r) -> (2 * (String.length s - String.length r) + 1 <= f)%nat -> parse_value f s = Some (j, r)) /\
  (forall s l r f, parse_elems fuel s = Some (l, r) -> (2 * (String.length s - String.length r) <= f)%nat -> parse_elems f s = Some (l, r)) /\
  (forall s fs r f, parse_members fuel s = Some (fs, r) -> (2 * (String.length s - String.length r) <= f)%nat -> parse_members f s = Some (fs, r)).
Proof.
  induction fuel as [|fuel (IH1 & IH2 & IH3)]; [done|]. split; [|split].
  - intros s j r [|f] H Hf; [lia|]. cbn [parse_value] in H |- *. destruct (skip_ws s) as [|c t] eqn:Es; [done|].
    destruct (code c =? 34); [done|]. destruct (code c =? 91).
    { destruct (skip_ws t) as [|c' t']; [done|]. destruct (code c' =? 93); [done|].
      destruct (parse_elems fuel t) as [[l r'']|] eqn:E; [|done]. injection H as <- <-. erewrite IH2; [done|exact E|shrinks]. }
    destruct (code c =? 123); [|done].
    destruct (skip_ws t) as [|c' t']; [done|]. destruct (code c' =? 125); [done|].
    destruct (parse_members fuel t) as [[l r'']|] eqn:E; [|done]. injection H as <- <-. erewrite IH3; [done|exact E|shrinks].
  - intros s l r [|f] H Hf; [shrinks|]. cbn [parse_elems] in H |- *. destruct (parse_value fuel s) as [[v r0]|] eqn:Ev; [|done].
    destruct (skip_ws r0) as [|c t] eqn:Es; [done|]. destruct (code c =? 44) eqn:Ec.
    + destruct (parse_elems fuel t) as [[l' r'']|] eqn:E; [|done]. injection H as <- <-.
      erewrite IH1; [|exact Ev|shrinks]. rewrite Es, Ec. erewrite IH2; [done|exact E|shrinks].
    + destruct (code c =? 93) eqn:Ed; [|done]. injection H as <- <-. erewrite IH1; [|exact Ev|shrinks]. by rewrite Es, Ec, Ed.
  - intros s l r [|f] H Hf; [shrinks|]. cbn [parse_members] in H |- *. destruct (skip_ws s) as [|q t0] eqn:E0; [done|].
    destruct (negb (code q =? 34)); [done|]. destruct (parse_str _ 0 t0) as [[k r1]|] eqn:Ek; [|done].
    destruct (skip_ws r1) as [|c1 r2] eqn:E1; [done|]. destruct (negb (code c1 =? 58)); [done|].
    destruct (parse_value fuel r2) as [[v r3]|] eqn:Ev; [|done]. destruct (skip_ws r3) as [|c t] eqn:Es; [done|].
    destruct (code c =? 44) eqn:Ec.
    + destruct (parse_members fuel t) as [[l' r'']|] eqn:E; [|done]. injection H as <- <-.
      erewrite IH1; [|exact Ev|shrinks]. rewrite Es, Ec. erewrite IH3; [done|exact E|shrinks].
    + destruct (code c =? 125) eqn:Ed; [|done]. injection H as <- <-. erewrite IH1; [|exact Ev|shrinks]. by rewrite Es, Ec, Ed.
Qed.

(** ** Raw elements and raw members *)

Lemma raw_value_complete fuel s j r : parse_value fuel s = Some (j, r) ->
  exists v, raw_value s = Some (v, r) /\ raw_ok v = true /\ json_parse v = Some j.
Proof.
  intros H. assert (Hs : parse_value fuel (skip_ws s) = Some (j, r)).
  { destruct fuel; [done|]. cbn [parse_value] in *. by rewrite skip_ws_idem. }
  apply (proj1 (parse_enough _)) with (f := parse_fuel (skip_ws s)) in Hs; [|unfold parse_fuel; lia].
  destruct (raw_value s) as [[v r']|] eqn:E; [|unfold raw_value in E; by rewrite Hs in E].
  destruct (raw_value_sound _ _ _ E) as (Hok & j' & f & _ & Hp & Hj). exists v.
  assert (Hd : Some (j', r') = Some (j, r)).
  { rewrite <- Hp, <- Hs. symmetry. unfold raw_value in E. rewrite Hs in E. injection E as _ <-.
    rewrite Hs, Hp. apply (proj1 (parse_enough _)) with (f := parse_fuel (skip_ws s)) in Hp; [|unfold parse_fuel; lia]. congruence. }
  by injection Hd as -> ->.
Qed.

Lemma raw_elems_complete f : forall s js r, parse_elems f s = Some (js, r) -> (length js <= f)%nat /\ forall fuel, (length js <= fuel)%nat ->
  exists l, raw_elems fuel s = Some l /\ Forall (fun v => raw_ok v = true) l /\ mapM json_parse l = Some js.
Proof.
  induction f as [|f IH]; [done|]. intros s js r H. cbn [parse_elems] in H.
  destruct (parse_value f s) as [[x r0]|] eqn:Ev; [|done]. apply raw_value_complete in Ev as (v & Ev & Hv & Hx).
  destruct (skip_ws r0) as [|c t] eqn:Es; [done|]. destruct (code c =? 44) eqn:Ec.
  - destruct (parse_elems f t) as [[js' r'']|] eqn:E; [|done]. injection H as <- <-. apply IH in E as [Hl IHt]. cbn [length].
    split; [lia|]. intros [|fuel] Hf; [lia|]. destruct (IHt fuel ltac:(lia)) as (l & El & Hl' & Hm).
    exists (v :: l). cbn [raw_elems]. rewrite Ev, Es, Ec, El. split; [done|]. split; [by constructor|]. cbn. by rewrite Hx, Hm.
  - destruct (code c =? 93); [|done]. injection H as <- <-. cbn [length]. split; [lia|]. intros [|fuel] Hf; [lia|].
    exists [v]. cbn [raw_elems]. rewrite Ev, Es, Ec. split; [done|]. split; [by repeat constructor|]. cbn. by rewrite Hx.
Qed.

(** A raw member and the value it holds. *)
Definition member_parse (kv : string * string) : option (string * json) := pair (fst kv) <$> json_parse (snd kv).

Lemma member_parse_Some k v x : json_parse v = Some x -> member_parse (k, v) = Some (k, x).
Proof. unfold member_parse. cbn. by intros ->. Qed.

Lemma raw_members_complete f : forall s fs r, parse_members f s = Some (fs, r) -> (length fs <= f)%nat /\ forall fuel, (length fs <= fuel)%nat ->
  exists l, raw_members fuel s = Some l /\ Forall (fun kv => raw_ok (snd kv) = true) l /\ mapM member_parse l = Some fs.
Proof.
  induction f as [|f IH]; [done|]. intros s fs r H. cbn [parse_members] in H.
  destruct (skip_ws s) as [|q t0] eqn:E0; [done|]. destruct (negb (code q =? 34)); [done|].
  destruct (parse_str _ 0 t0) as [[k r1]|] eqn:Ek; [|done]. destruct (skip_ws r1) as [|c1 r2] eqn:E1; [done|].
  destruct (negb (code c1 =? 58)); [done|]. destruct (parse_value f r2) as [[x r0]|] eqn:Ev; [|done].
  apply raw_value_complete in Ev as (v & Ev & Hv & Hx). destruct (skip_ws r0) as [|c t] eqn:Es; [done|].
  assert (Hk : forall fuel, raw_members (S fuel) s =
    if code c =? 44 then match raw_members fuel t with Some l => Some ((k, v) :: l) | None => None end else Some [(k, v)]).
  { intros fuel. cbn [raw_members]. rewrite E0, Ek, E1. change (str_drop 1 (String c1 r2)) with r2. by rewrite Ev, Es. }
  destruct (code c =? 44).
  - destruct (parse_members f t) as [[fs' r'']|] eqn:E; [|done]. injection H as <- <-. apply IH in E as [Hl IHt]. cbn [length].
    split; [lia|]. intros [|fuel] Hf; [lia|]. destruct (IHt fuel ltac:(lia)) as (l & El & Hl' & Hm).
    exists ((k, v) :: l). rewrite Hk, El. split; [done|]. split; [by constructor|]. cbn. by rewrite (member_parse_Some _ _ _ Hx), Hm.
  - destruct (code c =? 125); [|done]. injection H as <- <-. cbn [length]. split; [lia|]. intros [|fuel] Hf; [lia|].
    exists [(k, v)]. rewrite Hk. split; [done|]. split; [by repeat constructor|]. cbn. by rewrite (member_parse_Some _ _ _ Hx).
Qed.

(** What a shape says of the value the text holds. *)
Definition shape_of (sh : raw_shape) (j : json) : Prop :=
  match sh with
  | RawArr l => Forall (fun v => raw_ok v = true) l /\ JArr <$> mapM json_parse l = Some j
  | RawObj l => Forall (fun kv => raw_ok (snd kv) = true) l /\ JObj <$> mapM member_parse l = Some j
  | RawScalar j' => j' = j /\ match j with JArr _ | JObj _ => False | _ => True end
  end.

Lemma parse_value_nested fuel s j r : parse_value fuel s = Some (j, r) ->
  match j with
  | JArr ((_ :: _) as l) => exists f c t, fuel = S f /\ skip_ws s = String c t /\ parse_elems f t = Some (l, r)
  | JObj ((_ :: _) as fs) => exists f c t, fuel = S f /\ skip_ws s = String c t /\ parse_members f t = Some (fs, r)
  | _ => True
  end.
Proof.
  destruct fuel as [|f]; [done|]. intros H. cbn [parse_value] in H. destruct (skip_ws s) as [|c t] eqn:Es; [done|].
  head_match H; injection H as <- <-; try done; match goal with |- match ?l with _ => _ end => destruct l; [done|] end;
    by exists f, c, t.
Qed.

(** Decoding one level deep agrees with decoding the whole text: every valid text has a shape, and
    the raw elements and members it lists are valid texts themselves that hold exactly the elements
    and members of the decoded value. *)
Lemma json_shape_complete s : match json_parse s with
  | Some j => exists sh, json_shape s = Some sh /\ shape_of sh j
  | None => json_shape s = None
  end.
Proof.
  destruct (json_parse s) as [j|] eqn:E; [|unfold json_shape; by rewrite E].
  pose proof E as E'. unfold json_parse in E'. destruct (parse_value (parse_fuel s) s) as [[j' r]|] eqn:Ep; [|done].
  destruct (skip_ws r); [|done]. injection E' as ->. pose proof (parse_value_nested _ _ _ _ Ep) as Hn. unfold json_shape. rewrite E.
  destruct j as [| | | |[|x l]|[|x fs]]; try (eexists; split; [reflexivity|]; done).
  - destruct Hn as (f & c & t & Hf & Es & He). apply raw_elems_complete in He as [Hl He].
    destruct (He (parse_fuel s)) as (raws & Hr & Hok & Hm); [lia|]. rewrite Es. change (str_drop 1 (String c t)) with t.
    rewrite Hr. exists (RawArr raws). split; [done|]. split; [done|]. by rewrite Hm.
  - destruct Hn as (f & c & t & Hf & Es & He). apply raw_members_complete in He as [Hl He].
    destruct (He (parse_fuel s)) as (raws & Hr & Hok & Hm); [lia|]. rewrite Es. change (str_drop 1 (String c t)) with t.
    rewrite Hr. exists (RawObj raws). split; [done|]. split; [done|]. by rewrite Hm.
Qed.
