(* ===== verification/JsonCompact.v ===== *)
(** * Compaction keeps the value of a text

    [json.Marshal] compacts raw messages: white space goes and HTML characters inside strings are
    escaped ([compact_go] of Json).  The compacted text is valid and holds the same value, so what the
    proxy sends on means what it received. *)

From S2P Require Import Prelude Json JsonFacts JsonRaw.

Open Scope Z_scope.

(** ** Runes *)

Definition cont (c : Ascii.ascii) : bool := in_range 128 191 c.

Lemma line_separator_lead c s : (code c =? 226) = false -> line_separator c s = None.
Proof. intros H. unfold line_separator. destruct s as [|c1 [|c2 s]]; [done|done|]. by rewrite H. Qed.

(** A byte inside a string that is neither special nor a separator is copied. *)
Lemma compact_copy c s : line_separator c s = None -> (code c =? 60) || (code c =? 62) || (code c =? 38) = false ->
  (code c =? 92) = false -> (code c =? 34) = false -> compact_go true false (String c s) = String c (compact_go true false s).
Proof. intros H1 H2 H3 H4. cbn [compact_go]. rewrite H1, H2, H3, H4. by destruct s as [|? [|? ?]]. Qed.

Lemma compact_cont c s : cont c = true -> compact_go true false (String c s) = String c (compact_go true false s).
Proof. unfold cont, in_range. intros H. apply compact_copy; [apply line_separator_lead|..]; lia. Qed.

Lemma escape_ascii_head c : (code c <? 128) = true -> exists c' t, escape_ascii c = String c' t /\ cont c' = false.
Proof.
  intros H. unfold escape_ascii. repeat case_match; (eexists _, _; split; [reflexivity|]); try reflexivity. unfold cont, in_range. lia.
Qed.

Lemma compact_head c s : cont c = false -> exists c' t, compact_go true false (String c s) = String c' t /\ cont c' = false.
Proof.
  intros H. cbn [compact_go]. destruct (line_separator c s) as [d|] eqn:E.
  { destruct s as [|c1 [|c2 s]]; [done|done|]. by eexists (chr 92), _. }
  assert (Hc : exists c' t, (if (code c =? 60) || (code c =? 62) || (code c =? 38) then escape_ascii c else String c "") = String c' t
    /\ cont c' = false).
  { destruct (_ || _) eqn:Es; [apply escape_ascii_head; lia|by exists c, ""]. }
  destruct Hc as (c' & t & -> & Hc). exists c'. destruct s as [|? [|? ?]]; rewrite str_app_cons; by eexists.
Qed.

Lemma rune_first c c1 t : cont c1 = false -> rune_extra c (String c1 t) = None.
Proof.
  intros H. unfold cont in H. unfold rune_extra. rewrite H. destruct (in_range 194 223 c); [done|]. destruct t as [|c2 t]; [done|].
  set (lo := if code c =? 224 then _ else _). set (hi := if code c =? 237 then _ else _).
  assert (Hr : in_range lo hi c1 = false).
  { destruct (in_range lo hi c1) eqn:E; [|done]. rewrite (in_range_weaken lo hi c1 E) in H; [done|unfold lo|unfold hi]; by split_matches. }
  rewrite Hr, !andb_false_r. cbn. by split_matches.
Qed.

Lemma rune_second_none c c1 c2 c2' t t' : cont c2 = false -> cont c2' = false ->
  rune_extra c (String c1 (String c2 t)) = rune_extra c (String c1 (String c2' t')).
Proof. intros H H'. unfold cont in H, H'. unfold rune_extra. rewrite H, H', !andb_false_r. by destruct t, t'. Qed.

Lemma rune_third_none c c1 c2 c3 c3' t t' : cont c3 = false -> cont c3' = false ->
  rune_extra c (String c1 (String c2 (String c3 t))) = rune_extra c (String c1 (String c2 (String c3' t'))).
Proof. intros H H'. unfold cont in H, H'. unfold rune_extra. by rewrite H, H', !andb_false_r. Qed.

(** Whether a byte leads a rune does not change. *)
Lemma rune_extra_compact c s : rune_extra c (compact_go true false s) = rune_extra c s.
Proof.
  destruct s as [|c1 s]; [done|]. destruct (cont c1) eqn:E1.
  2: { destruct (compact_head c1 s E1) as (c' & t & -> & H). by rewrite !rune_first. }
  rewrite compact_cont by done. destruct s as [|c2 s]; [done|]. destruct (cont c2) eqn:E2.
  2: { destruct (compact_head c2 s E2) as (c' & t & -> & H). by apply rune_second_none. }
  rewrite compact_cont by done. destruct s as [|c3 s]; [done|]. destruct (cont c3) eqn:E3.
  2: { destruct (compact_head c3 s E3) as (c' & t & -> & H). by apply rune_third_none. }
  by rewrite compact_cont.
Qed.

(** ** Escapes *)

Lemma compact_hex_digit c z s : hex_val c = Some z -> compact_go true false (String c s) = String c (compact_go true false s).
Proof.
  unfold hex_val. cbv zeta. intros H. assert (Hc : 48 <= code c <= 102 /\ code c <> 60 /\ code c <> 62 /\ code c <> 92)
    by (repeat match type of H with context [if ?b then _ else _] => destruct b eqn:? end; [lia|lia|lia|done]).
  apply compact_copy; [apply line_separator_lead|..]; lia.
Qed.

Lemma compact_hex s z t : read_hex4 s = Some (z, t) ->
  exists a, compact_go true false s = a +:+ compact_go true false t /\ forall t', read_hex4 (a +:+ t') = Some (z, t') /\
    compact_go true false (a +:+ t') = a +:+ compact_go true false t'.
Proof.
  destruct s as [|a [|b [|c [|d s]]]]; try done. unfold read_hex4 at 1. intros H. head_match H. injection H as <- <-.
  do 4 (erewrite compact_hex_digit by done). exists (String a (String b (String c (String d "")))). split; [done|].
  intros t'. str_norm. split; [|by do 4 (erewrite compact_hex_digit by done)].
  unfold read_hex4. by rewrite Heqo, Heqo0, Heqo1, Heqo2.
Qed.

Lemma utf16_pair_low r1 r2 : r2 < 56320 -> utf16_pair r1 r2 = None.
Proof. intros H. unfold utf16_pair. destruct (_ && _) eqn:E; [|done]. lia. Qed.

(** The text does not go on with an escape that makes a pair with [r1]. *)
Definition no_pair (r1 : Z) (s : string) : Prop :=
  forall b u s4, s = String b (String u s4) -> (code b =? 92) && (code u =? 117) = true ->
    exists r2 s5, read_hex4 s4 = Some (r2, s5) /\ utf16_pair r1 r2 = None.

(** What compaction writes for a byte it escapes. *)
Lemma compact_escapes c s : is_Some (line_separator c s) \/ (code c =? 60) || (code c =? 62) || (code c =? 38) = true ->
  forall esc, exists s4 z t, compact_go true esc (String c s) = String (chr 92) (String (chr 117) s4)
    /\ read_hex4 s4 = Some (z, t) /\ z < 56320.
Proof.
  intros H esc. cbn [compact_go]. destruct (line_separator c s) as [d|] eqn:E.
  - unfold line_separator in E. destruct s as [|c1 [|c2 s]]; [done|done|]. split_matches.
    assert (Hd : code c2 = 168 \/ code c2 = 169) by lia.
    destruct Hd as [-> | ->]; (eexists _, _, _; split; [reflexivity|split; reflexivity]).
  - destruct H as [[]|H]; [done|]. rewrite H. assert (Hc : c = chr 60 \/ c = chr 62 \/ c = chr 38).
    { rewrite !orb_true_iff, !Z.eqb_eq in H. destruct H as [[H|H]|H]; apply code_inj in H; auto; lia. }
    destruct Hc as [->|[->| ->]]; destruct s as [|? [|? ?]]; (eexists _, _, _; split; [reflexivity|split; reflexivity]).
Qed.

Lemma no_pair_compact r1 s : no_pair r1 s -> no_pair r1 (compact_go true false s).
Proof.
  intros Hn. destruct s as [|c s]; [done|]. intros b u s4 E Hbu.
  destruct (decide (is_Some (line_separator c s) \/ (code c =? 60) || (code c =? 62) || (code c =? 38) = true)) as [Hs|Hs].
  { destruct (compact_escapes c s Hs false) as (s4' & z & t & E' & Hh & Hz). rewrite E in E'. injection E' as -> -> ->.
    exists z, t. split; [done|]. by apply utf16_pair_low. }
  assert (Hl : line_separator c s = None) by (destruct (line_separator c s); [destruct Hs; left; by eexists|done]).
  assert (Ho : (code c =? 60) || (code c =? 62) || (code c =? 38) = false) by (apply not_true_is_false; intros ?; destruct Hs; by right).
  destruct (code c =? 92) eqn:E92.
  2: { destruct (code c =? 34) eqn:E34.
       - cbn [compact_go] in E. rewrite Hl, Ho, E92, E34 in E. destruct s as [|? [|? ?]]; injection E as -> _; lia.
       - rewrite compact_copy in E by done. injection E as -> _. lia. }
  assert (E2 : compact_go true false (String c s) = String c (compact_go true true s)).
  { cbn [compact_go]. rewrite Hl, Ho, E92. by destruct s as [|? [|? ?]]. }
  rewrite E2 in E. injection E as <- E. destruct s as [|e s]; [done|].
  destruct (decide (is_Some (line_separator e s) \/ (code e =? 60) || (code e =? 62) || (code e =? 38) = true)) as [Hs'|Hs'].
  { destruct (compact_escapes e s Hs' true) as (? & ? & ? & E' & _). rewrite E in E'. injection E' as -> _. by apply andb_true_iff in Hbu as [_ ?]. }
  assert (Hl' : line_separator e s = None) by (destruct (line_separator e s); [destruct Hs'; left; by eexists|done]).
  assert (Ho' : (code e =? 60) || (code e =? 62) || (code e =? 38) = false) by (apply not_true_is_false; intros ?; destruct Hs'; by right).
  assert (E3 : compact_go true true (String e s) = String e (compact_go true false s)).
  { cbn [compact_go]. rewrite Hl', Ho'. by destruct s as [|? [|? ?]]. }
  rewrite E3 in E. injection E as <- <-. destruct (Hn c e s eq_refl Hbu) as (r2 & s5 & Hr & Hq).
  destruct (compact_hex s r2 s5 Hr) as (a & -> & Ha).
  exists r2, (compact_go true false s5). split; [apply Ha|done].
Qed.

(** A backslash and a character that may follow it are copied. *)
Lemma compact_backslash c e s : (code c =? 92) = true -> (code e <? 128) = true -> (code e =? 60) || (code e =? 62) || (code e =? 38) = false ->
  compact_go true false (String c (String e s)) = String c (String e (compact_go true false s)).
Proof.
  intros Ec%Z.eqb_eq El Eo. cbn [compact_go]. rewrite (line_separator_lead c), (line_separator_lead e) by lia. rewrite Ec, Eo. cbn.
  by destruct s as [|? [|? ?]].
Qed.

Lemma simple_escape_plain e y : simple_escape e = Some y -> (code e <? 128) = true /\ (code e =? 60) || (code e =? 62) || (code e =? 38) = false.
Proof.
  unfold simple_escape. cbv zeta. intros H.
  repeat match type of H with context [if ?b then _ else _] => destruct b eqn:? end; try done; lia.
Qed.

(** ** Strings *)

Lemma after_hex_unpaired f r1 v rest : surrogate r1 = true -> no_pair r1 (v +:+ rest) -> is_Some (parse_str f 0 v) ->
  after_hex f r1 v = prepend utf8_error (parse_str f 0 v).
Proof.
  intros Hs Hn Hp. unfold after_hex. rewrite Hs. destruct v as [|b [|u s4]]; [done|done|]. destruct (_ && _) eqn:E; [|done].
  destruct (Hn b u (s4 +:+ rest)) as (r2 & s5 & Hr & Hq); [by str_norm|done|].
  destruct (escape_whole _ _ _ _ _ _ _ E Hp Hr) as [s5' ->]. by rewrite Hq.
Qed.

(** The end of a literal, with its closing quote, that compaction does not change. *)
Definition str_stable (v : string) : Prop := forall rest, compact_go true false (v +:+ rest) = v +:+ compact_go false false rest.

(** The literal in [s] that ends at [r] is still there after compaction, where it is read as [x] and
    another compaction changes nothing. *)
Definition str_compacts (copy : nat) (s x r : string) : Prop :=
  exists v, str_cut copy (compact_go true false s) x (compact_go false false r) v /\ str_stable v.

Lemma str_compacts_cons c copy s x r : cont c = true -> str_compacts copy s x r ->
  str_compacts (S copy) (String c s) (String c "" +:+ x) r.
Proof.
  intros Hc (v & Hv & Hs). exists (String c v). rewrite compact_cont by done. split; [by apply str_cut_cons|].
  intros rest. by rewrite str_app_cons, compact_cont, Hs.
Qed.

(** Text [t] in front of a literal, read in one step. *)
Lemma str_compacts_step s t s' p x r : compact_go true false s = t +:+ compact_go true false s' -> (1 <= String.length t)%nat ->
  (forall u, compact_go true false (t +:+ u) = t +:+ compact_go true false u) ->
  (forall f v, (String.length v <= f)%nat -> is_Some (parse_str f 0 v) -> parse_str (S f) 0 (t +:+ v) = prepend p (parse_str f 0 v)) ->
  str_compacts 0 s' x r -> str_compacts 0 s (p +:+ x) r.
Proof.
  intros Ht Hl Hc Hstep (v & [Hv Hp] & Hs). exists (t +:+ v). split; [|intros rest; rewrite str_app_assoc, Hc, Hs; by str_norm].
  split; [rewrite Ht, Hv; by str_norm|]. intros [|f] Hf; rewrite str_length_app in Hf; [lia|]. rewrite Hstep; rewrite ?Hp by lia; [done|lia|by eexists].
Qed.

(** What follows a hexadecimal escape. *)
Lemma after_hex_compacts fuel r1 s3 x r :
  (forall s x r, parse_str fuel 0 s = Some (x, r) -> str_compacts 0 s x r) -> after_hex fuel r1 s3 = Some (x, r) ->
  exists v, compact_go true false s3 = v +:+ compact_go false false r /\ str_stable v /\
    forall f, (String.length v <= f)%nat -> after_hex f r1 v = Some (x, "").
Proof.
  intros IH H. destruct (surrogate r1) eqn:Es.
  2: { unfold after_hex in H |- *. rewrite Es in *. apply prepend_Some in H as (y & Hy & ->). apply IH in Hy as (v & [Hv Hp] & Hst).
       exists v. split; [done|]. split; [done|]. intros f Hf. by rewrite Hp. }
  assert (Hpair : (exists b u s4 r2 s5 q, s3 = String b (String u s4) /\ (code b =? 92) && (code u =? 117) = true /\
      read_hex4 s4 = Some (r2, s5) /\ utf16_pair r1 r2 = Some q /\ prepend (utf8_encode q) (parse_str fuel 0 s5) = Some (x, r))
    \/ (prepend utf8_error (parse_str fuel 0 s3) = Some (x, r) /\ no_pair r1 s3)).
  { unfold after_hex in H. rewrite Es in H. destruct s3 as [|b [|u s4]]; [by right|by right|]. destruct (_ && _) eqn:E.
    - destruct (read_hex4 s4) as [[r2 s5]|] eqn:Er; [|done]. destruct (utf16_pair r1 r2) as [q|] eqn:Eq.
      + left. by exists b, u, s4, r2, s5, q.
      + right. split; [done|]. intros ? ? ? [= <- <- <-] _. by exists r2, s5.
    - right. split; [done|]. intros ? ? ? [= <- <- <-]. by rewrite E. }
  clear H. destruct Hpair as [(b & u & s4 & r2 & s5 & q & -> & E & Er & Eq & H)|[H Hn]]; apply prepend_Some in H as (y & Hy & ->).
  - apply IH in Hy as (v & [Hv Hp] & Hst). destruct (compact_hex s4 r2 s5 Er) as (a & Ha & Hr). pose proof E as [Eb Eu]%andb_true_iff.
    exists (String b (String u (a +:+ v))). split; [rewrite compact_backslash by lia; rewrite Ha, Hv; by str_norm|]. split.
    + intros rest. rewrite !str_app_cons, str_app_assoc, compact_backslash, (proj2 (Hr _)), Hst by lia. by str_norm.
    + intros f Hf. cbn in Hf. rewrite str_length_app in Hf. unfold after_hex. rewrite Es, E, (proj1 (Hr _)), Eq. by rewrite Hp by lia.
  - apply IH in Hy as (v & [Hv Hp] & Hst). exists v. split; [done|]. split; [done|]. intros f Hf.
    rewrite (after_hex_unpaired f r1 v (compact_go false false r)); [by rewrite Hp|done| |by rewrite Hp; eauto].
    rewrite <- Hv. by apply no_pair_compact.
Qed.

(** The escapes that compaction writes are stable themselves. *)
Lemma escape_stable c : (code c =? 60) || (code c =? 62) || (code c =? 38) = true ->
  forall u, compact_go true false (escape_ascii c +:+ u) = escape_ascii c +:+ compact_go true false u.
Proof.
  intros H u. assert (Hc : c = chr 60 \/ c = chr 62 \/ c = chr 38).
  { rewrite !orb_true_iff, !Z.eqb_eq in H. destruct H as [[H|H]|H]; apply code_inj in H; auto; lia. }
  destruct Hc as [->|[->| ->]]; destruct u as [|? [|? ?]]; reflexivity.
Qed.

Lemma separator_stable c s d : line_separator c s = Some d ->
  forall u, compact_go true false ((String (chr 92) "u202" +:+ String d "") +:+ u) = (String (chr 92) "u202" +:+ String d "") +:+ compact_go true false u.
Proof.
  intros H u. assert (Hd : d = chr 56 \/ d = chr 57).
  { unfold line_separator in H. split_matches. assert (Hc : code a0 = 168 \/ code a0 = 169) by lia.
    destruct Hc as [-> | ->]; [by left|by right]. }
  destruct Hd as [-> | ->]; destruct u as [|? [|? ?]]; reflexivity.
Qed.

(** Continuation bytes come from where they were. *)
Lemma compact_cont_inv s c t : compact_go true false s = String c t -> cont c = true -> exists s', s = String c s' /\ t = compact_go true false s'.
Proof.
  intros E Hc. destruct s as [|x s]; [done|]. destruct (cont x) eqn:Ex.
  - rewrite compact_cont in E by done. injection E as <- <-. by exists s.
  - destruct (compact_head x s Ex) as (c' & t' & E' & Hc'). rewrite E in E'. injection E' as <- _. congruence.
Qed.

(** No separator appears where there was none. *)
Lemma line_separator_stable c s v r rest : line_separator c s = None -> compact_go true false s = v +:+ r -> has_low v = true ->
  line_separator c (v +:+ rest) = None.
Proof.
  intros H E Hl. destruct (line_separator c (v +:+ rest)) as [d|] eqn:E'; [|done]. exfalso. unfold line_separator in E'.
  destruct v as [|c1 [|c2 v]]; [done| |].
  - cbn in Hl. rewrite str_app_cons in E'. cbn in E'. destruct rest; [done|]. destruct (_ && _) eqn:Eb in E'; [|done]. lia.
  - rewrite !str_app_cons in E'. destruct (_ && _) eqn:Eb in E'; [|done]. rewrite !str_app_cons in E.
    apply compact_cont_inv in E as (s1 & -> & E); [|unfold cont, in_range; lia]. symmetry in E.
    apply compact_cont_inv in E as (s2 & -> & _); [|unfold cont, in_range; lia]. cbn in H. by rewrite Eb in H.
Qed.

(** One byte of a literal, by its class; [IH] is about what is left. *)
Section bytes.
Context (fuel : nat).
Context (IHf : forall fuel', (fuel' <= fuel)%nat -> forall copy s x r, parse_str fuel' copy s = Some (x, r) -> conts copy s = true ->
  str_compacts copy s x r).

Lemma compact_str_escape c s x r : (code c =? 92) = true -> parse_str (S fuel) 0 (String c s) = Some (x, r) -> str_compacts 0 (String c s) x r.
Proof.
  intros E92 H. cbn [parse_str] in H. assert (E34 : (code c =? 34) = false) by lia. assert (E32 : (code c <? 32) = false) by lia.
  rewrite E34, E32, E92 in H. assert (IH : forall s x r, parse_str fuel 0 s = Some (x, r) -> str_compacts 0 s x r) by (intros; by eapply IHf).
  destruct s as [|e s]; [done|]. destruct (code e =? 117) eqn:E117.
  - destruct (read_hex4 s) as [[r1 s3]|] eqn:Eh; [|done]. destruct (compact_hex s r1 s3 Eh) as (a & Ha & Hr).
    change (after_hex fuel r1 s3 = Some (x, r)) in H. destruct (after_hex_compacts fuel r1 s3 x r IH H) as (v & Hv & Hst & Hp).
    exists (String c (String e (a +:+ v))). split; [split; [rewrite compact_backslash by lia; rewrite Ha, Hv; by str_norm|]|].
    + intros [|f] Hf; cbn in Hf; [lia|]. rewrite str_length_app in Hf. cbn [parse_str].
      rewrite E34, E32, E92, E117, (proj1 (Hr _)). apply Hp. lia.
    + intros rest. rewrite !str_app_cons, str_app_assoc, compact_backslash, (proj2 (Hr _)), Hst by lia. by str_norm.
  - destruct (simple_escape e) as [y|] eqn:Ey; [|done]. apply prepend_Some in H as (z & Hz & ->).
    destruct (simple_escape_plain e y Ey) as [He Ho].
    apply (str_compacts_step _ (String c (String e "")) s); [by rewrite compact_backslash|cbn; lia| | |by apply IH].
    { intros u. str_norm. by rewrite compact_backslash. }
    intros f v _ _. str_norm. cbn [parse_str]. by rewrite E34, E32, E92, E117, Ey.
Qed.

Lemma compact_str_ascii c s x r : (code c <? 128) = true -> (code c =? 92) = false -> (code c =? 34) = false ->
  parse_str (S fuel) 0 (String c s) = Some (x, r) -> str_compacts 0 (String c s) x r.
Proof.
  intros E128 E92 E34 H. cbn [parse_str] in H. rewrite E34, E92, E128 in H. destruct (code c <? 32) eqn:E32; [done|].
  apply prepend_Some in H as (y & Hy & ->). assert (IH : str_compacts 0 s y r) by (by eapply IHf).
  destruct ((code c =? 60) || (code c =? 62) || (code c =? 38)) eqn:Eo.
  - apply (str_compacts_step _ (escape_ascii c) s); [|apply escape_ascii_length|by apply escape_stable| |done].
    + cbn [compact_go]. rewrite line_separator_lead by lia. rewrite Eo, E92, E34. by destruct s as [|? [|? ?]].
    + intros f v _ _. by apply parse_str_escape_ascii.
  - apply (str_compacts_step _ (String c "") s); [|cbn; lia| | |done].
    + rewrite compact_copy by (done || apply line_separator_lead; lia). by str_norm.
    + intros u. str_norm. by rewrite compact_copy by (done || apply line_separator_lead; lia).
    + intros f v _ _. str_norm. cbn [parse_str]. by rewrite E34, E32, E92, E128.
Qed.

Lemma compact_str_separator c s d x r : line_separator c s = Some d -> parse_str (S fuel) 0 (String c s) = Some (x, r) ->
  str_compacts 0 (String c s) x r.
Proof.
  intros El H. pose proof El as (c1 & c2 & s' & -> & _ & Hr & _ & Hp)%line_separator_spec.
  assert (Hc : (code c <? 128) = false) by (unfold line_separator in El; split_matches; lia).
  rewrite (parse_str_lead _ _ 2) in H by done. destruct fuel as [|[|fuel']]; [done|cbn in H; done|]. cbn [parse_str] in H.
  apply prepend_Some in H as (y & (y' & (z & Hz & ->)%prepend_Some & ->)%prepend_Some & ->).
  replace (String c "" +:+ String c1 "" +:+ String c2 "" +:+ z) with (String c (String c1 (String c2 "")) +:+ z) by (by str_norm).
  apply (str_compacts_step _ (String (chr 92) "u202" +:+ String d "") s'); [|rewrite str_length_app; cbn [String.length]; lia| | |].
  - cbn [compact_go]. rewrite El. by str_norm.
  - by eapply separator_stable.
  - intros f v _ _. rewrite <- Hp. by str_norm.
  - eapply (IHf fuel'); [lia|done|done].
Qed.

Lemma compact_str_high c s x r : (code c <? 128) = false -> line_separator c s = None -> parse_str (S fuel) 0 (String c s) = Some (x, r) ->
  str_compacts 0 (String c s) x r.
Proof.
  intros E128 El H. assert (Hf : forall f t, parse_str (S f) 0 (String c t) =
    match rune_extra c t with Some n => prepend (String c "") (parse_str f n t) | None => prepend utf8_error (parse_str f 0 t) end).
  { intros f t. cbn [parse_str]. rewrite (code_high_ne c 34), (code_high_ne c 92), E128 by lia. by destruct (Z.ltb_spec (code c) 32); [lia|]. }
  assert (Hn : exists n p, rune_extra c s = n /\ prepend p (parse_str fuel (default 0%nat n) s) = Some (x, r) /\
      p = (match n with Some _ => String c "" | None => utf8_error end)) by (rewrite Hf in H; destruct (rune_extra c s); by eexists _, _).
  destruct Hn as (n & p & En & (y & Hy & ->)%prepend_Some & Ep).
  destruct (IHf fuel (le_n _) _ _ _ _ Hy) as (v & Hv & Hst). { destruct n; [by eapply rune_extra_conts|done]. }
  pose proof (str_cut_low _ _ _ _ _ Hv) as Hl. destruct Hv as [Hv Hp]. exists (String c v). split; [split|].
  - rewrite compact_copy by (done || lia). rewrite Hv. by str_norm.
  - intros [|f] Hlen; cbn in Hlen; [lia|]. rewrite Hf.
    rewrite <- (rune_extra_app c v (compact_go false false r)), <- Hv, rune_extra_compact, En by done.
    destruct n; cbn in Hp; rewrite Hp by lia; by subst p.
  - intros rest. rewrite str_app_cons, compact_copy, Hst by (done || lia || by eapply line_separator_stable). by str_norm.
Qed.

End bytes.

Lemma compact_str fuel : forall copy s x r, parse_str fuel copy s = Some (x, r) -> conts copy s = true -> str_compacts copy s x r.
Proof.
  induction fuel as [fuel IHf] using lt_wf_ind. destruct fuel as [|fuel]; [done|]. intros copy s x r H Hk. destruct s as [|c s]; [done|].
  assert (IH : forall fuel', (fuel' <= fuel)%nat -> forall copy s x r, parse_str fuel' copy s = Some (x, r) -> conts copy s = true ->
    str_compacts copy s x r) by (intros; by eapply (IHf fuel'); [lia| |]).
  destruct copy as [|copy].
  2: { cbn [parse_str] in H. apply prepend_Some in H as (y & Hy & ->). cbn in Hk. apply andb_true_iff in Hk as [Hc Hk].
       apply str_compacts_cons; [done|]. by eapply IH. }
  destruct (code c =? 34) eqn:E34.
  { cbn [parse_str] in H. rewrite E34 in H. injection H as <- <-. exists (String c ""). apply Z.eqb_eq in E34.
    assert (Hq : forall t, compact_go true false (String c t) = String c (compact_go false false t)).
    { intros t. cbn [compact_go]. rewrite line_separator_lead by lia. rewrite E34. cbn. by destruct t as [|? [|? ?]]. }
    split; [split; [by rewrite Hq|]|intros rest; str_norm; by rewrite Hq].
    intros [|f] Hf; [cbn in Hf; lia|]. cbn [parse_str]. by rewrite E34. }
  destruct (code c =? 92) eqn:E92; [by eapply compact_str_escape|].
  destruct (code c <? 128) eqn:E128; [by eapply compact_str_ascii|].
  destruct (line_separator c s) as [d|] eqn:El; [by eapply compact_str_separator|by eapply compact_str_high].
Qed.

(** ** Outside of strings *)

Definition compact (s : string) : string := compact_go false false s.

Definition verbatim (c : Ascii.ascii) : bool := negb (json_space c) && negb (code c =? 34).

Fixpoint all_verbatim (s : string) : bool := match s with EmptyString => true | String c s' => verbatim c && all_verbatim s' end.

Lemma compact_verbatim t r : all_verbatim t = true -> compact (t +:+ r) = t +:+ compact r.
Proof.
  induction t as [|c t IH]; [done|]. cbn [all_verbatim]. unfold verbatim. rewrite !andb_true_iff, !negb_true_iff. intros [[Hs Hq] Ht].
  str_norm. unfold compact in *. cbn [compact_go]. by rewrite Hs, Hq, IH.
Qed.

Lemma compact_skip s : compact s = compact (skip_ws s).
Proof. induction s as [|c s IH]; [done|]. unfold compact in *. cbn. by destruct (json_space c) eqn:E; [|cbn; rewrite E]. Qed.

(** A delimiter, after white space. *)
Lemma compact_delim s c t : skip_ws s = String c t -> (code c =? 34) = false -> compact s = String c (compact t).
Proof.
  intros H Hc. rewrite compact_skip, H. apply skip_ws_cut in H as (_ & _ & _ & Hs).
  change (String c t) with (String c "" +:+ t). rewrite compact_verbatim; [done|]. cbn. unfold verbatim. by rewrite Hs, Hc.
Qed.

Lemma compact_quote s c t : skip_ws s = String c t -> (code c =? 34) = true -> compact s = String c (compact_go true false t).
Proof.
  intros H Hc. rewrite compact_skip, H. apply skip_ws_cut in H as (_ & _ & _ & Hs). unfold compact. cbn. by rewrite Hs, Hc.
Qed.

Lemma all_verbatim_app s t : all_verbatim (s +:+ t) = all_verbatim s && all_verbatim t.
Proof. induction s as [|c s IH]; [done|]. str_norm. cbn. by rewrite IH, andb_assoc. Qed.

Lemma span_digits_verbatim s d r : span_digits s = (d, r) -> all_verbatim d = true.
Proof.
  revert d r. induction s as [|c s IH]; intros d r; cbn; [by intros [= <- <-]|]. destruct (is_digit c) eqn:E; [|by intros [= <- <-]].
  destruct (span_digits s) as [d' r'] eqn:Es. intros [= <- <-]. cbn. rewrite (IH _ _ eq_refl). unfold verbatim, json_space, is_digit in *. lia.
Qed.

Lemma one_char_verbatim p s a r : (forall c, p c = true -> verbatim c = true) -> one_char p s = (a, r) -> all_verbatim a = true.
Proof.
  intros Hp. unfold one_char. destruct s as [|c s]; [by intros [= <- <-]|]. destruct (p c) eqn:E; intros [= <- <-]; [|done]. cbn. by rewrite Hp.
Qed.

Lemma scan_int_verbatim s i r : scan_int s = Some (i, r) -> all_verbatim i = true.
Proof.
  unfold scan_int. destruct s as [|c s]; [done|]. destruct (Z.eqb_spec (code c) 48) as [E|E].
  - intros [= <- <-]. cbn. unfold verbatim, json_space. rewrite E. done.
  - destruct (span_digits (String c s)) as [[|a d] r'] eqn:Es; [done|]. intros [= <- <-]. by eapply span_digits_verbatim.
Qed.

Lemma scan_frac_verbatim s a f r : scan_frac s = Some (a, f, r) -> all_verbatim a = true.
Proof.
  unfold scan_frac. destruct s as [|c s]; [by intros [= <- <- <-]|]. destruct (Z.eqb_spec (code c) 46) as [E|E]; [|by intros [= <- <- <-]].
  destruct (span_digits s) as [[|x d] r'] eqn:Es; [done|]. intros [= <- <- <-]. apply span_digits_verbatim in Es.
  cbn [all_verbatim] in *. rewrite Es. unfold verbatim, json_space. by rewrite E.
Qed.

Lemma scan_exp_verbatim s a b e r : scan_exp s = Some (a, b, e, r) -> all_verbatim a = true.
Proof.
  unfold scan_exp. destruct s as [|c s]; [by intros [= <- <- <- <-]|]. destruct (_ || _) eqn:E; [|by intros [= <- <- <- <-]].
  destruct (one_char _ s) as [sg r'] eqn:Eo. destruct (span_digits r') as [[|x d] r''] eqn:Es; [done|]. intros [= <- <- <- <-].
  apply one_char_verbatim in Eo; [|intros ? ?; unfold verbatim, json_space; lia]. apply span_digits_verbatim in Es.
  cbn [all_verbatim]. rewrite all_verbatim_app, Eo, Es. unfold verbatim, json_space. lia.
Qed.

Lemma scan_number_verbatim s t n r : scan_number s = Some (t, n, r) -> all_verbatim t = true.
Proof.
  unfold scan_number. destruct (one_char _ s) as [sg r0] eqn:E0. destruct (scan_int r0) as [[i r1]|] eqn:E1; [|done].
  destruct (scan_frac r1) as [[[ft f] r2]|] eqn:E2; [|done]. destruct (scan_exp r2) as [[[[et en] e] r3]|] eqn:E3; [|done].
  intros [= <- _ _]. apply one_char_verbatim in E0; [|intros ? ?; unfold verbatim, json_space; lia].
  by rewrite !all_verbatim_app, E0, (scan_int_verbatim _ _ _ E1), (scan_frac_verbatim _ _ _ _ E2), (scan_exp_verbatim _ _ _ _ _ E3).
Qed.

Lemma compact_first s c t : skip_ws s = String c t -> exists t', skip_ws (compact s) = String c t'.
Proof.
  intros H. pose proof (skip_ws_cut _ _ _ H) as (_ & _ & _ & Hs). destruct (code c =? 34) eqn:E.
  - rewrite (compact_quote _ _ _ H E). cbn. rewrite Hs. by eexists.
  - rewrite (compact_delim _ _ _ H E). cbn. rewrite Hs. by eexists.
Qed.

(** ** Values *)

Definition stable (v : string) : Prop := forall rest, compact (v +:+ rest) = v +:+ compact rest.

Definition value_compacts (s : string) (j : json) (r : string) : Prop :=
  exists v, value_cut (compact s) j (compact r) v /\ stable v.
Definition elems_compacts (s : string) (l : list json) (r : string) : Prop :=
  exists v, elems_cut (compact s) l (compact r) v /\ stable v.
Definition members_compacts (s : string) (fs : list (string * json)) (r : string) : Prop :=
  exists v, members_cut (compact s) fs (compact r) v /\ stable v.

Lemma stable_app v v' : stable v -> stable v' -> stable (v +:+ v').
Proof. intros H H' rest. by rewrite str_app_assoc, H, H', str_app_assoc. Qed.

Lemma stable_verbatim v : all_verbatim v = true -> stable v.
Proof. intros H rest. by apply compact_verbatim. Qed.

Lemma stable_cons c v : json_space c = false -> (code c =? 34) = false -> stable v -> stable (String c v).
Proof. intros Hs Hq Hv rest. rewrite str_app_cons. unfold compact. cbn. by rewrite Hs, Hq; change (compact_go false false) with compact; rewrite Hv. Qed.

Lemma stable_quote c v : (code c =? 34) = true -> str_stable v -> stable (String c v).
Proof.
  intros Hq Hv rest. rewrite str_app_cons. unfold compact. cbn. assert (Hs : json_space c = false) by (unfold json_space; lia).
  by rewrite Hs, Hq, Hv.
Qed.

Section grammar.
Context (fuel : nat).
Context (IHv : forall s j r, parse_value fuel s = Some (j, r) -> value_compacts s j r).
Context (IHe : forall s l r, parse_elems fuel s = Some (l, r) -> elems_compacts s l r).
Context (IHm : forall s fs r, parse_members fuel s = Some (fs, r) -> members_compacts s fs r).

Lemma compact_word s c t w r j : skip_ws s = String c t -> expect w (String c t) = Some r -> all_verbatim w = true ->
  (forall f, parse_value (S f) w = Some (j, "")) -> value_compacts s j r.
Proof.
  intros Hs E%expect_cut Hv Hw. exists w. split; [|by apply stable_verbatim].
  split; [by rewrite compact_skip, Hs, E, compact_verbatim|]. intros [|f] Hf; [lia|]. apply Hw.
Qed.

(** What comes after an opening bracket still does. *)
Lemma opened s c' t' v r : skip_ws s = String c' t' -> compact s = v +:+ r -> skip_ws v <> "" ->
  exists t'', skip_ws v = String c' t''.
Proof. intros Hs Hv Hn. destruct (compact_first _ _ _ Hs) as [u Hu]. rewrite Hv in Hu. by eapply skip_ws_head. Qed.

Lemma compact_array s c t j r : skip_ws s = String c t -> (code c =? 91) = true -> parse_value (S fuel) s = Some (j, r) -> value_compacts s j r.
Proof.
  intros Hs Hc H. pose proof (skip_ws_cut _ _ _ Hs) as (_ & _ & _ & Hsp). cbn [parse_value] in H. rewrite Hs in H.
  assert (E34 : (code c =? 34) = false) by lia. rewrite E34, Hc in H. destruct (skip_ws t) as [|c' t'] eqn:Et; [done|].
  destruct (code c' =? 93) eqn:E3.
  - injection H as <- <-. exists (String c (String c' "")).
    apply skip_ws_cut in Et as Hsp'. destruct Hsp' as (_ & _ & _ & Hsp'). split; [split|].
    + rewrite (compact_delim _ _ _ Hs E34), (compact_delim _ _ _ Et) by lia. done.
    + intros [|f] Hf; [lia|]. cbn [parse_value skip_ws]. rewrite Hsp, E34, Hc. cbn [skip_ws]. by rewrite Hsp', E3.
    + apply stable_cons; [done|done|]. apply stable_cons; [done|lia|done].
  - destruct (parse_elems fuel t) as [[l r']|] eqn:Ee; [|done]. injection H as <- <-. apply IHe in Ee as (v & [Hv Hp] & Hst).
    exists (String c v). split; [|by apply stable_cons]. split; [rewrite (compact_delim _ _ _ Hs E34), Hv; by str_norm|].
    intros [|f] Hf; [lia|]. cbn [String.length] in Hf. cbn [parse_value skip_ws]. rewrite Hsp, E34, Hc, Hp by lia.
    destruct (opened t c' t' v _ Et Hv) as [t'' ->]; [|by rewrite E3]. eapply parse_elems_head, (Hp _ (le_n _)).
Qed.

Lemma compact_object s c t j r : skip_ws s = String c t -> (code c =? 123) = true -> parse_value (S fuel) s = Some (j, r) -> value_compacts s j r.
Proof.
  intros Hs Hc H. pose proof (skip_ws_cut _ _ _ Hs) as (_ & _ & _ & Hsp). cbn [parse_value] in H. rewrite Hs in H.
  assert (E34 : (code c =? 34) = false) by lia. assert (E91 : (code c =? 91) = false) by lia.
  rewrite E34, E91, Hc in H. destruct (skip_ws t) as [|c' t'] eqn:Et; [done|]. destruct (code c' =? 125) eqn:E3.
  - injection H as <- <-. exists (String c (String c' "")).
    apply skip_ws_cut in Et as Hsp'. destruct Hsp' as (_ & _ & _ & Hsp'). split; [split|].
    + rewrite (compact_delim _ _ _ Hs E34), (compact_delim _ _ _ Et) by lia. done.
    + intros [|f] Hf; [lia|]. cbn [parse_value skip_ws]. rewrite Hsp, E34, E91, Hc. cbn [skip_ws]. by rewrite Hsp', E3.
    + apply stable_cons; [done|done|]. apply stable_cons; [done|lia|done].
  - destruct (parse_members fuel t) as [[l r']|] eqn:Ee; [|done]. injection H as <- <-. apply IHm in Ee as (v & [Hv Hp] & Hst).
    exists (String c v). split; [|by apply stable_cons]. split; [rewrite (compact_delim _ _ _ Hs E34), Hv; by str_norm|].
    intros [|f] Hf; [lia|]. cbn [String.length] in Hf. cbn [parse_value skip_ws]. rewrite Hsp, E34, E91, Hc, Hp by lia.
    destruct (opened t c' t' v _ Et Hv) as [t'' ->]; [|by rewrite E3]. eapply parse_members_head, (Hp _ (le_n _)).
Qed.

Lemma compact_value s j r : parse_value (S fuel) s = Some (j, r) -> value_compacts s j r.
Proof.
  intros H. pose proof H as H0. cbn [parse_value] in H. destruct (skip_ws s) as [|c t] eqn:Hs; [done|].
  pose proof (skip_ws_cut _ _ _ Hs) as (_ & _ & _ & Hsp). destruct (code c =? 34) eqn:E1.
  { destruct (parse_str _ 0 t) as [[x r']|] eqn:Ep; [|done]. injection H as <- <-. apply compact_str in Ep as (v & [Hv Hp] & Hst); [|done].
    exists (String c v). split; [|by apply stable_quote]. split; [rewrite (compact_quote _ _ _ Hs E1), Hv; by str_norm|].
    intros [|f] Hf; [lia|]. cbn [parse_value skip_ws]. rewrite Hsp, E1. by rewrite Hp by lia. }
  destruct (code c =? 91) eqn:E2; [by eapply compact_array|]. destruct (code c =? 123) eqn:E3; [by eapply compact_object|]. clear H0.
  destruct (code c =? 110); [head_match H; injection H as <- <-; by eapply compact_word|].
  destruct (code c =? 116); [head_match H; injection H as <- <-; by eapply compact_word|].
  destruct (code c =? 102); [head_match H; injection H as <- <-; by eapply compact_word|].
  destruct (scan_number _) as [[[x n] r']|] eqn:En; [|done]. injection H as <- <-. pose proof (scan_number_verbatim _ _ _ _ En) as Hv.
  apply scan_number_cut in En as [Ex Hn]. exists x. split; [|by apply stable_verbatim]. split; [by rewrite compact_skip, Hs, Ex, compact_verbatim|].
  apply scan_number_dispatch in Hn as [_ Hn]. intros [|f] Hf; [lia|]. apply Hn.
Qed.

(** A value and the delimiter [c]. *)
Lemma value_delim s j r v c t f : value_cut s j r v -> num_stop (String c "") = true -> (2 * String.length v + 1 <= f)%nat ->
  parse_value f (v +:+ String c t) = Some (j, String c t).
Proof.
  intros [_ Hv] Hc Hf. apply (proj1 (parse_app f) v j "" f); [by apply Hv|done|done].
Qed.

Lemma compact_elems s l r : parse_elems (S fuel) s = Some (l, r) -> elems_compacts s l r.
Proof.
  intros H. cbn [parse_elems] in H. destruct (parse_value fuel s) as [[x r0]|] eqn:Ev; [|done].
  apply IHv in Ev as (v & Hv & Hst). destruct (skip_ws r0) as [|c t] eqn:Es; [done|]. pose proof (skip_ws_cut _ _ _ Es) as (_ & _ & _ & Hsp).
  destruct (code c =? 44) eqn:E1.
  - destruct (parse_elems fuel t) as [[l' r'']|] eqn:Ee; [|done]. injection H as <- <-. apply IHe in Ee as (v' & [Hv' Hp'] & Hst').
    exists (v +:+ String c v'). split; [|apply stable_app; [done|]; apply stable_cons; [done|lia|done]]. split.
    + rewrite (proj1 Hv), (compact_delim _ _ _ Es), Hv' by lia. by str_norm.
    + intros [|f] Hf; rewrite str_length_app in Hf; cbn [String.length] in Hf; [lia|]. cbn [parse_elems].
      erewrite value_delim; [|exact Hv|cbn; unfold is_digit; lia|lia]. cbn [skip_ws]. by rewrite Hsp, E1, Hp' by lia.
  - destruct (code c =? 93) eqn:E2; [|done]. injection H as <- <-. exists (v +:+ String c "").
    split; [|apply stable_app; [done|]; apply stable_cons; [done|lia|done]]. split.
    + rewrite (proj1 Hv), (compact_delim _ _ _ Es) by lia. by str_norm.
    + intros [|f] Hf; rewrite str_length_app in Hf; cbn [String.length] in Hf; [lia|]. cbn [parse_elems].
      erewrite value_delim; [|exact Hv|cbn; unfold is_digit; lia|lia]. cbn [skip_ws]. by rewrite Hsp, E1, E2.
Qed.

Lemma compact_members s fs r : parse_members (S fuel) s = Some (fs, r) -> members_compacts s fs r.
Proof.
  intros H. cbn [parse_members] in H. destruct (skip_ws s) as [|q t0] eqn:Es; [done|]. pose proof (skip_ws_cut _ _ _ Es) as (_ & _ & _ & Hq).
  destruct (code q =? 34) eqn:Eq; [|done]. cbn [negb] in H.
  destruct (parse_str _ 0 t0) as [[k r1]|] eqn:Ek; [|done]. apply compact_str in Ek as (kt & Hk & Hkt); [|done].
  destruct (skip_ws r1) as [|c1 r2] eqn:E1; [done|]. pose proof (skip_ws_cut _ _ _ E1) as (_ & _ & _ & Hc1).
  destruct (code c1 =? 58) eqn:Ec1; [|done]. cbn [negb] in H. destruct (parse_value fuel r2) as [[x r3]|] eqn:Ev; [|done].
  apply IHv in Ev as (v & Hv & Hst). destruct (skip_ws r3) as [|c t] eqn:E3; [done|]. pose proof (skip_ws_cut _ _ _ E3) as (_ & _ & _ & Hc).
  assert (Hs : forall t', compact t = t' -> (code c =? 34) = false -> compact s = String q (kt +:+ String c1 (v +:+ String c t'))).
  { intros t' <- Hd. rewrite (compact_quote _ _ _ Es Eq), (proj1 Hk). change (compact_go false false r1) with (compact r1).
    rewrite (compact_delim _ _ _ E1), (proj1 Hv), (compact_delim _ _ _ E3 Hd) by lia. by str_norm. }
  assert (Hstable : forall t', stable t' -> (code c =? 34) = false -> stable (String q (kt +:+ String c1 (v +:+ String c t')))).
  { intros t' Ht' Hd. apply stable_quote; [done|]. intros rest. rewrite str_app_assoc, Hkt, str_app_assoc.
    assert (Hr : stable (String c1 (v +:+ String c t'))) by (apply stable_cons; [done|lia|]; apply stable_app; [done|]; by apply stable_cons).
    unfold compact in Hr. by rewrite Hr. }
  assert (Hstep : forall t' f, num_stop (String c "") = true -> (2 * String.length v + 1 <= f)%nat ->
    parse_members (S f) (String q (kt +:+ String c1 (v +:+ String c t'))) =
    if code c =? 44 then match parse_members f t' with Some (l, r'') => Some ((k, x) :: l, r'') | None => None end
    else if code c =? 125 then Some ([(k, x)], t') else None).
  { intros t' f Hn Hf. cbn [parse_members skip_ws]. rewrite Hq, Eq. cbn [negb]. rewrite (key_then _ _ _ _ _ Hk).
    cbn [skip_ws]. rewrite Hc1, Ec1. cbn [negb]. erewrite value_delim; [|exact Hv|done|lia]. cbn [skip_ws]. by rewrite Hc. }
  assert (Hlen : forall t' f, (2 * String.length (String q (kt +:+ String c1 (v +:+ String c t'))) <= f)%nat ->
    exists f', f = S f' /\ (2 * String.length v + 1 <= f')%nat /\ (2 * String.length t' <= f')%nat).
  { intros t' f Hf. do 3 (cbn [String.length] in Hf; rewrite ?str_length_app in Hf). destruct f as [|f]; [lia|]. exists f.
    split; [done|]. lia. }
  destruct (code c =? 44) eqn:E44.
  - destruct (parse_members fuel t) as [[l' r'']|] eqn:Ee; [|done]. injection H as <- <-. apply IHm in Ee as (v' & [Hv' Hp'] & Hst').
    exists (String q (kt +:+ String c1 (v +:+ String c v'))). split; [|apply Hstable; [done|lia]]. split; [rewrite (Hs _ Hv') by lia; by str_norm|].
    intros f (f' & -> & H1 & H2)%Hlen. rewrite Hstep; [by rewrite Hp'|cbn; unfold is_digit; lia|done].
  - destruct (code c =? 125) eqn:E125; [|done]. injection H as <- <-.
    exists (String q (kt +:+ String c1 (v +:+ String c ""))). split; [|apply Hstable; [done|lia]]. split; [rewrite (Hs _ eq_refl) by lia; by str_norm|].
    intros f (f' & -> & H1 & H2)%Hlen. rewrite Hstep; [done|cbn; unfold is_digit; lia|done].
Qed.

End grammar.

Lemma compact_parse fuel :
  (forall s j r, parse_value fuel s = Some (j, r) -> value_compacts s j r) /\
  (forall s l r, parse_elems fuel s = Some (l, r) -> elems_compacts s l r) /\
  (forall s fs r, parse_members fuel s = Some (fs, r) -> members_compacts s fs r).
Proof.
  induction fuel as [|fuel (IH1 & IH2 & IH3)]; [done|].
  split; [|split]; [by apply compact_value|by apply compact_elems|by apply compact_members].
Qed.

(** The compacted text is a raw message without white space around it, holds the same value, and is not
    changed by another compaction. *)
Theorem compact_same_value s j : json_parse s = Some j ->
  json_parse (compact s) = Some j /\ raw_ok (compact s) = true /\ compact (compact s) = compact s.
Proof.
  unfold json_parse at 1. destruct (parse_value _ s) as [[j' r]|] eqn:Ep; [|done]. destruct (skip_ws r) eqn:Er; [|done]. intros [= ->].
  destruct (skip_ws s) as [|c t] eqn:Es; [by destruct (parse_fuel s); cbn [parse_value] in Ep; rewrite ?Es in Ep|].
  destruct (proj1 (compact_parse _) _ _ _ Ep) as (v & [Hv Hp] & Hst). rewrite (compact_skip r), Er in Hv. change (compact "") with "" in Hv.
  rewrite str_app_nil in Hv. subst v. specialize (Hp (parse_fuel (compact s))).
  assert (Hf : parse_value (parse_fuel (compact s)) (compact s) = Some (j, "")) by (apply Hp; unfold parse_fuel; lia).
  unfold json_parse, raw_ok. rewrite Hf. split; [done|]. split; [|by specialize (Hst ""); rewrite !str_app_nil in Hst].
  rewrite andb_true_r. pose proof (skip_ws_cut _ _ _ Es) as (_ & _ & _ & Hs).
  destruct (code c =? 34) eqn:E; [rewrite (compact_quote _ _ _ Es E) in *|rewrite (compact_delim _ _ _ Es E) in *]; by eapply value_head.
Qed.

(** ** Arrays written from raw elements *)

Definition raw_array (ts : list string) : string := "[" +:+ str_Join ts "," +:+ "]".

Lemma str_Join_cons2 t t' ts : str_Join (t :: t' :: ts) "," = t +:+ String (chr 44) (str_Join (t' :: ts) ",").
Proof. done. Qed.

Lemma raw_elems_ok ts : ts <> [] -> Forall (fun t => raw_ok t = true) ts -> forall fuel rest, (length ts <= fuel)%nat ->
  raw_elems fuel (str_Join ts "," +:+ String (chr 93) rest) = Some ts.
Proof.
  induction ts as [|t ts IH]; [done|]. intros _ [Ht Hts]%Forall_cons fuel rest Hf. destruct fuel as [|fuel]; [cbn in Hf; lia|].
  cbn [length] in Hf. destruct ts as [|t' ts].
  - cbn [str_Join raw_elems]. by rewrite raw_value_ok.
  - rewrite str_Join_cons2. rewrite str_app_assoc, str_app_cons. cbn [raw_elems]. rewrite raw_value_ok by done. cbn [skip_ws]. eval_chars.
    by rewrite IH by (done || lia).
Qed.

Lemma raw_elems_parse ts : ts <> [] -> Forall (fun t => raw_ok t = true) ts -> forall fuel rest,
  (2 * String.length (str_Join ts ",") + 2 <= fuel)%nat ->
  exists js, js <> [] /\ parse_elems fuel (str_Join ts "," +:+ String (chr 93) rest) = Some (js, rest).
Proof.
  induction ts as [|t ts IH]; [done|]. intros _ [Ht Hts]%Forall_cons fuel rest Hf. destruct fuel as [|fuel]; [lia|]. destruct ts as [|t' ts].
  - cbn [str_Join] in *. cbn [parse_elems]. destruct (raw_ok_parse t (String (chr 93) rest) fuel Ht eq_refl) as [j ->]; [unfold parse_fuel; lia|].
    cbn [skip_ws]. eval_chars. by exists [j].
  - rewrite str_Join_cons2 in *. rewrite str_length_app in Hf. cbn [String.length] in Hf. rewrite str_app_assoc, str_app_cons. cbn [parse_elems].
    destruct (raw_ok_parse t (String (chr 44) (str_Join (t' :: ts) "," +:+ String (chr 93) rest)) fuel Ht eq_refl) as [j ->]; [unfold parse_fuel; lia|].
    cbn [skip_ws]. eval_chars. destruct (IH ltac:(done) Hts fuel rest ltac:(lia)) as (js & _ & ->). by exists (j :: js).
Qed.

Lemma str_Join_head ts : ts <> [] -> Forall (fun t => raw_ok t = true) ts -> head_ok (str_Join ts ",") = true.
Proof.
  destruct ts as [|t ts]; [done|]. intros _ [Ht _]%Forall_cons. unfold raw_ok in Ht. apply andb_true_iff in Ht as [Ht _].
  destruct ts as [|t' ts]; [done|]. rewrite str_Join_cons2. by apply head_ok_app.
Qed.

Lemma str_Join_length ts : Forall (fun t => raw_ok t = true) ts -> (length ts <= String.length (str_Join ts ","))%nat.
Proof.
  induction ts as [|t [|t' ts] IH]; intros [Ht Hts]%Forall_cons || intros _; [done|..].
  - apply raw_ok_ne in Ht. destruct t; [done|]. cbn. lia.
  - rewrite str_Join_cons2, str_length_app. cbn [length String.length] in *. specialize (IH Hts). lia.
Qed.

(** An array written element by element, with white space after it, holds these raw elements. *)
Lemma json_shape_raw_array ts rest : Forall (fun t => raw_ok t = true) ts -> skip_ws rest = "" -> json_shape (raw_array ts +:+ rest) = Some (RawArr ts).
Proof.
  intros Hts Hr. destruct (decide (ts = [])) as [->|Hn].
  { assert (E : json_parse (raw_array [] +:+ rest) = Some (JArr [])); [|unfold json_shape; by rewrite E].
    unfold json_parse. change (raw_array [] +:+ rest) with (String (chr 91) (String (chr 93) rest)).
    destruct (parse_fuel _) as [|fuel] eqn:Ef; [by unfold parse_fuel in Ef|]. cbn [parse_value skip_ws]. eval_chars. cbn [skip_ws]. eval_chars. by rewrite Hr. }
  assert (E : raw_array ts +:+ rest = String (chr 91) (str_Join ts "," +:+ String (chr 93) rest)) by (unfold raw_array; by str_norm).
  rewrite E. set (body := str_Join ts "," +:+ String (chr 93) rest).
  assert (Hb : head_ok body = true) by (apply head_ok_app; by apply str_Join_head).
  assert (Hlen : (2 * String.length (str_Join ts ",") + 4 <= parse_fuel (String (chr 91) body))%nat).
  { unfold parse_fuel, body. cbn [String.length]. rewrite str_length_app. cbn [String.length]. lia. }
  assert (Hc : (length ts <= String.length (str_Join ts ","))%nat) by (by apply str_Join_length).
  assert (Hp : exists js, js <> [] /\ json_parse (String (chr 91) body) = Some (JArr js)).
  { unfold json_parse. destruct (parse_fuel (String (chr 91) body)) as [|fuel]; [lia|].
    destruct (raw_elems_parse ts Hn Hts fuel rest ltac:(lia)) as (js & Hj & Ep). exists js. split; [done|]. fold body in Ep.
    cbn [parse_value skip_ws]. eval_chars. rewrite (head_ok_skip_ws _ Hb). destruct (head_ok_tests _ Hb) as (c & t & Et & Hc1 & Hc2).
    rewrite Et at 1. by rewrite Hc1, Ep, Hr. }
  destruct Hp as (js & Hj & Hp). unfold json_shape. rewrite Hp. destruct js as [|j js]; [done|]. cbn [skip_ws]. eval_chars. cbn [str_drop].
  unfold body in *. rewrite raw_elems_ok; [done|done|done|lia].
Qed.

Lemma spaces_num_stop rest : skip_ws rest = "" -> num_stop rest = true.
Proof. destruct rest as [|c rest]; [done|]. cbn [skip_ws]. destruct (json_space c) eqn:E; [|done]. intros _. by apply space_stops. Qed.

(** The same for objects. *)
Lemma json_shape_raw_object_spaces kvs rest : kvs <> [] -> Forall (fun kv => member_ok kv = true) kvs -> skip_ws rest = "" ->
  json_shape (raw_object kvs +:+ rest) = Some (RawObj kvs).
Proof.
  intros Hn Hk Hr. destruct (raw_object_parse kvs Hn Hk) as (fs & Hfs & Ep).
  assert (E : raw_object kvs +:+ rest = String (chr 123) (raw_members_text kvs +:+ String (chr 125) rest)) by (unfold raw_object, raw_members_text; by str_norm).
  assert (Hp : json_parse (raw_object kvs +:+ rest) = Some (JObj fs)).
  { unfold json_parse. erewrite (proj1 (parse_app _) _ _ _ _ rest Ep); [by rewrite str_app_empty, Hr|unfold parse_fuel; rewrite str_length_app; lia|].
    by apply spaces_num_stop. }
  unfold json_shape. rewrite Hp. destruct fs as [|f fs]; [done|]. rewrite E. cbn [skip_ws]. eval_chars. cbn [str_drop].
  rewrite raw_members_ok; [done|done|done|]. pose proof (raw_members_text_length kvs). unfold parse_fuel. cbn [String.length]. rewrite str_length_app. lia.
Qed.

(** ** What the encoder writes is compact *)

Lemma escape_ascii_stable c u : (code c <? 128) = true -> compact_go true false (escape_ascii c +:+ u) = escape_ascii c +:+ compact_go true false u.
Proof.
  destruct c as [[] [] [] [] [] [] [] []]; intros H; vm_compute in H; try discriminate; destruct u as [|? [|? ?]]; reflexivity.
Qed.

(** A lead byte in front of its continuation bytes, which are copied. *)
Lemma lead_stable c s n t : (code c <? 128) = false -> line_separator c s = None -> rune_extra c s = Some n ->
  compact_go true false (String c (escape_str n 0 s +:+ t)) = String c (compact_go true false (escape_str n 0 s +:+ t)).
Proof.
  intros Hc Hl Hr. apply compact_copy; [|lia..]. destruct (code c =? 226) eqn:E; [|by apply line_separator_lead].
  unfold rune_extra in Hr. unfold in_range at 1 3 in Hr. destruct s as [|c1 [|c2 s]]; [done|split_matches; lia|]. split_matches; try (unfold in_range in *; lia);
  (cbn [escape_str]; by rewrite !str_app_cons).
Qed.

Lemma escape_stable_str n : forall s copy rest, (String.length s <= n)%nat -> conts copy s = true ->
  compact_go true false (escape_str copy 0 s +:+ quote +:+ rest) = escape_str copy 0 s +:+ quote +:+ compact_go false false rest.
Proof.
  induction n as [|n IH]; intros s copy rest Hn Hk; (destruct s as [|c s]; [by destruct copy, rest as [|? [|? ?]]|cbn in Hn; try lia]).
  destruct copy as [|copy]; cbn [escape_str].
  2: { cbn in Hk. apply andb_true_iff in Hk as [Hc Hk]. rewrite !str_app_cons, compact_cont by done. by rewrite IH by (done || lia). }
  destruct (code c <? 128) eqn:Hc; [rewrite !str_app_assoc, escape_ascii_stable by done; by rewrite IH by (done || lia)|].
  destruct (line_separator c s) as [d|] eqn:Hl.
  { assert (Hst : forall u, compact_go true false (String (chr 92) "u202" +:+ String d u) = String (chr 92) "u202" +:+ String d (compact_go true false u))
      by (exact (separator_stable _ _ _ Hl)).
    apply line_separator_spec in Hl as (c1 & c2 & s' & -> & He & _). cbn in Hn. rewrite He, !str_app_assoc, !(str_app_cons d), Hst. by rewrite IH by (done || lia). }
  destruct (rune_extra c s) as [k|] eqn:Hr.
  - rewrite !str_app_cons, lead_stable by done. rewrite IH; [done|lia|]. by apply rune_extra_conts in Hr.
  - assert (Hst : forall u, compact_go true false (String (chr 92) "ufffd" +:+ u) = String (chr 92) "ufffd" +:+ compact_go true false u)
      by (intros [|? [|? ?]]; reflexivity).
    rewrite !str_app_assoc, Hst. by rewrite IH by (done || lia).
Qed.

Lemma quoted_stable s : stable (quoted s).
Proof.
  assert (H : str_stable (escape_str 0 0 s +:+ quote)).
  { intros rest. rewrite !str_app_assoc. by apply (escape_stable_str (String.length s)). }
  exact (stable_quote quote_char _ eq_refl H).
Qed.

Lemma Join_stable ts : Forall stable ts -> stable (str_Join ts ",").
Proof.
  induction ts as [|t ts IH]; intros H; [done|]. apply Forall_cons in H as [Ht Hts]. destruct ts as [|t' ts]; [done|].
  rewrite str_Join_cons2. apply stable_app; [done|]. apply stable_cons; [done|done|by apply IH].
Qed.

Lemma raw_array_stable ts : Forall stable ts -> stable (raw_array ts).
Proof.
  intros H%Join_stable. apply (stable_app "["); [by apply stable_verbatim|]. apply stable_app; [done|by apply stable_verbatim].
Qed.

Lemma raw_object_stable kvs : Forall (fun kv => stable (snd kv)) kvs -> stable (raw_object kvs).
Proof.
  intros H. apply (stable_app "{"); [by apply stable_verbatim|]. apply stable_app; [|by apply stable_verbatim]. apply Join_stable, Forall_map.
  eapply Forall_impl; [exact H|]. intros [k v] Hv. cbn. apply stable_app; [apply quoted_stable|]. by apply (stable_app ":"); [apply stable_verbatim|].
Qed.

Lemma json_Marshal_stable j : wf_json j = true -> stable (json_Marshal j).
Proof.
  induction j as [|b|lit|s|l IH|fs IH] using json_ind'; intros Hw; [by apply stable_verbatim|by destruct b; apply stable_verbatim| |apply quoted_stable|..].
  - cbn in *. destruct (scan_number lit) as [[[t n] r]|] eqn:E; [|by rewrite andb_false_r in Hw]. apply andb_true_iff in Hw as [_ Hw].
    destruct r; [|done]. apply bool_decide_eq_true in Hw as ->. by eapply stable_verbatim, scan_number_verbatim.
  - cbn [wf_json] in Hw. apply raw_array_stable, Forall_map. eapply Forall_impl; [exact (forallb_Forall_imp wf_json _ _ IH Hw)|done].
  - cbn [wf_json] in Hw. apply andb_true_iff in Hw as [_ Hw]. 
    assert (E : json_Marshal (JObj fs) = raw_object (map (fun kv => (fst kv, json_Marshal (snd kv))) fs)) by (unfold raw_object; by rewrite map_map). rewrite E.
    apply raw_object_stable, Forall_map. eapply (forallb_Forall_imp (fun kv => valid_utf8 0 (fst kv) && wf_json (snd kv))); [|exact Hw].
    eapply Forall_impl; [exact IH|]. intros [k x] Hx. cbn. intros [_ H]%andb_true_iff. by apply Hx.
Qed.

Lemma compact_stable s j : json_parse s = Some j -> stable (compact s).
Proof.
  unfold json_parse. destruct (parse_value _ s) as [[j' r]|] eqn:Ep; [|done]. destruct (skip_ws r) eqn:Er; [|done]. intros _.
  destruct (proj1 (compact_parse _) _ _ _ Ep) as (v & [Hv _] & Hst). by rewrite (compact_skip r), Er, str_app_nil in Hv; subst v.
Qed.

(** ** Strings of any bytes *)

(** What is read from a string that is written: bytes that are no UTF-8 come back as U+FFFD. *)
Fixpoint str_valid (copy : nat) (s : string) : string :=
  match s with
  | EmptyString => EmptyString
  | String c s1 =>
      match copy with
      | S copy' => String c (str_valid copy' s1)
      | O =>
          if code c <? 128 then String c (str_valid 0 s1)
          else match rune_extra c s1 with Some n => String c (str_valid n s1) | None => utf8_error +:+ str_valid 0 s1 end
      end
  end.

Lemma str_valid_utf8 s : forall copy, valid_utf8 copy s = true -> str_valid copy s = s.
Proof.
  induction s as [|c s IH]; intros copy H; [done|]. destruct copy as [|copy]; cbn in *.
  - destruct (code c <? 128); [by rewrite IH|]. destruct (rune_extra c s); [by rewrite IH|done].
  - apply andb_true_iff in H as [_ H]. by rewrite IH.
Qed.

Lemma escape_str_reads n : forall s copy fuel rest, (String.length s <= n)%nat -> conts copy s = true ->
  (String.length (escape_str copy 0 s) < fuel)%nat -> parse_str fuel copy (escape_str copy 0 s +:+ quote +:+ rest) = Some (str_valid copy s, rest).
Proof.
  induction n as [|n IH]; intros s copy fuel rest Hn Hv Hf; (destruct s as [|c s]; [destruct copy; [by destruct fuel; [lia|]|done]|cbn in Hn; try lia]).
  destruct fuel as [|fuel]; [lia|]. destruct copy as [|copy]; cbn [escape_str str_valid] in *.
  2: { cbn in Hv, Hf. apply andb_true_iff in Hv as [_ Hv]. rewrite str_app_cons, parse_str_copy, IH by (done || lia). done. }
  destruct (code c <? 128) eqn:Hc.
  { rewrite str_app_assoc, parse_str_escape_ascii by done. rewrite str_length_app in Hf.
    pose proof (escape_ascii_length c). rewrite IH by (done || lia). done. }
  destruct (line_separator c s) as [d|] eqn:Hl.
  { apply line_separator_spec in Hl as (c1 & c2 & s' & -> & He & Hr & _ & Hp). rewrite Hr, He, str_app_assoc, (str_app_cons d), Hp.
    rewrite He, str_length_app in Hf. cbn in Hf, Hn. by rewrite IH by (done || lia). }
  destruct (rune_extra c s) as [k|] eqn:Hr.
  - cbn in Hf. rewrite str_app_cons, (parse_str_lead _ _ k) by (done || by apply rune_extra_escape).
    by rewrite IH by (lia || by eapply rune_extra_conts).
  - assert (Hp : forall t, parse_str (S fuel) 0 (String (chr 92) "ufffd" +:+ t) = prepend utf8_error (parse_str fuel 0 t)) by done.
    rewrite str_app_assoc, Hp. rewrite str_length_app in Hf. cbn in Hf. by rewrite IH by (done || lia).
Qed.

(** Any string is written as a text that is read back as a string. *)
Lemma quoted_reads s : raw_ok (quoted s) = true /\ json_parse (quoted s) = Some (JStr (str_valid 0 s)).
Proof.
  assert (Hp : parse_value (parse_fuel (quoted s)) (quoted s) = Some (JStr (str_valid 0 s), "")).
  { assert (E : quoted s = String quote_char (escape_str 0 0 s +:+ quote +:+ "")) by (unfold quoted; by rewrite str_app_nil).
    rewrite E. unfold parse_fuel. cbn [parse_value skip_ws]. eval_chars.
    by rewrite (escape_str_reads (String.length s)) by (done || rewrite !str_length_app; lia). }
  unfold raw_ok, json_parse. rewrite Hp. by split.
Qed.
