(* ===== verification/Geth.v ===== *)
(** * go-ethereum: the parts of [hexutil] and [rpc] the proxy calls

    Not part of the sources, so a pair of classes: the operations, and what their documentation
    promises.  The instances at the end show that the promises can be kept. *)

From S2P Require Import Prelude Json JsonFacts.

(** go-ethereum's [hexutil]: quantities as 0x-prefixed hexadecimal text. *)
Class HexUtil : Type := {
  hex_String : Z -> string;
  hex_DecodeUint64 : string -> option Z;
}.

(** A printed quantity is plain text that decodes to itself. *)
Class HexUtilLaws `{!HexUtil} : Prop := {
  hex_roundtrip z : in_u64 z -> hex_DecodeUint64 (hex_String z) = Some z;
  hex_utf8 z : in_u64 z -> valid_utf8 0 (hex_String z) = true;
  hex_range s z : hex_DecodeUint64 s = Some z -> in_u64 z;
  hex_empty : hex_DecodeUint64 "" = None;
}.

(** [rpc.BlockNumberOrHash] (EIP-1898). *)
Record BlockNumberOrHash : Type := mkBNH {
  bnh_BlockNumber : option Z;
  bnh_BlockHash : option string;
  bnh_RequireCanonical : bool;
}.

Definition BlockNumberOrHashWithNumber (n : Z) : BlockNumberOrHash := mkBNH (Some n) None false.

(** [rpc.BlockNumber] is an int64; the tags are negative numbers ([earliest] is 0 in some versions). *)
Class BlockRPC : Type := {
  EarliestBlockNumber : Z;
  SafeBlockNumber : Z;
  FinalizedBlockNumber : Z;
  LatestBlockNumber : Z;
  PendingBlockNumber : Z;
  bnh_UnmarshalJSON : string -> option BlockNumberOrHash;
  (** what [json.Marshal] makes of the struct *)
  bnh_json : BlockNumberOrHash -> json;
}.

(** [json.Unmarshal] into [[]rpc.BlockNumberOrHash]. *)
Definition unmarshal_bnhs `{!BlockRPC} (raw : string) : option (list BlockNumberOrHash) :=
  match unmarshal_raw_slice raw with
  | Some l => mapM bnh_UnmarshalJSON l
  | None => None
  end.

(** How block numbers and hashes are printed in requests for receipts. *)
Class ReceiptsRPC : Type := {
  bn_String : Z -> string;
  hash_Hex : string -> string;
}.

Class BlockRPCLaws `{!HexUtil, !BlockRPC} : Prop := {
  tags_distinct : NoDup [EarliestBlockNumber; SafeBlockNumber; FinalizedBlockNumber; LatestBlockNumber;
                         PendingBlockNumber];
  tags_negative : SafeBlockNumber < 0 /\ FinalizedBlockNumber < 0 /\ LatestBlockNumber < 0 /\
                  PendingBlockNumber < 0 /\ EarliestBlockNumber <= 0;
  bnh_latest : bnh_UnmarshalJSON (quoted "latest") = Some (BlockNumberOrHashWithNumber LatestBlockNumber);
  bnh_safe : bnh_UnmarshalJSON (quoted "safe") = Some (BlockNumberOrHashWithNumber SafeBlockNumber);
  bnh_finalized :
    bnh_UnmarshalJSON (quoted "finalized") = Some (BlockNumberOrHashWithNumber FinalizedBlockNumber);
  bnh_pending : bnh_UnmarshalJSON (quoted "pending") = Some (BlockNumberOrHashWithNumber PendingBlockNumber);
  bnh_earliest : bnh_UnmarshalJSON (quoted "earliest") = Some (BlockNumberOrHashWithNumber EarliestBlockNumber);
  (** a number in hexadecimal text, up to the largest int64 *)
  bnh_hex n : 0 <= n < 2 ^ 63 ->
    bnh_UnmarshalJSON (quoted (hex_String n)) = Some (BlockNumberOrHashWithNumber n);
  (** a hexadecimal quantity, when it is accepted, denotes its number *)
  bnh_quantity s v b : valid_utf8 0 s = true -> hex_DecodeUint64 s = Some v ->
    bnh_UnmarshalJSON (quoted s) = Some b -> bnh_BlockNumber b = Some v;
  (** a string that is accepted is a tag, a number or a hash *)
  bnh_string s b : valid_utf8 0 s = true -> bnh_UnmarshalJSON (quoted s) = Some b ->
    bnh_BlockNumber b = None -> is_Some (bnh_BlockHash b);
  (** the struct form of a block number *)
  bnh_json_number n : 0 <= n < 2 ^ 63 ->
    bnh_UnmarshalJSON (json_Marshal (bnh_json (BlockNumberOrHashWithNumber n)))
    = Some (BlockNumberOrHashWithNumber n);
  bnh_json_object n : 0 <= n < 2 ^ 63 ->
    wf_json (bnh_json (BlockNumberOrHashWithNumber n)) = true;
}.

(** [hexutil] as it is documented: lower-case digits without leading zeros. *)
Fixpoint hex_digits (fuel : nat) (z : Z) (acc : string) : string :=
  match fuel with
  | O => acc
  | S f =>
      let acc := String (hex_digit (z mod 16)) acc in
      if z <? 16 then acc else hex_digits f (z / 16) acc
  end.

Fixpoint hex_value (acc : Z) (s : string) : option Z :=
  match s with
  | EmptyString => Some acc
  | String c s' => match hex_val c with Some d => hex_value (acc * 16 + d) s' | None => None end
  end.

#[global] Instance hexutil_text : HexUtil := {
  hex_String z := "0x" +:+ hex_digits 17 z "";
  hex_DecodeUint64 s :=
    match s with
    | String z0 (String x (String d ds)) =>
        if (code z0 =? 48) && ((code x =? 120) || (code x =? 88))
           && negb ((code d =? 48) && negb (bool_decide (ds = "")))
        then match hex_value 0 (String d ds) with
             | Some v => if v <? 2 ^ 64 then Some v else None
             | None => None
             end
        else None
    | _ => None
    end;
}.

Lemma hex_digit_spec d : 0 <= d < 16 ->
  hex_val (hex_digit d) = Some d /\ (code (hex_digit d) <? 128) = true /\ (code (hex_digit d) = 48 -> d = 0).
Proof.
  intros H. assert (Hd : d = 0 \/ d = 1 \/ d = 2 \/ d = 3 \/ d = 4 \/ d = 5 \/ d = 6 \/ d = 7 \/ d = 8 \/
    d = 9 \/ d = 10 \/ d = 11 \/ d = 12 \/ d = 13 \/ d = 14 \/ d = 15) by lia.
  destruct_or! Hd; subst; vm_compute; repeat split; congruence.
Qed.

Fixpoint all_low (s : string) : bool :=
  match s with EmptyString => true | String c s' => (code c <? 128) && all_low s' end.

Lemma all_low_utf8 s : all_low s = true -> valid_utf8 0 s = true.
Proof. induction s as [|c s IH]; simpl; [done|]. rewrite andb_true_iff. intros [-> H]. auto. Qed.

Lemma all_low_app s t : all_low (s +:+ t) = all_low s && all_low t.
Proof. induction s as [|c s IH]; [done|]. rewrite str_app_cons. simpl. by rewrite IH, andb_assoc. Qed.

Lemma hex_digits_spec f : forall z acc, 0 <= z < 16 ^ Z.of_nat f -> (1 <= f)%nat ->
  exists c ds, hex_digits f z acc = String c ds +:+ acc /\
    (forall a t, hex_value a (String c ds +:+ t) = hex_value (a * 16 ^ Z.of_nat (S (String.length ds)) + z) t) /\
    all_low (String c ds) = true /\ (code c = 48 -> ds = "" /\ z = 0).
Proof.
  induction f as [|f IH]; intros z acc Hz Hf; [lia|]. cbn [hex_digits].
  assert (Hm : 0 <= z mod 16 < 16) by (apply Z.mod_pos_bound; lia).
  destruct (hex_digit_spec _ Hm) as (Hv & Hl & H0).
  destruct (Z.ltb_spec z 16) as [Hlt|Hge].
  - exists (hex_digit (z mod 16)), "". rewrite (Z.mod_small z 16) in * by lia.
    split_and!; [done| |simpl; by rewrite Hl|auto].
    intros a t. rewrite str_app_cons. cbn [hex_value]. by rewrite Hv.
  - assert (Hq : 1 <= z / 16 < 16 ^ Z.of_nat f).
    { rewrite Nat2Z.inj_succ, Z.pow_succ_r in Hz by lia. split; [apply Z.div_le_lower_bound; lia|].
      apply Z.div_lt_upper_bound; lia. }
    destruct f as [|f]; [simpl in Hq; lia|].
    destruct (IH (z / 16) (String (hex_digit (z mod 16)) acc) ltac:(lia) ltac:(lia))
      as (c & ds & E & Hval & Hu & Hz0).
    exists c, (ds +:+ String (hex_digit (z mod 16)) ""). split_and!.
    + rewrite E. by str_norm.
    + intros a t. rewrite <- str_app_cons, str_app_assoc, Hval, str_app_cons. cbn [hex_value].
      rewrite Hv, str_app_empty, str_length_app. f_equal. cbn [String.length].
      rewrite Nat.add_1_r, !Nat2Z.inj_succ, !Z.pow_succ_r by lia. pose proof (Z.div_mod z 16). lia.
    + rewrite <- str_app_cons, all_low_app, Hu. simpl. by rewrite Hl.
    + intros Hc. destruct (Hz0 Hc). lia.
Qed.

Lemma hex_value_nonneg s : forall a z, 0 <= a -> hex_value a s = Some z -> 0 <= z.
Proof.
  induction s as [|c s IH]; simpl; intros a z Ha H; [by injection H as <-|].
  destruct (hex_val c) as [d|] eqn:E; [|done]. apply hex_val_range in E. eapply IH; [|exact H]. lia.
Qed.

#[global] Instance hexutil_text_laws : HexUtilLaws.
Proof.
  constructor; unfold in_u64.
  - intros z Hz. destruct (hex_digits_spec 17 z "") as (c & ds & E & Hv & _ & H0);
      [change (16 ^ Z.of_nat 17) with (16 ^ 17); lia|lia|].
    unfold hex_String, hex_DecodeUint64, hexutil_text. rewrite E, str_app_nil. str_norm. eval_chars.
    specialize (Hv 0 ""). rewrite str_app_nil in Hv. rewrite Hv. cbn [hex_value].
    rewrite Z.mul_0_l, Z.add_0_l. destruct (Z.ltb_spec z (2 ^ 64)); [|lia].
    destruct (Z.eqb_spec (code c) 48) as [Hc|Hc]; [|done].
    destruct (H0 Hc) as [-> _]. done.
  - intros z Hz. destruct (hex_digits_spec 17 z "") as (c & ds & E & _ & Hu & _);
      [change (16 ^ Z.of_nat 17) with (16 ^ 17); lia|lia|].
    unfold hex_String, hexutil_text. rewrite E, str_app_nil. apply all_low_utf8. by str_norm.
  - intros s z H. unfold hex_DecodeUint64, hexutil_text in H.
    destruct s as [|z0 [|x [|d ds]]]; try done. destruct (_ && _ && _); [|done].
    destruct (hex_value 0 (String d ds)) as [v|] eqn:Ev; [|done].
    apply hex_value_nonneg in Ev; [|lia]. destruct (Z.ltb_spec v (2 ^ 64)); [|done].
    injection H as <-. lia.
  - reflexivity.
Qed.

(** [rpc.BlockNumberOrHash] as it is documented: a tag, a hexadecimal number, a 32-byte hash, or an
    object with one of the two. *)
Definition block_tag (s : string) : option Z :=
  if bool_decide (s = "earliest") then Some (-5)
  else if bool_decide (s = "safe") then Some (-4)
  else if bool_decide (s = "finalized") then Some (-3)
  else if bool_decide (s = "latest") then Some (-2)
  else if bool_decide (s = "pending") then Some (-1)
  else None.

(** A string that is no tag: a hexadecimal number, or else a hash. *)
Definition block_string (s : string) : option BlockNumberOrHash :=
  match block_tag s with
  | Some n => Some (BlockNumberOrHashWithNumber n)
  | None =>
      match hex_DecodeUint64 s with
      | Some v => if v <? 2 ^ 63 then Some (BlockNumberOrHashWithNumber v) else None
      | None => if (String.length s =? 66)%nat then Some (mkBNH None (Some s) false) else None
      end
  end.

#[global] Instance block_rpc : BlockRPC := {
  EarliestBlockNumber := -5;
  SafeBlockNumber := -4;
  FinalizedBlockNumber := -3;
  LatestBlockNumber := -2;
  PendingBlockNumber := -1;
  bnh_UnmarshalJSON text :=
    match json_Unmarshal text with
    | Some (JStr s) => block_string s
    | Some (JObj fs) =>
        match obj_lookup "blockNumber" fs, obj_lookup "blockHash" fs with
        | Some (JStr s), None =>
            match block_string s with
            | Some (mkBNH (Some n) None _) => Some (BlockNumberOrHashWithNumber n)
            | _ => None
            end
        | None, Some (JStr h) => Some (mkBNH None (Some h) false)
        | None, None => Some (mkBNH None None false)
        | _, _ => None
        end
    | Some JNull => Some (mkBNH None None false)
    | _ => None
    end;
  bnh_json b :=
    JObj (match bnh_BlockHash b with Some h => [("blockHash", JStr h)] | None => [] end
          ++ match bnh_BlockNumber b with Some n => [("blockNumber", JStr (hex_String n))] | None => [] end);
}.

Lemma block_tag_quantity s v : hex_DecodeUint64 s = Some v -> block_tag s = None.
Proof.
  intros Hv. assert (H : forall t, hex_DecodeUint64 t = None -> bool_decide (s = t) = false).
  { intros t Ht. apply bool_decide_eq_false_2. congruence. }
  unfold block_tag. by rewrite !H by (vm_compute; reflexivity).
Qed.

Lemma block_string_quantity s v : hex_DecodeUint64 s = Some v ->
  block_string s = if v <? 2 ^ 63 then Some (BlockNumberOrHashWithNumber v) else None.
Proof. intros Hv. unfold block_string. by rewrite (block_tag_quantity s v Hv), Hv. Qed.

Lemma block_string_hex n : 0 <= n < 2 ^ 63 -> block_string (hex_String n) = Some (BlockNumberOrHashWithNumber n).
Proof.
  intros Hn. rewrite (block_string_quantity _ n) by (apply hex_roundtrip; unfold in_u64; lia).
  destruct (Z.ltb_spec n (2 ^ 63)); [|lia]. reflexivity.
Qed.

Lemma unmarshal_quoted s : valid_utf8 0 s = true -> json_Unmarshal (quoted s) = Some (JStr s).
Proof. intros H. by apply (json_roundtrip (JStr s)). Qed.

Lemma bnh_json_wf n : 0 <= n < 2 ^ 63 ->
  wf_json (JObj [("blockNumber", JStr (hex_String n))]) = true.
Proof.
  intros Hn. cbn [wf_json keys_increasing forallb fst snd andb].
  rewrite (hex_utf8 n) by (unfold in_u64; lia). reflexivity.
Qed.

#[global] Instance block_rpc_laws : BlockRPCLaws.
Proof.
  constructor.
  - apply (bool_decide_unpack _). vm_compute. exact I.
  - vm_compute. repeat split; congruence.
  - vm_compute. reflexivity.
  - vm_compute. reflexivity.
  - vm_compute. reflexivity.
  - vm_compute. reflexivity.
  - vm_compute. reflexivity.
  - intros n Hn. unfold bnh_UnmarshalJSON, block_rpc.
    rewrite unmarshal_quoted by (apply hex_utf8; unfold in_u64; lia). by rewrite block_string_hex.
  - intros s v b Hs Hv. unfold bnh_UnmarshalJSON, block_rpc. rewrite unmarshal_quoted by done.
    rewrite (block_string_quantity s v Hv). destruct (Z.ltb_spec v (2 ^ 63)); [by intros [= <-]|done].
  - intros s b Hs. unfold bnh_UnmarshalJSON, block_rpc. rewrite unmarshal_quoted by done. unfold block_string.
    destruct (block_tag s); [by intros [= <-]|]. destruct (hex_DecodeUint64 s); [destruct (_ <? _); [by intros [= <-]|done]|].
    destruct (_ =? _)%nat; [|done]. intros [= <-] _. by eexists.
  - intros n Hn. unfold bnh_UnmarshalJSON, bnh_json, block_rpc.
    cbn [bnh_BlockHash bnh_BlockNumber BlockNumberOrHashWithNumber app].
    rewrite json_roundtrip by (by apply bnh_json_wf). cbn [obj_lookup].
    rewrite bool_decide_eq_true_2, bool_decide_eq_false_2 by done. by rewrite block_string_hex.
  - intros n Hn. unfold bnh_json, block_rpc.
    cbn [bnh_BlockHash bnh_BlockNumber BlockNumberOrHashWithNumber app]. by apply bnh_json_wf.
Qed.

(** Block numbers print as their tag or in hexadecimal; a hash is kept as its hexadecimal text. *)
#[global] Instance receipts_rpc : ReceiptsRPC := {
  bn_String n :=
    if n =? -5 then "earliest" else if n =? -4 then "safe" else if n =? -3 then "finalized"
    else if n =? -2 then "latest" else if n =? -1 then "pending"
    else if n <? 0 then "<invalid " +:+ dec_string n +:+ ">" else hex_String n;
  hash_Hex h := h;
}.

(** [hexutil.Uint64] as a JSON value: it is written as a quoted quantity. *)
Class HexJSON : Type := hexu64_UnmarshalJSON : string -> option Z.

Class HexJSONLaws `{!HexUtil, !HexJSON} : Prop := {
  hexu64_roundtrip z : in_u64 z -> hexu64_UnmarshalJSON (quoted (hex_String z)) = Some z;
  hexu64_range raw z : hexu64_UnmarshalJSON raw = Some z -> in_u64 z;
}.

#[global] Instance hexjson_text : HexJSON := fun raw =>
  match json_parse raw with
  | Some (JStr s) => if bool_decide (s = "") then Some 0 else hex_DecodeUint64 s
  | _ => None
  end.

#[global] Instance hexjson_text_laws : HexJSONLaws.
Proof.
  constructor.
  - intros z Hz. unfold hexu64_UnmarshalJSON, hexjson_text. change (quoted (hex_String z)) with (json_Marshal (JStr (hex_String z))).
    rewrite json_parse_marshal by (by apply hex_utf8). rewrite bool_decide_eq_false_2; [by apply hex_roundtrip|].
    intros E. pose proof (hex_roundtrip z Hz) as H. by rewrite E, hex_empty in H.
  - intros raw z. unfold hexu64_UnmarshalJSON, hexjson_text. destruct (json_parse raw) as [[| | |s| |]|]; try done.
    case_bool_decide; [injection 1 as <-; unfold in_u64; lia|]. apply hex_range.
Qed.
