(* ===== verification/Rpc.v ===== *)
(** * JSON-RPC values and errors (src/rpc.go, src/errors.go, the error table of src/backend.go)

    [json.RawMessage] is the byte string it holds (a nil message is the empty string).  Decoding
    into the structs goes member by member as [encoding/json] does: unknown members are skipped,
    names match up to case, a null leaves a plain field alone, a type mismatch is an error.

    Go compares errors by identity along their [Unwrap] chain: a package-level error value is a
    constructor of [sentinel], a fresh [*RPCErr] is [ERPC], [wrapErr] is [EWrap]. *)

From S2P Require Import Prelude Json JsonFacts JsonRaw Geth.

(** ** Requests, responses and errors *)

Record RPCReq : Type := mkRPCReq {
  req_JSONRPC : string;
  req_Method : string;
  req_Params : string;
  req_ID : string;
}.

Record RPCErr : Type := mkRPCErr {
  err_Code : Z;
  err_Message : string;
  err_Data : string;
  err_HTTPErrorCode : Z;
}.

(** The dynamic values stored in a [Result interface{}]. *)
Inductive gvalue : Type :=
| GJson (j : json)
| GHexUint64 (z : Z)
| GRawMessage (raw : string)
| GReceipts (Method : string) (Result : option gvalue).

Record RPCRes : Type := mkRPCRes {
  res_JSONRPC : string;
  res_Result : option gvalue;
  res_Error : option RPCErr;
  res_ID : string;
}.

Definition JSONRPCVersion : string := "2.0".
Definition JSONRPCErrorInternal : Z := -32000.
Definition notFoundRpcError : Z := -32601.

(** The package-level error values, compared by identity. *)
Inductive sentinel : Type :=
| ErrParseErr | ErrInternal | ErrMethodNotWhitelisted | ErrBackendOffline | ErrNoBackends
| ErrBackendOverCapacity | ErrBackendBadResponse | ErrTooManyBatchRequests | ErrGatewayTimeout
| ErrOverRateLimit | ErrOverSenderRateLimit | ErrNotHealthy | ErrBlockOutOfRange
| ErrRequestBodyTooLarge | ErrBackendResponseTooLarge | ErrInteropAccessListOutOfBounds
| ErrContextCanceled | ErrTooManyRequests | ErrFlashbotsSignature
| ErrBackendUnexpectedJSONRPC | ErrConsensusGetReceiptsCantBeBatched
| ErrConsensusGetReceiptsInvalidTarget
| ErrRewriteBlockOutOfRange | ErrRewriteRangeTooLarge | ErrLimitReaderOverLimit
| ErrNoSignature | ErrInvalidSignature
| ContextCanceled | ContextDeadlineExceeded | TxpoolErrInvalidSender | SupervisorErrNoRPCSource.

#[global] Instance sentinel_eq_dec : EqDecision sentinel.
Proof. solve_decision. Defined.

Inductive error : Type :=
| ESentinel (s : sentinel)
| ERPC (e : RPCErr)
| ENew (msg : string)
| EWrap (msg : string) (inner : option error).

(** The [*RPCErr] a sentinel points to, with its initial fields; [None] for a plain [errors.New]. *)
Definition sentinel_rpc (s : sentinel) : option RPCErr :=
  match s with
  | ErrParseErr => Some (mkRPCErr (-32700) "parse error" "" 400)
  | ErrInternal => Some (mkRPCErr JSONRPCErrorInternal "internal error" "" 500)
  | ErrMethodNotWhitelisted =>
      Some (mkRPCErr notFoundRpcError "rpc method is not whitelisted" "" 403)
  | ErrBackendOffline => Some (mkRPCErr (JSONRPCErrorInternal - 10) "backend offline" "" 503)
  | ErrNoBackends =>
      Some (mkRPCErr (JSONRPCErrorInternal - 11)
              "no backend is currently healthy to serve traffic" "" 503)
  | ErrBackendOverCapacity =>
      Some (mkRPCErr (JSONRPCErrorInternal - 12) "backend is over capacity" "" 429)
  | ErrBackendBadResponse =>
      Some (mkRPCErr (JSONRPCErrorInternal - 13) "backend returned an invalid response" "" 500)
  | ErrTooManyBatchRequests =>
      Some (mkRPCErr (JSONRPCErrorInternal - 14) "too many RPC calls in batch request" "" 0)
  | ErrGatewayTimeout => Some (mkRPCErr (JSONRPCErrorInternal - 15) "gateway timeout" "" 504)
  | ErrOverRateLimit => Some (mkRPCErr (JSONRPCErrorInternal - 16) "over rate limit" "" 429)
  | ErrOverSenderRateLimit =>
      Some (mkRPCErr (JSONRPCErrorInternal - 17) "sender is over rate limit" "" 429)
  | ErrNotHealthy =>
      Some (mkRPCErr (JSONRPCErrorInternal - 18)
              "backend is currently not healthy to serve traffic" "" 503)
  | ErrBlockOutOfRange =>
      Some (mkRPCErr (JSONRPCErrorInternal - 19) "block is out of range" "" 400)
  | ErrRequestBodyTooLarge =>
      Some (mkRPCErr (JSONRPCErrorInternal - 21) "request body too large" "" 413)
  | ErrBackendResponseTooLarge =>
      Some (mkRPCErr (JSONRPCErrorInternal - 20) "backend response too large" "" 500)
  | ErrInteropAccessListOutOfBounds =>
      Some (mkRPCErr (JSONRPCErrorInternal - 22) "access list out of bounds" "" 413)
  | ErrContextCanceled => Some (mkRPCErr (JSONRPCErrorInternal - 23) "context canceled" "" 499)
  | ErrTooManyRequests => Some (mkRPCErr (JSONRPCErrorInternal - 24) "too many requests" "" 429)
  | ErrFlashbotsSignature =>
      Some (mkRPCErr (JSONRPCErrorInternal - 25) "invalid flashbots signature" "" 403)
  | _ => None
  end.

(** The text of the sentinels that are not [*RPCErr]. *)
Definition sentinel_text (s : sentinel) : string :=
  match s with
  | ErrBackendUnexpectedJSONRPC => "backend returned an unexpected JSON-RPC response"
  | ErrConsensusGetReceiptsCantBeBatched => "consensus_getReceipts cannot be batched"
  | ErrConsensusGetReceiptsInvalidTarget => "unsupported consensus_receipts_target"
  | ErrRewriteBlockOutOfRange => "block is out of range"
  | ErrRewriteRangeTooLarge => "block range is too large"
  | ErrLimitReaderOverLimit => "over read limit"
  | ErrNoSignature => "no signature provided"
  | ErrInvalidSignature => "invalid signature provided"
  | ContextCanceled => "context canceled"
  | ContextDeadlineExceeded => "context deadline exceeded"
  | TxpoolErrInvalidSender => "invalid sender"
  | SupervisorErrNoRPCSource => "no RPC client configured"
  | s => match sentinel_rpc s with Some e => err_Message e | None => "" end
  end.

(** [err.Error()]; a nil [%w] prints as [%!w(<nil>)]. *)
Fixpoint error_Error (e : error) : string :=
  match e with
  | ESentinel s =>
      match sentinel_rpc s with Some r => err_Message r | None => sentinel_text s end
  | ERPC r => err_Message r
  | ENew m => m
  | EWrap m (Some e') => m +:+ " " +:+ error_Error e'
  | EWrap m None => m +:+ " %!w(<nil>)"
  end.

(** [errors.Is(err, target)] for a sentinel target; a nil error is no target. *)
Fixpoint error_is (e : error) (t : sentinel) : bool :=
  match e with
  | ESentinel s => bool_decide (s = t)
  | ERPC _ => false
  | ENew _ => false
  | EWrap _ (Some e') => error_is e' t
  | EWrap _ None => false
  end.

Definition errors_Is (e : option error) (t : sentinel) : bool :=
  match e with Some e => error_is e t | None => false end.

(** The type assertion of an error to the pointer type of [RPCErr]. *)
Definition as_RPCErr (e : error) : option RPCErr :=
  match e with
  | ESentinel s => sentinel_rpc s
  | ERPC r => Some r
  | _ => None
  end.

Definition wrapErr (err : option error) (msg : string) : error := EWrap msg err.

Definition ErrInvalidRequest (msg : string) : RPCErr := mkRPCErr (-32600) msg "" 400.
Definition ErrInvalidParams (msg : string) : RPCErr := mkRPCErr (-32602) msg "" 400.

Definition RPCErr_Clone (r : RPCErr) : RPCErr :=
  mkRPCErr (err_Code r) (err_Message r) "" (err_HTTPErrorCode r).

Definition IsError (r : RPCRes) : bool :=
  match res_Error r with Some _ => true | None => false end.

Definition IsValidID (id : string) : bool :=
  if str_HasPrefix id quote && str_HasSuffix id quote
  then (2 <? String.length id)%nat
  else
    match id with
    | EmptyString => false
    | String c _ => negb (code c =? 123) && negb (code c =? 91)
    end.

Definition ValidateRPCReq (req : RPCReq) : option error :=
  if negb (bool_decide (req_JSONRPC req = JSONRPCVersion))
  then Some (ERPC (ErrInvalidRequest "invalid JSON-RPC version"))
  else if bool_decide (req_Method req = "")
  then Some (ERPC (ErrInvalidRequest "no method specified"))
  else if negb (IsValidID (req_ID req))
  then Some (ERPC (ErrInvalidRequest "invalid ID"))
  else None.

Definition NewRPCErrorRes (id : string) (err : error) : RPCRes :=
  let rpcErr :=
    match as_RPCErr err with
    | Some rr => rr
    | None => mkRPCErr JSONRPCErrorInternal (error_Error err) "" 0
    end in
  mkRPCRes JSONRPCVersion None (Some rpcErr) id.

Definition NewRPCRes (id : string) (result : gvalue) : RPCRes :=
  mkRPCRes JSONRPCVersion (Some result) None id.

Fixpoint IsBatch (raw : string) : bool :=
  match raw with
  | EmptyString => false
  | String c raw' => if json_space c then IsBatch raw' else code c =? 91
  end.

(** ** Decoding *)

(** The names of members match up to simple case folding, under which the Kelvin sign is a k and the
    long s is an s; the names of the fields are ASCII. *)
Definition lower_char (c : Ascii.ascii) : Ascii.ascii := if (65 <=? code c) && (code c <=? 90) then chr (code c + 32) else c.

Fixpoint to_lower (s : string) : string :=
  match s with
  | EmptyString => EmptyString
  | String c s1 =>
      match s1 with
      | String c2 s2 =>
          if (code c =? 197) && (code c2 =? 191) then String (chr 115) (to_lower s2)
          else match s2 with
               | String c3 s3 =>
                   if (code c =? 226) && (code c2 =? 132) && (code c3 =? 170) then String (chr 107) (to_lower s3)
                   else String (lower_char c) (to_lower s1)
               | _ => String (lower_char c) (to_lower s1)
               end
      | _ => String (lower_char c) (to_lower s1)
      end
  end.

(** A [string] field: null leaves it alone, another type is an error. *)
Definition decode_string (raw : string) (old : string) : option string :=
  match json_parse raw with
  | Some (JStr s) => Some s
  | Some JNull => Some old
  | _ => None
  end.

(** An [int] field: the token must be an integer in range. *)
Definition decode_int (raw : string) (old : Z) : option Z :=
  match json_parse raw with
  | Some (JNum lit) =>
      match scan_number lit with
      | Some (_, mkNumber neg i EmptyString _ EmptyString, EmptyString) =>
          let v := if neg then - digits_val 0 i else digits_val 0 i in
          if bool_decide (in_i64 v) then Some v else None
      | _ => None
      end
  | Some JNull => Some old
  | _ => None
  end.

(** Decodes the members of a struct in order. *)
Fixpoint decode_members {A} (f : string -> string -> A -> option A)
    (kvs : list (string * string)) (a : A) : option A :=
  match kvs with
  | [] => Some a
  | (k, v) :: kvs' =>
      match f (to_lower k) v a with
      | Some a' => decode_members f kvs' a'
      | None => None
      end
  end.

(** [json.Unmarshal(raw, &a)] for a struct: null decodes to no change. *)
Definition decode_struct {A} (f : string -> string -> A -> option A) (raw : string) (a : A) : option A :=
  match json_shape raw with
  | Some (RawObj kvs) => decode_members f kvs a
  | Some (RawScalar JNull) => Some a
  | _ => None
  end.

Definition decode_req_field (k raw : string) (r : RPCReq) : option RPCReq :=
  match r with
  | mkRPCReq v m p i =>
      if bool_decide (k = "jsonrpc") then (fun v => mkRPCReq v m p i) <$> decode_string raw v
      else if bool_decide (k = "method") then (fun m => mkRPCReq v m p i) <$> decode_string raw m
      else if bool_decide (k = "params") then Some (mkRPCReq v m raw i)
      else if bool_decide (k = "id") then Some (mkRPCReq v m p raw)
      else Some r
  end.

Definition decode_err_field (k raw : string) (e : RPCErr) : option RPCErr :=
  match e with
  | mkRPCErr c m d h =>
      if bool_decide (k = "code") then (fun c => mkRPCErr c m d h) <$> decode_int raw c
      else if bool_decide (k = "message") then (fun m => mkRPCErr c m d h) <$> decode_string raw m
      else if bool_decide (k = "data") then Some (mkRPCErr c m raw h)
      else Some e
  end.

(** The [*RPCErr] member: null is a nil pointer, an object is decoded into the struct. *)
Definition decode_err (raw : string) (old : option RPCErr) : option (option RPCErr) :=
  match json_parse raw with
  | Some JNull => Some None
  | _ => Some <$> decode_struct decode_err_field raw (default (mkRPCErr 0 "" "" 0) old)
  end.

(** The [interface{}] member: null is the nil interface. *)
Definition decode_result (raw : string) : option (option gvalue) :=
  match json_Unmarshal raw with
  | Some JNull => Some None
  | Some j => Some (Some (GJson j))
  | None => None
  end.

Definition decode_res_field (k raw : string) (r : RPCRes) : option RPCRes :=
  match r with
  | mkRPCRes v x e i =>
      if bool_decide (k = "jsonrpc") then (fun v => mkRPCRes v x e i) <$> decode_string raw v
      else if bool_decide (k = "result") then (fun x => mkRPCRes v x e i) <$> decode_result raw
      else if bool_decide (k = "error") then (fun e => mkRPCRes v x e i) <$> decode_err raw e
      else if bool_decide (k = "id") then Some (mkRPCRes v x e raw)
      else Some r
  end.

Definition decode_RPCReq (body : string) : option RPCReq :=
  decode_struct decode_req_field body (mkRPCReq "" "" "" "").

Definition decode_RPCRes (body : string) : option RPCRes :=
  decode_struct decode_res_field body (mkRPCRes "" None None "").

Definition ParseRPCReq (body : string) : RPCReq + error :=
  match decode_RPCReq body with
  | Some req => inl req
  | None => inr (ESentinel ErrParseErr)
  end.

(** The error is the decoder's own, with its text left out. *)
Definition json_error : error := ENew "json: cannot unmarshal".

Definition ParseBatchRPCReq (body : string) : list string + error :=
  match unmarshal_raw_slice body with
  | Some batch => inl batch
  | None => inr json_error
  end.

(** [read] is what [io.ReadAll] returned. *)
Definition ParseRPCRes (read : string + error) : RPCRes + error :=
  match read with
  | inr err => inr (wrapErr (Some err) "error reading RPC response")
  | inl body =>
      match decode_RPCRes body with
      | Some res => inl res
      | None => inr (wrapErr (Some json_error) "error unmarshalling RPC response")
      end
  end.

(** ** Encoding *)

Fixpoint marshal_gvalue `{!HexUtil} (v : gvalue) : option string :=
  match v with
  | GJson j => Some (json_Marshal j)
  | GHexUint64 z => Some (quoted (hex_String z))
  | GRawMessage raw => marshal_raw raw
  | GReceipts m r =>
      match r with
      | None => Some (raw_object [("method", quoted m); ("result", "null")])
      | Some v =>
          match marshal_gvalue v with
          | Some t => Some (raw_object [("method", quoted m); ("result", t)])
          | None => None
          end
      end
  end.

Definition marshal_err (e : RPCErr) : option string :=
  let head := [("code", dec_string (err_Code e)); ("message", quoted (err_Message e))] in
  if bool_decide (err_Data e = "") then Some (raw_object head)
  else match marshal_raw (err_Data e) with
       | Some d => Some (raw_object (head ++ [("data", d)]))
       | None => None
       end.

(** An optional member of an object: absent, present, or failing to marshal. *)
Definition opt_member {A} (k : string) (f : A -> option string) (v : option A)
    : option (list (string * string)) :=
  match v with
  | None => Some []
  | Some v => match f v with Some t => Some [(k, t)] | None => None end
  end.

Definition RPCRes_MarshalJSON `{!HexUtil} (r : RPCRes) : option string :=
  let version := ("jsonrpc", quoted (res_JSONRPC r)) in
  match res_Result r, res_Error r with
  | None, None =>
      match marshal_raw (res_ID r) with
      | Some id => Some (raw_object [version; ("result", "null"); ("id", id)])
      | None => None
      end
  | result, error =>
      match opt_member "result" marshal_gvalue result, opt_member "error" marshal_err error,
            marshal_raw (res_ID r) with
      | Some rs, Some es, Some id => Some (raw_object (version :: rs ++ es ++ [("id", id)]))
      | _, _, _ => None
      end
  end.

(** ** Round trip of a response over the wire *)

(** A raw message as the decoder stores it, in the compact form the encoder writes. *)
Definition compact_raw (raw : string) : bool :=
  raw_ok raw && bool_decide (compact_go false false raw = raw).

Definition wf_err (e : RPCErr) : bool :=
  bool_decide (in_i64 (err_Code e)) && valid_utf8 0 (err_Message e)
  && (bool_decide (err_Data e = "") || compact_raw (err_Data e)).

Definition wf_result (v : option gvalue) : bool :=
  match v with
  | None => true
  | Some (GJson j) => wf_json j && match j with JNull => false | _ => true end
  | Some _ => false
  end.

(** A response as it is decoded from a backend, with a compact id. *)
Definition wf_response (r : RPCRes) : bool :=
  valid_utf8 0 (res_JSONRPC r) && wf_result (res_Result r)
  && match res_Error r with Some e => wf_err e | None => true end
  && compact_raw (res_ID r).

(** [HTTPErrorCode] is not written to the wire. *)
Definition on_the_wire (r : RPCRes) : RPCRes :=
  mkRPCRes (res_JSONRPC r) (res_Result r)
    ((fun e => mkRPCErr (err_Code e) (err_Message e) (err_Data e) 0) <$> res_Error r) (res_ID r).

Lemma compact_raw_spec raw :
  compact_raw raw = true -> raw_ok raw = true /\ marshal_raw raw = Some raw.
Proof.
  unfold compact_raw. rewrite andb_true_iff, bool_decide_eq_true. intros [? ?].
  split; [done|by apply marshal_raw_compact].
Qed.

Lemma dec_string_decode z old : in_i64 z ->
  raw_ok (dec_string z) = true /\ decode_int (dec_string z) old = Some z.
Proof.
  intros Hz. destruct (dec_string_scan z Hz) as (i & Hi & E).
  destruct (scan_number_dispatch _ _ _ _ E) as [Hh Hp].
  unfold raw_ok, decode_int, json_parse, parse_fuel. rewrite Hp, Hh. split; [done|].
  cbn [skip_ws]. rewrite E, Hi. assert (Ev : (if z <? 0 then - Z.abs z else Z.abs z) = z)
    by (destruct (Z.ltb_spec z 0); lia).
  by rewrite Ev, bool_decide_eq_true_2.
Qed.

Lemma quoted_raw s old : valid_utf8 0 s = true ->
  raw_ok (quoted s) = true /\ decode_string (quoted s) old = Some s.
Proof.
  intros H. change (quoted s) with (json_Marshal (JStr s)).
  split; [by apply marshal_raw_ok|]. unfold decode_string. by rewrite json_parse_marshal.
Qed.

Lemma member_ok_intro k v : valid_utf8 0 k = true -> raw_ok v = true -> member_ok (k, v) = true.
Proof. intros H1 H2. unfold member_ok. simpl fst. by rewrite H1. Qed.

(** The struct fields, by the names the encoder writes. *)
Lemma err_field_code raw e : decode_err_field (to_lower "code") raw e =
  (fun c => mkRPCErr c (err_Message e) (err_Data e) (err_HTTPErrorCode e)) <$> decode_int raw (err_Code e).
Proof. by destruct e. Qed.

Lemma err_field_message raw e : decode_err_field (to_lower "message") raw e =
  (fun m => mkRPCErr (err_Code e) m (err_Data e) (err_HTTPErrorCode e)) <$> decode_string raw (err_Message e).
Proof. by destruct e. Qed.

Lemma err_field_data raw e : decode_err_field (to_lower "data") raw e =
  Some (mkRPCErr (err_Code e) (err_Message e) raw (err_HTTPErrorCode e)).
Proof. by destruct e. Qed.

Lemma req_field_jsonrpc raw r : decode_req_field (to_lower "jsonrpc") raw r =
  (fun v => mkRPCReq v (req_Method r) (req_Params r) (req_ID r)) <$> decode_string raw (req_JSONRPC r).
Proof. by destruct r. Qed.

Lemma req_field_method raw r : decode_req_field (to_lower "method") raw r =
  (fun m => mkRPCReq (req_JSONRPC r) m (req_Params r) (req_ID r)) <$> decode_string raw (req_Method r).
Proof. by destruct r. Qed.

Lemma req_field_params raw r : decode_req_field (to_lower "params") raw r =
  Some (mkRPCReq (req_JSONRPC r) (req_Method r) raw (req_ID r)).
Proof. by destruct r. Qed.

Lemma req_field_id raw r : decode_req_field (to_lower "id") raw r =
  Some (mkRPCReq (req_JSONRPC r) (req_Method r) (req_Params r) raw).
Proof. by destruct r. Qed.

Lemma res_field_jsonrpc raw r : decode_res_field (to_lower "jsonrpc") raw r =
  (fun v => mkRPCRes v (res_Result r) (res_Error r) (res_ID r)) <$> decode_string raw (res_JSONRPC r).
Proof. by destruct r. Qed.

Lemma res_field_result raw r : decode_res_field (to_lower "result") raw r =
  (fun x => mkRPCRes (res_JSONRPC r) x (res_Error r) (res_ID r)) <$> decode_result raw.
Proof. by destruct r. Qed.

Lemma res_field_error raw r : decode_res_field (to_lower "error") raw r =
  (fun e => mkRPCRes (res_JSONRPC r) (res_Result r) e (res_ID r)) <$> decode_err raw (res_Error r).
Proof. by destruct r. Qed.

Lemma res_field_id raw r : decode_res_field (to_lower "id") raw r =
  Some (mkRPCRes (res_JSONRPC r) (res_Result r) (res_Error r) raw).
Proof. by destruct r. Qed.

Create Rewrite HintDb rpc_fields.

#[export] Hint Rewrite err_field_code err_field_message err_field_data req_field_jsonrpc req_field_method req_field_params
  req_field_id res_field_jsonrpc
  res_field_result res_field_error res_field_id : rpc_fields.

(** Runs the decoder over an explicit list of members, using the field equations in [H]s. *)
Ltac run_fields :=
  repeat (cbn [decode_members]; autorewrite with rpc_fields;
          cbn [req_JSONRPC req_Method req_Params req_ID res_JSONRPC res_Result res_Error res_ID err_Code err_Message err_Data err_HTTPErrorCode];
          repeat match goal with H : decode_string _ _ = _ |- _ => rewrite H
                 | H : decode_int _ _ = _ |- _ => rewrite H
                 | H : decode_result _ = _ |- _ => rewrite H
                 | H : decode_err _ _ = _ |- _ => rewrite H end;
          cbn [fmap option_fmap option_map default]).

Ltac members_ok := repeat (apply Forall_cons; split; [apply member_ok_intro; done|]); try done.

Lemma marshal_err_roundtrip e : wf_err e = true ->
  exists t, marshal_err e = Some t /\ raw_ok t = true /\
    decode_err t None = Some (Some (mkRPCErr (err_Code e) (err_Message e) (err_Data e) 0)).
Proof.
  unfold wf_err. rewrite !andb_true_iff, bool_decide_eq_true. intros [[Hc Hm] Hd].
  destruct (dec_string_decode _ 0 Hc) as [Hc1 Hc2]. destruct (quoted_raw _ "" Hm) as [Hm1 Hm2].
  unfold marshal_err. destruct (decide (err_Data e = "")) as [E|E].
  - rewrite bool_decide_eq_true_2 by done. eexists. split; [done|].
    destruct (raw_object_ok [("code", dec_string (err_Code e)); ("message", quoted (err_Message e))])
      as (Hok & fs & Hp); [done|members_ok|].
    split; [done|]. unfold decode_err. rewrite Hp. unfold decode_struct.
    rewrite json_shape_raw_object by (done || members_ok). run_fields.
    by rewrite E.
  - rewrite bool_decide_eq_false_2 in * by done. apply compact_raw_spec in Hd as [Hd1 ->].
    eexists. split; [done|].
    destruct (raw_object_ok [("code", dec_string (err_Code e)); ("message", quoted (err_Message e));
      ("data", err_Data e)]) as (Hok & fs & Hp); [done|members_ok|].
    split; [done|]. unfold decode_err. simpl app. rewrite Hp. unfold decode_struct.
    rewrite json_shape_raw_object by (done || members_ok). by run_fields.
Qed.

Lemma wf_result_roundtrip `{!HexUtil} v : wf_result (Some v) = true ->
  exists t, marshal_gvalue v = Some t /\ raw_ok t = true /\ decode_result t = Some (Some v).
Proof.
  destruct v as [j| | |]; try done. cbn [wf_result]. rewrite andb_true_iff. intros [Hw Hn].
  eexists. split; [done|]. split; [by apply marshal_raw_ok|].
  unfold decode_result. rewrite json_roundtrip by done. by destruct j.
Qed.

(** ** Telling batches and valid ids from the raw text *)

Lemma IsBatch_skip_ws raw :
  IsBatch raw = match skip_ws raw with EmptyString => false | String c _ => code c =? 91 end.
Proof. induction raw as [|c raw IH]; simpl; [done|]. by destruct (json_space c). Qed.

(** The first character of a text decides the kind of the value it holds. *)
Lemma parse_value_kind fuel s c t j r :
  skip_ws s = String c t -> parse_value fuel s = Some (j, r) ->
  match j with
  | JArr _ => code c = 91
  | JObj _ => code c = 123
  | JStr x => code c = 34 /\ parse_str (S (String.length t)) 0 t = Some (x, r)
  | _ => code c <> 91 /\ code c <> 123 /\ code c <> 34
  end.
Proof.
  destruct fuel as [|fuel]; [done|]. cbn [parse_value]. intros -> H.
  destruct (Z.eqb_spec (code c) 34); [head_match H; by injection H as <- <-|].
  destruct (Z.eqb_spec (code c) 91); [head_match H; by injection H as <- <-|].
  destruct (Z.eqb_spec (code c) 123); [head_match H; by injection H as <- <-|].
  head_match H; by injection H as <- <-.
Qed.

(** On every valid JSON text, [IsBatch] holds exactly when the text is an array. *)
Theorem IsBatch_array raw j :
  json_parse raw = Some j -> IsBatch raw = match j with JArr _ => true | _ => false end.
Proof.
  unfold json_parse. intros H. rewrite IsBatch_skip_ws.
  destruct (parse_value _ raw) as [[v r]|] eqn:E; [|done]. destruct (skip_ws r); [|done].
  injection H as ->. destruct (skip_ws raw) as [|c t] eqn:Ew.
  - unfold parse_fuel in E. cbn [parse_value] in E. by rewrite Ew in E.
  - pose proof (parse_value_kind _ _ _ _ _ _ Ew E). destruct j; lia.
Qed.

Lemma IsBatch_array_witness :
  IsBatch (jtext " [{'id':1}]") = true /\ IsBatch (jtext " {'params':[]}") = false.
Proof.
  split.
  - apply (IsBatch_array _ (JArr [JObj [("id", JNum "1")]])). vm_compute. reflexivity.
  - apply (IsBatch_array _ (JObj [("params", JArr [])])). vm_compute. reflexivity.
Defined.

(** A string literal ends with its closing quote; only the empty literal holds the empty string. *)
Lemma utf8_encode_ne r : utf8_encode r <> "".
Proof. unfold utf8_encode. by repeat case_match. Qed.

Lemma parse_str_ends fuel : forall copy s x r, parse_str fuel copy s = Some (x, r) ->
  exists p, s = p +:+ quote +:+ r /\ (p = "" <-> x = "").
Proof.
  induction fuel as [|fuel IH]; [done|]. intros copy s x r H. destruct s as [|c s]; [done|].
  assert (Hgo : forall q a n t, q <> "" -> a <> "" -> String c s = a +:+ t ->
    prepend q (parse_str fuel n t) = Some (x, r) ->
    exists p, String c s = p +:+ quote +:+ r /\ (p = "" <-> x = "")).
  { intros q a n t Hq Ha -> (y & Hy & ->)%prepend_Some. apply IH in Hy as (p & -> & _).
    exists (a +:+ p). rewrite str_app_assoc. split; [done|].
    destruct a as [|a0 a]; [done|]. by destruct q as [|q0 q]. }
  destruct copy as [|copy]; cbn [parse_str] in H.
  2: { by apply (Hgo (String c "") (String c "") copy s). }
  destruct (Z.eqb_spec (code c) 34) as [E|_].
  { injection H as <- <-. exists "". split; [|done].
    apply code_inj in E; [|lia]. by subst c. }
  destruct (code c <? 32); [done|]. destruct (code c =? 92).
  - destruct s as [|e s]; [done|]. destruct (code e =? 117).
    + destruct (read_hex4 s) as [[r1 s3]|] eqn:E1; [|done]. apply read_hex4_token in E1 as [a1 ->].
      pose proof (Hgo utf8_error (String c (String e a1)) 0%nat s3) as Herr.
      destruct (surrogate r1); [|eapply (Hgo _ (String c (String e a1))); [apply utf8_encode_ne| | |exact H]; done].
      destruct s3 as [|b [|u s4]]; [by apply Herr|by apply Herr|].
      destruct ((code b =? 92) && (code u =? 117)); [|by apply Herr].
      destruct (read_hex4 s4) as [[r2 s5]|] eqn:E2; [|done]. apply read_hex4_token in E2 as [a2 ->].
      destruct (utf16_pair r1 r2); [|by apply Herr].
      eapply (Hgo _ (String c (String e (a1 +:+ String b (String u a2))))); [apply utf8_encode_ne| | |exact H];
        [done|by str_norm].
    + destruct (simple_escape e) as [q|]; [|done].
      by apply (Hgo (String q "") (String c (String e "")) 0%nat s).
  - destruct (code c <? 128); [by apply (Hgo (String c "") (String c "") 0%nat s)|].
    destruct (rune_extra c s) as [n|]; [by apply (Hgo (String c "") (String c "") n s)|].
    by apply (Hgo utf8_error (String c "") 0%nat s).
Qed.

Lemma str_drop_app a b : str_drop (String.length a) (a +:+ b) = b.
Proof. induction a as [|c a IH]; [by destruct b|]. rewrite str_app_cons. apply IH. Qed.

Lemma HasSuffix_app a b : str_HasSuffix (a +:+ b) b = true.
Proof.
  unfold str_HasSuffix. rewrite str_length_app.
  replace (_ + _ - _)%nat with (String.length a) by lia. rewrite str_drop_app.
  rewrite bool_decide_eq_true_2 by done. rewrite andb_true_r. apply Nat.leb_le. lia.
Qed.

Lemma HasPrefix_quote c t : str_HasPrefix (String c t) quote = (code c =? 34).
Proof.
  unfold str_HasPrefix, quote. cbn [String.prefix]. destruct (Ascii.ascii_dec quote_char c) as [<-|N].
  - by destruct t.
  - symmetry. apply Z.eqb_neq. intros E. apply code_inj in E; [|lia]. by subst.
Qed.

(** On every raw JSON value (as the decoder stores a request id), [IsValidID] accepts exactly
    the non-empty strings, the numbers, the booleans and null: never an array, an object or the
    empty string. *)
Theorem IsValidID_values id j :
  raw_ok id = true -> json_parse id = Some j ->
  IsValidID id = match j with JArr _ | JObj _ => false | JStr x => negb (bool_decide (x = "")) | _ => true end.
Proof.
  unfold raw_ok, json_parse. rewrite andb_true_iff. intros [Hh Hp] H.
  destruct (parse_value (parse_fuel id) id) as [[v []]|] eqn:E; try done. injection H as ->.
  pose proof (head_ok_skip_ws _ Hh) as Hw. destruct id as [|c t]; [done|].
  pose proof (parse_value_kind _ _ _ _ _ _ Hw E) as K. unfold IsValidID. rewrite HasPrefix_quote.
  destruct j as [|b|lit|x|l|fs];
    try (destruct (Z.eqb_spec (code c) 34), (Z.eqb_spec (code c) 123), (Z.eqb_spec (code c) 91); done || lia).
  destruct K as [Hc (p & -> & Hiff)%parse_str_ends]. rewrite Hc, str_app_nil. simpl (34 =? 34).
  rewrite <- str_app_cons, HasSuffix_app. cbn [andb]. rewrite str_length_app. simpl (String.length quote).
  cbn [String.length]. destruct (decide (x = "")) as [Hx|Hx].
  - rewrite (proj2 Hiff Hx), bool_decide_eq_true_2 by done. done.
  - rewrite bool_decide_eq_false_2 by done. apply Nat.ltb_lt.
    destruct p; [by destruct Hx; apply Hiff|]. simpl. lia.
Qed.

Lemma IsValidID_values_witness :
  IsValidID (jtext "'abc'") = true /\ IsValidID (jtext "''") = false /\ IsValidID (jtext "{'a':1}") = false.
Proof.
  split; [|split].
  - apply (IsValidID_values (jtext "'abc'") (JStr "abc")); vm_compute; reflexivity.
  - apply (IsValidID_values (jtext "''") (JStr "")); vm_compute; reflexivity.
  - apply (IsValidID_values (jtext "{'a':1}") (JObj [("a", JNum "1")])); vm_compute; reflexivity.
Defined.

(** Whatever the fields keep, decoding a struct keeps; the raw members are valid. *)
Lemma decode_struct_inv {A} (f : string -> string -> A -> option A) (P : A -> Prop) raw a a' :
  (forall k v a a', raw_ok v = true -> P a -> f k v a = Some a' -> P a') -> P a -> decode_struct f raw a = Some a' -> P a'.
Proof.
  intros Hf Ha H. unfold decode_struct in H. pose proof (json_shape_complete raw) as Hs.
  destruct (json_parse raw) as [j|]; [|by rewrite Hs in H]. destruct Hs as (sh & E & Hsh). rewrite E in H. clear E.
  destruct sh as [l|kvs|[]]; try done; [|by injection H as <-]. destruct Hsh as [Hkvs _]. revert a Ha H.
  induction Hkvs as [|[k v] kvs Hv _ IH]; intros a Ha H; cbn [decode_members] in H; [by injection H as <-|].
  destruct (f (to_lower k) v a) as [a1|] eqn:E; [|done]. eapply IH; [|exact H]. by eapply Hf.
Qed.

(** The strings of a decoded value are valid UTF-8, whatever the bytes of the text were. *)
Lemma json_parse_strings raw j : json_parse raw = Some j -> strings_valid j = true.
Proof.
  unfold json_parse. destruct (parse_value _ _) as [[j' r]|] eqn:E; [|done]. apply (proj1 (parse_valid _)) in E.
  intros H. case_match; [|done]. by injection H as <-.
Qed.

Lemma decode_string_utf8 raw old s : decode_string raw old = Some s -> valid_utf8 0 old = true -> valid_utf8 0 s = true.
Proof.
  unfold decode_string. destruct (json_parse raw) as [j|] eqn:E; [|done]. apply json_parse_strings in E. intros H Ho.
  by destruct j; simplify_eq.
Qed.

Lemma ParseRPCReq_method_utf8 raw req : ParseRPCReq raw = inl req -> valid_utf8 0 (req_Method req) = true.
Proof.
  unfold ParseRPCReq, decode_RPCReq. destruct (decode_struct _ _ _) as [r|] eqn:E; [|done]. intros [= <-].
  refine (decode_struct_inv decode_req_field (fun r => valid_utf8 0 (req_Method r) = true) _ _ _ _ _ E); [|done].
  intros k v [jr m p i] r' _ Hm H. unfold decode_req_field in H. cbn in Hm.
  repeat case_bool_decide; [destruct (decode_string v jr)|destruct (decode_string v m) eqn:Ed|..]; simplify_eq/=; try done. by eapply decode_string_utf8.
Qed.
