(* ===== verification/Duration.v ===== *)
(** * Durations in the configuration ([TOMLDuration] of src/config.go)

    [UnmarshalText] parses with [time.ParseDuration] of the standard library, which is modelled here:
    a sequence of decimal numbers, each with a unit, in [uint64] arithmetic with checks for overflow.
    A fraction is a rational here where the library computes with [float64]. *)

From S2P Require Import Prelude Json JsonFacts Geth Rpc.

(** ** [time.ParseDuration] *)

Definition unitMap : list (string * Z) :=
  [("ns", 1); ("us", 1000); (String (chr 194) (String (chr 181) "s"), 1000); (String (chr 206) (String (chr 188) "s"), 1000);
   ("ms", Millisecond); ("s", Second); ("m", Minute); ("h", Hour)].

(** [None]: the number does not fit. *)
Fixpoint leadingInt (x : Z) (s : string) : option (Z * string) :=
  match s with
  | String c s' =>
      if negb (is_digit c) then Some (x, s)
      else if 2 ^ 63 / 10 <? x then None
      else
        let x := u64 (x * 10 + code c - 48) in
        if 2 ^ 63 <? x then None else leadingInt x s'
  | EmptyString => Some (x, s)
  end.

(** Digits that do not fit are dropped. *)
Fixpoint leadingFraction (x scale : Z) (overflow : bool) (s : string) : Z * Z * string :=
  match s with
  | String c s' =>
      if negb (is_digit c) then (x, scale, s)
      else if overflow then leadingFraction x scale overflow s'
      else if (2 ^ 63 - 1) / 10 <? x then leadingFraction x scale true s'
      else
        let y := u64 (x * 10 + code c - 48) in
        if 2 ^ 63 <? y then leadingFraction x scale true s' else leadingFraction y (scale * 10) false s'
  | EmptyString => (x, scale, s)
  end.

Fixpoint leadingUnit (s : string) : string * string :=
  match s with
  | String c s' => if (code c =? 46) || is_digit c then (EmptyString, s) else let '(u, r) := leadingUnit s' in (String c u, r)
  | EmptyString => (EmptyString, EmptyString)
  end.

(** The text, with the quoting of unusual characters simplified. *)
Definition invalid (orig : string) : error := ENew ("time: invalid duration " +:+ quoted orig).

(** The loop; every round consumes a digit or a point. *)
Fixpoint parse_parts (fuel : nat) (orig s : string) (d : Z) : Z + error :=
  match fuel, s with
  | _, EmptyString => inl d
  | O, _ => inr (invalid orig)
  | S fuel, String c _ =>
      if negb ((code c =? 46) || is_digit c) then inr (invalid orig)
      else
        match leadingInt 0 s with
        | None => inr (invalid orig)
        | Some (v, s1) =>
            let pre := negb (String.length s =? String.length s1)%nat in
            let '(f, scale, s2, post) :=
              match s1 with
              | String c1 s' =>
                  if code c1 =? 46 then
                    let '(f, scale, s2) := leadingFraction 0 1 false s' in (f, scale, s2, negb (String.length s' =? String.length s2)%nat)
                  else (0, 1, s1, false)
              | EmptyString => (0, 1, s1, false)
              end in
            if negb pre && negb post then inr (invalid orig)
            else
              let '(u, s3) := leadingUnit s2 in
              if bool_decide (u = "") then inr (ENew ("time: missing unit in duration " +:+ quoted orig))
              else
                match list_find (fun x => fst x = u) unitMap with
                | None => inr (ENew ("time: unknown unit " +:+ quoted u +:+ " in duration " +:+ quoted orig))
                | Some (_, (_, unit)) =>
                    if 2 ^ 63 / unit <? v then inr (invalid orig)
                    else
                      let v := u64 (v * unit) in
                      let v := if 0 <? f then u64 (v + f * unit / scale) else v in
                      if 2 ^ 63 <? v then inr (invalid orig)
                      else
                        let d := u64 (d + v) in
                        if 2 ^ 63 <? d then inr (invalid orig) else parse_parts fuel orig s3 d
                end
        end
  end.

Definition ParseDuration (orig : string) : Z + error :=
  let '(neg, s) := match orig with
                   | String c s' => if code c =? 45 then (true, s') else if code c =? 43 then (false, s') else (false, orig)
                   | EmptyString => (false, orig)
                   end in
  if bool_decide (s = "0") then inl 0
  else if bool_decide (s = "") then inr (invalid orig)
  else
    match parse_parts (S (String.length s)) orig s 0 with
    | inr err => inr err
    | inl d =>
        if neg then inl (i64 (- i64 d))
        else if 2 ^ 63 - 1 <? d then inr (invalid orig) else inl (i64 d)
    end.

(** ** [TOMLDuration] *)

(** The field is left alone when the text is no duration. *)
Definition UnmarshalText (b : string) (t : Z) : Z * option error :=
  match ParseDuration b with
  | inr err => (t, Some err)
  | inl d => (d, None)
  end.

(** ** Texts that are made of whole numbers *)

Definition print_part (p : Z * string) : string := dec_string (fst p) +:+ snd p.
Definition print_parts (l : list (Z * string)) : string := foldr (fun p s => print_part p +:+ s) "" l.

Definition unit_of (u : string) : Z := match list_find (fun x => fst x = u) unitMap with Some (_, (_, n)) => n | None => 0 end.
Definition total (l : list (Z * string)) : Z := foldr (fun p t => fst p * unit_of (snd p) + t) 0 l.

Definition part_ok (p : Z * string) : Prop := 0 <= fst p /\ snd p ∈ map fst unitMap.

(** Nothing that a number could go on with. *)
Definition no_digit (s : string) : Prop := match s with String c _ => is_digit c = false | EmptyString => True end.

Lemma digits_val_ge s : forall a, 0 <= a -> all_digits s = true -> a <= digits_val a s.
Proof.
  induction s as [|c s IH]; intros a Ha H; cbn [digits_val]; [done|]. cbn [all_digits] in H. apply andb_true_iff in H as [Hc Hs].
  unfold is_digit in Hc. apply andb_true_iff in Hc as [?%Z.leb_le ?%Z.leb_le]. specialize (IH (a * 10 + (code c - 48)) ltac:(lia) Hs). lia.
Qed.

Lemma leadingInt_digits d : forall x rest, 0 <= x -> all_digits d = true -> digits_val x d < 2 ^ 63 -> no_digit rest ->
  leadingInt x (d +:+ rest) = Some (digits_val x d, rest).
Proof.
  induction d as [|c d IH]; intros x rest Hx Hd Hv Hr; cbn [digits_val].
  - destruct rest as [|c r]; [done|]. change (EmptyString +:+ String c r) with (String c r).
    cbn [leadingInt]. cbn [no_digit] in Hr. by rewrite Hr.
  - rewrite str_app_cons. cbn [all_digits digits_val leadingInt] in *. apply andb_true_iff in Hd as [Hc Hd]. rewrite Hc. cbn [negb].
    unfold is_digit in Hc. apply andb_true_iff in Hc as [?%Z.leb_le ?%Z.leb_le].
    pose proof (digits_val_ge d (x * 10 + (code c - 48)) ltac:(lia) Hd) as Hge.
    assert (Hu : u64 (x * 10 + code c - 48) = x * 10 + (code c - 48)) by (unfold u64; rewrite Z.mod_small; lia).
    rewrite (proj2 (Z.ltb_ge _ _)) by (apply Z.div_le_lower_bound; lia). rewrite Hu. rewrite (proj2 (Z.ltb_ge _ _)) by lia. apply IH; (done || lia).
Qed.

Lemma dec_string_digits n : 0 <= n < 2 ^ 63 -> exists c ds, dec_string n = String c ds /\ all_digits (String c ds) = true /\ digits_val 0 (String c ds) = n.
Proof.
  intros Hn. unfold dec_string. rewrite (proj2 (Z.ltb_ge _ _)) by lia.
  assert (H : 0 <= n < 10 ^ Z.of_nat 25) by (change (10 ^ Z.of_nat 25) with (10 ^ 25); lia).
  destruct (digits_of_spec 25 n "" H ltac:(lia)) as (d & c & ds & -> & E & Ha & Hv & _).
  rewrite str_app_nil in E. exists c, ds. rewrite E. split; [reflexivity|]. by split.
Qed.

(** A unit ends where the next number starts. *)
Definition unit_char (c : Ascii.ascii) : bool := negb ((code c =? 46) || is_digit c).

Fixpoint unit_text (u : string) : bool := match u with String c u' => unit_char c && unit_text u' | EmptyString => true end.

Lemma leadingUnit_text u rest : unit_text u = true -> match rest with String c _ => is_digit c = true | EmptyString => True end ->
  leadingUnit (u +:+ rest) = (u, rest).
Proof.
  intros Hu Hr. induction u as [|c u IH].
  - destruct rest as [|c r]; [done|]. change (EmptyString +:+ String c r) with (String c r). cbn [leadingUnit]. by rewrite Hr, orb_true_r.
  - cbn [unit_text] in Hu. apply andb_true_iff in Hu as [Hc%negb_true_iff Hu]. rewrite str_app_cons. cbn [leadingUnit]. by rewrite Hc, IH.
Qed.

Lemma unit_names u : u ∈ map fst unitMap -> unit_text u = true /\ u <> "" /\ no_digit u /\ (forall c r, u = String c r -> code c <> 46) /\
  0 < unit_of u /\ exists i, list_find (fun x => fst x = u) unitMap = Some (i, (u, unit_of u)).
Proof.
  intros H. cbn [map fst unitMap] in H. rewrite !elem_of_cons, elem_of_nil in H.
  destruct_or?; subst u; try done; (split_and!; [reflexivity|discriminate|reflexivity|by intros ?? [= <- <-]|reflexivity|eexists; reflexivity]).
Qed.

Lemma print_parts_head l : Forall part_ok l -> Forall (fun p => fst p < 2 ^ 63) l ->
  match print_parts l with String c _ => is_digit c = true | EmptyString => True end.
Proof.
  intros Hl Hb. destruct Hl as [|p l [Hp _] _]; [done|]. apply Forall_cons in Hb as [Hb _]. cbn [print_parts foldr].
  unfold print_part. destruct (dec_string_digits (fst p)) as (c & ds & -> & Ha & _); [lia|].
  rewrite str_app_cons, str_app_cons. cbn [all_digits] in Ha. by apply andb_true_iff in Ha as [? _].
Qed.

(** No unit but the nanosecond divides a power of two, so below it a sum cannot wrap around. *)
Lemma unit_scaled u v : u ∈ map fst unitMap -> 0 <= v < 2 ^ 63 -> v * unit_of u <> 2 ^ 63.
Proof.
  intros H Hv. cbn [map fst unitMap] in H. rewrite !elem_of_cons, elem_of_nil in H.
  destruct_or?; subst u; try done; match goal with |- context [unit_of ?u] => let n := eval vm_compute in (unit_of u) in change (unit_of u) with n end; lia.
Qed.

Lemma total_nonneg l : Forall part_ok l -> 0 <= total l.
Proof.
  induction 1 as [|p l [Hp Hu] _ IH]; [done|]. cbn [total foldr]. fold (total l). apply unit_names in Hu as (_ & _ & _ & _ & Hu & _). nia.
Qed.

(** One number with its unit. *)
Lemma parse_part fuel orig v u rest d : 0 <= v < 2 ^ 63 -> u ∈ map fst unitMap -> 0 <= d <= 2 ^ 63 ->
  match rest with String c _ => is_digit c = true | EmptyString => True end ->
  parse_parts (S fuel) orig (dec_string v +:+ u +:+ rest) d =
    if d + v * unit_of u <=? 2 ^ 63 then parse_parts fuel orig rest (d + v * unit_of u) else inr (invalid orig).
Proof.
  intros Hv Hu Hd Hr. pose proof (unit_scaled u v Hu Hv) as Hs. apply unit_names in Hu as (Ht & Hne & Hnd & Hdot & Hp & i & Hf).
  destruct (dec_string_digits v Hv) as (c & ds & E & Ha & Hval). rewrite E. pose proof Ha as Hc. cbn [all_digits] in Hc.
  apply andb_true_iff in Hc as [Hc _]. rewrite str_app_cons. cbn [parse_parts]. rewrite Hc, orb_true_r. cbn [negb]. rewrite <- str_app_cons.
  assert (Hnd' : no_digit (u +:+ rest)) by (destruct u as [|x u']; [done|]; rewrite str_app_cons; exact Hnd).
  rewrite leadingInt_digits by (done || lia). rewrite Hval. rewrite str_app_cons. cbn [String.length]. rewrite str_length_app.
  rewrite (proj2 (Nat.eqb_neq _ _)) by lia. cbn [negb andb].
  assert (Hpt : match u +:+ rest with
    | String c1 s' => if code c1 =? 46 then let '(f, scale, s2) := leadingFraction 0 1 false s' in (f, scale, s2, negb (String.length s' =? String.length s2)%nat)
                      else (0, 1, u +:+ rest, false)
    | EmptyString => (0, 1, u +:+ rest, false) end = (0, 1, u +:+ rest, false)).
  { destruct u as [|x u']; [done|]. rewrite str_app_cons. destruct (Z.eqb_spec (code x) 46) as [Hx|]; [|done]. by apply (Hdot x u' eq_refl) in Hx. }
  rewrite Hpt. rewrite leadingUnit_text by done. rewrite bool_decide_eq_false_2 by done. rewrite Hf. cbn [Z.ltb Z.compare].
  clear Hpt Hnd' Hf Hdot Hnd E Ha Hval. set (n := unit_of u) in *. assert (Hdiv := Z.div_mod (2 ^ 63) n ltac:(lia)).
  assert (Hmod := Z.mod_pos_bound (2 ^ 63) n Hp). destruct (Z.ltb_spec (2 ^ 63 / n) v) as [Hbig|Hsmall].
  - rewrite (proj2 (Z.leb_gt _ _)) by nia. done.
  - assert (Hle : v * n <= 2 ^ 63) by nia. assert (H0 : 0 <= v * n) by nia.
    assert (Hu1 : u64 (v * n) = v * n) by (unfold u64; apply Z.mod_small; lia). rewrite Hu1.
    rewrite (proj2 (Z.ltb_ge _ _)) by lia. assert (Hu2 : u64 (d + v * n) = d + v * n) by (unfold u64; apply Z.mod_small; lia). rewrite Hu2.
    destruct (Z.leb_spec (d + v * n) (2 ^ 63)); [by rewrite (proj2 (Z.ltb_ge _ _)) by lia|by rewrite (proj2 (Z.ltb_lt _ _)) by lia].
Qed.

Lemma parse_parts_total orig l : Forall part_ok l -> Forall (fun p => fst p < 2 ^ 63) l -> forall fuel d, (length l <= fuel)%nat -> 0 <= d <= 2 ^ 63 ->
  parse_parts fuel orig (print_parts l) d = if d + total l <=? 2 ^ 63 then inl (d + total l) else inr (invalid orig).
Proof.
  induction 1 as [|[v u] l [Hv Hu] Hl IH]; intros Hb fuel d Hf Hd.
  - cbn [total foldr]. rewrite Z.add_0_r, (proj2 (Z.leb_le _ _)) by lia. by destruct fuel.
  - apply Forall_cons in Hb as [Hv' Hb]. cbn [fst snd length] in *. destruct fuel as [|fuel]; [lia|].
    cbn [print_parts foldr total]. fold (print_parts l) (total l). unfold print_part. cbn [fst snd]. rewrite str_app_assoc.
    rewrite parse_part; [|lia|done|done|by apply print_parts_head]. pose proof (total_nonneg l Hl) as Ht.
    pose proof (unit_names _ Hu) as (_ & _ & _ & _ & Hp & _). destruct (Z.leb_spec (d + v * unit_of u) (2 ^ 63)).
    + rewrite IH by (done || nia || lia). by rewrite Z.add_assoc.
    + rewrite (proj2 (Z.leb_gt _ _)) by lia. done.
Qed.

Lemma print_parts_length l : Forall part_ok l -> Forall (fun p => fst p < 2 ^ 63) l -> (2 * length l <= String.length (print_parts l))%nat.
Proof.
  induction 1 as [|[v u] l [Hv Hu] Hl IH]; intros Hb; [done|]. apply Forall_cons in Hb as [Hv' Hb]. cbn [fst snd] in *.
  cbn [print_parts foldr length]. fold (print_parts l). unfold print_part. cbn [fst snd]. specialize (IH Hb).
  destruct (dec_string_digits v) as (c & ds & -> & _); [lia|]. apply unit_names in Hu as (_ & Hne & _).
  destruct u as [|x u]; [done|]. rewrite !str_length_app. cbn [String.length]. lia.
Qed.

(** Durations of the configuration. A text that lists whole numbers below 2^63 with units sets the field to
    their sum when that fits the 64 bits of a duration; when it does not, decoding fails and leaves
    the field alone - it never wraps around to another duration. *)
Theorem duration_text l t : l <> [] -> Forall part_ok l -> Forall (fun p => fst p < 2 ^ 63) l ->
  UnmarshalText (print_parts l) t = if total l <? 2 ^ 63 then (total l, None) else (t, Some (invalid (print_parts l))).
Proof.
  intros Hne Hl Hb. pose proof (print_parts_length l Hl Hb) as Hlen. pose proof (print_parts_head l Hl Hb) as Hh.
  pose proof (parse_parts_total (print_parts l) l Hl Hb (S (String.length (print_parts l))) 0 ltac:(lia) ltac:(lia)) as Hp.
  pose proof (total_nonneg l Hl) as Ht. rewrite Z.add_0_l in Hp. unfold UnmarshalText, ParseDuration.
  destruct (print_parts l) as [|c s] eqn:E; [destruct l; [done|cbn in Hlen; lia]|].
  pose proof Hh as Hc. unfold is_digit in Hc. apply andb_true_iff in Hc as [?%Z.leb_le ?%Z.leb_le].
  rewrite (proj2 (Z.eqb_neq (code c) 45)), (proj2 (Z.eqb_neq (code c) 43)) by lia.
  rewrite bool_decide_eq_false_2 by (intros [= -> ->]; destruct l; [done|cbn in Hlen; lia]).
  rewrite bool_decide_eq_false_2 by done. rewrite Hp. destruct (Z.leb_spec (total l) (2 ^ 63)).
  - destruct (Z.ltb_spec (total l) (2 ^ 63)); [|by rewrite (proj2 (Z.ltb_lt _ _)) by lia].
    rewrite (proj2 (Z.ltb_ge _ _)) by lia. unfold i64. rewrite Z.mod_small by lia. f_equal. lia.
  - by rewrite (proj2 (Z.ltb_ge _ _)) by lia.
Qed.

Lemma duration_text_witness : UnmarshalText "1h30m" 0 = (90 * Minute, None) /\ print_parts [(1, "h"); (30, "m")] = "1h30m" /\
  snd (UnmarshalText "9223372036854775807ns1ns" 7) <> None.
Proof.
  split; [|split; [reflexivity|]].
  - change "1h30m" with (print_parts [(1, "h"); (30, "m")]). rewrite (duration_text [(1, "h"); (30, "m")] 0); [reflexivity|discriminate|..].
    + repeat constructor; cbn; (lia || set_solver).
    + by repeat constructor.
  - change "9223372036854775807ns1ns" with (print_parts [(9223372036854775807, "ns"); (1, "ns")]).
    rewrite (duration_text [(9223372036854775807, "ns"); (1, "ns")] 7); [vm_compute; discriminate|discriminate|..].
    + repeat constructor; cbn; (lia || set_solver).
    + by repeat constructor.
Defined.
