(* ===== verification/Util.v ===== *)
(** * Small data structures: the string set (src/string_set.go) and the size-limited reader
    (src/reader.go), with [io.ReadAll] as the code uses it. *)

From S2P Require Import Prelude JsonFacts Rpc.

(** ** StringSet: a [map[string]bool] behind a lock *)

Record StringSet : Type := mkStringSet { underlying : gmap string bool }.

Definition NewStringSet : StringSet := mkStringSet ∅.

Definition NewStringSetFromStrings (l : list string) : StringSet :=
  mkStringSet (fold_left (fun m str => <[str := true]> m) l ∅).

(** Reading an absent key of a Go map yields the zero value. *)
Definition Has (s : StringSet) (test : string) : bool := default false (underlying s !! test).

Definition StringSet_Add (s : StringSet) (str : string) : StringSet :=
  mkStringSet (<[str := true]> (underlying s)).

(** [order] is the iteration order of the map. *)
Definition Entries (order : gmap string bool -> list string) (s : StringSet) : list string :=
  order (underlying s).

Definition Extend (order : gmap string bool -> list string) (s : StringSet) (l : list string) : StringSet :=
  fold_left StringSet_Add (order (underlying s)) (NewStringSetFromStrings l).

(** Ranging over a map visits every key once, in some order. *)
Definition map_order (order : gmap string bool -> list string) : Prop :=
  forall m, order m ≡ₚ (map_to_list m).*1.

(** Only [true] is ever stored. *)
Definition set_wf (s : StringSet) : Prop := forall k b, underlying s !! k = Some b -> b = true.

Lemma set_wf_new : set_wf NewStringSet.
Proof. intros k b H. unfold NewStringSet in H. simpl in H. by rewrite lookup_empty in H. Qed.

Lemma set_wf_Add s x : set_wf s -> set_wf (StringSet_Add s x).
Proof. intros H k b. simpl. rewrite lookup_insert_Some. naive_solver. Qed.

Lemma Has_Add s x y : Has (StringSet_Add s x) y = bool_decide (x = y) || Has s y.
Proof.
  unfold Has. simpl. destruct (decide (x = y)) as [->|N].
  - by rewrite lookup_insert_eq, bool_decide_eq_true_2.
  - by rewrite lookup_insert_ne, bool_decide_eq_false_2.
Qed.

Lemma fold_Add_spec l : forall s, set_wf s -> set_wf (fold_left StringSet_Add l s) /\
  forall y, Has (fold_left StringSet_Add l s) y = true <-> y ∈ l \/ Has s y = true.
Proof.
  induction l as [|x l IH]; intros s Hs; simpl; [set_solver|].
  destruct (IH _ (set_wf_Add s x Hs)) as [H1 H2]. split; [done|]. intros y.
  rewrite H2, Has_Add, orb_true_iff, bool_decide_eq_true, elem_of_cons. naive_solver.
Qed.

Lemma NewStringSetFromStrings_fold l :
  NewStringSetFromStrings l = fold_left StringSet_Add l NewStringSet.
Proof.
  unfold NewStringSetFromStrings, NewStringSet. generalize (∅ : gmap string bool).
  induction l as [|x l IH]; intros m; [done|]. simpl. apply IH.
Qed.

#[export] Hint Resolve set_wf_new set_wf_Add : proxyd.

Lemma Has_entries order s x : map_order order -> set_wf s ->
  x ∈ order (underlying s) <-> Has s x = true.
Proof.
  intros Ho Hs. rewrite (Ho (underlying s)), list_elem_of_fmap. unfold Has. split.
  - intros ([k b] & -> & H). apply elem_of_map_to_list in H. simpl. rewrite H. by eapply Hs.
  - destruct (underlying s !! x) as [b|] eqn:E; [|done]. exists (x, b). split; [done|].
    by apply elem_of_map_to_list.
Qed.

(** ** LimitedReader *)

Inductive rerr : Type := REOF | RErr (s : sentinel).

(** [io.Reader]: what [Read(p)] returns for a buffer of [len] bytes, and the reader after it. *)
Class Reader (R : Type) : Type := Read : Z -> R -> string * option rerr * R.

Record LimitedReader (R : Type) : Type := mkLimitedReader { lr_R : R; lr_N : Z }.
Arguments mkLimitedReader {R}.
Arguments lr_R {R}.
Arguments lr_N {R}.

Definition LimitReader {R} (r : R) (n : Z) : LimitedReader R := mkLimitedReader r n.

Definition LimitedReader_Read `{!Reader R} (len : Z) (l : LimitedReader R)
    : string * option rerr * LimitedReader R :=
  if lr_N l <=? 0 then ("", Some (RErr ErrLimitReaderOverLimit), l)
  else
    let len := if lr_N l <? len then lr_N l else len in
    let '(p, err, r) := Read len (lr_R l) in
    (p, err, mkLimitedReader r (lr_N l - Z.of_nat (String.length p))).

#[global] Instance LimitedReader_Reader `{!Reader R} : Reader (LimitedReader R) := LimitedReader_Read.

(** [io.ReadAll]: reads into the free part of its buffer, whose size [room] depends on the
    allocator but is never empty, until the reader reports an error; EOF is success.  [None] means
    the fuel ran out. *)
Fixpoint ReadAll `{!Reader R} (fuel : nat) (room : nat -> Z) (r : R) (acc : string)
    : option (string * option rerr) :=
  match fuel with
  | O => None
  | S fuel =>
      let '(p, err, r') := Read (room fuel) r in
      let acc := acc +:+ p in
      match err with
      | Some REOF => Some (acc, None)
      | Some e => Some (acc, Some e)
      | None => ReadAll fuel room r' acc
      end
  end.

(** A body that arrives in pieces of arbitrary positive sizes; [eager] says whether EOF comes
    together with the last bytes or with a read of its own. *)
Record body : Type := mkBody { rest : string; piece : nat -> Z; eager : bool }.

Definition body_Read (len : Z) (b : body) : string * option rerr * body :=
  match rest b with
  | EmptyString => ("", Some REOF, b)
  | _ =>
      let n := Z.to_nat (Z.min len (Z.max 1 (piece b (String.length (rest b))))) in
      let p := str_take n (rest b) in
      let t := str_drop n (rest b) in
      (p, if eager b && bool_decide (t = "") then Some REOF else None, mkBody t (piece b) (eager b))
  end.

#[global] Instance body_Reader : Reader body := body_Read.

Lemma str_take_drop n s : str_take n s +:+ str_drop n s = s.
Proof.
  revert s. induction n as [|n IH]; intros [|c s]; try done. simpl. rewrite ?str_app_cons.
  by rewrite IH.
Qed.

Lemma str_length_take n s : (String.length (str_take n s) = n `min` String.length s)%nat.
Proof. revert s. induction n as [|n IH]; intros [|c s]; simpl; [done..|]. by rewrite IH. Qed.

Lemma str_length_drop n s : (String.length (str_drop n s) = String.length s - n)%nat.
Proof. revert s. induction n as [|n IH]; intros [|c s]; simpl; [done..|]. by rewrite IH. Qed.

(** Does reading a body of [len] bytes stay within a limit of [n]? *)
Definition within (eager : bool) (len n : Z) : bool :=
  if eager && (0 <? len) then len <=? n else len <? n.

(** What reading everything through a limit of [n] bytes yields. *)
Definition limited (eager : bool) (data : string) (n : Z) : string * option rerr :=
  if within eager (Z.of_nat (String.length data)) n then (data, None)
  else (str_take (Z.to_nat n) data, Some (RErr ErrLimitReaderOverLimit)).

Lemma str_take_app_le p t n : (String.length p <= n)%nat ->
  str_take n (p +:+ t) = p +:+ str_take (n - String.length p) t.
Proof.
  revert n. induction p as [|c p IH]; intros n H; [by rewrite Nat.sub_0_r|].
  destruct n as [|n]; simpl in H; [lia|]. rewrite !str_app_cons. simpl. rewrite IH by lia. done.
Qed.

(** Reading one piece first and the rest after it changes nothing. *)
Lemma limited_split eager p t n : Z.of_nat (String.length p) <= n -> eager && bool_decide (t = "") = false ->
  limited eager (p +:+ t) n =
  (p +:+ fst (limited eager t (n - Z.of_nat (String.length p))),
   snd (limited eager t (n - Z.of_nat (String.length p)))).
Proof.
  intros Hp Ht. unfold limited. rewrite str_length_app.
  assert (E : within eager (Z.of_nat (String.length p + String.length t)) n =
    within eager (Z.of_nat (String.length t)) (n - Z.of_nat (String.length p))).
  { unfold within. destruct eager; cbn [andb] in Ht |- *; [|bool_to_prop; lia].
    apply bool_decide_eq_false in Ht. destruct t as [|c t]; [done|]. simpl (String.length (String c t)).
    destruct (Z.ltb_spec 0 (Z.of_nat (String.length p + S (String.length t)))); [|lia].
    destruct (Z.ltb_spec 0 (Z.of_nat (S (String.length t)))); [|lia]. bool_to_prop; lia. }
  rewrite E. destruct (within _ _ (n - _)); [done|]. simpl.
  rewrite str_take_app_le by lia. do 3 f_equal. lia.
Qed.

Lemma ReadAll_limited fuel room : (forall i, 0 < room i) ->
  forall b n acc, (String.length (rest b) + 2 <= fuel)%nat -> 0 <= n ->
  ReadAll fuel room (LimitReader b n) acc =
  Some (acc +:+ fst (limited (eager b) (rest b) n), snd (limited (eager b) (rest b) n)).
Proof.
  intros Hroom. induction fuel as [|fuel IH]; [lia|]. intros b n acc Hf Hn.
  cbn [ReadAll]. unfold Read, LimitedReader_Reader, LimitedReader_Read. simpl (lr_N _). simpl (lr_R _).
  destruct (Z.leb_spec n 0) as [H0|H0].
  { replace n with 0 by lia. unfold limited. destruct (within _ _ 0) eqn:E; [|done].
    unfold within in E. destruct (eager b); cbn [andb] in E; bool_to_prop; lia. }
  set (len := if n <? room fuel then n else room fuel).
  assert (Hlen : 0 < len <= n) by (specialize (Hroom fuel); unfold len; destruct (Z.ltb_spec n (room fuel)); lia).
  unfold Read, body_Reader, body_Read. destruct (rest b) as [|c0 t0] eqn:Er.
  { unfold limited, within. rewrite andb_false_r. simpl.
    by destruct (Z.ltb_spec (Z.of_nat 0) n); [|lia]. }
  rewrite <- Er in *. set (k := Z.to_nat _). assert (Hk : (1 <= k <= Z.to_nat n)%nat) by lia.
  pose proof (str_length_take k (rest b)) as Ht. pose proof (str_length_drop k (rest b)) as Hd.
  assert (Hne : (1 <= String.length (rest b))%nat) by (rewrite Er; simpl; lia).
  destruct (eager b && bool_decide (str_drop k (rest b) = "")) eqn:Ee.
  - apply andb_true_iff in Ee as [Ee Ed%bool_decide_eq_true]. rewrite Ed in Hd. simpl in Hd.
    pose proof (str_take_drop k (rest b)) as Hs. rewrite Ed, str_app_nil in Hs. rewrite Hs.
    unfold limited, within. rewrite Ee. simpl. destruct (Z.ltb_spec 0 (Z.of_nat (String.length (rest b)))); [|lia].
    by destruct (Z.leb_spec (Z.of_nat (String.length (rest b))) n); [|lia].
  - rewrite <- (str_take_drop k (rest b)) at 4 5. rewrite limited_split by (done || lia). simpl.
    rewrite <- str_app_assoc. apply (IH (mkBody (str_drop k (rest b)) (piece b) (eager b))); simpl; lia.
Qed.

(** C38: reading a body through the limit [n] always ends, and yields the body exactly when it is
    shorter than [n], or of length [n] and the reader reports EOF with its last bytes; otherwise it
    fails with the over-limit error after exactly [n] bytes.  This holds however the body is cut
    into pieces and however large the read buffers are. *)
Theorem ReadAll_LimitReader data pieces eof_early n room fuel :
  (forall i, 0 < room i) -> 0 <= n -> (String.length data + 2 <= fuel)%nat ->
  let len := Z.of_nat (String.length data) in
  ReadAll fuel room (LimitReader (mkBody data pieces eof_early) n) "" =
  if (len <? n) || ((len =? n) && eof_early && (0 <? len)) then Some (data, None)
  else Some (str_take (Z.to_nat n) data, Some (RErr ErrLimitReaderOverLimit)).
Proof.
  intros Hroom Hn Hf len. rewrite ReadAll_limited by done. simpl. unfold limited, within. fold len.
  destruct eof_early; cbn [andb]; rewrite ?andb_true_r, ?andb_false_r; bool_to_prop; simpl; try done; lia.
Qed.

Lemma ReadAll_LimitReader_witness :
  ReadAll 20 (fun _ => 2) (LimitReader (mkBody "abcdef" (fun _ => 3) false) 6) "" =
    Some ("abcdef", Some (RErr ErrLimitReaderOverLimit)) /\
  ReadAll 20 (fun _ => 2) (LimitReader (mkBody "abcdef" (fun _ => 3) false) 7) "" = Some ("abcdef", None).
Proof.
  split; [rewrite (ReadAll_LimitReader "abcdef" (fun _ => 3) false 6 (fun _ => 2) 20)
         |rewrite (ReadAll_LimitReader "abcdef" (fun _ => 3) false 7 (fun _ => 2) 20)];
    reflexivity || (intros; lia) || (simpl; lia).
Defined.

(** A string set built from a list, extended by another one, holds exactly the strings of both,
    whatever the iteration order of the map; [Entries] lists them without repetition. *)
Theorem Extend_union order l l' :
  map_order order ->
  (forall x, Has (Extend order (NewStringSetFromStrings l) l') x = true <-> x ∈ l \/ x ∈ l') /\
  NoDup (Entries order (Extend order (NewStringSetFromStrings l) l')) /\
  (forall x, x ∈ Entries order (Extend order (NewStringSetFromStrings l) l') <-> x ∈ l \/ x ∈ l').
Proof.
  intros Ho.
  assert (Hl : forall k, set_wf (NewStringSetFromStrings k) /\
    forall x, Has (NewStringSetFromStrings k) x = true <-> x ∈ k).
  { intros k. rewrite NewStringSetFromStrings_fold. destruct (fold_Add_spec k NewStringSet) as [H1 H2].
    - auto with proxyd.
    - split; [done|]. intros x. rewrite H2. unfold Has. simpl. rewrite lookup_empty. naive_solver. }
  destruct (Hl l) as [W1 M1], (Hl l') as [W2 M2].
  destruct (fold_Add_spec (order (underlying (NewStringSetFromStrings l))) _ W2) as [W3 M3].
  assert (M : forall x, Has (Extend order (NewStringSetFromStrings l) l') x = true <-> x ∈ l \/ x ∈ l').
  { intros x. unfold Extend. rewrite M3, Has_entries by done. by rewrite M1, M2. }
  split; [done|]. split.
  - unfold Entries. rewrite (Ho _). apply NoDup_fst_map_to_list.
  - intros x. unfold Entries. rewrite Has_entries by done. apply M.
Qed.

Lemma Extend_union_witness :
  map_order (fun m => (map_to_list m).*1) /\
  Has (Extend (fun m => (map_to_list m).*1) (NewStringSetFromStrings ["a"; "b"]) ["c"]) "b" = true.
Proof.
  assert (H : map_order (fun m => (map_to_list m).*1)) by (intros m; reflexivity).
  split; [exact H|]. apply (proj1 (Extend_union _ ["a"; "b"] ["c"] H)). set_solver.
Defined.
