(* ===== verification/RateLimiter.v ===== *)
(** * Frontend rate limiters (src/frontend_rate_limiter.go)

    [Take] of the in-memory limiter is two critical sections: under the limiter's mutex it picks
    (or replaces) the current generation of counters, under that generation's mutex it increments a
    counter.  Between the two another request may replace the generation, so the limiter is
    modelled with the heap of all generations ever created, and the concurrent runs as a step
    relation on threads.  Redis is a parameter with the documented behaviour of a pipelined
    INCR and PEXPIRE; the client of a Redis limiter may be nil, and then [Take] panics. *)

From S2P Require Import Prelude Json JsonFacts Rpc.

(** What a limiter offers to the server: at time [now], may the requestor [key] proceed? *)
Class FrontendRateLimiter (L : Type) : Type :=
  lim_Take : Z -> string -> L -> outcome (bool * option error * L).

(** A limiter that does not panic, and stays so. *)
Class SafeLimiter (L : Type) `{!FrontendRateLimiter L} : Type := {
  lim_ok : L -> Prop;
  lim_ok_Take now key l : lim_ok l -> exists ok err l', lim_Take now key l = Returns (ok, err, l') /\ lim_ok l';
}.

(** [truncateNow], with the clock reading as an argument. *)
Definition truncateNow (dur now : Z) : Z := time_Unix (time_Truncate now dur).

(** ** One generation of counters *)

Record limitedKeys : Type := mkLimitedKeys { truncTS : Z; keys : gmap string Z }.

Definition newLimitedKeys (t : Z) : limitedKeys := mkLimitedKeys t ∅.

(** The counter is a Go [int]; storing 0 first is visible only as the increment that follows. *)
Definition limitedKeys_Take (key : string) (max : Z) (l : limitedKeys) : bool * limitedKeys :=
  let '(val, ks) :=
    match keys l !! key with
    | Some val => (val, keys l)
    | None => (0, <[key := 0]> (keys l))
    end in
  (val <? max, mkLimitedKeys (truncTS l) (<[key := i64 (val + 1)]> ks)).

(** ** The in-memory limiter *)

Record MemoryFrontendRateLimiter : Type := mkMemory {
  heap : list limitedKeys;
  currGeneration : option nat;
  m_dur : Z;
  m_max : Z;
}.

Definition NewMemoryFrontendRateLimit (dur max : Z) : MemoryFrontendRateLimiter :=
  mkMemory [] None dur max.

(** The truncated timestamp of the current generation. *)
Definition curr_ts (m : MemoryFrontendRateLimiter) : option Z :=
  match currGeneration m with
  | Some g => truncTS <$> heap m !! g
  | None => None
  end.

(** The first critical section: the generation this request will count in. *)
Definition pick (now : Z) (m : MemoryFrontendRateLimiter) : nat * MemoryFrontendRateLimiter :=
  let ts := truncateNow (m_dur m) now in
  match currGeneration m with
  | Some g =>
      if bool_decide (curr_ts m = Some ts) then (g, m)
      else (length (heap m), mkMemory (heap m ++ [newLimitedKeys ts]) (Some (length (heap m))) (m_dur m) (m_max m))
  | None =>
      (length (heap m), mkMemory (heap m ++ [newLimitedKeys ts]) (Some (length (heap m))) (m_dur m) (m_max m))
  end.

(** The second critical section, on generation [g]. *)
Definition take_in (g : nat) (key : string) (m : MemoryFrontendRateLimiter) : bool * MemoryFrontendRateLimiter :=
  match heap m !! g with
  | Some l =>
      let '(ok, l') := limitedKeys_Take key (m_max m) l in
      (ok, mkMemory (<[g := l']> (heap m)) (currGeneration m) (m_dur m) (m_max m))
  | None => (false, m)
  end.

Definition Memory_Take (now : Z) (key : string) (m : MemoryFrontendRateLimiter)
    : outcome (bool * option error * MemoryFrontendRateLimiter) :=
  let '(g, m1) := pick now m in
  let '(ok, m2) := take_in g key m1 in
  Returns (ok, None, m2).

#[global] Instance Memory_limiter : FrontendRateLimiter MemoryFrontendRateLimiter := Memory_Take.

(** ** Concurrent runs *)

(** A finished request: the generation it counted in, its key and the answer. *)
Record grant : Type := mkGrant { g_gen : nat; g_key : string; g_ok : bool }.

Record world : Type := mkWorld {
  w_lim : MemoryFrontendRateLimiter;
  w_clock : Z;
  w_pending : gmap nat (nat * string);
  w_log : list grant;
}.

(** Thread [t] enters [Take] at time [now] (the clock never runs backwards), or finishes it. *)
Inductive wstep : world -> world -> Prop :=
| step_pick w t now key :
    w_pending w !! t = None -> w_clock w <= now ->
    wstep w (mkWorld (snd (pick now (w_lim w))) now
               (<[t := (fst (pick now (w_lim w)), key)]> (w_pending w)) (w_log w))
| step_take w t g key :
    w_pending w !! t = Some (g, key) ->
    wstep w (mkWorld (snd (take_in g key (w_lim w))) (w_clock w) (delete t (w_pending w))
               (mkGrant g key (fst (take_in g key (w_lim w))) :: w_log w)).

Inductive reachable (dur max : Z) : world -> Prop :=
| reach_new now : reachable dur max (mkWorld (NewMemoryFrontendRateLimit dur max) now ∅ [])
| reach_step w w' : reachable dur max w -> wstep w w' -> reachable dur max w'.

(** ** Redis *)

(** The pipelined INCR and PEXPIRE: the new value of the counter, or an error, and when that reply is
    there.  [counter] is the value a read at a given time would see. *)
Class RedisCounters (St : Type) : Type := {
  incr_pexpire : Z -> string -> Z -> St -> (Z + error) * St;
  replied_at : Z -> St -> Z;
  counter : St -> Z -> string -> Z;
}.

Class RedisCountersLaws (St : Type) `{!RedisCounters St} : Prop := {
  incr_val s now k ttl v s' :
    incr_pexpire now k ttl s = (inl v, s') -> v = counter s now k + 1;
  incr_live s now k ttl v s' t :
    incr_pexpire now k ttl s = (inl v, s') -> now <= t < now + ttl -> counter s' t k = v;
  incr_other s now k ttl r s' k' t :
    incr_pexpire now k ttl s = (r, s') -> k' <> k -> counter s' t k' = counter s t k';
}.

(** The client is an interface, and may be nil. *)
Record RedisFrontendRateLimiter (St : Type) : Type := mkRedis {
  r_store : option St;
  r_dur : Z;
  r_max : Z;
  r_prefix : string;
}.
Arguments mkRedis {St}.
Arguments r_store {St}.
Arguments r_dur {St}.
Arguments r_max {St}.
Arguments r_prefix {St}.

Definition NewRedisFrontendRateLimiter {St} (r : option St) (dur max : Z) (prefix : string)
    : RedisFrontendRateLimiter St := mkRedis r dur max prefix.

(** [fmt.Sprintf("rate_limit:%s:%s:%d", prefix, key, truncTS)]. *)
Definition fullKey (prefix key : string) (ts : Z) : string :=
  "rate_limit:" +:+ prefix +:+ ":" +:+ key +:+ ":" +:+ dec_string ts.

Definition Redis_Take `{!RedisCounters St} (now : Z) (key : string) (r : RedisFrontendRateLimiter St)
    : outcome (bool * option error * RedisFrontendRateLimiter St) :=
  let k := fullKey (r_prefix r) key (truncateNow (r_dur r) now) in
  match r_store r with
  | None => Panics "nil pointer dereference"
  | Some s =>
      match incr_pexpire now k (r_dur r - Millisecond) s with
      | (inr err, s') => Returns (false, Some err, mkRedis (Some s') (r_dur r) (r_max r) (r_prefix r))
      | (inl v, s') => Returns (v - 1 <? r_max r, None, mkRedis (Some s') (r_dur r) (r_max r) (r_prefix r))
      end
  end.

#[global] Instance Redis_limiter `{!RedisCounters St} : FrontendRateLimiter (RedisFrontendRateLimiter St) :=
  Redis_Take.

(** ** The noop and fallback limiters *)

Definition noop_Take (now : Z) (key : string) (n : unit) : outcome (bool * option error * unit) := Returns (true, None, n).

#[global] Instance noop_limiter : FrontendRateLimiter unit := noop_Take.

Definition Fallback_Take `{!FrontendRateLimiter L1, !FrontendRateLimiter L2}
    (now1 now2 : Z) (key : string) (r : L1 * L2) : outcome (bool * option error * (L1 * L2)) :=
  let! res := lim_Take now1 key (fst r) in
  match res with
  | (ok, None, p) => Returns (ok, None, (p, snd r))
  | (_, Some _, p) =>
      let! res := lim_Take now2 key (snd r) in
      let '(ok, err, q) := res in Returns (ok, err, (p, q))
  end.

(** ** The limiters of a proxy: in memory, in Redis, or in Redis with one in memory to fall back to *)

Inductive limiter (St : Type) : Type :=
| InMemory (m : MemoryFrontendRateLimiter)
| InRedis (r : RedisFrontendRateLimiter St)
| WithFallback (r : RedisFrontendRateLimiter St * MemoryFrontendRateLimiter).
Arguments InMemory {St}.
Arguments InRedis {St}.
Arguments WithFallback {St}.

(** The call of the interface goes to the limiter behind it; the one to fall back to reads the clock when
    Redis has replied. *)
Definition limiter_Take `{!RedisCounters St} (now : Z) (key : string) (l : limiter St) : outcome (bool * option error * limiter St) :=
  match l with
  | InMemory m => let! r := lim_Take now key m in let '(ok, err, m') := r in Returns (ok, err, InMemory m')
  | InRedis r => let! r := lim_Take now key r in let '(ok, err, r') := r in Returns (ok, err, InRedis r')
  | WithFallback p =>
      let later := match r_store (fst p) with Some s => replied_at now s | None => now end in
      let! r := Fallback_Take now later key p in let '(ok, err, p') := r in Returns (ok, err, WithFallback p')
  end.

#[global] Instance limiter_limiter `{!RedisCounters St} : FrontendRateLimiter (limiter St) := limiter_Take.

(** ** The specification: a request is let through when fewer than [max] requests with its key came
    before it in the same window *)

Definition request : Type := Z * string.

Definition in_window (dur ts : Z) (key : string) (r : request) : bool :=
  (truncateNow dur (fst r) =? ts) && bool_decide (snd r = key).

(** How many of the requests [rs] fall into window [ts] with this key. *)
Definition taken (dur ts : Z) (key : string) (rs : list request) : Z :=
  Z.of_nat (length (select (in_window dur ts key) rs)).

Definition spec_Take (dur max : Z) (earlier : list request) (r : request) : bool :=
  taken dur (truncateNow dur (fst r)) (snd r) earlier <? max.

(** The answers of a limiter to requests made one after the other. *)
Fixpoint serve `{!FrontendRateLimiter L} (l : L) (rs : list request) : outcome (list (bool * option error)) :=
  match rs with
  | [] => Returns []
  | (now, key) :: rs' =>
      let! r := lim_Take now key l in
      let '(ok, err, l') := r in
      let! answers := serve l' rs' in Returns ((ok, err) :: answers)
  end.

Fixpoint spec_serve (dur max : Z) (earlier rs : list request) : list (bool * option error) :=
  match rs with
  | [] => []
  | r :: rs' => (spec_Take dur max earlier r, None) :: spec_serve dur max (r :: earlier) rs'
  end.

(** The clock readings of consecutive requests. *)
Fixpoint clock_from (t : Z) (rs : list request) : Prop :=
  match rs with
  | [] => True
  | (now, _) :: rs' => t <= now /\ clock_from now rs'
  end.

(** ** Windows *)

Lemma time_Truncate_mono t1 t2 d : t1 <= t2 -> time_Truncate t1 d <= time_Truncate t2 d.
Proof.
  intros H. unfold time_Truncate. destruct (Z.leb_spec d 0); [lia|].
  pose proof (Z.div_mod t1 d). pose proof (Z.div_mod t2 d).
  assert (t1 / d <= t2 / d) by (apply Z.div_le_mono; lia). nia.
Qed.

Lemma truncateNow_mono dur t1 t2 : t1 <= t2 -> truncateNow dur t1 <= truncateNow dur t2.
Proof.
  intros H. unfold truncateNow, time_Unix. apply Z.sub_le_mono_r, Z.div_le_mono; [done|].
  by apply time_Truncate_mono.
Qed.

Lemma taken_cons dur ts k r rs :
  taken dur ts k (r :: rs) = taken dur ts k rs + (if in_window dur ts k r then 1 else 0).
Proof. unfold taken. simpl. destruct (in_window dur ts k r); simpl; lia. Qed.

Lemma taken_nonneg dur ts k rs : 0 <= taken dur ts k rs.
Proof. unfold taken. lia. Qed.

Lemma taken_le_length dur ts k rs : taken dur ts k rs <= Z.of_nat (length rs).
Proof. unfold taken. pose proof (length_select (in_window dur ts k) rs). lia. Qed.

(** A window that lies after all the requests is empty. *)
Lemma taken_future dur ts k rs :
  Forall (fun r => truncateNow dur (fst r) < ts) rs -> taken dur ts k rs = 0.
Proof.
  intros H. unfold taken. rewrite select_nil; [done|]. intros r Hr. rewrite Forall_forall in H.
  specialize (H r Hr). unfold in_window. destruct (Z.eqb_spec (truncateNow dur (fst r)) ts); [lia|done].
Qed.

Lemma limitedKeys_Take_spec key max l n :
  default 0 (keys l !! key) = n -> 0 <= n < 2 ^ 63 - 1 ->
  limitedKeys_Take key max l = (n <? max, mkLimitedKeys (truncTS l) (<[key := n + 1]> (keys l))).
Proof.
  intros Hn Hr. unfold limitedKeys_Take. destruct (keys l !! key) as [v|] eqn:E; simpl in Hn; subst.
  - rewrite i64_small by (unfold in_i64; lia). done.
  - rewrite i64_small by (unfold in_i64; lia). by rewrite insert_insert_eq.
Qed.

(** ** The in-memory limiter, one request after the other *)

(** The current generation counts the requests of the current window, which is the last one. *)
Definition counts (dur max : Z) (m : MemoryFrontendRateLimiter) (earlier : list request) (clock : Z) : Prop :=
  m_dur m = dur /\ m_max m = max /\
  match currGeneration m with
  | None => earlier = []
  | Some g => exists l, heap m !! g = Some l /\ truncTS l <= truncateNow dur clock /\
      Forall (fun r => truncateNow dur (fst r) <= truncTS l) earlier /\
      forall k, default 0 (keys l !! k) = taken dur (truncTS l) k earlier
  end.

(** Picking a generation at time [now] leaves one that counts the requests of this window. *)
Lemma pick_counts dur max m earlier clock now :
  counts dur max m earlier clock -> clock <= now ->
  exists g l m', pick now m = (g, m') /\ m_dur m' = dur /\ m_max m' = max /\
    currGeneration m' = Some g /\ heap m' !! g = Some l /\ truncTS l = truncateNow dur now /\
    Forall (fun r => truncateNow dur (fst r) <= truncTS l) earlier /\
    forall k, default 0 (keys l !! k) = taken dur (truncTS l) k earlier.
Proof.
  intros (Hd & Hm & Hc) Hnow. pose proof (truncateNow_mono dur clock now Hnow) as Hmono.
  assert (Hnew : Forall (fun r => truncateNow dur (fst r) < truncateNow dur now) earlier ->
    exists l m', (length (heap m), mkMemory (heap m ++ [newLimitedKeys (truncateNow dur now)])
        (Some (length (heap m))) dur max) = (length (heap m), m') /\ m_dur m' = dur /\ m_max m' = max /\
      currGeneration m' = Some (length (heap m)) /\ heap m' !! length (heap m) = Some l /\
      truncTS l = truncateNow dur now /\
      Forall (fun r => truncateNow dur (fst r) <= truncTS l) earlier /\
      forall k, default 0 (keys l !! k) = taken dur (truncTS l) k earlier).
  { intros Hlt. exists (newLimitedKeys (truncateNow dur now)). eexists. split; [reflexivity|].
    split_and!; [done..| | | |].
    - simpl. by rewrite lookup_app_r, Nat.sub_diag by lia.
    - done.
    - simpl. eapply Forall_impl; [exact Hlt|]. simpl. intros; lia.
    - intros k. simpl. by rewrite lookup_empty, taken_future. }
  unfold pick. rewrite Hd, Hm. destruct (currGeneration m) as [g|] eqn:Eg.
  - destruct Hc as (l & Hl & Hts & Hall & Hk). unfold curr_ts. rewrite Eg, Hl. simpl.
    destruct (decide (truncTS l = truncateNow dur now)) as [E|E].
    + rewrite bool_decide_eq_true_2 by congruence. exists g, l, m. split_and!; done.
    + rewrite bool_decide_eq_false_2 by congruence. exists (length (heap m)). apply Hnew.
      eapply Forall_impl; [exact Hall|]. simpl. intros; lia.
  - exists (length (heap m)). subst. by apply Hnew.
Qed.

Lemma Memory_Take_counts dur max m earlier clock now key :
  counts dur max m earlier clock -> clock <= now -> Z.of_nat (length earlier) < 2 ^ 63 - 1 ->
  exists m', Memory_Take now key m = Returns (spec_Take dur max earlier (now, key), None, m') /\
    counts dur max m' ((now, key) :: earlier) now.
Proof.
  intros Hc Hnow Hlen. destruct (pick_counts _ _ _ _ _ now Hc Hnow)
    as (g & l & m1 & Hp & Hd & Hm & Hg & Hl & Hts & Hall & Hk).
  rewrite Hts in Hall, Hk. set (ts := truncateNow dur now) in *.
  pose proof (taken_le_length dur ts key earlier). pose proof (taken_nonneg dur ts key earlier).
  unfold Memory_Take, take_in. rewrite Hp, Hl, Hm.
  rewrite (limitedKeys_Take_spec _ _ _ _ (Hk key)) by lia. rewrite Hts.
  eexists. split; [done|]. split; [done|]. split; [done|]. simpl.
  rewrite Hg. eexists. rewrite list_lookup_insert_eq by (by eapply lookup_lt_Some).
  split_and!; [done|done| |].
  - simpl. apply Forall_cons. split; [done|exact Hall].
  - intros k. simpl. rewrite taken_cons. unfold in_window. simpl. fold ts. rewrite Z.eqb_refl. simpl.
    destruct (decide (key = k)) as [->|N].
    + by rewrite lookup_insert_eq, bool_decide_eq_true_2.
    + rewrite lookup_insert_ne, bool_decide_eq_false_2 by done. rewrite Hk. lia.
Qed.

Lemma Memory_serve_aux dur max rs : forall m earlier clock,
  counts dur max m earlier clock -> clock_from clock rs ->
  Z.of_nat (length earlier + length rs) < 2 ^ 63 ->
  serve m rs = Returns (spec_serve dur max earlier rs).
Proof.
  induction rs as [|[now key] rs IH]; intros m earlier clock Hc Hclock Hlen; [done|].
  destruct Hclock as [Hnow Hclock]. simpl in Hlen.
  destruct (Memory_Take_counts _ _ _ _ _ now key Hc Hnow) as (m' & E & Hc'); [lia|].
  cbn [serve spec_serve]. change (lim_Take now key m) with (Memory_Take now key m). rewrite E. cbn [outcome_bind].
  rewrite (IH _ _ _ Hc' Hclock); [done|]. simpl. lia.
Qed.

(** C16: the in-memory limiter implements the windowed limit: served one after the other under a
    clock that does not run backwards, each request is let through exactly when fewer than [max]
    requests with the same key came before it in its window, and no request fails. *)
Theorem Memory_limiter_refines dur max clock rs :
  clock_from clock rs -> Z.of_nat (length rs) < 2 ^ 63 ->
  serve (NewMemoryFrontendRateLimit dur max) rs = Returns (spec_serve dur max [] rs).
Proof.
  intros Hc Hl. by apply (Memory_serve_aux dur max rs (NewMemoryFrontendRateLimit dur max) [] clock).
Qed.

Lemma Memory_limiter_refines_witness :
  let rs := [(10 * Second, "a"); (10 * Second + 1, "a"); (11 * Second, "a"); (12 * Second, "a")] in
  serve (NewMemoryFrontendRateLimit (2 * Second) 1) rs
  = Returns [(true, None); (false, None); (false, None); (true, None)].
Proof.
  intros rs. unfold rs. rewrite (Memory_limiter_refines (2 * Second) 1 0).
  - vm_compute. reflexivity.
  - simpl. unfold Second, Millisecond. lia.
  - vm_compute. reflexivity.
Defined.

(** ** The in-memory limiter under concurrent requests *)

Definition log_takes (g : nat) (k : string) (log : list grant) : Z :=
  Z.of_nat (length (select (fun e => (g_gen e =? g)%nat && bool_decide (g_key e = k)) log)).

Definition log_grants (g : nat) (k : string) (log : list grant) : Z :=
  Z.of_nat (length (select (fun e => (g_gen e =? g)%nat && bool_decide (g_key e = k) && g_ok e) log)).

(** How many requests with key [k] were let through in window [ts]. *)
Definition granted_in (w : world) (ts : Z) (k : string) : Z :=
  Z.of_nat (length (select (fun e => bool_decide (truncTS <$> heap (w_lim w) !! g_gen e = Some ts)
                                     && bool_decide (g_key e = k) && g_ok e) (w_log w))).

Record winv (dur max : Z) (w : world) : Prop := {
  wi_dur : m_dur (w_lim w) = dur;
  wi_max : m_max (w_lim w) = max;
  wi_curr : match currGeneration (w_lim w) with
            | None => heap (w_lim w) = []
            | Some g => S g = length (heap (w_lim w))
            end;
  wi_clock : forall g l, heap (w_lim w) !! g = Some l -> truncTS l <= truncateNow dur (w_clock w);
  wi_sorted : forall g g' l l', heap (w_lim w) !! g = Some l -> heap (w_lim w) !! g' = Some l' ->
                (g < g')%nat -> truncTS l < truncTS l';
  wi_pending : forall t g k, w_pending w !! t = Some (g, k) -> (g < length (heap (w_lim w)))%nat;
  wi_log : Forall (fun e => (g_gen e < length (heap (w_lim w)))%nat) (w_log w);
  wi_counts : Z.of_nat (length (w_log w)) < 2 ^ 63 -> forall g l k, heap (w_lim w) !! g = Some l ->
                default 0 (keys l !! k) = log_takes g k (w_log w) /\
                log_grants g k (w_log w) = Z.min (log_takes g k (w_log w)) (Z.max 0 max);
}.

Lemma log_takes_fresh g k log : Forall (fun e => (g_gen e < g)%nat) log ->
  log_takes g k log = 0 /\ log_grants g k log = 0.
Proof.
  intros H. unfold log_takes, log_grants. rewrite Forall_forall in H.
  rewrite !select_nil; [done| |]; intros e He; specialize (H e He);
    destruct (Nat.eqb_spec (g_gen e) g); (lia || done).
Qed.

(** A new generation for a later window keeps the invariant. *)
Lemma winv_new_generation dur max w now t k :
  winv dur max w -> w_clock w <= now ->
  (forall g l, heap (w_lim w) !! g = Some l -> truncTS l < truncateNow dur now) ->
  winv dur max (mkWorld (mkMemory (heap (w_lim w) ++ [newLimitedKeys (truncateNow dur now)])
    (Some (length (heap (w_lim w)))) dur max) now (<[t := (length (heap (w_lim w)), k)]> (w_pending w)) (w_log w)).
Proof.
  intros [Hd Hm Hc Hck Hs Hp Hl Hcnt] Hnow Hlt.
  assert (Hlook : forall g l, (heap (w_lim w) ++ [newLimitedKeys (truncateNow dur now)]) !! g = Some l ->
    heap (w_lim w) !! g = Some l \/
    (g = length (heap (w_lim w)) /\ l = newLimitedKeys (truncateNow dur now))).
  { intros g l. rewrite lookup_app_Some, list_lookup_singleton_Some. intros [?|(? & ? & <-)]; [by left|].
    right. split; [lia|done]. }
  constructor; simpl; try done.
  - rewrite length_app. simpl. lia.
  - intros g l [H|[-> ->]]%Hlook; [apply Hlt in H; lia|simpl; lia].
  - intros g g' l l' [H|[-> ->]]%Hlook [H'|[-> ->]]%Hlook Hg; [by eapply Hs| |apply lookup_lt_Some in H'; lia|lia].
    by eapply Hlt.
  - intros t' g k'. rewrite lookup_insert_Some, length_app. simpl.
    intros [[-> [= <- <-]]|[_ H]]; [lia|]. apply Hp in H. lia.
  - eapply Forall_impl; [exact Hl|]. simpl. intros e He. rewrite length_app. lia.
  - intros Hlen g l k' [H|[-> ->]]%Hlook; [by apply Hcnt|].
    destruct (log_takes_fresh (length (heap (w_lim w))) k' (w_log w) Hl) as [-> ->].
    split; [done|]. lia.
Qed.

Lemma winv_pick dur max w t now k :
  winv dur max w -> w_clock w <= now ->
  winv dur max (mkWorld (snd (pick now (w_lim w))) now
    (<[t := (fst (pick now (w_lim w)), k)]> (w_pending w)) (w_log w)).
Proof.
  intros HI Hnow. pose proof HI as [Hd Hm Hc Hck Hs Hp Hl Hcnt].
  pose proof (truncateNow_mono dur _ _ Hnow) as Hmono. unfold pick. rewrite Hd, Hm.
  destruct (currGeneration (w_lim w)) as [g|] eqn:Eg.
  - destruct (lookup_lt_is_Some_2 (heap (w_lim w)) g) as [l Hg]; [lia|].
    unfold curr_ts. rewrite Eg, Hg. simpl. case_bool_decide as E.
    + simpl. constructor; simpl; try done.
      * by rewrite Eg.
      * intros g' l' H. apply Hck in H. lia.
      * intros t' g' k'. rewrite lookup_insert_Some. intros [[-> [= <- <-]]|[_ H]]; [lia|by eapply Hp].
    + apply winv_new_generation; [done|done|]. intros g' l' H. pose proof (lookup_lt_Some _ _ _ H).
      destruct (decide (g' = g)) as [->|N].
      * rewrite Hg in H. injection H as <-. apply Hck in Hg. destruct (decide (truncTS l = truncateNow dur now)); [congruence|lia].
      * pose proof (Hs g' g l' l H Hg ltac:(lia)). apply Hck in Hg. lia.
  - apply winv_new_generation; [done|done|]. intros g' l' H. by rewrite Hc in H.
Qed.

Lemma winv_take dur max w t g k :
  winv dur max w -> w_pending w !! t = Some (g, k) ->
  winv dur max (mkWorld (snd (take_in g k (w_lim w))) (w_clock w) (delete t (w_pending w))
    (mkGrant g k (fst (take_in g k (w_lim w))) :: w_log w)).
Proof.
  intros [Hd Hm Hc Hck Hs Hp Hl Hcnt] Ht. pose proof (Hp _ _ _ Ht) as Hg.
  destruct (lookup_lt_is_Some_2 (heap (w_lim w)) g Hg) as [l El]. unfold take_in. rewrite El.
  destruct (limitedKeys_Take k (m_max (w_lim w)) l) as [ok l'] eqn:ET.
  assert (Hts : truncTS l' = truncTS l).
  { unfold limitedKeys_Take in ET. by destruct (keys l !! k); injection ET as <- <-. }
  assert (Hlook : forall g1 l1, <[g := l']> (heap (w_lim w)) !! g1 = Some l1 ->
    exists l0, heap (w_lim w) !! g1 = Some l0 /\ truncTS l1 = truncTS l0 /\ (g1 = g \/ l1 = l0)).
  { intros g1 l1. rewrite list_lookup_insert_Some. intros [(-> & -> & _)|[_ H]]; eauto 10. }
  constructor; simpl; rewrite ?length_insert; try done.
  - destruct (currGeneration (w_lim w)); [done|by rewrite Hc].
  - intros g1 l1 (l0 & H0 & -> & _)%Hlook. by eapply Hck.
  - intros g1 g2 l1 l2 (l0 & H0 & -> & _)%Hlook (l3 & H3 & -> & _)%Hlook. by eapply Hs.
  - intros t' g' k'. rewrite lookup_delete_Some. intros [_ H]. by eapply Hp.
  - by constructor.
  - intros Hlen g1 l1 k1 H1. assert (Hlen' : Z.of_nat (length (w_log w)) < 2 ^ 63 - 1) by lia.
    unfold log_takes, log_grants. cbn [select g_gen g_key g_ok].
    destruct (decide (g1 = g)) as [->|N].
    + rewrite list_lookup_insert_eq in H1 by done. injection H1 as <-.
      destruct (Hcnt ltac:(lia) g l k El) as [Hv Hgr].
      assert (Hbound : 0 <= log_takes g k (w_log w) < 2 ^ 63 - 1).
      { unfold log_takes. pose proof (length_select (fun e => (g_gen e =? g)%nat && bool_decide (g_key e = k)) (w_log w)). lia. }
      rewrite (limitedKeys_Take_spec _ _ _ _ Hv Hbound) in ET. injection ET as <- <-. simpl.
      rewrite Nat.eqb_refl. destruct (decide (k = k1)) as [->|Nk].
      * rewrite bool_decide_eq_true_2, lookup_insert_eq by done. simpl. unfold log_takes, log_grants in *.
        rewrite Hm. destruct (Z.ltb_spec (Z.of_nat (length (select (fun e => (g_gen e =? g)%nat && bool_decide (g_key e = k1)) (w_log w)))) max);
          simpl; lia.
      * rewrite bool_decide_eq_false_2, lookup_insert_ne by done. simpl. by apply Hcnt; [lia|].
    + rewrite list_lookup_insert_ne in H1 by done. destruct (Nat.eqb_spec g g1); [done|]. simpl.
      apply Hcnt; [lia|done].
Qed.

Lemma winv_reachable dur max w : reachable dur max w -> winv dur max w.
Proof.
  induction 1 as [now|w w' _ IH Hstep].
  - constructor; simpl; try done.
  - destruct Hstep as [w t now key Hn Hnow|w t g key Hp]; [by apply winv_pick|by eapply winv_take].
Qed.

(** C15: under every interleaving of concurrent requests, with a clock that does not run backwards,
    at most [max] requests with the same key are let through in one window, although a request
    may increment a generation that has been replaced meanwhile. *)
Theorem Memory_limiter_safe dur max w ts key :
  reachable dur max w -> Z.of_nat (length (w_log w)) < 2 ^ 63 ->
  granted_in w ts key <= Z.max 0 max.
Proof.
  intros Hr Hlen. apply winv_reachable in Hr as [Hd Hm Hc Hck Hs Hp Hl Hcnt]. unfold granted_in.
  destruct (decide (ts ∈ truncTS <$> heap (w_lim w))) as [(l & -> & (g & Hg)%list_elem_of_lookup)%list_elem_of_fmap|Hno].
  - rewrite (select_ext_in _ (fun e => (g_gen e =? g)%nat && bool_decide (g_key e = key) && g_ok e)).
    + destruct (Hcnt Hlen g l key Hg) as [_ H]. unfold log_grants in H. lia.
    + intros e He. f_equal. f_equal. destruct (Nat.eqb_spec (g_gen e) g) as [->|N].
      * rewrite Hg. simpl. by rewrite bool_decide_eq_true_2.
      * apply bool_decide_eq_false_2. intros E. destruct (heap (w_lim w) !! g_gen e) as [l'|] eqn:El; [|done].
        injection E as E. destruct (Nat.lt_total (g_gen e) g) as [H|[H|H]]; [|done|].
        -- pose proof (Hs _ _ _ _ El Hg H). lia.
        -- pose proof (Hs _ _ _ _ Hg El H). lia.
  - rewrite select_nil; [simpl; lia|]. intros e _. rewrite bool_decide_eq_false_2; [done|].
    intros E. apply Hno. destruct (heap (w_lim w) !! g_gen e) as [l'|] eqn:El; [|done].
    injection E as <-. apply list_elem_of_fmap. exists l'. split; [done|]. by eapply list_elem_of_lookup_2.
Qed.

Lemma Memory_limiter_safe_witness : exists w, reachable Second 1 w /\
  length (w_log w) = 2%nat /\ granted_in w (truncateNow Second (10 * Second)) "a" <= Z.max 0 1.
Proof.
  assert (H : exists w, reachable Second 1 w /\ length (w_log w) = 2%nat).
  { eexists. split.
    - eapply reach_step; [|eapply (step_take _ 1%nat)].
      + eapply reach_step; [|eapply (step_take _ 2%nat)].
        * eapply reach_step; [|eapply (step_pick _ 2%nat (10 * Second + 7) "a")].
          -- eapply reach_step; [apply (reach_new _ _ 0)|eapply (step_pick _ 1%nat (10 * Second) "a")];
               vm_compute; done.
          -- vm_compute. reflexivity.
          -- vm_compute. discriminate.
        * vm_compute. reflexivity.
      + vm_compute. reflexivity.
    - reflexivity. }
  destruct H as (w & Hw & Hl). exists w. split; [exact Hw|]. split; [exact Hl|].
  apply (Memory_limiter_safe Second 1 w); [exact Hw|]. rewrite Hl. vm_compute. reflexivity.
Defined.

(** ** What a window is *)

(** For intervals of at least a second, two requests fall into the same window exactly when
    the same multiple of the interval precedes them, so a window is one interval long.  For an
    interval that divides a second the windows are whole seconds, however short the interval is. *)
Theorem truncateNow_windows dur t1 t2 :
  (Second <= dur -> (truncateNow dur t1 = truncateNow dur t2 <-> t1 / dur = t2 / dur)) /\
  (0 < dur -> (dur | Second) -> truncateNow dur t1 = time_Unix t1).
Proof.
  unfold truncateNow, time_Unix, time_Truncate, Second, Millisecond. split.
  - intros Hd. destruct (Z.leb_spec dur 0); [lia|].
    assert (E : forall t, t - t mod dur = dur * (t / dur)) by (intros t; pose proof (Z.div_mod t dur); lia).
    rewrite !E. split; [|by intros ->]. intros H1.
    assert (H2 : dur * (t1 / dur) / (1000 * 1000000) = dur * (t2 / dur) / (1000 * 1000000)) by lia.
    pose proof (Z.div_mod (dur * (t1 / dur)) (1000 * 1000000) ltac:(lia)).
    pose proof (Z.div_mod (dur * (t2 / dur)) (1000 * 1000000) ltac:(lia)).
    pose proof (Z.mod_pos_bound (dur * (t1 / dur)) (1000 * 1000000) ltac:(lia)).
    pose proof (Z.mod_pos_bound (dur * (t2 / dur)) (1000 * 1000000) ltac:(lia)). nia.
  - intros Hd [q Hq]. destruct (Z.leb_spec dur 0); [lia|]. f_equal. rewrite Hq.
    assert (0 < q) by nia. rewrite (Z.mul_comm q dur), <- !Z.div_div by lia. f_equal.
    pose proof (Z.div_mod t1 dur ltac:(lia)).
    replace (t1 - t1 mod dur) with (dur * (t1 / dur)) by lia. by rewrite Z.mul_comm, Z.div_mul by lia.
Qed.

Lemma truncateNow_windows_witness :
  (truncateNow (2 * Second) (5 * Second) = truncateNow (2 * Second) (4 * Second)) /\
  truncateNow (100 * Millisecond) (7 * Second + 900 * Millisecond) = time_Unix (7 * Second).
Proof.
  split.
  - apply (proj1 (truncateNow_windows (2 * Second) (5 * Second) (4 * Second))).
    + vm_compute. discriminate.
    + vm_compute. reflexivity.
  - rewrite (proj2 (truncateNow_windows (100 * Millisecond) (7 * Second + 900 * Millisecond) 0)).
    + vm_compute. reflexivity.
    + vm_compute. reflexivity.
    + exists 10. vm_compute. reflexivity.
Defined.

(** ** The Redis limiter *)

Lemma dec_string_inj a b : in_i64 a -> in_i64 b -> dec_string a = dec_string b -> a = b.
Proof.
  intros Ha Hb E. destruct (dec_string_scan a Ha) as (i & Hi & Ea), (dec_string_scan b Hb) as (j & Hj & Eb).
  rewrite E, Eb in Ea. injection Ea as E1 E2. subst j.
  destruct (Z.ltb_spec a 0), (Z.ltb_spec b 0); try done; lia.
Qed.

Lemma dec_string_no_colon z : in_i64 z -> no_colon (dec_string z) = true.
Proof.
  intros Hz. unfold in_i64 in Hz. unfold dec_string.
  assert (H : forall x, 0 <= x <= 2 ^ 63 -> no_colon (digits_of 25 x "") = true).
  { intros x Hx. destruct (digits_of_spec 25 x "") as (d & c & ds & _ & -> & Ha & _);
      [change (10 ^ Z.of_nat 25) with (10 ^ 25); lia|lia|].
    rewrite str_app_nil. by apply all_digits_no_colon. }
  destruct (Z.ltb_spec z 0); [|apply H; lia]. rewrite str_app_cons, str_app_empty.
  cbn [no_colon]. eval_chars. cbn [andb]. apply H. lia.
Qed.

(** Different keys and windows have different counters in Redis. *)
Lemma fullKey_inj prefix k1 k2 t1 t2 : in_i64 t1 -> in_i64 t2 ->
  fullKey prefix k1 t1 = fullKey prefix k2 t2 -> k1 = k2 /\ t1 = t2.
Proof.
  intros H1 H2 E. unfold fullKey in E. repeat apply str_app_inv_head in E.
  apply colon_split in E as [-> E]; [|by apply dec_string_no_colon..]. split; [done|].
  by apply dec_string_inj.
Qed.

Section redis.
Context {St : Type} `{!RedisCounters St, !RedisCountersLaws St}.

(** Every counter that a request at or after [clock] can read holds the number of requests so far. *)
Definition redis_counts (dur : Z) (prefix : string) (s : St) (earlier future : list request) : Prop :=
  forall r, r ∈ future -> counter s (fst r) (fullKey prefix (snd r) (truncateNow dur (fst r)))
    = taken dur (truncateNow dur (fst r)) (snd r) earlier.

(** No two requests of a window are as far apart as the expiry of the counter. *)
Fixpoint within_expiry (dur : Z) (rs : list request) : Prop :=
  match rs with
  | [] => True
  | r :: rs' =>
      (forall r', r' ∈ rs' -> truncateNow dur (fst r') = truncateNow dur (fst r) ->
         fst r <= fst r' < fst r + (dur - Millisecond))
      /\ within_expiry dur rs'
  end.

(** A limiter with a client answers, whatever Redis replies. *)
Lemma Redis_serve_returns dur max prefix rs : forall s : St, returns (serve (mkRedis (Some s) dur max prefix) rs).
Proof.
  induction rs as [|[now key] rs IH]; intros s; cbn [serve]; [by eexists|].
  change (lim_Take now key (mkRedis (Some s) dur max prefix)) with (Redis_Take now key (mkRedis (Some s) dur max prefix)).
  unfold Redis_Take. cbn [r_dur r_prefix r_store r_max].
  destruct (incr_pexpire _ _ _ s) as [[v|e] s']; cbn [outcome_bind]; destruct (IH s') as [answers ->]; by eexists.
Qed.

Lemma Redis_serve_aux dur max prefix rs : forall (s : St) earlier answers,
  Forall (fun r => in_i64 (truncateNow dur (fst r))) rs -> within_expiry dur rs ->
  redis_counts dur prefix s earlier rs ->
  serve (mkRedis (Some s) dur max prefix) rs = Returns answers -> Forall (fun a => snd a = None) answers ->
  answers = spec_serve dur max earlier rs.
Proof.
  induction rs as [|[now key] rs IH]; intros s earlier answers Hts Hw Hc Hr Herr; cbn [serve] in Hr; [by injection Hr as <-|].
  inversion Hts as [|? ? Ht Hts']; subst. destruct Hw as [Hgap Hw]. simpl in Ht.
  change (lim_Take now key (mkRedis (Some s) dur max prefix)) with (Redis_Take now key (mkRedis (Some s) dur max prefix)) in Hr.
  unfold Redis_Take in Hr. cbn [r_dur r_prefix r_store r_max] in Hr.
  set (k := fullKey prefix key (truncateNow dur now)) in *.
  destruct (incr_pexpire now k (dur - Millisecond) s) as [[v|e] s'] eqn:E; cbn [outcome_bind] in Hr; step_outcome Hr; injection Hr as <-.
  2: { inversion Herr. done. }
  rename E0 into Er.
  pose proof (incr_val _ _ _ _ _ _ E) as Hv. pose proof (Hc (now, key) ltac:(by left)) as Hc0.
  simpl in Hc0. fold k in Hc0. inversion Herr as [|? ? _ Herr']; subst. cbn [spec_serve]. f_equal.
  - unfold spec_Take. simpl. rewrite Hc0. do 3 f_equal. lia.
  - apply (IH s'); [done|done| |done|done]. intros [now' key'] Hin. simpl. rewrite taken_cons. unfold in_window. simpl.
    rewrite Forall_forall in Hts'. specialize (Hts' _ Hin). simpl in Hts'.
    destruct (Z.eqb_spec (truncateNow dur now) (truncateNow dur now')) as [Ew|Nw].
    + destruct (decide (key = key')) as [->|Nk].
      * rewrite bool_decide_eq_true_2 by done. rewrite <- Ew. fold k.
        pose proof (Hgap (now', key') Hin ltac:(simpl; lia)) as Hg. simpl in Hg.
        rewrite (incr_live _ _ _ _ _ _ now' E Hg), Hc0. done.
      * rewrite bool_decide_eq_false_2 by done. simpl.
        rewrite (incr_other _ _ _ _ _ _ _ now' E).
        -- pose proof (Hc (now', key') ltac:(by right)) as H. simpl in H. lia.
        -- intros H. destruct (fullKey_inj _ _ _ _ _ Hts' Ht H). congruence.
    + simpl. rewrite (incr_other _ _ _ _ _ _ _ now' E).
      * pose proof (Hc (now', key') ltac:(by right)) as H. simpl in H. lia.
      * intros H. destruct (fullKey_inj _ _ _ _ _ Hts' Ht H). congruence.
Qed.

(** Limiters that share the store, the interval and the prefix count the same requests: the answer of
    the second depends on what the first let through. [NewServer] gives the override of a method and
    its high priority override the same prefix. *)
Lemma same_prefix_shares now now' key dur max1 max2 prefix (s : St) ok r1 ok' r2 :
  Redis_Take now key (mkRedis (Some s) dur max1 prefix) = Returns (ok, None, r1) ->
  truncateNow dur now' = truncateNow dur now -> now <= now' < now + (dur - Millisecond) ->
  Redis_Take now' key (mkRedis (r_store r1) dur max2 prefix) = Returns (ok', None, r2) ->
  ok' = (counter s now (fullKey prefix key (truncateNow dur now)) + 1 <? max2).
Proof.
  unfold Redis_Take. cbn [r_prefix r_dur r_max r_store]. intros H1 Ht Hn H2. rewrite Ht in H2.
  generalize dependent (fullKey prefix key (truncateNow dur now)). intros k H1 H2.
  destruct (incr_pexpire now k (dur - Millisecond) s) as [[v|e] s1] eqn:E1; [|discriminate]. injection H1 as _ <-. cbn [r_store] in H2.
  destruct (incr_pexpire now' k (dur - Millisecond) s1) as [[v'|e] s2] eqn:E2; [|discriminate]. injection H2 as <- _.
  pose proof (incr_val _ _ _ _ _ _ E1) as Hv. pose proof (incr_val _ _ _ _ _ _ E2) as Hv'.
  rewrite (incr_live _ _ _ _ _ _ _ E1 Hn) in Hv'. by rewrite Hv', Hv, Z.add_simpl_r.
Qed.

(** C36: a Redis limiter that has a client answers every request, whatever Redis replies. As long as
    none of its commands fails, and its counters start at zero, the limiter implements the same windowed
    limit as the in-memory one, provided the requests of a window are closer together than the counters'
    expiry (one millisecond short of the interval). *)
Theorem Redis_limiter_refines dur max prefix (s : St) rs :
  Forall (fun r => in_i64 (truncateNow dur (fst r))) rs -> within_expiry dur rs ->
  (forall t k, counter s t k = 0) ->
  exists answers, serve (NewRedisFrontendRateLimiter (Some s) dur max prefix) rs = Returns answers /\
    (Forall (fun a => snd a = None) answers -> answers = spec_serve dur max [] rs).
Proof.
  intros H1 H2 H3. destruct (Redis_serve_returns dur max prefix rs s) as [answers E]. exists answers. split; [done|].
  intros Herr. apply (Redis_serve_aux dur max prefix rs s); [done|done| |done|done]. intros r _. apply H3.
Qed.

End redis.

(** A Redis with its keys and their expiry times. *)
#[global] Instance simple_redis : RedisCounters (gmap string (Z * Z)) := {
  incr_pexpire now k ttl s :=
    let v := match s !! k with Some (v, till) => if now <? till then v else 0 | None => 0 end in
    (inl (v + 1), <[k := (v + 1, now + ttl)]> s);
  replied_at now _ := now;
  counter s t k := match s !! k with Some (v, till) => if t <? till then v else 0 | None => 0 end;
}.

#[global] Instance simple_redis_laws : RedisCountersLaws (gmap string (Z * Z)).
Proof.
  constructor; intros s now k ttl.
  - intros v s' [= <- <-]. simpl. destruct (s !! k) as [[? ?]|]; done.
  - intros v s' t [= <- <-] Ht. simpl. rewrite lookup_insert_eq.
    by destruct (Z.ltb_spec t (now + ttl)); [|lia].
  - intros r s' k' t [= <- <-] N. simpl. by rewrite lookup_insert_ne.
Qed.

Lemma Redis_limiter_refines_witness :
  let rs := [(10 * Second, "a"); (10 * Second + 1, "a"); (10 * Second + 2, "b")] in
  serve (NewRedisFrontendRateLimiter (Some (∅ : gmap string (Z * Z))) Second 1 "main") rs
  = Returns [(true, None); (false, None); (true, None)].
Proof.
  intros rs. destruct (Redis_limiter_refines Second 1 "main" (∅ : gmap string (Z * Z)) rs) as (answers & E & H).
  - repeat constructor; vm_compute; done.
  - unfold rs, Second, Millisecond. cbn [within_expiry fst]. split_and!; [| | |done]; intros r'; rewrite ?elem_of_cons, elem_of_nil;
      intros Hr _; destruct_or?; subst; simpl; try done; lia.
  - intros t k. simpl. by rewrite lookup_empty.
  - rewrite E. f_equal. rewrite H; [vm_compute; reflexivity|].
    assert (Hc : match serve (NewRedisFrontendRateLimiter (Some (∅ : gmap string (Z * Z))) Second 1 "main") rs with
      | Returns l => forallb (fun a => match snd a with None => true | Some _ => false end) l | Panics _ => false end = true)
      by (vm_compute; reflexivity).
    rewrite E in Hc. rewrite forallb_forall in Hc. apply Forall_forall. intros x Hx%list_elem_of_In%Hc. by destruct (snd x).
Defined.

(** ** Fallback *)

(** The answers of a fallback limiter; each request reads the clock once per limiter it asks. *)
Fixpoint serve_fallback `{!FrontendRateLimiter L1, !FrontendRateLimiter L2}
    (r : L1 * L2) (rs : list (Z * Z * string)) : outcome (list (bool * option error)) :=
  match rs with
  | [] => Returns []
  | (now1, now2, key) :: rs' =>
      let! res := Fallback_Take now1 now2 key r in
      let '(ok, err, r') := res in
      let! answers := serve_fallback r' rs' in Returns ((ok, err) :: answers)
  end.

(** While the primary limiter fails on every request, the fallback with an in-memory secondary
    still enforces the windowed limit, and reports no error. *)
Theorem Fallback_limits `{!FrontendRateLimiter L1} (p : L1) dur max clock rs :
  (forall now key l, exists ok e l', lim_Take now key l = Returns (ok, Some e, l')) ->
  clock_from clock (map (fun x => (snd (fst x), snd x)) rs) -> Z.of_nat (length rs) < 2 ^ 63 ->
  serve_fallback (p, NewMemoryFrontendRateLimit dur max) rs =
  Returns (spec_serve dur max [] (map (fun x => (snd (fst x), snd x)) rs)).
Proof.
  intros Hfail Hc Hl. rewrite <- (Memory_serve_aux dur max _ (NewMemoryFrontendRateLimit dur max) [] clock).
  - generalize (NewMemoryFrontendRateLimit dur max). clear Hc Hl clock. revert p.
    induction rs as [|[[now1 now2] key] rs IH]; intros p m; [done|].
    cbn [serve_fallback map serve fst snd]. unfold Fallback_Take. cbn [fst snd].
    destruct (Hfail now1 key p) as (ok & e & p' & ->). cbn [outcome_bind].
    destruct (lim_Take now2 key m) as [[[ok2 err2] m2]|msg]; [|done]. cbn [outcome_bind]. by rewrite IH.
  - done.
  - done.
  - simpl. by rewrite length_map.
Qed.

(** A limiter whose backing store is down. *)
#[local] Instance broken_limiter : FrontendRateLimiter bool := fun _ _ l => Returns (false, Some (ENew "down"), l).

Lemma Fallback_limits_witness :
  serve_fallback (true, NewMemoryFrontendRateLimit Second 1)
    [(Second, Second + 1, "a"); (Second + 2, Second + 3, "a")] = Returns [(true, None); (false, None)].
Proof.
  rewrite (Fallback_limits true Second 1 0).
  - vm_compute. reflexivity.
  - intros. do 3 eexists. reflexivity.
  - simpl. unfold Second, Millisecond. lia.
  - vm_compute. reflexivity.
Defined.

(** ** No panic *)

Lemma Memory_Take_returns now key (m : MemoryFrontendRateLimiter) : exists ok m', lim_Take now key m = Returns (ok, None, m').
Proof.
  unfold lim_Take, Memory_limiter, Memory_Take. destruct (pick now m) as [g m1].
  destruct (take_in g key m1) as [ok m2]. by exists ok, m2.
Qed.

Lemma Redis_Take_returns `{!RedisCounters St} now key (r : RedisFrontendRateLimiter St) : is_Some (r_store r) ->
  exists ok err r', lim_Take now key r = Returns (ok, err, r') /\ is_Some (r_store r').
Proof.
  intros [s Hs]. unfold lim_Take, Redis_limiter, Redis_Take. rewrite Hs.
  destruct (incr_pexpire _ _ _ s) as [[v|e] s']; eexists _, _, _; (split; [done|by eexists]).
Qed.

(** The limiters in Redis need a client. *)
Definition has_client {St} (l : limiter St) : Prop :=
  match l with InMemory _ => True | InRedis r | WithFallback (r, _) => is_Some (r_store r) end.

Lemma limiter_Take_returns `{!RedisCounters St} now key (l : limiter St) : has_client l ->
  exists ok err l', lim_Take now key l = Returns (ok, err, l') /\ has_client l'.
Proof.
  intros Hl. unfold lim_Take, limiter_limiter, limiter_Take. destruct l as [m|r|[r m]].
  - destruct (Memory_Take_returns now key m) as (ok & m' & ->). by eexists _, _, _.
  - destruct (Redis_Take_returns now key r Hl) as (ok & err & r' & -> & Hr). by eexists _, _, _.
  - unfold Fallback_Take. cbn [fst snd]. destruct (Redis_Take_returns now key r Hl) as (ok & err & r' & -> & Hr). cbn [outcome_bind].
    destruct err; [|by eexists _, _, _]. set (later := match r_store r with Some s => replied_at now s | None => now end).
    destruct (Memory_Take_returns later key m) as (ok' & m' & ->). by eexists _, _, _.
Qed.

#[global] Instance limiter_safe `{!RedisCounters St} : SafeLimiter (limiter St) :=
  {| lim_ok := has_client; lim_ok_Take := limiter_Take_returns |}.

(** Without a client the first request panics, also with a limiter to fall back to. *)
Example nil_client_panics `{!RedisCounters St} now key dur max prefix m :
  let r := NewRedisFrontendRateLimiter (None : option St) dur max prefix in
  lim_Take now key (InRedis r) = Panics "nil pointer dereference" /\
  lim_Take now key (WithFallback (r, m)) = Panics "nil pointer dereference".
Proof. done. Qed.
