(* ===== verification/Rewriter.v ===== *)
(** * Rewriting of block tags against the consensus state (src/rewriter.go)

    Requests are passed by pointer and mutated, so every function returns the request (and the
    response) after the call.  Indexing the parameters out of range is a run-time panic. *)

From S2P Require Import Prelude Json JsonFacts Geth Rpc.

Record RewriteContext : Type := mkRewriteContext {
  rc_latest : Z;
  rc_safe : Z;
  rc_finalized : Z;
  rc_maxBlockRange : Z;
}.

Inductive RewriteResult : Type :=
| RewriteNone
| RewriteOverrideError
| RewriteOverrideRequest
| RewriteOverrideResponse.

(** The result of a rewrite step, its error, and the request it leaves. *)
Definition rewritten : Type := RewriteResult * option error * RPCReq.

Definition set_Params (req : RPCReq) (raw : string) : RPCReq :=
  mkRPCReq (req_JSONRPC req) (req_Method req) raw (req_ID req).

Definition errExpectedString : error := ENew "expected string".

Section rewriter.
Context {HX : HexUtil} {BX : BlockRPC}.

(** [json.Marshal(current)] of a decoded value, then [UnmarshalJSON]. *)
Definition remarshalBlockNumberOrHash (current : json) : option BlockNumberOrHash :=
  bnh_UnmarshalJSON (json_Marshal current).

(** What the code does with the number of a block. *)
Inductive tag_action : Type :=
| KeepBlock
| ReplaceBlock (n : Z)
| BlockOutOfRange.

(** The [switch] on the block number, shared in form by the two functions below. *)
Definition tag_switch (rctx : RewriteContext) (n : Z) : tag_action :=
  if (n =? PendingBlockNumber) || (n =? EarliestBlockNumber) then KeepBlock
  else if n =? FinalizedBlockNumber then ReplaceBlock (rc_finalized rctx)
  else if n =? SafeBlockNumber then ReplaceBlock (rc_safe rctx)
  else if n =? LatestBlockNumber then ReplaceBlock (rc_latest rctx)
  else if i64 (rc_latest rctx) <? n then BlockOutOfRange
  else KeepBlock.

(** The error of a text that is no block, left abstract. *)
Definition errBlockNumberOrHash : error := ENew "invalid block number or hash".

(** The new text and whether it was rewritten. *)
Definition rewriteTag (rctx : RewriteContext) (current : string) : (string * bool) + error :=
  match remarshalBlockNumberOrHash (JStr current) with
  | None => inr errBlockNumberOrHash
  | Some bnh =>
      match bnh_BlockNumber bnh with
      | None => inl (current, false)
      | Some n =>
          match tag_switch rctx n with
          | KeepBlock => inl (current, false)
          | ReplaceBlock b => inl (hex_String b, true)
          | BlockOutOfRange => inr (ESentinel ErrRewriteBlockOutOfRange)
          end
      end
  end.

Definition rewriteTagBlockNumberOrHash (rctx : RewriteContext) (current : BlockNumberOrHash)
    : (BlockNumberOrHash * bool) + error :=
  match bnh_BlockNumber current with
  | None => inl (current, false)
  | Some n =>
      match tag_switch rctx n with
      | KeepBlock => inl (current, false)
      | ReplaceBlock b => inl (BlockNumberOrHashWithNumber (i64 b), true)
      | BlockOutOfRange => inr (ESentinel ErrRewriteBlockOutOfRange)
      end
  end.

(** The value at the block position, after the rewrite, and whether it changed. *)
Definition rewrite_value (rctx : RewriteContext) (blockNrOrHash : bool) (v : json) : (json * bool) + error :=
  if blockNrOrHash then
    match remarshalBlockNumberOrHash v with
    | None =>
        match v with
        | JStr s =>
            match rewriteTag rctx s with inl (t, rw) => inl (JStr t, rw) | inr err => inr err end
        | _ => inr (ENew "expected BlockNumberOrHash or string")
        end
    | Some bnh =>
        match rewriteTagBlockNumberOrHash rctx bnh with
        | inl (b, rw) => inl (bnh_json b, rw)
        | inr err => inr err
        end
    end
  else
    match v with
    | JStr s => match rewriteTag rctx s with inl (t, rw) => inl (JStr t, rw) | inr err => inr err end
    | _ => inr errExpectedString
    end.

(** The parameters as [rewriteParam] looks at them: a missing optional block is the latest one. *)
Definition with_default (p : list json) (pos : nat) (required : bool) : list json :=
  if (length p =? pos)%nat && negb required then p ++ [JStr "latest"] else p.

Definition rewriteParam (rctx : RewriteContext) (req : RPCReq) (pos : nat) (required blockNrOrHash : bool)
    : rewritten :=
  match unmarshal_slice (req_Params req) with
  | None => (RewriteOverrideError, Some json_error, req)
  | Some p0 =>
      let p := with_default p0 pos required in
      match p !! pos with
      | None => (RewriteNone, None, req)
      | Some v =>
          match rewrite_value rctx blockNrOrHash v with
          | inr err => (RewriteOverrideError, Some err, req)
          | inl (val, true) =>
              (RewriteOverrideRequest, None, set_Params req (json_Marshal (JArr (<[pos := val]> p))))
          | inl (_, false) => (RewriteNone, None, req)
          end
      end
  end.

(** [json.Unmarshal(raw, &p)] for [p []map[string]interface{}]: a null element is a nil map. *)
Definition is_map (j : json) : bool := match j with JObj _ | JNull => true | _ => false end.

Definition unmarshal_maps (raw : string) : option (list json) :=
  match unmarshal_slice raw with
  | Some l => if forallb is_map l then Some l else None
  | None => None
  end.

(** [m[key]] on a map that may be nil; the zero value of the interface is [None]. *)
Definition map_get (m : json) (key : string) : option json :=
  match m with JObj fs => obj_lookup key fs | _ => None end.

(** [m[key] = v]; only reached for a map that is not nil. *)
Definition map_set (m : json) (key : string) (v : json) : json :=
  match m with JObj fs => JObj (obj_insert key v fs) | m => m end.

Definition blockNumber (m : json) (key : string) (latest : Z) : Z + error :=
  match map_get m key with
  | Some (JStr current) =>
      if bool_decide (current = "earliest") then inl 0
      else if bool_decide (current = "pending") then inl (u64 (latest + 1))
      else match hex_DecodeUint64 current with Some n => inl n | None => inr (ENew "invalid hex string") end
  | _ => inr errExpectedString
  end.

(** The map after the rewrite and whether it changed. *)
Definition rewriteTagMap (rctx : RewriteContext) (m : json) (key : string) : (json * bool) + error :=
  match map_get m key with
  | None | Some JNull => inl (m, false)
  | Some (JStr current) =>
      if bool_decide (current = "") then inl (m, false)
      else
        match rewriteTag rctx current with
        | inr err => inr err
        | inl (val, true) => inl (map_set m key (JStr val), true)
        | inl (_, false) => inl (m, false)
        end
  | Some _ => inr errExpectedString
  end.

(** If one end of the range is given, the other one defaults to the latest block. *)
Definition range_defaults (m : json) : json :=
  match map_get m "fromBlock", map_get m "toBlock" with
  | Some _, None => map_set m "toBlock" (JStr "latest")
  | None, Some _ => map_set m "fromBlock" (JStr "latest")
  | _, _ => m
  end.

Definition has_key (m : json) (key : string) : bool :=
  match map_get m key with Some _ => true | None => false end.

(** The bound on the range, on the map with its tags replaced. *)
Definition check_range (rctx : RewriteContext) (hasEnd : bool) (m : json) : option error :=
  if (0 <? rc_maxBlockRange rctx) && hasEnd then
    match blockNumber m "fromBlock" (rc_latest rctx) with
    | inr err => Some err
    | inl from =>
        match blockNumber m "toBlock" (rc_latest rctx) with
        | inr err => Some err
        | inl to =>
            if rc_maxBlockRange rctx <? u64 (to - from) then Some (ESentinel ErrRewriteRangeTooLarge) else None
        end
    end
  else None.

Definition rewriteRange (rctx : RewriteContext) (req : RPCReq) (pos : nat) : outcome rewritten :=
  match unmarshal_maps (req_Params req) with
  | None => Returns (RewriteOverrideError, Some json_error, req)
  | Some p =>
      match p !! pos with
      | None => Panics "index out of range"
      | Some m0 =>
          let hasEnd := has_key m0 "fromBlock" || has_key m0 "toBlock" in
          let m1 := range_defaults m0 in
          match rewriteTagMap rctx m1 "fromBlock" with
          | inr err => Returns (RewriteOverrideError, Some err, req)
          | inl (m2, modifiedFrom) =>
              match rewriteTagMap rctx m2 "toBlock" with
              | inr err => Returns (RewriteOverrideError, Some err, req)
              | inl (m3, modifiedTo) =>
                  match check_range rctx hasEnd m3 with
                  | Some err => Returns (RewriteOverrideError, Some err, req)
                  | None =>
                      if modifiedFrom || modifiedTo
                      then Returns (RewriteOverrideRequest, None,
                                    set_Params req (json_Marshal (JArr (<[pos := m3]> p))))
                      else Returns (RewriteNone, None, req)
                  end
              end
          end
      end
  end.

Definition range_methods : list string := ["eth_getLogs"; "eth_newFilter"].

(** The methods with a block parameter: its position, whether it is required, whether it may be an
    object or a hash. *)
Definition block_param (method : string) : option (nat * bool * bool) :=
  if bool_decide (method ∈ ["debug_getRawReceipts"; "consensus_getReceipts"]) then Some (0%nat, true, false)
  else if bool_decide (method ∈ ["eth_getBalance"; "eth_getCode"; "eth_getTransactionCount"; "eth_call"])
  then Some (1%nat, false, true)
  else if bool_decide (method ∈ ["eth_getStorageAt"; "eth_getProof"]) then Some (2%nat, false, true)
  else if bool_decide (method ∈ ["eth_getBlockTransactionCountByNumber"; "eth_getUncleCountByBlockNumber";
         "eth_getBlockByNumber"; "eth_getTransactionByBlockNumberAndIndex"; "eth_getUncleByBlockNumberAndIndex"])
  then Some (0%nat, false, false)
  else None.

Definition RewriteRequest (rctx : RewriteContext) (req : RPCReq) : outcome rewritten :=
  if bool_decide (req_Method req ∈ range_methods) then rewriteRange rctx req 0
  else
    match block_param (req_Method req) with
    | Some (pos, required, blockNrOrHash) => Returns (rewriteParam rctx req pos required blockNrOrHash)
    | None => Returns (RewriteNone, None, req)
    end.

Definition RewriteResponse (rctx : RewriteContext) (req : RPCReq) (res : RPCRes) : RewriteResult * RPCRes :=
  if bool_decide (req_Method req = "eth_blockNumber")
  then (RewriteOverrideResponse,
        mkRPCRes (res_JSONRPC res) (Some (GHexUint64 (rc_latest rctx))) (res_Error res) (res_ID res))
  else (RewriteNone, res).

Definition RewriteTags (rctx : RewriteContext) (req : RPCReq) (res : RPCRes)
    : outcome (RewriteResult * option error * RPCReq * RPCRes) :=
  let '(rw, res) := RewriteResponse rctx req res in
  match rw with
  | RewriteOverrideResponse => Returns (rw, None, req, res)
  | _ => let! r := RewriteRequest rctx req in Returns (r, res)
  end.

(** ** Settled blocks: what a rewrite leaves alone *)

Context {HXL : HexUtilLaws} {BXL : BlockRPCLaws}.

(** The consensus blocks are ordered and fit an int64. *)
Definition wf_ctx (rctx : RewriteContext) : Prop :=
  0 <= rc_safe rctx <= rc_latest rctx /\ 0 <= rc_finalized rctx <= rc_latest rctx /\
  rc_latest rctx < 2 ^ 63 /\ 0 <= rc_maxBlockRange rctx < 2 ^ 63.

(** A number that is no floating tag and not above the latest consensus block. *)
Definition settled_number (rctx : RewriteContext) (n : Z) : Prop :=
  n = PendingBlockNumber \/ n = EarliestBlockNumber \/
  (n <> FinalizedBlockNumber /\ n <> SafeBlockNumber /\ n <> LatestBlockNumber /\ n <= rc_latest rctx).

(** A block parameter that names a hash or a settled number. *)
Definition settled (rctx : RewriteContext) (v : json) : Prop :=
  exists b, remarshalBlockNumberOrHash v = Some b /\
    match bnh_BlockNumber b with Some n => settled_number rctx n | None => is_Some (bnh_BlockHash b) end.

(** A block parameter that is accepted and names neither a number nor a hash: null, or an object without
    either. *)
Definition unnamed (v : json) : Prop :=
  exists b, remarshalBlockNumberOrHash v = Some b /\ bnh_BlockNumber b = None /\ bnh_BlockHash b = None.

Lemma tag_switch_keep rctx n : wf_ctx rctx ->
  tag_switch rctx n = KeepBlock <-> settled_number rctx n.
Proof.
  intros (Hs & Hf & Hl & _). unfold tag_switch, settled_number.
  rewrite i64_small by (unfold in_i64; lia).
  destruct (Z.eqb_spec n PendingBlockNumber); [naive_solver|].
  destruct (Z.eqb_spec n EarliestBlockNumber); [naive_solver|]. simpl.
  destruct (Z.eqb_spec n FinalizedBlockNumber); [naive_solver|].
  destruct (Z.eqb_spec n SafeBlockNumber); [naive_solver|].
  destruct (Z.eqb_spec n LatestBlockNumber); [naive_solver|].
  destruct (Z.ltb_spec (rc_latest rctx) n); split; intros; try done; [|naive_solver lia]. lia.
Qed.

(** A replacement is one of the consensus blocks, and is settled. *)
Lemma tag_switch_replace rctx n b : wf_ctx rctx -> tag_switch rctx n = ReplaceBlock b ->
  0 <= b < 2 ^ 63 /\ settled_number rctx b.
Proof.
  intros Hw H. pose proof Hw as (Hs & Hf & Hl & _).
  assert (Hb : 0 <= b <= rc_latest rctx) by (unfold tag_switch in H; repeat case_match; simplify_eq; lia).
  split; [lia|]. right. right. pose proof tags_negative. lia.
Qed.

Lemma rewriteTag_settles rctx s t rw : wf_ctx rctx -> valid_utf8 0 s = true ->
  rewriteTag rctx s = inl (t, rw) ->
  valid_utf8 0 t = true /\ settled rctx (JStr t) /\ (rw = false -> t = s).
Proof.
  intros Hw Hs H. unfold rewriteTag in H.
  destruct (remarshalBlockNumberOrHash (JStr s)) as [b|] eqn:Eb; [|done].
  destruct (bnh_BlockNumber b) as [n|] eqn:En.
  - destruct (tag_switch rctx n) as [|m|] eqn:Et; [| |done]; injection H as <- <-.
    + split; [done|]. split; [|done]. exists b. split; [done|]. rewrite En. by apply tag_switch_keep.
    + apply tag_switch_replace in Et as [Hm Hset]; [|done].
      split; [apply hex_utf8; unfold in_u64; lia|]. split; [|done].
      eexists. split; [by apply bnh_hex|]. done.
  - injection H as <- <-. split; [done|]. split; [|done]. exists b. rewrite En. split; [done|]. by eapply bnh_string.
Qed.

(** A settled text is left alone. *)
Lemma rewriteTag_settled rctx s : wf_ctx rctx -> settled rctx (JStr s) -> rewriteTag rctx s = inl (s, false).
Proof.
  intros Hw (b & Hb & Hn). unfold rewriteTag. rewrite Hb. destruct (bnh_BlockNumber b) as [n|]; [|done].
  by rewrite (proj2 (tag_switch_keep rctx n Hw) Hn).
Qed.

Lemma rewrite_value_settles rctx mode v val rw : wf_ctx rctx -> wf_json v = true ->
  rewrite_value rctx mode v = inl (val, rw) ->
  (rw = true -> wf_json val = true /\ settled rctx val) /\ (rw = false -> settled rctx v \/ (mode = true /\ unnamed v)).
Proof.
  intros Hw Hv H. unfold rewrite_value in H.
  assert (Hstr : forall s, v = JStr s ->
    match rewriteTag rctx s with inl (t, rw) => inl (JStr t, rw) | inr err => inr err end = inl (val, rw) ->
    (rw = true -> wf_json val = true /\ settled rctx val) /\ (rw = false -> settled rctx v \/ (mode = true /\ unnamed v))).
  { intros s -> Hr. destruct (rewriteTag rctx s) as [[t rw']|] eqn:E; [|done]. injection Hr as <- <-.
    apply rewriteTag_settles in E as (H1 & H2 & H3); [|done|done]. split; [by intros _|].
    intros Hf. left. by rewrite <- (H3 Hf). }
  destruct mode.
  - destruct (remarshalBlockNumberOrHash v) as [b|] eqn:Eb.
    + unfold rewriteTagBlockNumberOrHash in H. destruct (bnh_BlockNumber b) as [n|] eqn:En.
      * destruct (tag_switch rctx n) as [|m|] eqn:Et; [| |done]; injection H as <- <-; (split; [|]); try done.
        -- intros _. left. exists b. split; [done|]. rewrite En. by apply tag_switch_keep.
        -- intros _. apply tag_switch_replace in Et as [Hm Hset]; [|done].
           rewrite i64_small by (unfold in_i64; lia). split; [by apply bnh_json_object|].
           eexists. split; [by apply bnh_json_number|]. done.
      * injection H as <- <-. split; [done|]. intros _.
        destruct (bnh_BlockHash b) eqn:Eh; [left|right; split; [done|]]; exists b; [rewrite En, Eh; by eauto|done].
    + destruct v; try done. by eapply Hstr.
  - destruct v; try done. by eapply Hstr.
Qed.

Lemma rewrite_value_settled rctx mode v : wf_ctx rctx -> settled rctx v ->
  (mode = false -> exists s, v = JStr s) -> exists val, rewrite_value rctx mode v = inl (val, false).
Proof.
  intros Hw Hset Hmode. pose proof Hset as (b & Hb & Hn). unfold rewrite_value. destruct mode.
  - rewrite Hb. unfold rewriteTagBlockNumberOrHash. destruct (bnh_BlockNumber b) as [n|]; [|eauto].
    rewrite (proj2 (tag_switch_keep rctx n Hw) Hn). eauto.
  - destruct (Hmode eq_refl) as [s ->]. rewrite rewriteTag_settled by done. eauto.
Qed.

(** Without EIP-1898 objects a rewritten value is a string. *)
Lemma rewrite_value_string rctx v val rw :
  rewrite_value rctx false v = inl (val, rw) -> exists s, val = JStr s.
Proof.
  unfold rewrite_value. destruct v; try done. destruct (rewriteTag rctx s) as [[t ?]|]; [|done].
  intros [= <- <-]. eauto.
Qed.

Lemma with_default_wf p pos required :
  forallb wf_json p = true -> forallb wf_json (with_default p pos required) = true.
Proof. intros H. unfold with_default. case_match; [|done]. rewrite forallb_app, H. done. Qed.

(** The block that stands in for a missing one is always replaced. *)
Lemma rewrite_value_latest rctx mode : wf_ctx rctx ->
  exists val, rewrite_value rctx mode (JStr "latest") = inl (val, true).
Proof.
  intros Hw. assert (Ht : tag_switch rctx LatestBlockNumber = ReplaceBlock (rc_latest rctx)).
  { pose proof tags_distinct as Hd. unfold tag_switch.
    rewrite !NoDup_cons, !elem_of_cons in Hd.
    destruct (Z.eqb_spec LatestBlockNumber PendingBlockNumber); [naive_solver|].
    destruct (Z.eqb_spec LatestBlockNumber EarliestBlockNumber); [naive_solver|]. simpl.
    destruct (Z.eqb_spec LatestBlockNumber FinalizedBlockNumber); [naive_solver|].
    destruct (Z.eqb_spec LatestBlockNumber SafeBlockNumber); [naive_solver|].
    by rewrite Z.eqb_refl. }
  assert (Hr : remarshalBlockNumberOrHash (JStr "latest") = Some (BlockNumberOrHashWithNumber LatestBlockNumber))
    by apply bnh_latest.
  unfold rewrite_value. destruct mode.
  - rewrite Hr. unfold rewriteTagBlockNumberOrHash. cbn [bnh_BlockNumber BlockNumberOrHashWithNumber].
    rewrite Ht. eauto.
  - unfold rewriteTag. rewrite Hr. cbn [bnh_BlockNumber BlockNumberOrHashWithNumber]. rewrite Ht. eauto.
Qed.

(** After a rewrite that lets the request pass, the block at position [pos] is settled. *)
Lemma rewriteParam_settles rctx req pos required mode rw req' :
  wf_ctx rctx -> rewriteParam rctx req pos required mode = (rw, None, req') ->
  exists p p', unmarshal_slice (req_Params req) = Some p /\ unmarshal_slice (req_Params req') = Some p' /\
    (forall v, p' !! pos = Some v -> settled rctx v \/ (mode = true /\ unnamed v /\ req' = req)) /\
    (required = false -> (pos <= length p)%nat -> is_Some (p' !! pos)) /\
    (rw = RewriteOverrideRequest -> is_Some (p' !! pos)) /\
    (rw = RewriteNone \/ rw = RewriteOverrideRequest).
Proof.
  intros Hw H. unfold rewriteParam in H.
  destruct (unmarshal_slice (req_Params req)) as [p|] eqn:Ep; [|done]. pose proof (unmarshal_slice_wf _ _ Ep) as Hp.
  pose proof (with_default_wf p pos required Hp) as Hd. exists p.
  destruct (with_default p pos required !! pos) as [v|] eqn:Ev.
  - pose proof (forallb_lookup _ _ _ _ Hd Ev) as Hv. pose proof (lookup_lt_Some _ _ _ Ev) as Hlt.
    destruct (rewrite_value rctx mode v) as [[val [|]]|] eqn:Er; [| |done]; injection H as <- <-.
    + destruct (proj1 (rewrite_value_settles _ _ _ _ _ Hw Hv Er) eq_refl) as [Hval Hset].
      exists (<[pos := val]> (with_default p pos required)). split; [done|]. split.
      { unfold set_Params. cbn [req_Params]. apply unmarshal_slice_marshal. by apply forallb_insert. }
      rewrite list_lookup_insert_eq by done. split; [by intros ? [= <-]; left|]. eauto.
    + pose proof (proj2 (rewrite_value_settles _ _ _ _ _ Hw Hv Er) eq_refl) as Hset.
      assert (E : with_default p pos required = p).
      { unfold with_default in *. destruct ((length p =? pos)%nat && negb required) eqn:E; [|done]. exfalso.
        apply andb_true_iff in E as [E%Nat.eqb_eq _]. rewrite <- E, lookup_app_r, Nat.sub_diag in Ev by lia.
        injection Ev as <-. destruct (rewrite_value_latest rctx mode Hw) as [? E']. congruence. }
      rewrite E in Ev. exists p. split; [done|]. split; [done|]. rewrite Ev.
      split; [intros ? [= <-]; naive_solver|]. eauto.
  - injection H as <- <-. exists p. split; [done|]. split; [done|].
    assert (Hle : (length (with_default p pos required) <= pos)%nat) by (by apply lookup_ge_None).
    unfold with_default in Hle. destruct (Nat.eqb_spec (length p) pos); simpl in Hle.
    + destruct required; simpl in Hle; [|rewrite length_app in Hle; simpl in Hle; lia].
      rewrite lookup_ge_None_2 by lia. naive_solver.
    + rewrite lookup_ge_None_2 by lia. split; [done|]. split; [lia|]. naive_solver.
Qed.

(** Rewriting a rewritten parameter changes nothing. *)
Lemma rewriteParam_idempotent rctx req pos required mode req' :
  wf_ctx rctx -> rewriteParam rctx req pos required mode = (RewriteOverrideRequest, None, req') ->
  rewriteParam rctx req' pos required mode = (RewriteNone, None, req').
Proof.
  intros Hw H. unfold rewriteParam in H.
  destruct (unmarshal_slice (req_Params req)) as [p|] eqn:Ep; [|done].
  pose proof (with_default_wf p pos required (unmarshal_slice_wf _ _ Ep)) as Hd.
  set (q := with_default p pos required) in *. destruct (q !! pos) as [v|] eqn:Ev; [|done].
  pose proof (lookup_lt_Some _ _ _ Ev) as Hlt.
  destruct (rewrite_value rctx mode v) as [[val [|]]|] eqn:Er; try done.
  apply (f_equal snd) in H. cbn [snd] in H. subst req'.
  destruct (proj1 (rewrite_value_settles _ _ _ _ _ Hw (forallb_lookup _ _ _ _ Hd Ev) Er) eq_refl) as [Hval Hset].
  unfold rewriteParam, set_Params. cbn [req_Params].
  rewrite unmarshal_slice_marshal by (by apply forallb_insert).
  unfold with_default at 1. rewrite length_insert. destruct (Nat.eqb_spec (length q) pos); [lia|]. simpl.
  rewrite list_lookup_insert_eq by done.
  destruct (rewrite_value_settled rctx mode val Hw Hset) as [val' ->]; [|done].
  intros ->. by eapply rewrite_value_string.
Qed.

(** ** Ranges *)

(** An end of a range that is absent, null, empty or settled. *)
Definition end_ok (rctx : RewriteContext) (m : json) (key : string) : Prop :=
  match map_get m key with
  | None | Some JNull => True
  | Some (JStr s) => s = "" \/ settled rctx (JStr s)
  | Some _ => False
  end.

Definition wf_map (m : json) : bool := wf_json m && is_map m.

Lemma map_set_wf m k v : wf_map m = true -> valid_utf8 0 k = true -> wf_json v = true ->
  wf_map (map_set m k v) = true.
Proof.
  unfold wf_map. rewrite !andb_true_iff. intros [H1 H2] Hk Hv. destruct m; try done.
  split; [by apply obj_insert_wf|done].
Qed.

Lemma map_get_set_eq m k v : wf_map m = true -> map_get m k <> None -> map_get (map_set m k v) k = Some v.
Proof.
  unfold wf_map. rewrite andb_true_iff. intros [H1 H2] Hk. destruct m; try done. simpl in *.
  apply andb_true_iff in H1 as [H1 _]. by apply obj_lookup_insert_eq.
Qed.

Lemma map_get_set_ne m k k' v : k <> k' -> map_get (map_set m k v) k' = map_get m k'.
Proof. intros. destruct m; try done. by apply obj_lookup_insert_ne. Qed.

Lemma map_get_wf m k v : wf_map m = true -> map_get m k = Some v -> wf_json v = true.
Proof. unfold wf_map. rewrite andb_true_iff. intros [H1 _] H. destruct m; try done. by eapply obj_lookup_wf. Qed.

Lemma rewriteTagMap_spec rctx m key m' b :
  wf_ctx rctx -> wf_map m = true -> valid_utf8 0 key = true -> rewriteTagMap rctx m key = inl (m', b) ->
  wf_map m' = true /\ end_ok rctx m' key /\ (forall k, k <> key -> map_get m' k = map_get m k) /\
  has_key m' key = has_key m key /\ (b = false -> m' = m).
Proof.
  intros Hw Hm Hk H. unfold rewriteTagMap in H. destruct (map_get m key) as [v|] eqn:Ev.
  2: { injection H as <- <-. unfold end_ok. by rewrite Ev. }
  destruct v as [| | |s| |]; try done.
  { injection H as <- <-. unfold end_ok. by rewrite Ev. }
  case_bool_decide as Es.
  { injection H as <- <-. unfold end_ok. rewrite Ev. naive_solver. }
  pose proof (map_get_wf _ _ _ Hm Ev) as Hs.
  destruct (rewriteTag rctx s) as [[t [|]]|] eqn:Et; [| |done];
    pose proof (rewriteTag_settles _ _ _ _ Hw Hs Et) as (H1 & H2 & H3); injection H as <- <-.
  - assert (Eg : map_get (map_set m key (JStr t)) key = Some (JStr t)) by (apply map_get_set_eq; congruence).
    split; [by apply map_set_wf|]. unfold end_ok, has_key. rewrite Eg, Ev. split; [by right|].
    split; [|done]. intros k Nk. by apply map_get_set_ne.
  - split; [done|]. unfold end_ok. rewrite Ev. split; [|done]. right. by rewrite <- (H3 eq_refl).
Qed.

Lemma rewriteTagMap_idem rctx m key : wf_ctx rctx -> end_ok rctx m key ->
  rewriteTagMap rctx m key = inl (m, false).
Proof.
  intros Hw H. unfold end_ok in H. unfold rewriteTagMap.
  destruct (map_get m key) as [v|]; [|done]. destruct v as [| | |s| |]; try done.
  case_bool_decide; [done|]. destruct H as [->|H]; [done|]. by rewrite rewriteTag_settled.
Qed.

Lemma range_defaults_wf m : wf_map m = true -> wf_map (range_defaults m) = true.
Proof. intros H. unfold range_defaults. split_matches; by apply map_set_wf. Qed.

Lemma rewriteTag_latest rctx : wf_ctx rctx -> exists t, rewriteTag rctx "latest" = inl (t, true).
Proof.
  intros Hw. destruct (rewrite_value_latest rctx false Hw) as [val H]. unfold rewrite_value in H.
  destruct (rewriteTag rctx "latest") as [[t rw]|]; [|done]. injection H as _ ->. eauto.
Qed.

(** After the defaults both ends are present or none is. *)
Lemma range_defaults_keys m : wf_map m = true ->
  has_key (range_defaults m) "fromBlock" = has_key m "fromBlock" || has_key m "toBlock" /\
  has_key (range_defaults m) "toBlock" = has_key m "fromBlock" || has_key m "toBlock".
Proof.
  unfold wf_map. rewrite andb_true_iff. intros [H1 H2]. unfold range_defaults, has_key.
  destruct m; try done. cbn [map_get map_set]. simpl in H1. apply andb_true_iff in H1 as [H1 _].
  destruct (obj_lookup "fromBlock" fields) eqn:E1, (obj_lookup "toBlock" fields) eqn:E2; cbn [map_get];
    rewrite ?E1, ?E2; [done| | |done].
  - by rewrite obj_lookup_insert_eq, obj_lookup_insert_ne, E1.
  - by rewrite obj_lookup_insert_eq, obj_lookup_insert_ne, E2.
Qed.

(** When the defaults add an end, rewriting changes it. *)
Lemma range_unmodified rctx m m2 m3 : wf_ctx rctx -> wf_map m = true ->
  rewriteTagMap rctx (range_defaults m) "fromBlock" = inl (m2, false) ->
  rewriteTagMap rctx m2 "toBlock" = inl (m3, false) -> range_defaults m = m /\ m3 = m.
Proof.
  intros Hw Hm H1 H2. pose proof (range_defaults_wf m Hm) as Hd.
  destruct (rewriteTagMap_spec _ _ "fromBlock" _ _ Hw Hd eq_refl H1) as (_ & _ & _ & _ & E2). specialize (E2 eq_refl). subst m2.
  destruct (rewriteTagMap_spec _ _ "toBlock" _ _ Hw Hd eq_refl H2) as (_ & _ & _ & _ & E3). specialize (E3 eq_refl). subst m3.
  enough (range_defaults m = m) by (split; congruence).
  destruct (rewriteTag_latest rctx Hw) as [t Ht]. unfold wf_map in Hm. apply andb_true_iff in Hm as [Hm1 Hm2].
  unfold range_defaults in *. destruct m as [| | | | |fs]; try done. cbn [map_get] in *.
  simpl in Hm1. apply andb_true_iff in Hm1 as [Hk _].
  destruct (obj_lookup "fromBlock" fs) eqn:E1, (obj_lookup "toBlock" fs) eqn:E2; try done; exfalso.
  - unfold rewriteTagMap in H2. cbn [map_get map_set] in H2.
    rewrite obj_lookup_insert_eq, bool_decide_eq_false_2, Ht in H2 by done. done.
  - unfold rewriteTagMap in H1. cbn [map_get map_set] in H1.
    rewrite obj_lookup_insert_eq, bool_decide_eq_false_2, Ht in H1 by done. done.
Qed.

(** The ends of an accepted range are at most one above the latest block. *)
Lemma blockNumber_bound rctx m key n : wf_ctx rctx -> wf_map m = true -> end_ok rctx m key ->
  blockNumber m key (rc_latest rctx) = inl n -> 0 <= n <= rc_latest rctx + 1.
Proof.
  intros (Hs & Hf & Hl & Hr) Hm He H. unfold blockNumber, end_ok in *.
  destruct (map_get m key) as [v|] eqn:Ev; [|done]. destruct v as [| | |s| |]; try done.
  case_bool_decide; [injection H as <-; lia|].
  case_bool_decide; [injection H as <-; rewrite u64_small; unfold in_u64; lia|].
  destruct (hex_DecodeUint64 s) as [v|] eqn:Eh; [|done]. injection H as <-.
  pose proof (hex_range _ _ Eh) as Hu. unfold in_u64 in Hu.
  destruct He as [->|(b & Hb & Hn)]; [by rewrite hex_empty in Eh|].
  rewrite (bnh_quantity s v b (map_get_wf _ _ _ Hm Ev) Eh Hb) in Hn.
  pose proof tags_negative. destruct Hn as [->|[->|Hn]]; lia.
Qed.

Lemma check_range_bound rctx m : wf_ctx rctx -> wf_map m = true ->
  end_ok rctx m "fromBlock" -> end_ok rctx m "toBlock" ->
  check_range rctx true m = None -> 0 < rc_maxBlockRange rctx ->
  exists from to, blockNumber m "fromBlock" (rc_latest rctx) = inl from /\
    blockNumber m "toBlock" (rc_latest rctx) = inl to /\ from <= to <= from + rc_maxBlockRange rctx.
Proof.
  intros Hw Hm H1 H2 H H0. pose proof Hw as (Hs & Hf & Hl & Hr). unfold check_range in H.
  destruct (Z.ltb_spec 0 (rc_maxBlockRange rctx)); [|lia]. simpl in H.
  destruct (blockNumber m "fromBlock" (rc_latest rctx)) as [from|] eqn:E1; [|done].
  destruct (blockNumber m "toBlock" (rc_latest rctx)) as [to|] eqn:E2; [|done].
  pose proof (blockNumber_bound _ _ _ _ Hw Hm H1 E1). pose proof (blockNumber_bound _ _ _ _ Hw Hm H2 E2).
  destruct (Z.ltb_spec (rc_maxBlockRange rctx) (u64 (to - from))) as [|Hle]; [done|].
  exists from, to. split; [done|]. split; [done|]. unfold u64 in Hle.
  destruct (Z_lt_le_dec to from) as [Hlt|Hge].
  - replace (to - from) with ((to - from + 2 ^ 64) + (-1) * 2 ^ 64) in Hle by lia.
    rewrite Z.mod_add, Z.mod_small in Hle by lia. lia.
  - rewrite Z.mod_small in Hle by lia. lia.
Qed.

(** What a range looks like after a rewrite that lets the request pass. *)
Definition range_ok (rctx : RewriteContext) (m : json) : Prop :=
  end_ok rctx m "fromBlock" /\ end_ok rctx m "toBlock" /\
  has_key m "fromBlock" = has_key m "toBlock" /\
  (has_key m "fromBlock" = true -> 0 < rc_maxBlockRange rctx ->
   exists from to, blockNumber m "fromBlock" (rc_latest rctx) = inl from /\
     blockNumber m "toBlock" (rc_latest rctx) = inl to /\ from <= to <= from + rc_maxBlockRange rctx).

Lemma unmarshal_maps_wf raw p : unmarshal_maps raw = Some p -> forallb wf_map p = true.
Proof.
  unfold unmarshal_maps. destruct (unmarshal_slice raw) as [l|] eqn:E; [|done].
  apply unmarshal_slice_wf in E. destruct (forallb is_map l) eqn:El; [|done]. intros [= <-].
  rewrite forallb_forall in *. intros x Hx. unfold wf_map. by rewrite E, El.
Qed.

Lemma unmarshal_maps_marshal p : forallb wf_map p = true -> unmarshal_maps (json_Marshal (JArr p)) = Some p.
Proof.
  intros H. unfold unmarshal_maps. rewrite forallb_forall in H. rewrite unmarshal_slice_marshal.
  - assert (E : forallb is_map p = true); [|by rewrite E]. rewrite forallb_forall. intros x Hx.
    specialize (H x Hx). unfold wf_map in H. by apply andb_true_iff in H as [_ ?].
  - rewrite forallb_forall. intros x Hx. specialize (H x Hx). unfold wf_map in H.
    by apply andb_true_iff in H as [? _].
Qed.

(** The rewritten range, step by step. *)
Lemma rewriteRange_ok rctx req pos rw req' : wf_ctx rctx ->
  rewriteRange rctx req pos = Returns (rw, None, req') ->
  exists p' m', unmarshal_maps (req_Params req') = Some p' /\ p' !! pos = Some m' /\ wf_map m' = true /\
    range_ok rctx m' /\ check_range rctx (has_key m' "fromBlock") m' = None /\
    (rw = RewriteNone \/ rw = RewriteOverrideRequest) /\ (rw = RewriteNone -> req' = req).
Proof.
  intros Hw H. unfold rewriteRange in H. destruct (unmarshal_maps (req_Params req)) as [p|] eqn:Ep; [|done].
  pose proof (unmarshal_maps_wf _ _ Ep) as Hp. destruct (p !! pos) as [m0|] eqn:Em; [|done].
  pose proof (forallb_lookup _ _ _ _ Hp Em) as Hm0. pose proof (range_defaults_wf m0 Hm0) as Hm1.
  destruct (range_defaults_keys m0 Hm0) as [Hk1 Hk2].
  destruct (rewriteTagMap rctx (range_defaults m0) "fromBlock") as [[m2 bf]|] eqn:E1; [|done].
  destruct (rewriteTagMap_spec _ _ "fromBlock" _ _ Hw Hm1 eq_refl E1) as (Hm2 & He1 & Ho1 & Hh1 & _).
  destruct (rewriteTagMap rctx m2 "toBlock") as [[m3 bt]|] eqn:E2; [|done].
  destruct (rewriteTagMap_spec _ _ "toBlock" _ _ Hw Hm2 eq_refl E2) as (Hm3 & He2 & Ho2 & Hh2 & _).
  assert (Hg : map_get m3 "fromBlock" = map_get m2 "fromBlock") by (by apply Ho2).
  assert (Hf3 : has_key m3 "fromBlock" = has_key m0 "fromBlock" || has_key m0 "toBlock").
  { rewrite <- Hk1, <- Hh1. unfold has_key. by rewrite Hg. }
  assert (Ht3 : has_key m3 "toBlock" = has_key m0 "fromBlock" || has_key m0 "toBlock").
  { rewrite <- Hk2, Hh2. unfold has_key. by rewrite Ho1. }
  assert (He1' : end_ok rctx m3 "fromBlock") by (unfold end_ok in *; by rewrite Hg).
  destruct (check_range rctx _ m3) as [|] eqn:Ec; [done|]. rewrite <- Hf3 in Ec.
  assert (Hok : range_ok rctx m3).
  { split; [done|]. split; [done|]. split; [congruence|]. intros Hh H0. rewrite Hh in Ec.
    by apply check_range_bound. }
  destruct (bf || bt) eqn:Eb.
  - assert (E : req' = set_Params req (json_Marshal (JArr (<[pos := m3]> p)))) by congruence.
    assert (Erw : rw = RewriteOverrideRequest) by congruence. subst.
    exists (<[pos := m3]> p), m3. split.
    { unfold set_Params. cbn [req_Params]. apply unmarshal_maps_marshal. by apply forallb_insert. }
    rewrite list_lookup_insert_eq by (by eapply lookup_lt_Some). naive_solver.
  - apply orb_false_iff in Eb as [-> ->]. destruct (range_unmodified _ _ _ _ Hw Hm0 E1 E2) as [_ ->].
    exists p, m0. assert (req' = req /\ rw = RewriteNone) as [-> ->] by (split; congruence).
    naive_solver.
Qed.

Lemma rewriteRange_idempotent rctx req pos req' : wf_ctx rctx ->
  rewriteRange rctx req pos = Returns (RewriteOverrideRequest, None, req') ->
  rewriteRange rctx req' pos = Returns (RewriteNone, None, req').
Proof.
  intros Hw H. destruct (rewriteRange_ok _ _ _ _ _ Hw H) as (p & m & Ep & Em & Hm & Hok & Hc & _).
  destruct Hok as (H1 & H2 & Hh & _). unfold rewriteRange. rewrite Ep, Em.
  assert (Ed : range_defaults m = m).
  { unfold range_defaults. unfold has_key in Hh.
    destruct (map_get m "fromBlock"), (map_get m "toBlock"); done. }
  rewrite Ed, rewriteTagMap_idem, rewriteTagMap_idem by done. rewrite <- Hh, orb_diag, Hc. done.
Qed.


(** Rewriting is idempotent: a request that has been rewritten passes a second rewrite in the
    same context unchanged. *)
Theorem RewriteTags_idempotent rctx req res req' res' : wf_ctx rctx ->
  RewriteTags rctx req res = Returns (RewriteOverrideRequest, None, req', res') ->
  RewriteTags rctx req' res' = Returns (RewriteNone, None, req', res').
Proof.
  intros Hw H. unfold RewriteTags, RewriteResponse in *.
  destruct (decide (req_Method req = "eth_blockNumber")) as [E|E].
  { by rewrite bool_decide_eq_true_2 in H. }
  rewrite bool_decide_eq_false_2 in H by done.
  destruct (RewriteRequest rctx req) as [[[rw err] r]|] eqn:Er; [|done]. simpl in H.
  assert (rw = RewriteOverrideRequest /\ err = None /\ r = req' /\ res' = res) as (-> & -> & -> & ->)
    by (split_and!; congruence). clear H.
  assert (Em : req_Method req' = req_Method req /\ RewriteRequest rctx req' = Returns (RewriteNone, None, req')).
  { unfold RewriteRequest in *. destruct (decide (req_Method req ∈ range_methods)) as [Hr|Hr].
    - rewrite bool_decide_eq_true_2 in Er by done.
      assert (Em : req_Method req' = req_Method req).
      { unfold rewriteRange in Er. repeat case_match; simplify_eq; done. }
      split; [done|]. rewrite Em, bool_decide_eq_true_2 by done. by eapply rewriteRange_idempotent.
    - rewrite bool_decide_eq_false_2 in Er by done.
      destruct (block_param (req_Method req)) as [[[pos q] mode]|] eqn:Eb; [|done]. injection Er as Er.
      assert (Em : req_Method req' = req_Method req).
      { unfold rewriteParam in Er. repeat case_match; simplify_eq; done. }
      split; [done|]. rewrite Em, bool_decide_eq_false_2, Eb by done.
      by rewrite (rewriteParam_idempotent _ _ _ _ _ _ Hw Er). }
  destruct Em as [Em ->]. by rewrite Em, bool_decide_eq_false_2.
Qed.

End rewriter.

Section frame.
Context {HX : HexUtil} {BX : BlockRPC}.

(** A rewrite changes nothing but the parameters of the request, and those only when it says
    so; the response changes only for [eth_blockNumber], where it becomes the latest consensus
    block and the request is not forwarded.  An error comes with [RewriteOverrideError] and
    only then. *)
Theorem RewriteTags_frame rctx req res rw err req' res' :
  RewriteTags rctx req res = Returns (rw, err, req', res') ->
  req_Method req' = req_Method req /\ req_ID req' = req_ID req /\ req_JSONRPC req' = req_JSONRPC req /\
  (rw <> RewriteOverrideRequest -> req' = req) /\
  (rw = RewriteOverrideError <-> err <> None) /\
  (rw = RewriteOverrideResponse <-> req_Method req = "eth_blockNumber") /\
  res_ID res' = res_ID res /\ res_Error res' = res_Error res /\
  res_Result res' = (if bool_decide (req_Method req = "eth_blockNumber")
                     then Some (GHexUint64 (rc_latest rctx)) else res_Result res).
Proof.
  intros H. unfold RewriteTags, RewriteResponse in H.
  destruct (decide (req_Method req = "eth_blockNumber")) as [E|E].
  { rewrite bool_decide_eq_true_2 in H |- * by done. injection H as <- <- <- <-. naive_solver. }
  rewrite bool_decide_eq_false_2 in H |- * by done.
  assert (Hf : forall r, RewriteRequest rctx req = Returns r -> let '(rw, err, req') := r in
    req_Method req' = req_Method req /\ req_ID req' = req_ID req /\ req_JSONRPC req' = req_JSONRPC req /\
    (rw <> RewriteOverrideRequest -> req' = req) /\ (rw = RewriteOverrideError <-> err <> None) /\
    rw <> RewriteOverrideResponse).
  { intros r Hr. unfold RewriteRequest in Hr. case_bool_decide.
    - unfold rewriteRange in Hr. repeat case_match; simplify_eq; cbn; naive_solver.
    - destruct (block_param (req_Method req)) as [[[pos q] mode]|]; [|injection Hr as <-; naive_solver].
      injection Hr as <-. unfold rewriteParam. repeat case_match; simplify_eq; cbn; naive_solver. }
  destruct (RewriteRequest rctx req) as [[[rw0 err0] r]|]; [|done]. specialize (Hf _ eq_refl). simpl in Hf, H.
  injection H as -> -> -> ->. naive_solver.
Qed.

(** The rewriter panics exactly on an [eth_getLogs] or [eth_newFilter] request whose
    parameters decode to an empty list, which includes null. *)
Theorem RewriteTags_panics rctx req res :
  (exists msg, RewriteTags rctx req res = Panics msg) <->
  req_Method req ∈ range_methods /\ unmarshal_maps (req_Params req) = Some [].
Proof.
  unfold RewriteTags, RewriteResponse, RewriteRequest.
  destruct (decide (req_Method req = "eth_blockNumber")) as [E|E].
  { rewrite bool_decide_eq_true_2 by done. split; [by intros [? ?]|]. rewrite E. intros [Hr _].
    by apply (bool_decide_pack _) in Hr. }
  rewrite bool_decide_eq_false_2 by done. destruct (decide (req_Method req ∈ range_methods)) as [Hr|Hr].
  - rewrite bool_decide_eq_true_2 by done. unfold rewriteRange.
    destruct (unmarshal_maps (req_Params req)) as [[|m p]|]; simpl.
    + split; [done|]. intros _. by eexists.
    + split; [|by intros [_ ?]]. intros [msg H]. exfalso.
      repeat case_match; simplify_eq/=; done.
    + split; [by intros [? ?]|by intros [_ ?]].
  - rewrite bool_decide_eq_false_2 by done. destruct (block_param (req_Method req)) as [[[pos q] mode]|];
      (split; [by intros [? ?]|by intros [? _]]).
Qed.

End frame.

(** ** Samples *)

Definition sample_ctx : RewriteContext := mkRewriteContext 100 90 80 30.

Definition sample_call : RPCReq :=
  mkRPCReq "2.0" "eth_getBlockByNumber" (jtext "['safe', true]") "1".

Definition sample_logs : RPCReq :=
  mkRPCReq "2.0" "eth_getLogs" (jtext "[{'fromBlock':'0x50'}]") "1".

Definition sample_logs' : RPCReq :=
  mkRPCReq "2.0" "eth_getLogs" (jtext "[{'fromBlock':'0x50','toBlock':'0x64'}]") "1".

Definition no_response : RPCRes := mkRPCRes "" None None "".

Lemma sample_ctx_wf : wf_ctx sample_ctx.
Proof. unfold wf_ctx. simpl. lia. Qed.


(** A null block is left to the backend. *)
Example null_block_passes (req := mkRPCReq "2.0" "eth_call" (jtext "[{'to':'0x1'},null]") "1") :
  RewriteRequest sample_ctx req = Returns (RewriteNone, None, req) /\ unnamed JNull.
Proof. split; [vm_compute; reflexivity|]. eexists. vm_compute. by split_and!. Qed.

Lemma RewriteTags_idempotent_witness :
  RewriteTags sample_ctx sample_logs no_response =
    Returns (RewriteOverrideRequest, None, sample_logs', no_response) /\
  RewriteTags sample_ctx sample_logs' no_response = Returns (RewriteNone, None, sample_logs', no_response).
Proof.
  assert (E : RewriteTags sample_ctx sample_logs no_response =
    Returns (RewriteOverrideRequest, None, sample_logs', no_response)) by (vm_compute; reflexivity).
  split; [exact E|]. exact (RewriteTags_idempotent _ _ _ _ _ sample_ctx_wf E).
Defined.

Lemma RewriteTags_frame_witness :
  exists req', RewriteTags sample_ctx sample_call no_response =
    Returns (RewriteOverrideRequest, None, req', no_response) /\
  req_Params req' = jtext "['0x5a',true]" /\ req_Method req' = "eth_getBlockByNumber".
Proof.
  assert (E : exists req', RewriteTags sample_ctx sample_call no_response =
    Returns (RewriteOverrideRequest, None, req', no_response) /\ req_Params req' = jtext "['0x5a',true]").
  { eexists. vm_compute. split; reflexivity. }
  destruct E as (req' & E & Hp). exists req'. split; [exact E|]. split; [exact Hp|].
  exact (proj1 (RewriteTags_frame _ _ _ _ _ _ _ E)).
Defined.

Example RewriteTags_panics_sample :
  RewriteTags sample_ctx (mkRPCReq "2.0" "eth_getLogs" "[]" "1") no_response = Panics "index out of range".
Proof. vm_compute. reflexivity. Qed.
