(* ===== verification/Cache.v ===== *)
(** * Response caching (src/cache.go, src/methods.go)

    [Cache] is what the layers promise to each other: [Get] yields a value or a miss (the empty
    string), [Put] stores one.  What every layer guarantees, and what the RPC cache on top relies
    on, is [CacheLaws]: a hit was put under that key before.  Layers may forget (eviction, expiry, a
    write that went to the secondary cache), so nothing stronger holds in general.  The LRU map,
    Redis and snappy are parameters; so is SHA-256. *)

From S2P Require Import Prelude Json JsonFacts Geth Rpc.

(** ** The interface *)

Class Cache (C : Type) : Type := {
  cache_Get : string -> C -> (string + error) * C;
  cache_Put : string -> string -> C -> option error * C;
}.

(** Everything that was ever put. *)
Definition history : Type := list (string * string).

Class CacheLaws (C : Type) `{!Cache C} : Type := {
  cache_holds : C -> history -> Prop;
  cache_Get_holds c h k r c' : cache_holds c h -> cache_Get k c = (r, c') -> cache_holds c' h;
  cache_Get_hit c h k v c' : cache_holds c h -> cache_Get k c = (inl v, c') -> v = "" \/ (k, v) ∈ h;
  cache_Put_holds c h k v e c' : cache_holds c h -> cache_Put k v c = (e, c') -> cache_holds c' ((k, v) :: h);
}.

(** ** The in-memory cache: an LRU map (hashicorp/golang-lru) *)

Definition memoryCacheLimit : Z := 4096.

Class LRU (L : Type) : Type := {
  lru_New : Z -> L;
  lru_Get : string -> L -> option string * L;
  lru_Add : string -> string -> L -> L;
}.

(** A key that was just added is found, with the value added last; other keys keep their value or
    are evicted. *)
Class LRULaws (L : Type) `{!LRU L} : Type := {
  lru_view : L -> gmap string string;
  lru_view_New n : lru_view (lru_New n) = ∅;
  lru_Get_view k l v l' : lru_Get k l = (v, l') -> v = lru_view l !! k /\ lru_view l' = lru_view l;
  lru_Add_eq k v l : lru_view (lru_Add k v l) !! k = Some v;
  lru_Add_ne k k' v v' l : k <> k' -> lru_view (lru_Add k v l) !! k' = Some v' -> lru_view l !! k' = Some v';
}.

Record memory_cache (L : Type) : Type := mkMemoryCache { lru : L }.
Arguments mkMemoryCache {L}.
Arguments lru {L}.

Definition newMemoryCache `{!LRU L} : memory_cache L := mkMemoryCache (lru_New memoryCacheLimit).

Definition memory_Get `{!LRU L} (key : string) (c : memory_cache L) : (string + error) * memory_cache L :=
  match lru_Get key (lru c) with
  | (Some val, l) => (inl val, mkMemoryCache l)
  | (None, l) => (inl "", mkMemoryCache l)
  end.

Definition memory_Put `{!LRU L} (key value : string) (c : memory_cache L) : option error * memory_cache L :=
  (None, mkMemoryCache (lru_Add key value (lru c))).

#[global] Instance memory_Cache `{!LRU L} : Cache (memory_cache L) := {
  cache_Get := memory_Get;
  cache_Put := memory_Put;
}.

(** ** The fallback cache *)

Definition fallback_Get `{!Cache C1, !Cache C2} (key : string) (c : C1 * C2) : (string + error) * (C1 * C2) :=
  match cache_Get key (fst c) with
  | (inr _, c1) => let '(r, c2) := cache_Get key (snd c) in (r, (c1, c2))
  | (inl val, c1) => (inl val, (c1, snd c))
  end.

Definition fallback_Put `{!Cache C1, !Cache C2} (key value : string) (c : C1 * C2) : option error * (C1 * C2) :=
  match cache_Put key value (fst c) with
  | (Some _, c1) => let '(e, c2) := cache_Put key value (snd c) in (e, (c1, c2))
  | (None, c1) => (None, (c1, snd c))
  end.

#[global] Instance fallback_Cache `{!Cache C1, !Cache C2} : Cache (C1 * C2) := {
  cache_Get := fallback_Get;
  cache_Put := fallback_Put;
}.

(** ** The Redis cache *)

(** What clients [Cl] do to the Redis servers [St], a primary and its replicas: [Get] answers a value,
    redis.Nil ([None]) or an error. *)
Class RedisKV (Cl St : Type) : Type := {
  kv_Get : Cl -> string -> St -> (option string + error) * St;
  kv_SetEx : Cl -> string -> string -> Z -> St -> option error * St;
}.

(** A value read, through whichever client, was written under that key; a failed write may have happened
    or not. *)
Class RedisKVLaws (Cl St : Type) `{!RedisKV Cl St} : Type := {
  kv_holds : St -> history -> Prop;
  kv_Get_holds cl s h k r s' : kv_holds s h -> kv_Get cl k s = (r, s') -> kv_holds s' h;
  kv_Get_hit cl s h k v s' : kv_holds s h -> kv_Get cl k s = (inl (Some v), s') -> (k, v) ∈ h;
  kv_SetEx_holds cl s h k v ttl e s' :
    kv_holds s h -> kv_SetEx cl k v ttl s = (e, s') -> kv_holds s' ((k, v) :: h);
}.

(** The cache, with the servers its clients talk to. *)
Record redisCache (Cl St : Type) : Type := mkRedisCache {
  redisClient : Cl;
  redisReadClient : Cl;
  rc_store : St;
  rc_prefix : string;
  rc_ttl : Z;
}.
Arguments mkRedisCache {Cl St}.
Arguments redisClient {Cl St}.
Arguments redisReadClient {Cl St}.
Arguments rc_store {Cl St}.
Arguments rc_prefix {Cl St}.
Arguments rc_ttl {Cl St}.

Definition newRedisCache {Cl St} (client read : Cl) (s : St) (prefix : string) (ttl : Z) : redisCache Cl St :=
  mkRedisCache client read s prefix ttl.

Definition set_store {Cl St} (s : St) (c : redisCache Cl St) : redisCache Cl St :=
  mkRedisCache (redisClient c) (redisReadClient c) s (rc_prefix c) (rc_ttl c).

Definition namespaced (prefix key : string) : string :=
  if bool_decide (prefix = "") then key else str_Join [prefix; key] ":".

Definition redis_Get `{!RedisKV Cl St} (key : string) (c : redisCache Cl St) : (string + error) * redisCache Cl St :=
  match kv_Get (redisReadClient c) (namespaced (rc_prefix c) key) (rc_store c) with
  | (inl None, s) => (inl "", set_store s c)
  | (inr err, s) => (inr err, set_store s c)
  | (inl (Some val), s) => (inl val, set_store s c)
  end.

Definition redis_Put `{!RedisKV Cl St} (key value : string) (c : redisCache Cl St) : option error * redisCache Cl St :=
  let '(err, s) := kv_SetEx (redisClient c) (namespaced (rc_prefix c) key) value (rc_ttl c) (rc_store c) in
  (err, set_store s c).

#[global] Instance redis_Cache `{!RedisKV Cl St} : Cache (redisCache Cl St) := {
  cache_Get := redis_Get;
  cache_Put := redis_Put;
}.

(** ** Compression *)

Class Snappy : Type := {
  snappy_Encode : string -> string;
  snappy_Decode : string -> option string;
}.

Class SnappyLaws `{!Snappy} : Prop := {
  snappy_roundtrip s : snappy_Decode (snappy_Encode s) = Some s;
  (** an encoding starts with the length of the decoded text *)
  snappy_nonempty s : snappy_Encode s <> "";
}.

Record cacheWithCompression (C : Type) : Type := mkCompressed { inner : C }.
Arguments mkCompressed {C}.
Arguments inner {C}.

Definition errCorrupt : error := ENew "snappy: corrupt input".

Definition compressed_Get `{!Snappy, !Cache C} (key : string) (c : cacheWithCompression C)
    : (string + error) * cacheWithCompression C :=
  match cache_Get key (inner c) with
  | (inr err, c') => (inr err, mkCompressed c')
  | (inl encodedVal, c') =>
      if bool_decide (encodedVal = "") then (inl "", mkCompressed c')
      else match snappy_Decode encodedVal with
           | Some val => (inl val, mkCompressed c')
           | None => (inr errCorrupt, mkCompressed c')
           end
  end.

Definition compressed_Put `{!Snappy, !Cache C} (key value : string) (c : cacheWithCompression C)
    : option error * cacheWithCompression C :=
  let '(e, c') := cache_Put key (snappy_Encode value) (inner c) in (e, mkCompressed c').

#[global] Instance compressed_Cache `{!Snappy, !Cache C} : Cache (cacheWithCompression C) := {
  cache_Get := compressed_Get;
  cache_Put := compressed_Put;
}.

(** ** Cache keys *)

(** Request headers: canonical names with their values. *)
Definition header : Type := gmap string (list string).

Definition str_le (a b : string) : Prop := String.leb a b = true.

#[global] Instance str_le_dec a b : Decision (str_le a b) := decide (String.leb a b = true).

(** [slices.Sort] on strings. *)
Definition sort_strings (l : list string) : list string := merge_sort str_le l.

(** The bytes hashed for the headers: sorted names, each followed by its sorted values. *)
Definition header_checksum (headersToForward : header) : string :=
  str_Join (map (fun h => h +:+ str_Join (sort_strings (default [] (headersToForward !! h))) "")
                (sort_strings ((map_to_list headersToForward).*1))) "".

Class SHA256 : Type := sha256_hex : string -> string.

(** [h.Write] twice is one write of the concatenation. *)
Definition cache_key `{!SHA256} (req : RPCReq) (headersToForward : header) : string :=
  let checksum := if bool_decide (headersToForward = ∅) then "" else header_checksum headersToForward in
  str_Join ["cache"; req_Method req; sha256_hex (req_Params req +:+ checksum)] ":".

(** ** Method handlers *)

Inductive RPCMethodHandler : Type := staticHandler | debugGetRawReceiptsHandler.

Definition handlers (method : string) : option RPCMethodHandler :=
  if bool_decide (method ∈ ["eth_chainId"; "net_version"; "eth_getBlockTransactionCountByHash";
       "eth_getUncleCountByBlockHash"; "eth_getBlockByHash"; "eth_getTransactionByBlockHashAndIndex";
       "eth_getUncleByBlockHashAndIndex"])
  then Some staticHandler
  else if bool_decide (method = "debug_getRawReceipts") then Some debugGetRawReceiptsHandler
  else None.

Section rpc_cache.
Context {HX : HexUtil} {BX : BlockRPC} {SX : SHA256} {C : Type} {CX : Cache C}.

(** Raw receipts are cached only by block hash ... *)
Definition filterGet (h : RPCMethodHandler) (req : RPCReq) : bool :=
  match h with
  | staticHandler => true
  | debugGetRawReceiptsHandler =>
      match unmarshal_bnhs (req_Params req) with
      | Some [b] => match bnh_BlockHash b with Some _ => true | None => false end
      | _ => false
      end
  end.

(** ... and only when there are some. *)
Definition filterPut (h : RPCMethodHandler) (res : RPCRes) : bool :=
  match h with
  | staticHandler => true
  | debugGetRawReceiptsHandler =>
      match res_Result res with Some (GJson (JArr (_ :: _))) => true | _ => false end
  end.

Definition GetRPCMethod (h : RPCMethodHandler) (headers : header) (req : RPCReq) (c : C)
    : (option RPCRes + error) * C :=
  if negb (filterGet h req) then (inl None, c)
  else
    match cache_Get (cache_key req headers) c with
    | (inr err, c') => (inr err, c')
    | (inl val, c') =>
        if bool_decide (val = "") then (inl None, c')
        else match decode_result val with
             | None => (inr json_error, c')
             | Some result => (inl (Some (mkRPCRes (req_JSONRPC req) result None (req_ID req))), c')
             end
    end.

(** [mustMarshalJSON] panics when the value cannot be marshalled. *)
Definition mustMarshalJSON (v : option gvalue) : outcome string :=
  match v with
  | None => Returns "null"
  | Some v =>
      match marshal_gvalue v with
      | Some t => Returns t
      | None => Panics "json: error calling MarshalJSON"
      end
  end.

Definition PutRPCMethod (h : RPCMethodHandler) (headers : header) (req : RPCReq) (res : RPCRes) (c : C)
    : outcome (option error * C) :=
  if negb (filterGet h req) then Returns (None, c)
  else if negb (filterPut h res) then Returns (None, c)
  else let! value := mustMarshalJSON (res_Result res) in
       Returns (cache_Put (cache_key req headers) value c).

Definition GetRPC (headers : header) (req : RPCReq) (c : C) : (option RPCRes + error) * C :=
  match handlers (req_Method req) with
  | None => (inl None, c)
  | Some h => GetRPCMethod h headers req c
  end.

Definition PutRPC (headers : header) (req : RPCReq) (res : RPCRes) (c : C) : outcome (option error * C) :=
  match handlers (req_Method req) with
  | None => Returns (None, c)
  | Some h => PutRPCMethod h headers req res c
  end.

(** ** Runs: a cache used by the proxy *)

Inductive cache_op : Type :=
| OpGet (headers : header) (req : RPCReq)
| OpPut (headers : header) (req : RPCReq) (res : RPCRes).

(** The cache after an operation, and what was put by it. *)
Definition run_op (op : cache_op) (c : C) (puts : list (header * RPCReq * RPCRes))
    : outcome (C * list (header * RPCReq * RPCRes)) :=
  match op with
  | OpGet headers req => Returns (snd (GetRPC headers req c), puts)
  | OpPut headers req res =>
      let! r := PutRPC headers req res c in Returns (snd r, (headers, req, res) :: puts)
  end.

Fixpoint run_ops (ops : list cache_op) (c : C) (puts : list (header * RPCReq * RPCRes))
    : outcome (C * list (header * RPCReq * RPCRes)) :=
  match ops with
  | [] => Returns (c, puts)
  | op :: ops' => let! r := run_op op c puts in run_ops ops' (fst r) (snd r)
  end.

(** The bytes a cache key is computed from, besides the method. *)
Definition key_input (headers : header) (req : RPCReq) : string :=
  req_Params req +:+ (if bool_decide (headers = ∅) then "" else header_checksum headers).

Context {CL : CacheLaws C}.

(** The cache holds a history of entries each of which comes from a [PutRPC]. *)
Definition puts_ok (c : C) (puts : list (header * RPCReq * RPCRes)) : Prop :=
  exists h, cache_holds c h /\ forall k v, (k, v) ∈ h ->
    exists headers req res, (headers, req, res) ∈ puts /\ k = cache_key req headers /\
      mustMarshalJSON (res_Result res) = Returns v.

Lemma run_op_ok op c puts c' puts' :
  puts_ok c puts -> run_op op c puts = Returns (c', puts') -> puts_ok c' puts' /\ (forall p, p ∈ puts -> p ∈ puts').
Proof.
  intros (h & Hh & Hk) H. destruct op as [headers req|headers req res]; unfold run_op in H.
  - injection H as <- <-. split; [|done]. exists h. split; [|done]. unfold GetRPC, GetRPCMethod.
    destruct (handlers (req_Method req)) as [hd|]; [|done]. destruct (negb (filterGet hd req)); [done|].
    destruct (cache_Get (cache_key req headers) c) as [[val|err] c1] eqn:E;
      pose proof (cache_Get_holds _ _ _ _ _ Hh E); [|done].
    case_bool_decide; [done|]. by destruct (decode_result val).
  - unfold PutRPC, PutRPCMethod in H. set (p := (headers, req, res)) in *.
    assert (Hsame : puts_ok c (p :: puts) /\ (forall q, q ∈ puts -> q ∈ p :: puts)).
    { split; [|intros; by right]. exists h. split; [done|]. intros k v Hkv.
      destruct (Hk k v Hkv) as (h1 & r1 & s1 & Hin & ?). exists h1, r1, s1. split; [by right|done]. }
    destruct (handlers (req_Method req)) as [hd|]; [|by injection H as <- <-].
    destruct (negb (filterGet hd req)); [by injection H as <- <-|].
    destruct (negb (filterPut hd res)); [by injection H as <- <-|].
    destruct (mustMarshalJSON (res_Result res)) as [value|] eqn:Em; [|done]. simpl in H.
    destruct (cache_Put (cache_key req headers) value c) as [e c1] eqn:E. injection H as <- <-.
    split; [|intros; by right]. exists ((cache_key req headers, value) :: h).
    split; [by eapply cache_Put_holds|]. intros k v [[= -> ->]|Hkv]%elem_of_cons.
    + exists headers, req, res. split; [by left|done].
    + destruct (Hk k v Hkv) as (h1 & r1 & s1 & Hin & ?). exists h1, r1, s1. split; [by right|done].
Qed.

Lemma run_ops_ok ops : forall c puts c' puts',
  puts_ok c puts -> run_ops ops c puts = Returns (c', puts') -> puts_ok c' puts'.
Proof.
  induction ops as [|op ops IH]; intros c puts c' puts' H Hr; [by injection Hr as <- <-|].
  cbn [run_ops] in Hr. destruct (run_op op c puts) as [[c1 puts1]|] eqn:E; [|done]. simpl in Hr.
  eapply IH; [|exact Hr]. by eapply run_op_ok.
Qed.

(** C9: whatever the proxy did with the cache before, a hit answers the request with a result that was
    put for a request of the same method and the same hashed bytes (parameters and header
    checksum), under the id of the asking request, and never with an error; a decoded result
    comes back as it was put.  SHA-256 is assumed not to collide on the inputs at hand. *)
Theorem cache_hit_sound c0 ops c puts headers req res c' :
  (forall s, no_colon (sha256_hex s) = true) ->
  cache_holds c0 [] -> run_ops ops c0 [] = Returns (c, puts) ->
  (forall h0 r0 s0, (h0, r0, s0) ∈ puts ->
     sha256_hex (key_input h0 r0) = sha256_hex (key_input headers req) -> key_input h0 r0 = key_input headers req) ->
  GetRPC headers req c = (inl (Some res), c') ->
  res_ID res = req_ID req /\ res_Error res = None /\
  exists h0 r0 s0, (h0, r0, s0) ∈ puts /\ req_Method r0 = req_Method req /\
    key_input h0 r0 = key_input headers req /\
    (wf_result (res_Result s0) = true -> res_Result res = res_Result s0).
Proof.
  intros Hcol Hc0 Hrun Hsha Hget.
  assert (Hok : puts_ok c puts).
  { eapply run_ops_ok; [|exact Hrun]. exists []. split; [done|]. intros k v Hkv. by apply elem_of_nil in Hkv. }
  destruct Hok as (h & Hh & Hk). unfold GetRPC, GetRPCMethod in Hget.
  destruct (handlers (req_Method req)) as [hd|]; [|done]. destruct (negb (filterGet hd req)); [done|].
  destruct (cache_Get (cache_key req headers) c) as [[val|err] c1] eqn:E; [|done].
  case_bool_decide as Hne; [done|]. destruct (decode_result val) as [result|] eqn:Ed; [|done].
  injection Hget as <- <-. split; [done|]. split; [done|].
  destruct (cache_Get_hit _ _ _ _ _ Hh E) as [?|Hin]; [done|].
  destruct (Hk _ _ Hin) as (h0 & r0 & s0 & Hput & Hkey & Hval). exists h0, r0, s0. split; [done|].
  unfold cache_key in Hkey. cbn [str_Join] in Hkey. do 2 apply str_app_inv_head in Hkey.
  apply colon_split in Hkey as [Hm Hs]; [|apply Hcol..]. split; [done|].
  split; [by apply (Hsha _ _ _ Hput)|]. intros Hw.
  destruct (res_Result s0) as [v|] eqn:Ev; simpl in Hval.
  - destruct (wf_result_roundtrip v Hw) as (t & Ht & _ & Hd). rewrite Ht in Hval. injection Hval as <-.
    rewrite Hd in Ed. by injection Ed as <-.
  - injection Hval as <-. vm_compute in Ed. by injection Ed as <-.
Qed.

End rpc_cache.

(** ** The layers keep the promise *)

Section layers.
Context {L : Type} {LX : LRU L} {LL : LRULaws L}.

#[global] Instance memory_laws : CacheLaws (memory_cache L).
Proof.
  refine {|
  cache_holds c h := forall k v, lru_view (lru c) !! k = Some v -> (k, v) ∈ h;
  |}.
  - intros c h k r c' Hc H. simpl in H. unfold memory_Get in H.
    destruct (lru_Get k (lru c)) as [[v|] l] eqn:E; apply lru_Get_view in E as [_ E];
      injection H as <- <-; simpl; by rewrite E.
  - intros c h k v c' Hc H. simpl in H. unfold memory_Get in H.
    destruct (lru_Get k (lru c)) as [[w|] l] eqn:E; apply lru_Get_view in E as [E _]; injection H as <- <-;
      [right; by apply Hc|by left].
  - intros c h k v e c' Hc H k1 v1 H1. simpl in H. injection H as <- <-. simpl in H1.
    destruct (decide (k = k1)) as [->|N].
    + rewrite lru_Add_eq in H1. injection H1 as <-. by left.
    + right. apply Hc. by eapply lru_Add_ne.
Defined.

Context {C1 C2 : Type} {CX1 : Cache C1} {CX2 : Cache C2} {CL1 : CacheLaws C1} {CL2 : CacheLaws C2}.

(** Both caches hold parts of what was put. *)
#[global] Instance fallback_laws : CacheLaws (C1 * C2).
Proof.
  refine {|
  cache_holds c h := exists h1 h2, cache_holds (fst c) h1 /\ cache_holds (snd c) h2 /\
    forall x, x ∈ h1 \/ x ∈ h2 -> x ∈ h;
  |}.
  - intros c h k r c' (h1 & h2 & H1 & H2 & Hs) H. simpl in H. unfold fallback_Get in H.
    destruct (cache_Get k (fst c)) as [[v|e] c1] eqn:E1; pose proof (cache_Get_holds _ _ _ _ _ H1 E1).
    + injection H as <- <-. exists h1, h2. done.
    + destruct (cache_Get k (snd c)) as [r2 c2] eqn:E2. injection H as <- <-.
      exists h1, h2. split_and!; [done| |done]. by eapply cache_Get_holds.
  - intros c h k v c' (h1 & h2 & H1 & H2 & Hs) H. simpl in H. unfold fallback_Get in H.
    destruct (cache_Get k (fst c)) as [[w|e] c1] eqn:E1.
    + injection H as <- <-. destruct (cache_Get_hit _ _ _ _ _ H1 E1); [by left|right; auto].
    + destruct (cache_Get k (snd c)) as [r2 c2] eqn:E2. injection H as -> <-.
      destruct (cache_Get_hit _ _ _ _ _ H2 E2); [by left|right; auto].
  - intros c h k v e c' (h1 & h2 & H1 & H2 & Hs) H. simpl in H. unfold fallback_Put in H.
    destruct (cache_Put k v (fst c)) as [[e1|] c1] eqn:E1; pose proof (cache_Put_holds _ _ _ _ _ _ H1 E1).
    + destruct (cache_Put k v (snd c)) as [e2 c2] eqn:E2. injection H as <- <-.
      exists ((k, v) :: h1), ((k, v) :: h2). split_and!; [done|by eapply cache_Put_holds|]. set_solver.
    + injection H as <- <-. exists ((k, v) :: h1), h2. split_and!; [done|done|]. set_solver.
Defined.

Context {SN : Snappy} {SNL : SnappyLaws}.

#[global] Instance compressed_laws : CacheLaws (cacheWithCompression C1).
Proof.
  refine {|
  cache_holds c h := exists h1, cache_holds (inner c) h1 /\
    forall k v, (k, v) ∈ h1 -> exists w, v = snappy_Encode w /\ (k, w) ∈ h;
  |}.
  - intros c h k r c' (h1 & H1 & Hs) H. simpl in H. unfold compressed_Get in H.
    destruct (cache_Get k (inner c)) as [[v|e] c1] eqn:E1; pose proof (cache_Get_holds _ _ _ _ _ H1 E1).
    + case_bool_decide; [injection H as <- <-; by exists h1|].
      destruct (snappy_Decode v); injection H as <- <-; by exists h1.
    + injection H as <- <-. by exists h1.
  - intros c h k v c' (h1 & H1 & Hs) H. simpl in H. unfold compressed_Get in H.
    destruct (cache_Get k (inner c)) as [[w|e] c1] eqn:E1; [|done].
    case_bool_decide; [injection H as <- <-; by left|].
    destruct (cache_Get_hit _ _ _ _ _ H1 E1) as [?|Hin]; [done|]. destruct (Hs _ _ Hin) as (u & -> & Hu).
    rewrite snappy_roundtrip in H. injection H as <- <-. by right.
  - intros c h k v e c' (h1 & H1 & Hs) H. simpl in H. unfold compressed_Put in H.
    destruct (cache_Put k (snappy_Encode v) (inner c)) as [e1 c1] eqn:E1. injection H as <- <-.
    exists ((k, snappy_Encode v) :: h1). split; [by eapply cache_Put_holds|].
    intros k' v' [[= -> ->]|Hin]%elem_of_cons; [exists v; split; [done|by left]|].
    destruct (Hs _ _ Hin) as (w & -> & Hw). exists w. split; [done|by right].
Defined.

End layers.

Section redis_layer.
Context {Cl St : Type} {KX : RedisKV Cl St} {KL : RedisKVLaws Cl St}.

Lemma namespaced_inj p k1 k2 : namespaced p k1 = namespaced p k2 -> k1 = k2.
Proof.
  unfold namespaced. case_bool_decide; [done|]. cbn [str_Join]. intros E. by do 2 apply str_app_inv_head in E.
Qed.

#[global] Instance redis_laws : CacheLaws (redisCache Cl St).
Proof.
  refine {|
  cache_holds c h := exists h1, kv_holds (rc_store c) h1 /\
    forall k v, (k, v) ∈ h1 -> exists k0, k = namespaced (rc_prefix c) k0 /\ (k0, v) ∈ h;
  |}.
  - intros c h k r c' (h1 & H1 & Hs) H. simpl in H. unfold redis_Get in H.
    destruct (kv_Get _ _ (rc_store c)) as [[[v|]|e] s] eqn:E1; pose proof (kv_Get_holds _ _ _ _ _ _ H1 E1);
      injection H as <- <-; by exists h1.
  - intros c h k v c' (h1 & H1 & Hs) H. simpl in H. unfold redis_Get in H.
    destruct (kv_Get _ _ (rc_store c)) as [[[w|]|e] s] eqn:E1; [| |done]; injection H as <- <-; [|by left].
    right. destruct (Hs _ _ (kv_Get_hit _ _ _ _ _ _ H1 E1)) as (k0 & E & Hin).
    by apply namespaced_inj in E as ->.
  - intros c h k v e c' (h1 & H1 & Hs) H. simpl in H. unfold redis_Put in H.
    destruct (kv_SetEx _ _ v (rc_ttl c) (rc_store c)) as [e1 s] eqn:E1. injection H as <- <-. simpl.
    eexists. split; [by eapply kv_SetEx_holds|].
    intros k' v' [[= -> ->]|Hin]%elem_of_cons; [exists k; split; [done|by left]|].
    destruct (Hs _ _ Hin) as (k0 & -> & Hk0). exists k0. split; [done|by right].
Defined.

End redis_layer.

(** ** Hits *)

Section hits.
Context {HX : HexUtil} {BX : BlockRPC} {SX : SHA256} {SN : Snappy} {SNL : SnappyLaws}.
Context {L : Type} {LX : LRU L} {LL : LRULaws L}.

(** With the compressed in-memory cache, a decoded result that passes the filters is found again
    by the same request, under the id of the asking request: the round trip through JSON and
    snappy gives back the result that was put. *)
Theorem memory_put_get h headers req req' res (c : cacheWithCompression (memory_cache L)) :
  handlers (req_Method req) = Some h -> filterGet h req = true -> filterPut h res = true ->
  wf_result (res_Result res) = true -> res_Result res <> None ->
  req_Method req' = req_Method req -> req_Params req' = req_Params req ->
  exists c', PutRPC headers req res c = Returns (None, c') /\
    fst (GetRPC headers req' c') = inl (Some (mkRPCRes (req_JSONRPC req') (res_Result res) None (req_ID req'))).
Proof.
  intros Hh Hg Hp Hw Hne Em Ep.
  destruct (res_Result res) as [v|] eqn:Ev; [|done].
  destruct (wf_result_roundtrip v Hw) as (t & Ht & Hraw & Hd). apply raw_ok_ne in Hraw.
  assert (Ek : cache_key req' headers = cache_key req headers) by (unfold cache_key; by rewrite Em, Ep).
  assert (Eg : filterGet h req' = true) by (unfold filterGet in *; by rewrite Ep).
  unfold PutRPC, PutRPCMethod, mustMarshalJSON. rewrite Hh, Hg, Hp, Ev, Ht. cbn.
  eexists. split; [reflexivity|]. unfold GetRPC, GetRPCMethod. rewrite Em, Hh, Eg, Ek. cbn [negb].
  unfold compressed_Get, cache_Get, compressed_Cache, compressed_Get, memory_Cache, memory_Get.
  cbn [cache_Get inner lru].
  destruct (lru_Get _ _) as [w l] eqn:El. apply lru_Get_view in El as [-> _]. rewrite lru_Add_eq.
  rewrite bool_decide_eq_false_2 by apply snappy_nonempty.
  rewrite snappy_roundtrip. cbv beta iota. rewrite bool_decide_eq_false_2 by done. by rewrite Hd.
Qed.

End hits.

(** The bytes hashed for the forwarded headers do not separate names and values, so two requests
    whose headers differ can share a cache entry: here the two values 1 and 2 of one header and
    its single value 12. *)
Theorem cache_key_header_collision `{!SHA256} :
  let h1 : header := {[ "X-Tenant" := ["1"; "2"] ]} in
  let h2 : header := {[ "X-Tenant" := ["12"] ]} in
  h1 <> h2 /\ forall req, cache_key req h1 = cache_key req h2.
Proof.
  intros h1 h2. split.
  - intros E. apply (f_equal (fun h : header => h !! "X-Tenant")) in E. unfold h1, h2 in E.
    vm_compute in E. discriminate E.
  - intros req. unfold cache_key. rewrite !bool_decide_eq_false_2 by done.
    by replace (header_checksum h1) with (header_checksum h2) by (vm_compute; reflexivity).
Qed.

(** ** Samples *)

Module samples.

(** Texts in hexadecimal stand for digests, and for compressed texts. *)
Fixpoint hex_of (s : string) : string :=
  match s with
  | EmptyString => EmptyString
  | String c s' => String (hex_digit (code c / 16)) (String (hex_digit (code c mod 16)) (hex_of s'))
  end.

#[global] Instance hex_sha : SHA256 := hex_of.

#[global] Instance plain_snappy : Snappy := {|
  snappy_Encode s := String (chr 120) s;
  snappy_Decode s := match s with String _ t => Some t | EmptyString => None end;
|}.

#[global] Instance plain_snappy_laws : SnappyLaws.
Proof. constructor; done. Qed.

(** An LRU map whose limit is never reached. *)
#[global] Instance gmap_lru : LRU (gmap string string) := {|
  lru_New _ := ∅;
  lru_Get k l := (l !! k, l);
  lru_Add k v l := <[k := v]> l;
|}.

#[global] Instance gmap_lru_laws : LRULaws (gmap string string).
Proof.
  refine {| lru_view l := l |}.
  - done.
  - by intros k l v l' [= <- <-].
  - intros k v l. apply lookup_insert_eq.
  - intros k k' v v' l N H. change (<[k := v]> l !! k' = Some v') in H. by rewrite lookup_insert_ne in H.
Defined.

Lemma hex_of_no_colon s : no_colon (hex_of s) = true.
Proof.
  induction s as [|c s IH]; [done|]. simpl. rewrite IH.
  by destruct c as [[] [] [] [] [] [] [] []].
Qed.

Definition empty_cache : cacheWithCompression (memory_cache (gmap string string)) := mkCompressed newMemoryCache.

Definition block_req : RPCReq := mkRPCReq "2.0" "eth_getBlockByHash" (jtext "['0xab',false]") "7".
Definition block_res : RPCRes := mkRPCRes "2.0" (Some (GJson (JObj [("number", JStr "0x1")]))) None "7".

Lemma memory_put_get_witness : exists c',
  PutRPC ∅ block_req block_res empty_cache = Returns (None, c') /\
  fst (GetRPC ∅ (mkRPCReq "2.0" "eth_getBlockByHash" (jtext "['0xab',false]") "8") c')
  = inl (Some (mkRPCRes "2.0" (Some (GJson (JObj [("number", JStr "0x1")]))) None "8")).
Proof.
  apply (memory_put_get staticHandler ∅ block_req
    (mkRPCReq "2.0" "eth_getBlockByHash" (jtext "['0xab',false]") "8") block_res empty_cache);
    try (vm_compute; reflexivity). discriminate.
Defined.

Lemma cache_hit_sound_witness : exists c puts res c',
  run_ops [OpPut ∅ block_req block_res] empty_cache [] = Returns (c, puts) /\
  GetRPC ∅ block_req c = (inl (Some res), c') /\
  res_ID res = "7" /\ res_Error res = None.
Proof.
  assert (H : exists c puts res c', run_ops [OpPut ∅ block_req block_res] empty_cache [] = Returns (c, puts) /\
    GetRPC ∅ block_req c = (inl (Some res), c') /\ puts = [(∅, block_req, block_res)]).
  { do 4 eexists. split; [reflexivity|]. split; [vm_compute; reflexivity|reflexivity]. }
  destruct H as (c & puts & res & c' & Hr & Hg & Hp). exists c, puts, res, c'.
  split; [exact Hr|]. split; [exact Hg|].
  assert (H0 : cache_holds empty_cache []).
  { hnf. exists []. split; [|intros k v E; by apply elem_of_nil in E].
    hnf. intros k v E. vm_compute in E. discriminate E. }
  assert (Hsha : forall h0 r0 s0, (h0, r0, s0) ∈ puts ->
    sha256_hex (key_input h0 r0) = sha256_hex (key_input ∅ block_req) -> key_input h0 r0 = key_input ∅ block_req).
  { intros h0 r0 s0 Hin _. rewrite Hp in Hin. apply list_elem_of_singleton in Hin.
    injection Hin as -> -> ->. reflexivity. }
  destruct (cache_hit_sound empty_cache _ _ _ _ _ _ _ hex_of_no_colon H0 Hr Hsha Hg) as (H1 & H2 & _).
  split; [exact H1|exact H2].
Defined.

End samples.
