(* ===== verification/Http.v ===== *)
(** * Requests, headers and request contexts

    What the proxy uses of [net/http] headers and basic authentication, the values it stores in a
    request's context and their getters (src/server.go), and [stripXFF] (src/backend.go). *)

From S2P Require Import Prelude Json JsonFacts Rpc.

(** ** Headers: canonical names with their values *)

Definition is_upper (c : Ascii.ascii) : bool := in_range 65 90 c.
Definition is_lower (c : Ascii.ascii) : bool := in_range 97 122 c.

(** The characters of a header name. *)
Definition is_token (c : Ascii.ascii) : bool :=
  is_upper c || is_lower c || is_digit c
  || bool_decide (code c ∈ [33; 35; 36; 37; 38; 39; 42; 43; 45; 46; 94; 95; 96; 124; 126]).

Fixpoint all_token (s : string) : bool :=
  match s with EmptyString => true | String c s' => is_token c && all_token s' end.

Fixpoint canonical_go (upper : bool) (s : string) : string :=
  match s with
  | EmptyString => EmptyString
  | String c s' =>
      let c' := if upper && is_lower c then chr (code c - 32)
                else if negb upper && is_upper c then chr (code c + 32) else c in
      String c' (canonical_go (code c =? 45) s')
  end.

(** [textproto.CanonicalMIMEHeaderKey]. *)
Definition canonical (name : string) : string := if all_token name then canonical_go true name else name.

Definition http_header : Type := gmap string (list string).

Definition header_Set (h : http_header) (name value : string) : http_header :=
  <[canonical name := [value]]> h.

Definition header_Add (h : http_header) (name value : string) : http_header :=
  <[canonical name := default [] (h !! canonical name) ++ [value]]> h.

Definition header_Values (h : http_header) (name : string) : list string :=
  default [] (h !! canonical name).

(** [Header.Get]: the first value, or the empty string. *)
Definition header_Get (h : http_header) (name : string) : string :=
  match header_Values h name with v :: _ => v | [] => "" end.

(** ** Basic authentication *)

Definition base64_char (z : Z) : Ascii.ascii :=
  if z <? 26 then chr (65 + z)
  else if z <? 52 then chr (71 + z)
  else if z <? 62 then chr (z - 4)
  else if z =? 62 then chr 43 else chr 47.

Fixpoint base64 (s : string) : string :=
  match s with
  | EmptyString => EmptyString
  | String a EmptyString =>
      String (base64_char (code a / 4)) (String (base64_char (code a mod 4 * 16)) "==")
  | String a (String b EmptyString) =>
      String (base64_char (code a / 4)) (String (base64_char (code a mod 4 * 16 + code b / 16))
        (String (base64_char (code b mod 16 * 4)) "="))
  | String a (String b (String c s')) =>
      String (base64_char (code a / 4)) (String (base64_char (code a mod 4 * 16 + code b / 16))
        (String (base64_char (code b mod 16 * 4 + code c / 64)) (String (base64_char (code c mod 64))
          (base64 s'))))
  end.

Definition SetBasicAuth (h : http_header) (username password : string) : http_header :=
  header_Set h "Authorization" ("Basic " +:+ base64 (username +:+ ":" +:+ password)).

(** ** Contexts *)

(** The values the server stores in the context of a request; [None] where nothing is stored. *)
Record Context : Type := mkContext {
  ctx_Auth : option string;
  ctx_ReqID : option string;
  ctx_XForwardedFor : option string;
  ctx_OpTxProxyAuth : option string;
  ctx_HeadersToForward : option (gmap string (list string));
  ctx_Path : option string;
  ctx_RawQuery : option string;
}.

Definition background : Context := mkContext None None None None None None None.

Definition GetAuthCtx (ctx : Context) : string := default "none" (ctx_Auth ctx).
Definition GetOpTxProxyAuthHeader (ctx : Context) : string := default "" (ctx_OpTxProxyAuth ctx).
Definition GetReqID (ctx : Context) : string := default "" (ctx_ReqID ctx).
Definition GetXForwardedFor (ctx : Context) : string := default "" (ctx_XForwardedFor ctx).
Definition GetHeadersToForward (ctx : Context) : gmap string (list string) :=
  default ∅ (ctx_HeadersToForward ctx).

Definition DefaultOpTxProxyAuthHeader : string := "X-Optimism-Signature".

(** [ipList[0]] is always defined: splitting yields at least one field. *)
Definition stripXFF (xff : string) : string :=
  match str_Split xff (chr 44) with f :: _ => str_TrimSpace f | [] => "" end.
