(* ===== verification/Backend.v ===== *)
(** * Backends (src/backend.go: [Backend], its options, health, [doForward], [Forward], [ForwardRPC])

    A backend keeps three moving windows behind the interface [MovingWindow], which the sliding
    window implements.  The network is the environment: an [exchange] is what one call sees of it
    (clock readings, the semaphore, the HTTP response), and every function is total over all
    exchanges.  Requests are passed by pointer and mutated, so they are returned. *)

From S2P Require Import Prelude Json JsonFacts Geth Rpc Util Http SlidingWindow.

(** ** The interface to the moving windows; the clock reading is an argument *)

Class MovingWindow (W : Type) : Type := {
  mw_New : W;
  mw_Add : Z -> Q -> W -> W;
  mw_Sum : Z -> W -> W * Q;
  mw_Avg : Z -> W -> W * Q;
  mw_Clear : W -> W;
}.

Definition mw_Incr `{!MovingWindow W} (now : Z) (w : W) : W := mw_Add now 1%Q w.

(** [sort.Slice] by a key: the order among equal keys is not specified. *)
Class SortSlice : Type := sort_Slice : forall {A : Type}, (A -> nat) -> list A -> list A.

Class SortSliceLaws `{!SortSlice} : Prop := {
  sort_Slice_perm {A} (key : A -> nat) l : sort_Slice key l ≡ₚ l;
  sort_Slice_sorted {A} (key : A -> nat) l : Sorted le (map key (sort_Slice key l));
}.

(** ** State *)

(** The pool of root certificates and the client's own. *)
Record tls_config : Type := mkTLSConfig { tls_RootCAs : string; tls_Certificates : list string }.

Record Backend (W : Type) : Type := mkBackend {
  b_Name : string;
  b_rpcURL : string;
  b_wsURL : string;
  b_receiptsTarget : string;
  b_authUsername : string;
  b_authPassword : string;
  b_headers : list (string * string);
  b_timeout : Z;
  b_maxRetries : Z;
  b_maxResponseSize : Z;
  b_maxRPS : Z;
  b_maxWSConns : Z;
  b_outOfServiceInterval : Z;
  b_stripTrailingXFF : bool;
  b_forwardRequestHeaders : list string;
  b_proxydIP : string;
  b_skipIsSyncingCheck : bool;
  b_skipPeerCountCheck : bool;
  b_forcedCandidate : bool;
  b_safeBlockDriftThreshold : Z;
  b_finalizedBlockDriftThreshold : Z;
  b_maxDegradedLatencyThreshold : Z;
  b_maxLatencyThreshold : Z;
  b_maxErrorRateThreshold : Q;
  b_latency : W;
  b_networkRequests : W;
  b_intermittentErrors : W;
  b_weight : Z;
  b_TLSClientConfig : option tls_config;             (** of the HTTP client's transport *)
}.
Arguments mkBackend {W}.
Arguments b_Name {W}.
Arguments b_rpcURL {W}.
Arguments b_wsURL {W}.
Arguments b_receiptsTarget {W}.
Arguments b_authUsername {W}.
Arguments b_authPassword {W}.
Arguments b_headers {W}.
Arguments b_timeout {W}.
Arguments b_maxRetries {W}.
Arguments b_maxResponseSize {W}.
Arguments b_maxRPS {W}.
Arguments b_maxWSConns {W}.
Arguments b_outOfServiceInterval {W}.
Arguments b_stripTrailingXFF {W}.
Arguments b_forwardRequestHeaders {W}.
Arguments b_proxydIP {W}.
Arguments b_skipIsSyncingCheck {W}.
Arguments b_skipPeerCountCheck {W}.
Arguments b_forcedCandidate {W}.
Arguments b_safeBlockDriftThreshold {W}.
Arguments b_finalizedBlockDriftThreshold {W}.
Arguments b_maxDegradedLatencyThreshold {W}.
Arguments b_maxLatencyThreshold {W}.
Arguments b_maxErrorRateThreshold {W}.
Arguments b_latency {W}.
Arguments b_networkRequests {W}.
Arguments b_intermittentErrors {W}.
Arguments b_weight {W}.
Arguments b_TLSClientConfig {W}.

(** Assignment to a field. *)
Definition eta {W} (b : Backend W) : Backend W :=
  mkBackend (b_Name b) (b_rpcURL b) (b_wsURL b) (b_receiptsTarget b) (b_authUsername b)
      (b_authPassword b) (b_headers b) (b_timeout b) (b_maxRetries b) (b_maxResponseSize b)
      (b_maxRPS b) (b_maxWSConns b) (b_outOfServiceInterval b) (b_stripTrailingXFF b)
      (b_forwardRequestHeaders b) (b_proxydIP b) (b_skipIsSyncingCheck b) (b_skipPeerCountCheck b)
      (b_forcedCandidate b) (b_safeBlockDriftThreshold b) (b_finalizedBlockDriftThreshold b)
      (b_maxDegradedLatencyThreshold b) (b_maxLatencyThreshold b) (b_maxErrorRateThreshold b)
      (b_latency b) (b_networkRequests b) (b_intermittentErrors b) (b_weight b) (b_TLSClientConfig b).

Tactic Notation "set_field" constr(b) uconstr(f) constr(v) :=
  let fb := constr:(f b) in
  let e := eval cbv beta delta [eta] in (eta b) in
  match e with
  | context C [fb] => let r := context C [v] in exact r
  end.

Section backend.
Context {W : Type} {MW : MovingWindow W}.
Implicit Types b : Backend W.

(** The fields the running proxy changes. *)
Definition set_latency (w : W) b : Backend W := ltac:(set_field b b_latency w).
Definition set_networkRequests (w : W) b : Backend W := ltac:(set_field b b_networkRequests w).
Definition set_intermittentErrors (w : W) b : Backend W := ltac:(set_field b b_intermittentErrors w).

(** [b.intermittentErrorsSlidingWindow.Incr()] and its siblings. *)
Definition count_error (now : Z) b : Backend W := set_intermittentErrors (mw_Incr now (b_intermittentErrors b)) b.

Definition count_request (now : Z) b : Backend W := set_networkRequests (mw_Incr now (b_networkRequests b)) b.

Definition add_latency (now d : Z) b : Backend W := set_latency (mw_Add now (inject_Z d) (b_latency b)) b.

Definition ClearSlidingWindows b : Backend W :=
  set_networkRequests (mw_Clear (b_networkRequests b)) (set_intermittentErrors (mw_Clear (b_intermittentErrors b)) b).

(** ** Health *)

(** [time.Duration(f)]: conversion of a float64 truncates. *)
Definition duration_of (q : Q) : Z := Z.quot (Qnum q) (Zpos (Qden q)).

(** Reading a window drops its old buckets; the values read are what matters here. *)
Definition window_Sum (now : Z) (w : W) : Q := snd (mw_Sum now w).
Definition window_Avg (now : Z) (w : W) : Q := snd (mw_Avg now w).

Definition ErrorRate (now : Z) b : Q :=
  if Qle_bool 10 (window_Sum now (b_networkRequests b))
  then (window_Sum now (b_intermittentErrors b) / window_Sum now (b_networkRequests b))%Q
  else 0%Q.

Definition IsHealthy (now : Z) b : bool :=
  if Qle_bool (b_maxErrorRateThreshold b) (ErrorRate now b) then false
  else if b_maxLatencyThreshold b <=? duration_of (window_Avg now (b_latency b)) then false
  else true.

Definition IsDegraded (now : Z) b : bool :=
  b_maxDegradedLatencyThreshold b <=? duration_of (window_Avg now (b_latency b)).

(** ** Constructor and options *)

Definition BackendOpt : Type := Backend W -> Backend W.

Definition set_authUsername (u : string) b : Backend W := ltac:(set_field b b_authUsername u).
Definition set_authPassword (p : string) b : Backend W := ltac:(set_field b b_authPassword p).
Definition WithBasicAuth (username password : string) : BackendOpt :=
  fun b => set_authPassword password (set_authUsername username b).
Definition WithStrippedTrailingXFF : BackendOpt := fun b => ltac:(set_field b b_stripTrailingXFF true).
Definition WithHeaders (headers : list (string * string)) : BackendOpt := fun b => ltac:(set_field b b_headers headers).
Definition WithTimeout (timeout : Z) : BackendOpt := fun b => ltac:(set_field b b_timeout timeout).
Definition WithMaxRetries (retries : Z) : BackendOpt := fun b => ltac:(set_field b b_maxRetries retries).
Definition WithMaxResponseSize (size : Z) : BackendOpt := fun b => ltac:(set_field b b_maxResponseSize size).
Definition WithOutOfServiceDuration (interval : Z) : BackendOpt := fun b => ltac:(set_field b b_outOfServiceInterval interval).
Definition WithMaxRPS (maxRPS : Z) : BackendOpt := fun b => ltac:(set_field b b_maxRPS maxRPS).
Definition WithMaxWSConns (maxConns : Z) : BackendOpt := fun b => ltac:(set_field b b_maxWSConns maxConns).
Definition WithTLSConfig (tlsConfig : tls_config) : BackendOpt := fun b => ltac:(set_field b b_TLSClientConfig (Some tlsConfig)).
Definition WithProxydIP (ip : string) : BackendOpt := fun b => ltac:(set_field b b_proxydIP ip).
Definition WithSkipIsSyncingCheck (skip : bool) : BackendOpt := fun b => ltac:(set_field b b_skipIsSyncingCheck skip).
Definition WithSafeBlockDriftThreshold (threshold : Z) : BackendOpt := fun b => ltac:(set_field b b_safeBlockDriftThreshold threshold).
Definition WithFinalizedBlockDriftThreshold (threshold : Z) : BackendOpt := fun b => ltac:(set_field b b_finalizedBlockDriftThreshold threshold).
Definition WithConsensusSkipPeerCountCheck (skip : bool) : BackendOpt := fun b => ltac:(set_field b b_skipPeerCountCheck skip).
Definition WithConsensusForcedCandidate (forced : bool) : BackendOpt := fun b => ltac:(set_field b b_forcedCandidate forced).
Definition WithWeight (weight : Z) : BackendOpt := fun b => ltac:(set_field b b_weight weight).
Definition WithMaxDegradedLatencyThreshold (threshold : Z) : BackendOpt := fun b => ltac:(set_field b b_maxDegradedLatencyThreshold threshold).
Definition WithMaxLatencyThreshold (threshold : Z) : BackendOpt := fun b => ltac:(set_field b b_maxLatencyThreshold threshold).
Definition WithMaxErrorRateThreshold (threshold : Q) : BackendOpt := fun b => ltac:(set_field b b_maxErrorRateThreshold threshold).
Definition WithConsensusReceiptTarget (target : string) : BackendOpt := fun b => ltac:(set_field b b_receiptsTarget target).
Definition WithIntermittentNetworkErrorSlidingWindow (w : W) : BackendOpt := fun b => ltac:(set_field b b_intermittentErrors w).

Definition Override (opts : list BackendOpt) b : Backend W := fold_left (fun b opt => opt b) opts b.

Definition NewBackend (name rpcURL wsURL : string) (opts : list BackendOpt) : Backend W :=
  Override opts
    {| b_Name := name; b_rpcURL := rpcURL; b_wsURL := wsURL; b_receiptsTarget := ""; b_authUsername := "";
       b_authPassword := ""; b_headers := []; b_timeout := 5 * Second; b_maxRetries := 0;
       b_maxResponseSize := 2 ^ 63 - 1; b_maxRPS := 0; b_maxWSConns := 0; b_outOfServiceInterval := 0;
       b_stripTrailingXFF := false; b_forwardRequestHeaders := []; b_proxydIP := "";
       b_skipIsSyncingCheck := false; b_skipPeerCountCheck := false; b_forcedCandidate := false;
       b_safeBlockDriftThreshold := 0; b_finalizedBlockDriftThreshold := 0;
       b_maxDegradedLatencyThreshold := 5 * Second; b_maxLatencyThreshold := 10 * Second;
       b_maxErrorRateThreshold := 1 # 2; b_latency := mw_New; b_networkRequests := mw_New;
       b_intermittentErrors := mw_New; b_weight := 0; b_TLSClientConfig := None |}.

(** ** The environment of one call *)

(** What came back over HTTP: the status and the body, or a body that fails while it is read. *)
Inductive http_body : Type :=
| BodyBytes (data : body)
| BodyFails (err : error).

Record http_response : Type := mkResponse { StatusCode : Z; Body : http_body }.

Record http_request : Type := mkRequest { rq_URL : string; rq_Header : http_header; rq_Body : string }.

(** One call's view of the world: the clock when the request is sent and when the call ends;
    whether the request can be built; the semaphore, if there is one; the answer. *)
Record exchange : Type := mkExchange {
  ex_start : Z;
  ex_end : Z;
  ex_build : option error;
  ex_acquire : option error;
  ex_do : http_response + error;
}.

(** A semaphore that is not acquired because the client went away is not the backend's fault. *)
Definition DoLimited (ex : exchange) : http_response + error :=
  match ex_acquire ex with
  | Some err =>
      if errors_Is (Some err) ContextCanceled then inr (ESentinel ErrContextCanceled)
      else inr (wrapErr (Some err) "too many requests")
  | None => ex_do ex
  end.

(** ** The request sent to the backend *)

Definition buildBackendURL (baseURL : string) (rpcReqs : list RPCReq) (ctx : Context) : string :=
  match rpcReqs with
  | r :: _ =>
      if bool_decide (req_Method r = "eth_sendRawTransaction") then
        let url :=
          match ctx_Path ctx with
          | Some path =>
              if negb (bool_decide (path = "")) && negb (bool_decide (path = "/"))
              then str_TrimSuffix baseURL "/" +:+ path else baseURL
          | None => baseURL
          end in
        match ctx_RawQuery ctx with
        | Some q => if negb (bool_decide (q = "")) then url +:+ "?" +:+ q else url
        | None => url
        end
      else baseURL
  | [] => baseURL
  end.

(** [json.Marshal] of a request: the raw members are compacted and must be valid. *)
Definition marshal_req (r : RPCReq) : option string :=
  match marshal_raw (req_Params r), marshal_raw (req_ID r) with
  | Some p, Some i =>
      Some (raw_object [("jsonrpc", quoted (req_JSONRPC r)); ("method", quoted (req_Method r));
                        ("params", p); ("id", i)])
  | _, _ => None
  end.

(** A single request is sent unwrapped. *)
Definition marshal_reqs (rs : list RPCReq) : option string :=
  match rs with
  | [r] => marshal_req r
  | _ => (fun ts => "[" +:+ str_Join ts "," +:+ "]") <$> mapM marshal_req rs
  end.

Definition forward_header (b : Backend W) (ctx : Context) : http_header :=
  let fwd := GetHeadersToForward ctx in
  let h := fold_left (fun h name =>
             fold_left (fun h v => header_Add h name v) (default [] (fwd !! name)) h)
             (b_forwardRequestHeaders b) ∅ in
  let h := if bool_decide (b_authPassword b = "") then h
           else SetBasicAuth h (b_authUsername b) (b_authPassword b) in
  let h := if bool_decide (GetOpTxProxyAuthHeader ctx = "") then h
           else header_Set h DefaultOpTxProxyAuthHeader (GetOpTxProxyAuthHeader ctx) in
  let xff := if b_stripTrailingXFF b then stripXFF (GetXForwardedFor ctx)
             else if bool_decide (b_proxydIP b = "") then GetXForwardedFor ctx
             else GetXForwardedFor ctx +:+ ", " +:+ b_proxydIP b in
  let h := header_Set h "content-type" "application/json" in
  let h := header_Set h "X-Forwarded-For" xff in
  fold_left (fun h nv => header_Set h (fst nv) (snd nv)) (b_headers b) h.

Definition build_request (b : Backend W) (ctx : Context) (rpcReqs : list RPCReq) : option http_request :=
  mkRequest (buildBackendURL (b_rpcURL b) rpcReqs ctx) (forward_header b ctx) <$> marshal_reqs rpcReqs.

(** ** Translation of [consensus_getReceipts] *)

Definition ConsensusGetReceiptsMethod : string := "consensus_getReceipts".
Definition ReceiptsTargetDebugGetRawReceipts : string := "debug_getRawReceipts".
Definition ReceiptsTargetAlchemyGetTransactionReceipts : string := "alchemy_getTransactionReceipts".
Definition ReceiptsTargetParityGetTransactionReceipts : string := "parity_getBlockReceipts".
Definition ReceiptsTargetEthGetTransactionReceipts : string := "eth_getBlockReceipts".

Context {BX : BlockRPC} {RX : ReceiptsRPC} {SS : SortSlice}.

Definition with_method (r : RPCReq) (m : string) : RPCReq :=
  mkRPCReq (req_JSONRPC r) m (req_Params r) (req_ID r).

Definition with_params (r : RPCReq) (p : string) : RPCReq :=
  mkRPCReq (req_JSONRPC r) (req_Method r) p (req_ID r).

(** [json.Marshal] of [BlockHashOrNumberParameter]: a nil pointer is null; block numbers and hashes
    marshal as their text. *)
Definition BlockHashOrNumberParameter (BlockHash : option string) (BlockNumber : option Z) : json :=
  JObj [("blockHash", match BlockHash with Some h => JStr (hash_Hex h) | None => JNull end);
        ("blockNumber", match BlockNumber with Some n => JStr (bn_String n) | None => JNull end)].

(** The parameters for the receipts target, from the decoded block. *)
Definition receipts_params (target : string) (blocks : list BlockNumberOrHash) : outcome (string + error) :=
  if bool_decide (target ∈ [ReceiptsTargetDebugGetRawReceipts; ReceiptsTargetEthGetTransactionReceipts;
                            ReceiptsTargetParityGetTransactionReceipts]) then
    match blocks with
    | [] => Panics "index out of range"
    | blk :: _ =>
        match bnh_BlockNumber blk, bnh_BlockHash blk with
        | Some n, _ => Returns (inl (json_Marshal (JArr [JStr (bn_String n)])))
        | None, Some h => Returns (inl (json_Marshal (JArr [JStr (hash_Hex h)])))
        | None, None => Panics "nil pointer dereference"
        end
    end
  else if bool_decide (target = ReceiptsTargetAlchemyGetTransactionReceipts) then
    match blocks with
    | [] => Panics "index out of range"
    | blk :: _ =>
        Returns (inl (json_Marshal (JArr [match bnh_BlockNumber blk with
                                          | Some n => BlockHashOrNumberParameter None (Some n)
                                          | None => BlockHashOrNumberParameter (bnh_BlockHash blk) None
                                          end])))
    end
  else Returns (inr (ESentinel ErrConsensusGetReceiptsInvalidTarget)).

(** The request after translation (it is changed in place, also when the translation fails). *)
Definition translate_one (target : string) (r : RPCReq) : outcome (RPCReq * option error) :=
  let r := with_method r target in
  match unmarshal_bnhs (req_Params r) with
  | None => Returns (r, Some (ERPC (ErrInvalidRequest "invalid request")))
  | Some blocks =>
      let! p := receipts_params target blocks in
      match p with
      | inl p => Returns (with_params r p, None)
      | inr err => Returns (r, Some err)
      end
  end.

(** The requests, the translated ids with their method, and the error that stopped the loop. *)
Fixpoint translate_all (target : string) (rs : list RPCReq)
    : outcome (list RPCReq * list (string * string) * option error) :=
  match rs with
  | [] => Returns ([], [], None)
  | r :: rs' =>
      if bool_decide (req_Method r = ConsensusGetReceiptsMethod) then
        let! t := translate_one target r in
        match t with
        | (r', Some err) => Returns (r' :: rs', [], Some err)
        | (r', None) =>
            let! rest := translate_all target rs' in
            let '(rs'', tr, err) := rest in
            Returns (r' :: rs'', (req_ID r, target) :: tr, err)
        end
      else
        let! rest := translate_all target rs' in
        let '(rs'', tr, err) := rest in Returns (r :: rs'', tr, err)
  end.

Definition translate (isBatch : bool) (target : string) (rs : list RPCReq)
    : outcome (list RPCReq * list (string * string) * option error) :=
  if isBatch then
    if bool_decide (ConsensusGetReceiptsMethod ∈ map req_Method rs)
    then Returns (rs, [], Some (ESentinel ErrConsensusGetReceiptsCantBeBatched))
    else Returns (rs, [], None)
  else translate_all target rs.

(** ** Sorting the responses of a batch *)

(** [pos[id]]: the position of a request id; a missing one reads as 0. *)
Definition id_pos (reqs : list RPCReq) (id : string) : nat :=
  match list_find (fun r => req_ID r = id) reqs with Some (i, _) => i | None => 0%nat end.

(** It panics on duplicate ids. *)
Definition sortBatchRPCResponse (reqs : list RPCReq) (res : list RPCRes) : outcome (list RPCRes) :=
  if bool_decide (NoDup (map req_ID reqs))
  then Returns (sort_Slice (fun r => id_pos reqs (res_ID r)) res)
  else Panics "bug! detected requests with duplicate IDs".

(** ** One attempt *)

(** [json.Unmarshal] into [[]*RPCRes]: a null element is a nil pointer. *)
Definition decode_res_ptr (raw : string) : option (option RPCRes) :=
  match json_parse raw with
  | Some JNull => Some None
  | _ => Some <$> decode_RPCRes raw
  end.

Definition decode_res_slice (raw : string) : option (list (option RPCRes)) :=
  match unmarshal_raw_slice raw with
  | Some l => mapM decode_res_ptr l
  | None => None
  end.

Definition responseIsNotBatched (resB : string) : bool :=
  match decode_RPCRes resB with Some _ => true | None => false end.

(** The whole response body, read through the limit; the loop of [io.ReadAll] is given enough fuel. *)
Definition read_body (max : Z) (bd : http_body) : string + error :=
  match bd with
  | BodyFails err => inr err
  | BodyBytes data =>
      match ReadAll (String.length (rest data) + 2) (fun _ => 512) (LimitReader data max) "" with
      | Some (s, None) => inl s
      | Some (_, Some (RErr e)) => inr (ESentinel e)
      | _ => inr (ENew "unexpected EOF")
      end
  end.

(** Dereferencing the pointers of the decoded slice. *)
Fixpoint deref_all {A} (l : list (option A)) : outcome (list A) :=
  match l with
  | [] => Returns []
  | None :: _ => Panics "nil pointer dereference"
  | Some x :: l' => let! xs := deref_all l' in Returns (x :: xs)
  end.

(** A response with status 400 gets the status into its error, which must be there. *)
Fixpoint set_http_code (code : Z) (l : list RPCRes) : outcome (list RPCRes) :=
  match l with
  | [] => Returns []
  | r :: l' =>
      match res_Error r with
      | None => Panics "nil pointer dereference"
      | Some e =>
          let! rs := set_http_code code l' in
          Returns (mkRPCRes (res_JSONRPC r) (res_Result r)
                     (Some (mkRPCErr (err_Code e) (err_Message e) (err_Data e) code)) (res_ID r) :: rs)
      end
  end.

(** The translated requests get their receipts wrapped with the method that was called. *)
Definition enrich (translated : list (string * string)) (r : RPCRes) : RPCRes :=
  match list_find (fun t => fst t = res_ID r) translated with
  | Some (_, (_, method)) =>
      mkRPCRes (res_JSONRPC r) (Some (GReceipts method (res_Result r))) (res_Error r) (res_ID r)
  | None => r
  end.

(** The decoded responses, or an error with whether it counts against the backend. *)
Definition decode_responses (single : bool) (resB : string) : list (option RPCRes) + (error * bool) :=
  if single then
    match decode_RPCRes resB with
    | Some r => inl [Some r]
    | None => inr (ESentinel ErrBackendBadResponse, false)
    end
  else
    match decode_res_slice resB with
    | Some l => inl l
    | None =>
        if responseIsNotBatched resB then inr (ESentinel ErrBackendUnexpectedJSONRPC, true)
        else inr (ESentinel ErrBackendBadResponse, true)
    end.

Definition forwarded : Type := (list RPCRes + error) * Backend W * list RPCReq.

Definition fails (b : Backend W) (reqs : list RPCReq) (err : error) : outcome forwarded :=
  Returns (inr err, b, reqs).

(** Everything after the answer: status, body, decoding, bookkeeping, sorting. *)
Definition receive (ex : exchange) (translated : list (string * string)) (reqs : list RPCReq)
    (resp : http_response) b : outcome forwarded :=
  if negb (StatusCode resp =? 200) && negb (StatusCode resp =? 400)
  then fails (count_error (ex_end ex) b) reqs (ENew ("response code " +:+ dec_string (StatusCode resp)))
  else
    match read_body (b_maxResponseSize b) (Body resp) with
    | inr err =>
        if errors_Is (Some err) ErrLimitReaderOverLimit then fails b reqs (ESentinel ErrBackendResponseTooLarge)
        else fails (count_error (ex_end ex) b) reqs (wrapErr (Some err) "error reading response body")
    | inl resB =>
        match decode_responses (length reqs =? 1)%nat resB with
        | inr (err, true) => fails (count_error (ex_end ex) b) reqs err
        | inr (err, false) => fails b reqs err
        | inl ptrs =>
            if negb (length reqs =? length ptrs)%nat
            then fails (count_error (ex_end ex) b) reqs (ESentinel ErrBackendUnexpectedJSONRPC)
            else
              let! rs := deref_all ptrs in
              let! rs := (if StatusCode resp =? 200 then Returns rs else set_http_code (StatusCode resp) rs) in
              let b := add_latency (ex_end ex) (ex_end ex - ex_start ex) b in
              let! sorted := sortBatchRPCResponse reqs (map (enrich translated) rs) in
              Returns (inl sorted, b, reqs)
        end
    end.

Definition doForward (ctx : Context) (net : http_request -> exchange) (reqs : list RPCReq) (isBatch : bool)
    (now : Z) b : outcome forwarded :=
  let b := count_request now b in
  let! t := translate isBatch (b_receiptsTarget b) reqs in
  let '(reqs, translated, terr) := t in
  match terr with
  | Some err => fails b reqs err
  | None =>
      match build_request b ctx reqs with
      | None => Panics "json: error calling MarshalJSON"
      | Some rq =>
          let ex := net rq in
          match ex_build ex with
          | Some err => fails (count_error (ex_start ex) b) reqs (wrapErr (Some err) "error creating backend request")
          | None =>
              match DoLimited ex with
              | inl resp => receive ex translated reqs resp b
              | inr err =>
                  let b := if errors_Is (Some err) ContextCanceled || errors_Is (Some err) ErrTooManyRequests
                           then b else count_error (ex_end ex) b in
                  if errors_Is (Some err) ErrContextCanceled then fails b reqs err
                  else fails b reqs (wrapErr (Some err) "error in backend request")
              end
          end
      end
  end.

(** ** Retries *)

(** [calcBackoff], in milliseconds, with the jitter drawn below 250. *)
Definition calcBackoff (i : nat) (jitter : Z) : Z := Z.min (2 ^ Z.of_nat i * 1000 + jitter) 3000.

Inductive forward_event : Type :=
| Attempt (i : nat)
| Sleep (ms : Z).

(** The errors that end the loop at once. *)
Definition ends_loop (err : error) : bool :=
  match err with
  | ESentinel ErrBackendResponseTooLarge | ESentinel ErrConsensusGetReceiptsCantBeBatched
  | ESentinel ErrConsensusGetReceiptsInvalidTarget | ESentinel ErrBackendUnexpectedJSONRPC
  | ESentinel ErrContextCanceled => true
  | _ => false
  end.

(** The world of a call that may retry: for each attempt the clock at its start and the exchange,
    and the jitter of the two pauses after it. *)
Record attempts : Type := mkAttempts {
  at_now : nat -> Z;
  at_net : nat -> http_request -> exchange;
  at_jitter : nat -> Z * Z;
}.

(** Attempt [i]; [fuel] attempts are left. *)
Fixpoint forward_loop (ctx : Context) (env : attempts) (isBatch : bool) (fuel i : nat)
    (reqs : list RPCReq) b (lastError : option error) : outcome (forwarded * list forward_event) :=
  match fuel with
  | O => Returns (inr (wrapErr lastError "permanent error forwarding request"), b, reqs, [])
  | S fuel' =>
      match reqs with
      | [] => Panics "index out of range"
      | _ =>
          let! r := doForward ctx (at_net env i) reqs isBatch (at_now env i) b in
          match r with
          | (inl res, b', reqs') => Returns (inl res, b', reqs', [Attempt i])
          | (inr err, b', reqs') =>
              if ends_loop err then Returns (inr err, b', reqs', [Attempt i])
              else
                let '(j1, j2) := at_jitter env i in
                let pauses := (match fuel' with O => [] | S _ => [Sleep (calcBackoff i j1)] end)
                              ++ [Sleep (calcBackoff i j2)] in
                let! rest := forward_loop ctx env isBatch fuel' (S i) reqs' b' (Some err) in
                let '(f, evs) := rest in Returns (f, Attempt i :: pauses ++ evs)
          end
      end
  end.

Definition Forward (ctx : Context) (env : attempts) (reqs : list RPCReq) (isBatch : bool) b
    : outcome (forwarded * list forward_event) :=
  forward_loop ctx env isBatch (Z.to_nat (b_maxRetries b + 1)) 0 reqs b None.

(** A single call made by the proxy itself, without retries; [params] is already marshalled. *)
Definition ForwardRPC (ctx : Context) (net : http_request -> exchange) (id method params : string) (now : Z) b
    : outcome ((RPCRes + error) * Backend W) :=
  let! r := doForward ctx net [mkRPCReq JSONRPCVersion method params id] false now b in
  match r with
  | (inr err, b', _) => Returns (inr err, b')
  | (inl [res], b', _) =>
      match res_Error res with
      | Some e => Returns (inr (ERPC e), b')
      | None => Returns (inl res, b')
      end
  | (inl _, b', _) => Returns (inr (ENew "unexpected response len for non-batched request (len != 1)"), b')
  end.

End backend.
