(* ===== verification/BackendFacts.v ===== *)
(** * Properties of a backend: health, batches of responses, retries *)

From S2P Require Import Prelude Json JsonFacts Geth Rpc Util Http SlidingWindow Backend.

(** ** Responses in the order of their requests *)

Section sorting.
Context {SS : SortSlice} {SSL : SortSliceLaws}.

Lemma id_pos_lookup reqs i r : NoDup (map req_ID reqs) -> reqs !! i = Some r -> id_pos reqs (req_ID r) = i.
Proof.
  intros Hn Hi. unfold id_pos.
  destruct (list_find (fun r' => req_ID r' = req_ID r) reqs) as [[j r']|] eqn:E.
  - apply list_find_Some in E as (Hj & He & _).
    apply (NoDup_lookup (map req_ID reqs) j i (req_ID r) Hn);
      rewrite list_lookup_fmap, ?Hj, ?Hi; simpl; by rewrite ?He.
  - apply list_find_None in E. rewrite Forall_forall in E. exfalso. apply (E r); [|done].
    by eapply list_elem_of_lookup_2.
Qed.

Lemma id_pos_seq reqs : NoDup (map req_ID reqs) -> map (id_pos reqs) (map req_ID reqs) = seq 0 (length reqs).
Proof.
  intros Hn. apply list_eq. intros i. rewrite !list_lookup_fmap.
  destruct (reqs !! i) as [r|] eqn:E; simpl.
  - rewrite (id_pos_lookup reqs i r Hn E). symmetry. apply lookup_seq. split; [lia|].
    by eapply lookup_lt_Some.
  - symmetry. apply lookup_seq_ge. by apply lookup_ge_None.
Qed.

Lemma id_pos_inj reqs x y : NoDup (map req_ID reqs) -> x ∈ map req_ID reqs -> y ∈ map req_ID reqs ->
  id_pos reqs x = id_pos reqs y -> x = y.
Proof.
  intros Hn (i & Hi)%list_elem_of_lookup (j & Hj)%list_elem_of_lookup E.
  rewrite list_lookup_fmap in Hi, Hj.
  destruct (reqs !! i) as [ri|] eqn:Ei; [|done]. destruct (reqs !! j) as [rj|] eqn:Ej; [|done].
  injection Hi as <-. injection Hj as <-.
  rewrite (id_pos_lookup _ _ _ Hn Ei), (id_pos_lookup _ _ _ Hn Ej) in E. congruence.
Qed.

Lemma Sorted_seq n : forall a, Sorted le (seq a n).
Proof.
  induction n as [|n IH]; intros a; simpl; constructor; [apply IH|].
  destruct n; simpl; constructor. lia.
Qed.

Lemma map_inj_in {A B} (f : A -> B) l k :
  (forall x y, x ∈ l -> y ∈ k -> f x = f y -> x = y) -> map f l = map f k -> l = k.
Proof.
  revert k. induction l as [|x l IH]; intros [|y k] Hi E; try done. injection E as E1 E2.
  f_equal; [apply Hi; [by left|by left|done]|]. apply IH; [|done]. intros. apply Hi; [by right|by right|done].
Qed.

Lemma sort_Slice_ids reqs res : NoDup (map req_ID reqs) -> map res_ID res ≡ₚ map req_ID reqs ->
  map res_ID (sort_Slice (fun r => id_pos reqs (res_ID r)) res) = map req_ID reqs.
Proof.
  intros Hn Hp. set (out := sort_Slice _ res).
  assert (Ho : map res_ID out ≡ₚ map req_ID reqs).
  { rewrite <- Hp. apply fmap_Permutation, sort_Slice_perm. }
  apply (map_inj_in (id_pos reqs)).
  { intros x y Hx Hy E. apply (id_pos_inj reqs); [done| |done|done]. by rewrite <- Ho. }
  apply (Sorted_unique le).
  - rewrite map_map. apply sort_Slice_sorted.
  - rewrite id_pos_seq by done. apply Sorted_seq.
  - by apply fmap_Permutation.
Qed.

(** C21: a batch of responses whose ids are those of the requests, in any order, is brought into the
    order of the requests without losing or changing a response, whatever unstable sorting
    algorithm is used; duplicate request ids are the only panic. *)
Theorem sortBatchRPCResponse_order reqs res :
  map res_ID res ≡ₚ map req_ID reqs ->
  (NoDup (map req_ID reqs) -> exists out, sortBatchRPCResponse reqs res = Returns out /\
     out ≡ₚ res /\ map res_ID out = map req_ID reqs) /\
  (~ NoDup (map req_ID reqs) -> exists msg, sortBatchRPCResponse reqs res = Panics msg).
Proof.
  intros Hp. unfold sortBatchRPCResponse. split; intros Hn.
  - rewrite bool_decide_eq_true_2 by done. eexists. split; [done|]. split; [apply sort_Slice_perm|].
    by apply sort_Slice_ids.
  - rewrite bool_decide_eq_false_2 by done. by eexists.
Qed.

End sorting.

Definition key_le {A} (key : A -> nat) (x y : A) : Prop := (key x <= key y)%nat.

#[global] Instance key_le_dec {A} (key : A -> nat) x y : Decision (key_le key x y).
Proof. unfold key_le. apply _. Defined.

#[global] Instance merge_sort_slice : SortSlice := fun A key l => merge_sort (key_le key) l.

#[global] Instance merge_sort_slice_laws : SortSliceLaws.
Proof.
  constructor; intros A key l.
  - apply merge_sort_Permutation.
  - unfold sort_Slice, merge_sort_slice.
    assert (H : Sorted (key_le key) (merge_sort (key_le key) l)).
    { apply Sorted_merge_sort. intros x y. unfold key_le. lia. }
    induction H as [|x l' H IH Hd]; simpl; constructor; [done|].
    destruct Hd; simpl; constructor. done.
Qed.

Lemma sortBatchRPCResponse_order_witness :
  exists out, sortBatchRPCResponse
      [mkRPCReq "2.0" "a" "" "1"; mkRPCReq "2.0" "b" "" "2"]
      [mkRPCRes "2.0" None None "2"; mkRPCRes "2.0" None None "1"] = Returns out /\
    map res_ID out = ["1"; "2"].
Proof.
  destruct (sortBatchRPCResponse_order
      [mkRPCReq "2.0" "a" "" "1"; mkRPCReq "2.0" "b" "" "2"]
      [mkRPCRes "2.0" None None "2"; mkRPCRes "2.0" None None "1"]) as [H _].
  - apply perm_swap.
  - destruct H as (out & H1 & _ & H2).
    + apply (bool_decide_unpack _). vm_compute. exact I.
    + exists out. split; [exact H1|exact H2].
Defined.

(** ** Health, in terms of what happened in the window *)

(** The sliding window behind the interface; one clock reading serves an operation. *)
#[global] Instance sliding_window `{!LinkedHashMap M} : MovingWindow (AvgSlidingWindow M) := {|
  mw_New := NewSlidingWindow [];
  mw_Add now v w := match Add w now now now v with Returns w' => w' | Panics _ => w end;
  mw_Sum now w := match Sum w now with Returns r => r | Panics _ => (w, 0%Q) end;
  mw_Avg now w := match Avg w now with Returns r => r | Panics _ => (w, 0%Q) end;
  mw_Clear w := Clear w;
|}.

#[global] Instance duration_of_proper : Proper (Qeq ==> eq) duration_of.
Proof.
  intros [n1 d1] [n2 d2] E. unfold Qeq in E. unfold duration_of. simpl in *.
  rewrite <- (Z.quot_mul_cancel_r n1 (Z.pos d1) (Z.pos d2)) by lia.
  rewrite <- (Z.quot_mul_cancel_r n2 (Z.pos d2) (Z.pos d1)) by lia. rewrite E. f_equal. lia.
Qed.

Lemma qsum_ones {A} (f : A -> Q) l : Forall (fun x => f x == 1)%Q l -> (qsum f l == inject_Z (Z.of_nat (length l)))%Q.
Proof.
  induction 1 as [|x l Hx _ IH]; [done|]. cbn [qsum length]. rewrite Hx, IH.
  rewrite Nat2Z.inj_succ, <- Z.add_1_l, inject_Z_plus. done.
Qed.

Section health.
Context {M : Type} {LM : LinkedHashMap M} {LML : LinkedHashMapLaws M}.
Implicit Types w : AvgSlidingWindow M.

(** The number of points of a window that are live at [now]. *)
Definition live_count w (now : Z) (pts : list (Z * Q)) : Z := Z.of_nat (length (select (live w now) pts)).

(** Windows that count: every point is 1. *)
Definition counting (pts : list (Z * Q)) : Prop := Forall (fun p => snd p == 1)%Q pts.

Lemma window_Sum_points w last pts now : Rep w last pts -> last <= now ->
  (window_Sum now w == spec_Sum w now pts)%Q.
Proof.
  intros HR Hle. destruct (window_reads w last pts now HR Hle) as (w' & E & _ & Hs & _).
  unfold window_Sum, mw_Sum, sliding_window, Sum. by rewrite E.
Qed.

Lemma window_Sum_count w last pts now : Rep w last pts -> last <= now -> counting pts ->
  (window_Sum now w == inject_Z (live_count w now pts))%Q.
Proof.
  intros HR Hle Hc. rewrite (window_Sum_points w last pts now HR Hle). apply qsum_ones.
  unfold counting in Hc. rewrite Forall_forall in *. intros p Hp. apply elem_of_select in Hp as [_ Hp]. by apply Hc.
Qed.

Lemma window_Avg_points w last pts now : Rep w last pts -> last <= now ->
  (window_Avg now w == if spec_Count w now pts =? 0 then 0 else spec_Sum w now pts / inject_Z (spec_Count w now pts))%Q.
Proof.
  intros HR Hle. destruct (window_reads w last pts now HR Hle) as (w' & E & _ & Hs & Hq).
  unfold window_Avg, mw_Avg, sliding_window, Avg. rewrite E. simpl. rewrite Hq.
  destruct (spec_Count w now pts =? 0); [done|]. by rewrite Hs.
Qed.

(** C37: a backend is healthy exactly when the share of failed requests in the window is below its
    threshold (taken as zero while fewer than ten requests are in the window) and the average
    latency over the window, in whole nanoseconds, is below its threshold. *)
Theorem IsHealthy_window (b : Backend (AvgSlidingWindow M)) last now lat reqs errs :
  Rep (b_latency b) last lat -> Rep (b_networkRequests b) last reqs -> Rep (b_intermittentErrors b) last errs ->
  counting reqs -> counting errs -> last <= now ->
  let R := live_count (b_networkRequests b) now reqs in
  let E := live_count (b_intermittentErrors b) now errs in
  let n := spec_Count (b_latency b) now lat in
  let avg := (if n =? 0 then 0 else spec_Sum (b_latency b) now lat / inject_Z n)%Q in
  IsHealthy now b = true <->
  ((if 10 <=? R then inject_Z E / inject_Z R else 0) < b_maxErrorRateThreshold b)%Q /\
  duration_of avg < b_maxLatencyThreshold b.
Proof.
  intros HL HN HE Cn Ce Hle R E n avg.
  assert (Hrate : (ErrorRate now b == if 10 <=? R then inject_Z E / inject_Z R else 0)%Q).
  { unfold ErrorRate. pose proof (window_Sum_count _ _ _ _ HN Hle Cn) as EN.
    pose proof (window_Sum_count _ _ _ _ HE Hle Ce) as EE. fold R in EN. fold E in EE.
    destruct (Qle_bool 10 (window_Sum now (b_networkRequests b))) eqn:Eb.
    - apply Qle_bool_iff in Eb. rewrite EN in Eb. change 10%Q with (inject_Z 10) in Eb.
      rewrite <- Zle_Qle in Eb. destruct (Z.leb_spec 10 R); [|lia]. by rewrite EN, EE.
    - destruct (Z.leb_spec 10 R) as [H|H]; [|done]. exfalso.
      assert (Qle_bool 10 (window_Sum now (b_networkRequests b)) = true); [|congruence].
      apply Qle_bool_iff. rewrite EN. change 10%Q with (inject_Z 10). by rewrite <- Zle_Qle. }
  assert (Havg : duration_of (window_Avg now (b_latency b)) = duration_of avg).
  { apply duration_of_proper. apply (window_Avg_points _ _ _ _ HL Hle). }
  unfold IsHealthy. rewrite Havg, <- Hrate.
  destruct (Qle_bool (b_maxErrorRateThreshold b) (ErrorRate now b)) eqn:Eq.
  - apply Qle_bool_iff in Eq. split; [done|]. intros [H _]. by apply Qle_not_lt in Eq.
  - assert (Hlt : (ErrorRate now b < b_maxErrorRateThreshold b)%Q).
    { apply Qnot_le_lt. intros H. apply Qle_bool_iff in H. congruence. }
    destruct (Z.leb_spec (b_maxLatencyThreshold b) (duration_of avg)); split; try done; naive_solver lia.
Qed.

End health.

(** Adding a point through the interface keeps the window represented. *)
Lemma mw_Add_Rep `{LM : LinkedHashMap M, !LinkedHashMapLaws M} (w : AvgSlidingWindow M) last pts now v :
  Rep w last pts -> last <= now -> Rep (mw_Add now v w) now (pts ++ [(now, v)]).
Proof.
  intros HR Hle. unfold mw_Add, sliding_window.
  destruct (AddWithTime_spec w now now now v (rep_agree _ _ _ HR)) as (sw1 & sw2 & _ & E & _).
  unfold Add. rewrite E. apply (Rep_add w last pts now now now v sw2 HR); [lia|lia|exact E].
Qed.

Lemma mw_New_Rep `{LM : LinkedHashMap M, !LinkedHashMapLaws M} last : Rep (mw_New (W := AvgSlidingWindow M)) last [].
Proof. apply Rep_new. intros o Ho. by apply elem_of_nil in Ho. Qed.

Lemma IsHealthy_window_witness :
  let b := add_latency Second (3 * Second) (count_request Second
             (NewBackend (W := AvgSlidingWindow ordered_map) "b" "http://b" "" [])) in
  IsHealthy (2 * Second) b = true.
Proof.
  intros b. apply (IsHealthy_window b Second (2 * Second) [(Second, inject_Z (3 * Second))] [(Second, 1%Q)] []).
  - apply (mw_Add_Rep _ 0 []); [apply mw_New_Rep|done].
  - apply (mw_Add_Rep _ 0 []); [apply mw_New_Rep|done].
  - apply mw_New_Rep.
  - by constructor.
  - constructor.
  - done.
  - vm_compute. done.
Defined.

(** ** Retries *)

Section retries.
Context {W : Type} {MW : MovingWindow W} {BX : BlockRPC} {RX : ReceiptsRPC} {SS : SortSlice}.

Section one_loop.
Context (ctx : Context) (env : attempts) (isBatch : bool).

(** Attempts from number [i] on that fail with errors after which the loop goes on: the errors, and the
    requests and the backend that the last of them leaves. *)
Inductive failed_attempts : nat -> list RPCReq -> Backend W -> list error -> list RPCReq -> Backend W -> Prop :=
| no_attempt i reqs b : failed_attempts i reqs b [] reqs b
| one_attempt_more i reqs b err reqs1 b1 errs reqs2 b2 :
    doForward ctx (at_net env i) reqs isBatch (at_now env i) b = Returns (inr err, b1, reqs1) -> ends_loop err = false ->
    failed_attempts (S i) reqs1 b1 errs reqs2 b2 -> failed_attempts i reqs b (err :: errs) reqs2 b2.

(** An attempt that is followed by another one: two pauses lie between them. *)
Definition retried (i : nat) : list forward_event :=
  [Attempt i; Sleep (calcBackoff i (fst (at_jitter env i))); Sleep (calcBackoff i (snd (at_jitter env i)))].

(** The last attempt of a loop that gives up. *)
Definition given_up (i : nat) : list forward_event := [Attempt i; Sleep (calcBackoff i (snd (at_jitter env i)))].

Definition exhausted (i n : nat) : list forward_event :=
  match n with O => [] | S m => concat (map retried (seq i m)) ++ given_up (i + m) end.

Definition decides (res : list RPCRes + error) : Prop :=
  match res with inl _ => True | inr err => ends_loop err = true end.

Lemma forward_loop_attempts fuel : forall i reqs (b : Backend W) lastError res b' reqs' evs,
  forward_loop ctx env isBatch fuel i reqs b lastError = Returns (res, b', reqs', evs) ->
  exists errs reqs1 b1, failed_attempts i reqs b errs reqs1 b1 /\ let k := length errs in
  ((k < fuel)%nat /\ doForward ctx (at_net env (i + k)) reqs1 isBatch (at_now env (i + k)) b1 = Returns (res, b', reqs') /\
     decides res /\ evs = concat (map retried (seq i k)) ++ [Attempt (i + k)]) \/
  (k = fuel /\ res = inr (wrapErr (match last errs with Some e => Some e | None => lastError end) "permanent error forwarding request") /\
     b' = b1 /\ reqs' = reqs1 /\ evs = exhausted i fuel).
Proof.
  induction fuel as [|fuel IH]; intros i reqs b lastError res b' reqs' evs H.
  - injection H as <- <- <- <-. exists [], reqs, b. split; [constructor|]. by right.
  - cbn [forward_loop] in H. destruct reqs as [|r0 rs0]; [discriminate|]. step_outcome H. destruct a as [[r b1] reqs1].
    destruct r as [ok|err]; [|destruct (ends_loop err) eqn:Ee].
    + injection H as <- <- <- <-. exists [], (r0 :: rs0), b. split; [constructor|]. left. cbn. rewrite Nat.add_0_r. split_and!; [lia|done..].
    + injection H as <- <- <- <-. exists [], (r0 :: rs0), b. split; [constructor|]. left. cbn. rewrite Nat.add_0_r. split_and!; [lia|done..].
    + destruct (at_jitter env i) as [j1 j2] eqn:Ej. step_outcome H. destruct a as [[[res1 b2] reqs2] evs1].
      injection H as <- <- <- <-. destruct (IH _ _ _ _ _ _ _ _ E0) as (errs & reqs3 & b3 & Hf & Hc).
      assert (Hret : retried i = [Attempt i; Sleep (calcBackoff i j1); Sleep (calcBackoff i j2)]) by (unfold retried; by rewrite Ej).
      exists (err :: errs), reqs3, b3. split; [by econstructor|]. cbn [length]. destruct Hc as [(Hk & Hd & Hdec & ->)|(Hk & -> & -> & -> & ->)].
      * left. rewrite <- Nat.add_succ_comm. split_and!; [lia|done|done|]. cbn [seq map concat]. rewrite Hret.
        destruct fuel; [lia|]. done.
      * right. split; [lia|]. split; [rewrite last_cons; by destruct (last errs)|]. split_and!; [done..|].
        destruct fuel as [|m]; cbn [exhausted seq map concat app].
        -- unfold given_up. rewrite Nat.add_0_r, Ej. done.
        -- rewrite Hret, <- Nat.add_succ_comm. done.
Qed.

(** C20: a backend is asked at most [max_retries + 1] times.  Every attempt takes up the requests and the
    backend as the previous one left them.  Either some attempt decides, with an answer or with an error that
    ends the loop, and then it is the last one and the result is its result; or all [max_retries + 1]
    attempts fail with other errors, and the result is the permanent error that wraps the last of
    them.  Exactly two pauses, by the backoff of the attempt, lie between an attempt and the next, none follows a deciding
    attempt, and one follows the last attempt of a loop that gives up. *)
Theorem Forward_attempts reqs (b : Backend W) res b' reqs' evs :
  Forward ctx env reqs isBatch b = Returns (res, b', reqs', evs) ->
  exists errs reqs1 b1, failed_attempts 0 reqs b errs reqs1 b1 /\ let k := length errs in
  (Z.of_nat k <= b_maxRetries b /\ doForward ctx (at_net env k) reqs1 isBatch (at_now env k) b1 = Returns (res, b', reqs') /\
     decides res /\ evs = concat (map retried (seq 0 k)) ++ [Attempt k]) \/
  (Z.of_nat k = Z.max 0 (b_maxRetries b + 1) /\ res = inr (wrapErr (last errs) "permanent error forwarding request") /\
     b' = b1 /\ reqs' = reqs1 /\ evs = exhausted 0 k).
Proof.
  intros H. destruct (forward_loop_attempts _ _ _ _ _ _ _ _ _ H) as (errs & reqs1 & b1 & Hf & Hc).
  exists errs, reqs1, b1. split; [done|]. destruct Hc as [(Hk & Hrest)|(Hk & Hres & Hrest)].
  - left. split; [lia|done].
  - right. split; [lia|]. rewrite Hk. split; [|done]. rewrite Hres. by destruct (last errs).
Qed.

End one_loop.

End retries.

(** A network on which nothing listens. *)
Definition refused : attempts :=
  mkAttempts (fun i => Z.of_nat i * Second)
    (fun i _ => mkExchange (Z.of_nat i * Second) (Z.of_nat i * Second) None None (inr (ENew "connection refused")))
    (fun _ => (0, 0)).

(** A window that only counts. *)
#[local] Instance total_window : MovingWindow Q := {|
  mw_New := 0%Q; mw_Add _ v w := (w + v)%Q; mw_Sum _ w := (w, w); mw_Avg _ w := (w, w); mw_Clear _ := 0%Q |}.

Definition no_answer : error := wrapErr (Some (ENew "connection refused")) "error in backend request".

Lemma Forward_attempts_witness :
  exists b' reqs', Forward background refused [mkRPCReq "2.0" "eth_chainId" "[]" "1"] false
      (NewBackend (W := Q) "b" "http://b" "" [WithMaxRetries 2])
    = Returns (inr (wrapErr (Some no_answer) "permanent error forwarding request"), b', reqs',
               [Attempt 0; Sleep 1000; Sleep 1000; Attempt 1; Sleep 2000; Sleep 2000; Attempt 2; Sleep 3000]).
Proof.
  destruct (Forward background refused [mkRPCReq "2.0" "eth_chainId" "[]" "1"] false
    (NewBackend (W := Q) "b" "http://b" "" [WithMaxRetries 2])) as [[[[res b'] reqs'] evs]|] eqn:E; [|vm_compute in E; discriminate].
  exists b', reqs'. pose proof E as E'. vm_compute in E'. injection E' as Er _ _ _.
  destruct (Forward_attempts background refused false [mkRPCReq "2.0" "eth_chainId" "[]" "1"]
    (NewBackend (W := Q) "b" "http://b" "" [WithMaxRetries 2]) res b' reqs' evs E)
    as (errs & reqs1 & b1 & _ & [(_ & _ & Hd & _)|(Hk & _ & _ & _ & ->)]).
  - exfalso. rewrite <- Er in Hd. discriminate.
  - change (Z.of_nat (length errs) = 3) in Hk. replace (length errs) with 3%nat by lia. rewrite <- Er. reflexivity.
Defined.

(** ** What one attempt leaves behind *)

Section one_attempt.
Context {W : Type} {MW : MovingWindow W} {BX : BlockRPC} {RX : ReceiptsRPC} {SS : SortSlice} {SSL : SortSliceLaws}.
Implicit Types b : Backend W.

(** An attempt that started with backend [b0] (its request already counted): a latency that is recorded is that
    of the exchange with the backend, and an error is recorded when the exchange ends, or when it
    could not be started. *)
Definition attempt_ok (ctx : Context) (net : http_request -> exchange) (b0 : Backend W) (reqs : list RPCReq) (r : forwarded (W := W)) : Prop :=
  let '(res, b', reqs') := r in
  map req_ID reqs' = map req_ID reqs /\
  match res with
  | inl rs =>
      length rs = length reqs
      /\ (map res_ID rs ≡ₚ map req_ID reqs -> map res_ID rs = map req_ID reqs)
      /\ exists rq resp, build_request b0 ctx reqs' = Some rq /\ ex_build (net rq) = None /\ DoLimited (net rq) = inl resp
           /\ b' = add_latency (ex_end (net rq)) (ex_end (net rq) - ex_start (net rq)) b0
  | inr _ => b' = b0 \/ exists rq, build_request b0 ctx reqs' = Some rq /\
               b' = count_error (match ex_build (net rq) with Some _ => ex_start (net rq) | None => ex_end (net rq) end) b0
  end.

Lemma translate_all_ids target rs : forall rs' tr err,
  translate_all target rs = Returns (rs', tr, err) -> map req_ID rs' = map req_ID rs.
Proof.
  induction rs as [|r rs IH]; intros rs' tr err H; cbn [translate_all] in H.
  - by injection H as <- _ _.
  - case_bool_decide.
    + unfold translate_one in H. destruct (unmarshal_bnhs _) as [blocks|]; cbn [outcome_bind] in H;
        [|by injection H as <- _ _].
      destruct (receipts_params target blocks) as [[p|e]|]; cbn [outcome_bind] in H; [| |discriminate];
        [|by injection H as <- _ _].
      destruct (translate_all target rs) as [[[rs1 tr1] e1]|]; cbn [outcome_bind] in H; [|discriminate].
      injection H as <- _ _. cbn. f_equal. by eapply IH.
    + destruct (translate_all target rs) as [[[rs1 tr1] e1]|]; cbn [outcome_bind] in H; [|discriminate].
      injection H as <- _ _. cbn. f_equal. by eapply IH.
Qed.

Lemma translate_ids isBatch target rs rs' tr err :
  translate isBatch target rs = Returns (rs', tr, err) -> map req_ID rs' = map req_ID rs.
Proof.
  unfold translate. destruct isBatch; [|apply translate_all_ids].
  case_bool_decide as Hb; intros H; by injection H as <- _ _.
Qed.

Lemma deref_all_length {A} (l : list (option A)) xs : deref_all l = Returns xs -> length xs = length l.
Proof.
  revert xs. induction l as [|[x|] l IH]; intros xs H; cbn [deref_all] in H; [by injection H as <-| |discriminate].
  destruct (deref_all l) as [ys|]; cbn [outcome_bind] in H; [|discriminate]. injection H as <-. cbn. f_equal. by apply IH.
Qed.

Lemma set_http_code_length code l : forall xs, set_http_code code l = Returns xs -> length xs = length l.
Proof.
  induction l as [|r l IH]; intros xs H; cbn [set_http_code] in H; [by injection H as <-|].
  destruct (res_Error r); [|discriminate].
  destruct (set_http_code code l) as [ys|]; cbn [outcome_bind] in H; [|discriminate].
  injection H as <-. cbn. f_equal. by apply IH.
Qed.

Lemma enrich_id tr r : res_ID (enrich tr r) = res_ID r.
Proof. unfold enrich. destruct (list_find _ tr) as [[? [? ?]]|]; done. Qed.

Lemma sortBatch_ok reqs rs out : sortBatchRPCResponse reqs rs = Returns out ->
  length out = length rs /\ (map res_ID out ≡ₚ map req_ID reqs -> map res_ID out = map req_ID reqs).
Proof.
  unfold sortBatchRPCResponse. case_bool_decide as Hn; [|discriminate]. injection 1 as <-.
  split; [by rewrite sort_Slice_perm|]. intros Hp. apply sort_Slice_ids; [done|].
  rewrite <- Hp. symmetry. apply fmap_Permutation, sort_Slice_perm.
Qed.

Section exchange.
Context (ctx : Context) (net : http_request -> exchange) (b0 : Backend W) (reqs reqs' : list RPCReq) (Hi : map req_ID reqs' = map req_ID reqs).

Lemma fails_ok err r : fails b0 reqs' err = Returns r -> attempt_ok ctx net b0 reqs r.
Proof. intros H. injection H as <-. split; [done|]. by left. Qed.

Lemma fails_counted rq t err r : build_request b0 ctx reqs' = Some rq ->
  t = match ex_build (net rq) with Some _ => ex_start (net rq) | None => ex_end (net rq) end ->
  fails (count_error t b0) reqs' err = Returns r -> attempt_ok ctx net b0 reqs r.
Proof. intros Hb -> H. injection H as <-. split; [done|]. right. by exists rq. Qed.

Ltac failed Hb Hx :=
  match goal with
  | H : fails _ _ _ = Returns _ |- _ =>
      first [exact (fails_ok _ _ H)|refine (fails_counted _ _ _ _ Hb _ H); by rewrite Hx]
  end.

Lemma receive_ok rq resp tr r : build_request b0 ctx reqs' = Some rq -> ex_build (net rq) = None -> DoLimited (net rq) = inl resp ->
  receive (net rq) tr reqs' resp b0 = Returns r -> attempt_ok ctx net b0 reqs r.
Proof.
  intros Hb Hx Hd H. pose proof (f_equal length Hi) as Hl. rewrite !length_map in Hl.
  unfold receive in H. destruct (negb (StatusCode resp =? 200) && negb (StatusCode resp =? 400)); [failed Hb Hx|].
  destruct (read_body _ _) as [resB|err]; [|destruct (errors_Is (Some err) ErrLimitReaderOverLimit); failed Hb Hx].
  destruct (decode_responses _ resB) as [ptrs|[err []]]; [|failed Hb Hx..].
  destruct (negb _) eqn:En; [failed Hb Hx|]. apply negb_false_iff, Nat.eqb_eq in En.
  destruct (deref_all ptrs) as [rs|] eqn:Ed; cbn [outcome_bind] in H; [|discriminate].
  apply deref_all_length in Ed.
  destruct (if StatusCode resp =? 200 then _ else _) as [rs1|] eqn:Es; cbn [outcome_bind] in H; [|discriminate].
  assert (El : length rs1 = length rs).
  { destruct (StatusCode resp =? 200); [by injection Es as <-|]. by eapply set_http_code_length. }
  destruct (sortBatchRPCResponse reqs' _) as [out|] eqn:Eo; cbn [outcome_bind] in H; [|discriminate].
  injection H as <-. apply sortBatch_ok in Eo as [Ho1 Ho2]. rewrite Hi in Ho2.
  rewrite length_map in Ho1. split; [done|]. split; [lia|]. split; [done|]. by exists rq, resp.
Qed.

Lemma exchange_ok rq tr r : build_request b0 ctx reqs' = Some rq ->
  match ex_build (net rq) with
  | Some err => fails (count_error (ex_start (net rq)) b0) reqs' (wrapErr (Some err) "error creating backend request")
  | None =>
      match DoLimited (net rq) with
      | inl resp => receive (net rq) tr reqs' resp b0
      | inr err =>
          let b := if errors_Is (Some err) ContextCanceled || errors_Is (Some err) ErrTooManyRequests
                   then b0 else count_error (ex_end (net rq)) b0 in
          if errors_Is (Some err) ErrContextCanceled then fails b reqs' err
          else fails b reqs' (wrapErr (Some err) "error in backend request")
      end
  end = Returns r -> attempt_ok ctx net b0 reqs r.
Proof.
  intros Hb H. destruct (ex_build (net rq)) as [err|] eqn:Hx; [failed Hb Hx|].
  destruct (DoLimited (net rq)) as [resp|err] eqn:Hd; [by eapply receive_ok|]. cbn zeta in H.
  destruct (errors_Is (Some err) ContextCanceled || errors_Is (Some err) ErrTooManyRequests);
    destruct (errors_Is (Some err) ErrContextCanceled); failed Hb Hx.
Qed.

End exchange.

Lemma doForward_ok ctx net reqs isBatch now b r :
  doForward ctx net reqs isBatch now b = Returns r -> attempt_ok ctx net (count_request now b) reqs r.
Proof.
  intros H. unfold doForward in H. set (b0 := count_request now b) in *.
  destruct (translate isBatch _ reqs) as [[[reqs1 tr] terr]|] eqn:Et; cbn [outcome_bind] in H; [|discriminate].
  apply translate_ids in Et. destruct terr as [err|]; [by eapply fails_ok|].
  destruct (build_request b0 ctx reqs1) as [rq|] eqn:Eb; [|discriminate]. by eapply exchange_ok.
Qed.

(** C19: one attempt counts one network request, when it starts.  When it succeeds there are as many responses as
    requests, in the order of the requests if their ids match; the request that was built has been
    exchanged with the backend, and the time from its start to its end is recorded as the latency, at
    its end.  When it fails at most one intermittent error is recorded, at the end of the exchange or,
    if the request could not be made, at its start; nothing else about the backend changes. *)
Theorem doForward_bookkeeping ctx net reqs isBatch now b res b' reqs' :
  doForward ctx net reqs isBatch now b = Returns (res, b', reqs') ->
  map req_ID reqs' = map req_ID reqs /\
  match res with
  | inl rs =>
      length rs = length reqs
      /\ (map res_ID rs ≡ₚ map req_ID reqs -> map res_ID rs = map req_ID reqs)
      /\ exists rq resp, build_request b ctx reqs' = Some rq /\ ex_build (net rq) = None /\ DoLimited (net rq) = inl resp
           /\ b' = add_latency (ex_end (net rq)) (ex_end (net rq) - ex_start (net rq)) (count_request now b)
  | inr _ => b' = count_request now b \/ exists rq, build_request b ctx reqs' = Some rq /\
               b' = count_error (match ex_build (net rq) with Some _ => ex_start (net rq) | None => ex_end (net rq) end) (count_request now b)
  end.
Proof. exact (doForward_ok ctx net reqs isBatch now b (res, b', reqs')). Qed.

(** A request that never reached the backend, because its semaphore could not be acquired before
    the context ended, still counts as an intermittent error of the backend: neither error that
    [DoLimited] makes of it is one of the two that [doForward] exempts. *)
Theorem semaphore_failure_counts ctx net reqs isBatch now b reqs1 tr rq e :
  translate isBatch (b_receiptsTarget b) reqs = Returns (reqs1, tr, None) ->
  build_request b ctx reqs1 = Some rq -> ex_build (net rq) = None ->
  ex_acquire (net rq) = Some (ESentinel e) -> e ∈ [ContextCanceled; ContextDeadlineExceeded] ->
  exists err, doForward ctx net reqs isBatch now b
              = Returns (inr err, count_error (ex_end (net rq)) (count_request now b), reqs1).
Proof.
  intros Ht Hb Hbuild Ha He. unfold doForward. change (b_receiptsTarget (count_request now b)) with (b_receiptsTarget b).
  rewrite Ht. cbn [outcome_bind]. change (build_request (count_request now b) ctx reqs1) with (build_request b ctx reqs1).
  rewrite Hb, Hbuild. unfold DoLimited. rewrite Ha.
  apply elem_of_cons in He as [->|He%list_elem_of_singleton]; [|subst e]; cbn; eexists; reflexivity.
Qed.

End one_attempt.

Definition two_calls : list RPCReq := [mkRPCReq "2.0" "eth_chainId" "[]" "1"; mkRPCReq "2.0" "eth_call" "[]" "2"].

(** A network that answers a batch of two in the reverse order. *)
Definition reversed : http_request -> exchange := fun _ =>
  mkExchange Second (3 * Second) None None
    (inl (mkResponse 200 (BodyBytes (mkBody (jtext "[{'jsonrpc':'2.0','id':2,'result':7},{'jsonrpc':'2.0','id':1,'result':8}]")
                                       (fun _ => 512) true)))).

Lemma doForward_bookkeeping_witness :
  exists rs b' reqs', doForward background reversed two_calls true Second (NewBackend (W := Q) "b" "http://b" "" [])
      = Returns (inl rs, b', reqs') /\ length rs = 2%nat /\ map res_ID rs = ["1"; "2"].
Proof.
  destruct (doForward background reversed two_calls true Second (NewBackend (W := Q) "b" "http://b" "" []))
    as [[[[rs|e] b'] reqs']|] eqn:E; [|vm_compute in E; discriminate..].
  destruct (doForward_bookkeeping background reversed two_calls true Second (NewBackend (W := Q) "b" "http://b" ""  [])
    _ _ _ E) as (_ & Hl & Ho & _).
  exists rs, b', reqs'. split; [done|]. split; [exact Hl|]. apply Ho.
  vm_compute in E. injection E as <- _ _. vm_compute. reflexivity.
Defined.

(** A client that goes away while its request waits for the semaphore. *)
Definition cancelled : http_request -> exchange := fun _ =>
  mkExchange 0 Second None (Some (ESentinel ContextCanceled)) (inr (ENew "")).

Lemma semaphore_failure_counts_witness :
  exists err, doForward background cancelled two_calls true 0 (NewBackend (W := Q) "b" "http://b" "" [])
    = Returns (inr err, count_error Second (count_request 0 (NewBackend (W := Q) "b" "http://b" "" [])), two_calls).
Proof.
  eapply (semaphore_failure_counts background cancelled two_calls true 0 (NewBackend (W := Q) "b" "http://b" "" [])
    two_calls [] _ ContextCanceled); [vm_compute; reflexivity|vm_compute; reflexivity|reflexivity|reflexivity|by left].
Defined.
