(* ===== verification/Tracker.v ===== *)
(** * Consensus trackers (src/consensus_tracker.go)

    A tracker stores the block numbers a group agreed on.  The in-memory tracker is a record; the
    Redis tracker keeps a local and a remote copy and runs a heartbeat that elects a leader with a
    lock in Redis.  Redis and the lock (go-redis, redsync) are the class [Redis] with laws on the
    live value of each key; an operation may always fail with an error. *)

From S2P Require Import Prelude Json JsonFacts Geth Rpc.

(** ** The interface and the in-memory tracker *)

Class ConsensusTracker (T : Type) : Type := {
  GetLatestBlockNumber : T -> Z;
  SetLatestBlockNumber : Z -> T -> T;
  GetSafeBlockNumber : T -> Z;
  SetSafeBlockNumber : Z -> T -> T;
  GetFinalizedBlockNumber : T -> Z;
  SetFinalizedBlockNumber : Z -> T -> T;
}.

Record ConsensusTrackerState : Type := mkTrackerState { Latest : Z; Safe : Z; Finalized : Z }.

Definition InMemoryConsensusTracker : Type := ConsensusTrackerState.

Definition NewInMemoryConsensusTracker : InMemoryConsensusTracker := mkTrackerState 0 0 0.

Definition update (o : ConsensusTrackerState) (ct : InMemoryConsensusTracker) : InMemoryConsensusTracker :=
  mkTrackerState (Latest o) (Safe o) (Finalized o).

#[global] Instance memory_tracker : ConsensusTracker InMemoryConsensusTracker := {|
  GetLatestBlockNumber := Latest;
  SetLatestBlockNumber n ct := mkTrackerState n (Safe ct) (Finalized ct);
  GetSafeBlockNumber := Safe;
  SetSafeBlockNumber n ct := mkTrackerState (Latest ct) n (Finalized ct);
  GetFinalizedBlockNumber := Finalized;
  SetFinalizedBlockNumber n ct := mkTrackerState (Latest ct) (Safe ct) n;
|}.

Definition Valid (ct : InMemoryConsensusTracker) : bool :=
  (0 <? GetLatestBlockNumber ct) && (0 <? GetSafeBlockNumber ct) && (0 <? GetFinalizedBlockNumber ct).

Definition Behind (ct other : InMemoryConsensusTracker) : bool :=
  (GetLatestBlockNumber ct <? GetLatestBlockNumber other)
  || (GetSafeBlockNumber ct <? GetSafeBlockNumber other)
  || (GetFinalizedBlockNumber ct <? GetFinalizedBlockNumber other).

(** ** The state on the wire *)

Section wire.
Context {HX : HexUtil} {HJ : HexJSON}.

Definition marshal_state (s : ConsensusTrackerState) : string :=
  raw_object [("latest", quoted (hex_String (Latest s))); ("safe", quoted (hex_String (Safe s)));
              ("finalized", quoted (hex_String (Finalized s)))].

Definition decode_state_field (k raw : string) (s : ConsensusTrackerState) : option ConsensusTrackerState :=
  if bool_decide (k = "latest") then (fun n => mkTrackerState n (Safe s) (Finalized s)) <$> hexu64_UnmarshalJSON raw
  else if bool_decide (k = "safe") then (fun n => mkTrackerState (Latest s) n (Finalized s)) <$> hexu64_UnmarshalJSON raw
  else if bool_decide (k = "finalized") then (fun n => mkTrackerState (Latest s) (Safe s) n) <$> hexu64_UnmarshalJSON raw
  else Some s.

Definition unmarshal_state (val : string) : option ConsensusTrackerState :=
  decode_struct decode_state_field val (mkTrackerState 0 0 0).

Definition wf_state (s : ConsensusTrackerState) : Prop :=
  in_u64 (Latest s) /\ in_u64 (Safe s) /\ in_u64 (Finalized s).

Context {HXL : HexUtilLaws} {HJL : HexJSONLaws}.

Lemma quantity_member k z : valid_utf8 0 k = true -> in_u64 z -> member_ok (k, quoted (hex_String z)) = true.
Proof. intros Hk Hz. apply member_ok_intro; [done|]. apply (quoted_raw _ ""). by apply hex_utf8. Qed.

Lemma state_roundtrip s : wf_state s -> unmarshal_state (marshal_state s) = Some s.
Proof.
  intros (H1 & H2 & H3). unfold unmarshal_state, marshal_state, decode_struct.
  rewrite json_shape_raw_object; [|done|].
  - cbn [decode_members]. unfold decode_state_field.
    change (to_lower "latest") with "latest". change (to_lower "safe") with "safe".
    change (to_lower "finalized") with "finalized". cbn.
    rewrite !hexu64_roundtrip by done. by destruct s.
  - repeat (apply Forall_cons; split; [by apply quantity_member|]). constructor.
Qed.

Lemma marshal_state_nonempty s : marshal_state s <> "".
Proof. discriminate. Qed.

End wire.

(** ** Redis and its lock *)

(** [rd_Get] answers [None] for [redis.Nil]; the lock operations take the name, the value that
    identifies the holder and the expiry. *)
Class Redis (R : Type) : Type := {
  rd_Get : string -> R -> option string + error;
  rd_Set : string -> string -> Z -> R -> R * option error;
  rl_Lock : string -> Z -> R -> R * (string + error);
  rl_Extend : string -> string -> Z -> R -> R * (bool * option error);
  rl_Unlock : string -> string -> R -> R * (bool * option error);
}.

(** Redis as documented, in terms of the live value of a key. *)
Class RedisLaws (R : Type) `{!Redis R} : Type := {
  rd_live : R -> string -> option string;
  rd_Get_live k r o : rd_Get k r = inl o -> o = rd_live r k;
  rd_Set_live k v ttl r r' : 0 < ttl -> rd_Set k v ttl r = (r', None) ->
    forall k', rd_live r' k' = if bool_decide (k' = k) then Some v else rd_live r k';
  rl_Lock_live k ttl r r' v : rl_Lock k ttl r = (r', inl v) -> v <> "" /\
    forall k', rd_live r' k' = if bool_decide (k' = k) then Some v else rd_live r k';
  rl_Extend_live k v ttl r r' : rl_Extend k v ttl r = (r', (true, None)) ->
    rd_live r k = Some v /\ forall k', rd_live r' k' = rd_live r k';
  (** the lock of another holder is neither extended nor released, and that is an error *)
  rl_Extend_other k v ttl r : rd_live r k <> Some v -> exists err, rl_Extend k v ttl r = (r, (false, Some err));
  rl_Unlock_other k v r : rd_live r k <> Some v -> exists err, rl_Unlock k v r = (r, (false, Some err));
}.

(** ** The Redis tracker *)

Record Mutex : Type := mkMutex { mx_name : string; mx_value : string; mx_expiry : Z }.

Record RedisConsensusTracker : Type := mkRedisTracker {
  rt_namespace : string;
  rt_lockPeriod : Z;
  rt_heartbeatInterval : Z;
  rt_redlock : option Mutex;
  rt_leader : bool;
  rt_leaderName : string;
  rt_local : InMemoryConsensusTracker;
  rt_remote : InMemoryConsensusTracker;
}.

Definition set_leader (l : bool) (ct : RedisConsensusTracker) : RedisConsensusTracker :=
  mkRedisTracker (rt_namespace ct) (rt_lockPeriod ct) (rt_heartbeatInterval ct) (rt_redlock ct) l
    (rt_leaderName ct) (rt_local ct) (rt_remote ct).
Definition set_redlock (m : Mutex) (ct : RedisConsensusTracker) : RedisConsensusTracker :=
  mkRedisTracker (rt_namespace ct) (rt_lockPeriod ct) (rt_heartbeatInterval ct) (Some m) (rt_leader ct)
    (rt_leaderName ct) (rt_local ct) (rt_remote ct).
Definition set_leaderName (n : string) (ct : RedisConsensusTracker) : RedisConsensusTracker :=
  mkRedisTracker (rt_namespace ct) (rt_lockPeriod ct) (rt_heartbeatInterval ct) (rt_redlock ct) (rt_leader ct)
    n (rt_local ct) (rt_remote ct).
Definition set_local (s : InMemoryConsensusTracker) (ct : RedisConsensusTracker) : RedisConsensusTracker :=
  mkRedisTracker (rt_namespace ct) (rt_lockPeriod ct) (rt_heartbeatInterval ct) (rt_redlock ct) (rt_leader ct)
    (rt_leaderName ct) s (rt_remote ct).
Definition set_remote (s : InMemoryConsensusTracker) (ct : RedisConsensusTracker) : RedisConsensusTracker :=
  mkRedisTracker (rt_namespace ct) (rt_lockPeriod ct) (rt_heartbeatInterval ct) (rt_redlock ct) (rt_leader ct)
    (rt_leaderName ct) (rt_local ct) s.

(** Readers see the remote copy, the poller writes the local one. *)
#[global] Instance redis_tracker : ConsensusTracker RedisConsensusTracker := {|
  GetLatestBlockNumber ct := GetLatestBlockNumber (rt_remote ct);
  SetLatestBlockNumber n ct := set_local (SetLatestBlockNumber n (rt_local ct)) ct;
  GetSafeBlockNumber ct := GetSafeBlockNumber (rt_remote ct);
  SetSafeBlockNumber n ct := set_local (SetSafeBlockNumber n (rt_local ct)) ct;
  GetFinalizedBlockNumber ct := GetFinalizedBlockNumber (rt_remote ct);
  SetFinalizedBlockNumber n ct := set_local (SetFinalizedBlockNumber n (rt_local ct)) ct;
|}.

Definition RedisConsensusTrackerOpt : Type := RedisConsensusTracker -> RedisConsensusTracker.

Definition WithLockPeriod (d : Z) : RedisConsensusTrackerOpt := fun ct =>
  mkRedisTracker (rt_namespace ct) d (rt_heartbeatInterval ct) (rt_redlock ct) (rt_leader ct)
    (rt_leaderName ct) (rt_local ct) (rt_remote ct).
Definition WithHeartbeatInterval (d : Z) : RedisConsensusTrackerOpt := fun ct =>
  mkRedisTracker (rt_namespace ct) (rt_lockPeriod ct) d (rt_redlock ct) (rt_leader ct)
    (rt_leaderName ct) (rt_local ct) (rt_remote ct).

Definition NewRedisConsensusTracker (namespace : string) (opts : list RedisConsensusTrackerOpt) : RedisConsensusTracker :=
  fold_left (fun ct opt => opt ct) opts
    (mkRedisTracker namespace (30 * Second) (2 * Second) None false ""
       NewInMemoryConsensusTracker NewInMemoryConsensusTracker).

Definition key (ct : RedisConsensusTracker) (tag : string) : string :=
  "consensus:" +:+ rt_namespace ct +:+ ":" +:+ tag.

(** The text of an error: what the metric RecordGroupConsensusError (Metrics.v) reads without a
    check, which is all of it that can fail. *)
Definition err_Error (err : option error) : outcome string :=
  match err with Some e => Returns (error_Error e) | None => Panics "nil pointer dereference" end.

Section heartbeat.
Context {HX : HexUtil} {HJ : HexJSON} {R : Type} {RD : Redis R}.

(** [HOSTNAME] is the name the leader posts. *)
Definition postPayload (hostname mutexVal : string) (r : R) (ct : RedisConsensusTracker)
    : outcome (R * RedisConsensusTracker) :=
  let jsonState := marshal_state (rt_local ct) in
  match rd_Set (key ct ("state:" +:+ mutexVal)) jsonState (rt_lockPeriod ct) r with
  | (r, Some err) => let! _ := err_Error (Some err) in Returns (r, set_leader false ct)
  | (r, None) =>
      match rd_Set (key ct ("leader:" +:+ mutexVal)) hostname (rt_lockPeriod ct) r with
      | (r, Some err) => let! _ := err_Error (Some err) in Returns (r, set_leader false ct)
      | (r, None) => Returns (r, set_remote (update (rt_local ct) (rt_remote ct)) (set_leaderName hostname ct))
      end
  end.

(** Releasing the lock after an error: the leader steps down only if that works. *)
Definition stepDown (r : R) (ct : RedisConsensusTracker) : outcome (R * RedisConsensusTracker) :=
  match rt_redlock ct with
  | None => Panics "nil pointer dereference"
  | Some m =>
      let '(r, (ok, err)) := rl_Unlock (mx_name m) (mx_value m) r in
      if bool_decide (err <> None) || negb ok
      then let! _ := err_Error err in Returns (r, ct)
      else Returns (r, set_leader false ct)
  end.

(** A tracker that is not the leader reads the leader's name and state. *)
Definition follow (val : string) (r : R) (ct : RedisConsensusTracker) : outcome (R * RedisConsensusTracker) :=
  match rd_Get (key ct ("leader:" +:+ val)) r with
  | inr err => let! _ := err_Error (Some err) in Returns (r, ct)
  | inl leaderName =>
      let ct := set_leaderName (default "" leaderName) ct in
      match rd_Get (key ct ("state:" +:+ val)) r with
      | inr err => let! _ := err_Error (Some err) in Returns (r, ct)
      | inl (Some "") => let! _ := err_Error None in Returns (r, ct)
      | inl None => let! _ := err_Error (Some (ENew "redis: nil")) in Returns (r, ct)
      | inl (Some val) =>
          match unmarshal_state val with
          | None => let! _ := err_Error (Some (json_error)) in Returns (r, ct)
          | Some state => Returns (r, set_remote (update state (rt_remote ct)) ct)
          end
      end
  end.

(** The lock is free: run for leader, with a valid local state that is not behind the remote one. *)
Definition run_for_leader (hostname : string) (r : R) (ct : RedisConsensusTracker)
    : outcome (R * RedisConsensusTracker) :=
  if negb (Valid (rt_local ct)) then Returns (r, ct)
  else if Valid (rt_remote ct) && Behind (rt_local ct) (rt_remote ct) then Returns (r, ct)
  else
    match rl_Lock (key ct "mutex") (rt_lockPeriod ct) r with
    | (r, inr _) => Returns (r, set_leader false ct)
    | (r, inl val) =>
        postPayload hostname val r
          (set_leader true (set_redlock (mkMutex (key ct "mutex") val (rt_lockPeriod ct)) ct))
    end.

Definition stateHeartbeat (hostname : string) (r : R) (ct : RedisConsensusTracker)
    : outcome (R * RedisConsensusTracker) :=
  match rd_Get (key ct "mutex") r with
  | inr err =>
      let! _ := err_Error (Some err) in
      if rt_leader ct then stepDown r ct else Returns (r, ct)
  | inl lock =>
      let val := default "" lock in
      if bool_decide (val = "") then run_for_leader hostname r ct
      else if rt_leader ct then
        match rt_redlock ct with
        | None => Panics "nil pointer dereference"
        | Some m =>
            let '(r, (ok, err)) := rl_Extend (mx_name m) (mx_value m) (mx_expiry m) r in
            if bool_decide (err <> None) || negb ok
            then let! _ := err_Error err in stepDown r ct
            else postPayload hostname val r ct
        end
      else follow val r ct
  end.

End heartbeat.

(** ** Properties of the heartbeat *)

Section heartbeat_facts.
Context {HX : HexUtil} {HJ : HexJSON} {HXL : HexUtilLaws} {HJL : HexJSONLaws}.
Context {R : Type} {RD : Redis R} {RDL : RedisLaws R}.
Implicit Types ct : RedisConsensusTracker.

Lemma key_inj ct t1 t2 : key ct t1 = key ct t2 -> t1 = t2.
Proof. intros H. unfold key in H. apply str_app_inv_head in H. apply str_app_inv_head in H. by apply str_app_inv_head in H. Qed.

(** A payload that is posted makes the remote copy equal to the local one, and is in Redis. *)
Lemma postPayload_posted hostname val r ct r' ct' : 0 < rt_lockPeriod ct ->
  postPayload hostname val r ct = Returns (r', ct') -> rt_leader ct' = true ->
  ct' = set_remote (rt_local ct) (set_leaderName hostname ct) /\
  rd_live r' (key ct "mutex") = rd_live r (key ct "mutex") /\
  rd_live r' (key ct ("state:" +:+ val)) = Some (marshal_state (rt_local ct)).
Proof.
  intros Hp H Hl. unfold postPayload in H.
  destruct (rd_Set (key ct ("state:" +:+ val)) _ _ r) as [r1 [e1|]] eqn:E1; cbn in H; [by injection H as <- <-|].
  destruct (rd_Set (key ct ("leader:" +:+ val)) _ _ r1) as [r2 [e2|]] eqn:E2; cbn in H; [by injection H as <- <-|].
  injection H as <- <-. split; [by destruct (rt_local ct)|].
  pose proof (rd_Set_live _ _ _ _ _ Hp E1) as L1. pose proof (rd_Set_live _ _ _ _ _ Hp E2) as L2.
  rewrite !L2, !L1. split.
  - rewrite !bool_decide_eq_false_2; [done| |]; intros E%key_inj; discriminate.
  - rewrite bool_decide_eq_false_2 by (intros E%key_inj; discriminate). by rewrite bool_decide_eq_true_2.
Qed.

(** A Redis that answers: reads and writes succeed and the holder of a lock can extend it. *)
Record answers : Prop := {
  answers_Get k r : exists o, rd_Get (R := R) k r = inl o;
  answers_Set k v ttl r : exists r', rd_Set (R := R) k v ttl r = (r', None);
  answers_Extend k v ttl r : rd_live r k = Some v -> exists r', rl_Extend k v ttl r = (r', (true, None));
}.

Lemma postPayload_answers hostname val r ct : answers -> exists r',
  postPayload hostname val r ct = Returns (r', set_remote (rt_local ct) (set_leaderName hostname ct)).
Proof.
  intros HA. unfold postPayload. destruct (answers_Set HA (key ct ("state:" +:+ val)) (marshal_state (rt_local ct)) (rt_lockPeriod ct) r) as [r1 ->].
  destruct (answers_Set HA (key ct ("leader:" +:+ val)) hostname (rt_lockPeriod ct) r1) as [r2 ->].
  exists r2. by destruct (rt_local ct).
Qed.

(** What a follower makes of a lock value and a posted state. *)
Lemma follow_posted val s r ct : answers -> wf_state s ->
  rd_live r (key ct ("state:" +:+ val)) = Some (marshal_state s) ->
  exists nm, follow val r ct = Returns (r, set_remote s (set_leaderName nm ct)).
Proof.
  intros HA Hw Hs. unfold follow. destruct (answers_Get HA (key ct ("leader:" +:+ val)) r) as [nm ->].
  change (key (set_leaderName _ ct) ("state:" +:+ val)) with (key ct ("state:" +:+ val)).
  destruct (answers_Get HA (key ct ("state:" +:+ val)) r) as [o Ho]. rewrite Ho.
  apply rd_Get_live in Ho. subst o. rewrite Hs.
  destruct (marshal_state s) as [|c t] eqn:Em; [by apply marshal_state_nonempty in Em|].
  rewrite <- Em, state_roundtrip by done. exists (default "" nm). by destruct s.
Qed.

(** While Redis answers, a heartbeat of the leader followed by a heartbeat of any follower of the
    same namespace makes both serve the leader's local state. *)
Theorem follower_reads_leader host1 host2 r lead m fol : answers -> 0 < rt_lockPeriod lead ->
  wf_state (rt_local lead) -> rt_leader lead = true -> rt_redlock lead = Some m ->
  mx_name m = key lead "mutex" -> mx_value m <> "" -> rd_live r (key lead "mutex") = Some (mx_value m) ->
  rt_leader fol = false -> rt_namespace fol = rt_namespace lead ->
  exists r1 lead1 fol1,
    stateHeartbeat host1 r lead = Returns (r1, lead1) /\ stateHeartbeat host2 r1 fol = Returns (r1, fol1) /\
    rt_leader lead1 = true /\ rt_remote lead1 = rt_local lead /\ rt_remote fol1 = rt_local lead.
Proof.
  intros HA Hp Hw Hl Hm Hn Hv Hlive Hf Hns.
  assert (Hk : forall t, key fol t = key lead t) by (intros t; unfold key; by rewrite Hns).
  assert (Hget : forall r', rd_live r' (key lead "mutex") = Some (mx_value m) ->
            rd_Get (key lead "mutex") r' = inl (Some (mx_value m))).
  { intros r' E. destruct (answers_Get HA (key lead "mutex") r') as [o Ho]. rewrite Ho.
    apply rd_Get_live in Ho. congruence. }
  destruct (answers_Extend HA (mx_name m) (mx_value m) (mx_expiry m) r) as [rx Ex]; [by rewrite Hn|].
  destruct (rl_Extend_live _ _ _ _ _ Ex) as [_ Hx].
  destruct (postPayload_answers host1 (mx_value m) rx lead HA) as [r1 Epost].
  destruct (postPayload_posted host1 (mx_value m) rx lead r1 _ Hp Epost) as (_ & Hmx & Hst); [done|].
  rewrite Hx, Hlive in Hmx. rewrite <- Hk in Hst. destruct (follow_posted _ _ _ fol HA Hw Hst) as [nm Ef].
  exists r1, (set_remote (rt_local lead) (set_leaderName host1 lead)), (set_remote (rt_local lead) (set_leaderName nm fol)).
  split; [|split; [|done]]; unfold stateHeartbeat.
  - rewrite Hget by done. cbn [default]. rewrite bool_decide_eq_false_2 by done. by rewrite Hl, Hm, Ex.
  - rewrite Hk, Hget by done. cbn [default]. rewrite bool_decide_eq_false_2 by done. by rewrite Hf.
Qed.

(** C40: a leader whose lock expired and was taken by another instance is stuck: extending and
    releasing the lock both fail, so the heartbeat changes nothing - it neither steps down nor reads
    the new leader's state - for as long as the other instance holds the lock. *)
Theorem deposed_leader_stuck hostname r ct m val :
  rt_leader ct = true -> rt_redlock ct = Some m -> mx_name m = key ct "mutex" ->
  rd_Get (key ct "mutex") r = inl (Some val) -> val <> "" -> val <> mx_value m ->
  stateHeartbeat hostname r ct = Returns (r, ct).
Proof.
  intros Hl Hm Hn Hg Hv Hne. pose proof (rd_Get_live _ _ _ Hg) as Hlive.
  assert (Ho : rd_live r (mx_name m) <> Some (mx_value m)) by (rewrite Hn; congruence).
  unfold stateHeartbeat, stepDown. rewrite Hg, Hl, Hm. cbn [default]. rewrite bool_decide_eq_false_2 by done.
  destruct (rl_Extend_other _ _ (mx_expiry m) _ Ho) as [e1 ->]. cbn.
  destruct (rl_Unlock_other _ _ _ Ho) as [e2 ->]. done.
Qed.

End heartbeat_facts.

(** ** A Redis that never fails, for the examples *)

Record toy_redis : Type := mkToy { toy_store : gmap string string; toy_next : Z }.

#[global] Instance toy_redis_ops : Redis toy_redis := {|
  rd_Get k r := inl (toy_store r !! k);
  rd_Set k v _ r := (mkToy (<[k := v]> (toy_store r)) (toy_next r), None);
  rl_Lock k _ r :=
    match toy_store r !! k with
    | Some _ => (r, inr (ENew "lock already taken"))
    | None =>
        let v := String (chr 108) (dec_string (toy_next r)) in
        (mkToy (<[k := v]> (toy_store r)) (toy_next r + 1), inl v)
    end;
  rl_Extend k v _ r :=
    if bool_decide (toy_store r !! k = Some v) then (r, (true, None)) else (r, (false, Some (ENew "lock already taken")));
  rl_Unlock k v r :=
    if bool_decide (toy_store r !! k = Some v) then (mkToy (delete k (toy_store r)) (toy_next r), (true, None))
    else (r, (false, Some (ENew "lock already taken")));
|}.

#[global] Instance toy_redis_laws : RedisLaws toy_redis.
Proof.
  refine {| rd_live r k := toy_store r !! k |}; unfold rd_Get, rd_Set, rl_Lock, rl_Extend, rl_Unlock, toy_redis_ops.
  - intros k r o. by injection 1.
  - intros k v ttl r r' _. injection 1 as <-. intros k'. cbn. case_bool_decide as E.
    + subst. apply lookup_insert_eq.
    + by apply lookup_insert_ne.
  - intros k ttl r r' v H. destruct (toy_store r !! k) eqn:E; [done|]. injection H as <- <-. split; [done|].
    intros k'. cbn. case_bool_decide as Ek; [subst; apply lookup_insert_eq|by apply lookup_insert_ne].
  - intros k v ttl r r' H. case_bool_decide; [|done]. by injection H as <-.
  - intros k v ttl r H. rewrite bool_decide_eq_false_2 by done. eauto.
  - intros k v r H. rewrite bool_decide_eq_false_2 by done. eauto.
Defined.

Lemma toy_answers : answers (R := toy_redis).
Proof.
  constructor; unfold rd_Get, rd_Set, rl_Extend, toy_redis_ops; [by eauto|by eauto|].
  intros k v ttl r H. rewrite bool_decide_eq_true_2 by done. eauto.
Qed.

(** A tracker that polled the numbers of [s], and one that leads with lock value [val]. *)
Definition polled (s : ConsensusTrackerState) : RedisConsensusTracker := set_local s (NewRedisConsensusTracker "main" []).
Definition leading (val : string) (s : ConsensusTrackerState) : RedisConsensusTracker :=
  set_leader true (set_redlock (mkMutex "consensus:main:mutex" val (30 * Second)) (polled s)).

Lemma follower_reads_leader_witness :
  exists r1 lead1 fol1,
    stateHeartbeat "a" (mkToy {["consensus:main:mutex" := "l7"]} 8) (leading "l7" (mkTrackerState 30 20 10)) = Returns (r1, lead1)
    /\ stateHeartbeat "b" r1 (polled (mkTrackerState 3 2 1)) = Returns (r1, fol1)
    /\ rt_leader lead1 = true /\ rt_remote lead1 = mkTrackerState 30 20 10 /\ rt_remote fol1 = mkTrackerState 30 20 10.
Proof.
  apply (follower_reads_leader "a" "b" (mkToy {["consensus:main:mutex" := "l7"]} 8) (leading "l7" (mkTrackerState 30 20 10))
           (mkMutex "consensus:main:mutex" "l7" (30 * Second)) (polled (mkTrackerState 3 2 1)) toy_answers);
    try reflexivity; try discriminate. repeat split; vm_compute; congruence.
Defined.

Lemma deposed_leader_stuck_witness :
  stateHeartbeat "a" (mkToy {["consensus:main:mutex" := "l9"]} 10) (leading "l7" (mkTrackerState 30 20 10))
  = Returns (mkToy {["consensus:main:mutex" := "l9"]} 10, leading "l7" (mkTrackerState 30 20 10)).
Proof.
  apply (deposed_leader_stuck "a" _ _ (mkMutex "consensus:main:mutex" "l7" (30 * Second)) "l9"); try reflexivity; discriminate.
Defined.
