(* ===== verification/HaCluster.v ===== *)
(** * Proxies that share a Redis (src/consensus_tracker.go, Init and stateHeartbeat)

    Several proxies run a Redis tracker for the same group.  The heartbeat of each is cut here at its
    Redis commands, so that the commands of different proxies, the writes of the local pollers and the
    expiry of keys interleave freely; run without interference it is [stateHeartbeat] of Tracker.v
    ([heartbeat_commands]).  In every interleaving a proxy serves only numbers that some proxy's poller
    found, and no heartbeat panics ([ha_cluster]). *)

From S2P Require Import Prelude Json Geth Rpc Tracker.

(** ** The heartbeat, one Redis command at a time *)

(** The command a heartbeat is about to send.  The payload is marshalled before it is sent. *)
Inductive hb_command : Type :=
| ReadLock
| ReleaseLock
| ExtendLock (val : string)
| TakeLock
| PostState (val jsonState : string)
| PostLeader (val : string)
| ReadLeader (val : string)
| ReadState (val : string).

(** The goroutine of [Init]: inside a heartbeat, in the select, or returned. *)
Inductive init_state : Type := Beating (cmd : hb_command) | Waiting | Stopped.

Section commands.
Context {HX : HexUtil} {HJ : HexJSON} {R : Type} {RD : Redis R}.

(** A command with the code up to the next one; [Waiting] ends the heartbeat. *)
Definition hb_step (hostname : string) (cmd : hb_command) (r : R) (ct : RedisConsensusTracker)
    : outcome (R * RedisConsensusTracker * init_state) :=
  match cmd with
  | ReadLock =>
      match rd_Get (key ct "mutex") r with
      | inr err =>
          let! _ := err_Error (Some err) in
          Returns (r, ct, if rt_leader ct then Beating ReleaseLock else Waiting)
      | inl lock =>
          let val := default "" lock in
          if bool_decide (val = "") then
            if negb (Valid (rt_local ct)) then Returns (r, ct, Waiting)
            else if Valid (rt_remote ct) && Behind (rt_local ct) (rt_remote ct) then Returns (r, ct, Waiting)
            else Returns (r, ct, Beating TakeLock)
          else if rt_leader ct then Returns (r, ct, Beating (ExtendLock val))
          else Returns (r, ct, Beating (ReadLeader val))
      end
  | ReleaseLock =>
      match rt_redlock ct with
      | None => Panics "nil pointer dereference"
      | Some m =>
          let '(r, (ok, err)) := rl_Unlock (mx_name m) (mx_value m) r in
          if bool_decide (err <> None) || negb ok
          then let! _ := err_Error err in Returns (r, ct, Waiting)
          else Returns (r, set_leader false ct, Waiting)
      end
  | ExtendLock val =>
      match rt_redlock ct with
      | None => Panics "nil pointer dereference"
      | Some m =>
          let '(r, (ok, err)) := rl_Extend (mx_name m) (mx_value m) (mx_expiry m) r in
          if bool_decide (err <> None) || negb ok
          then let! _ := err_Error err in Returns (r, ct, Beating ReleaseLock)
          else Returns (r, ct, Beating (PostState val (marshal_state (rt_local ct))))
      end
  | TakeLock =>
      match rl_Lock (key ct "mutex") (rt_lockPeriod ct) r with
      | (r, inr _) => Returns (r, set_leader false ct, Waiting)
      | (r, inl val) =>
          let ct := set_leader true (set_redlock (mkMutex (key ct "mutex") val (rt_lockPeriod ct)) ct) in
          Returns (r, ct, Beating (PostState val (marshal_state (rt_local ct))))
      end
  | PostState val jsonState =>
      match rd_Set (key ct ("state:" +:+ val)) jsonState (rt_lockPeriod ct) r with
      | (r, Some err) => let! _ := err_Error (Some err) in Returns (r, set_leader false ct, Waiting)
      | (r, None) => Returns (r, ct, Beating (PostLeader val))
      end
  | PostLeader val =>
      match rd_Set (key ct ("leader:" +:+ val)) hostname (rt_lockPeriod ct) r with
      | (r, Some err) => let! _ := err_Error (Some err) in Returns (r, set_leader false ct, Waiting)
      | (r, None) => Returns (r, set_remote (update (rt_local ct) (rt_remote ct)) (set_leaderName hostname ct), Waiting)
      end
  | ReadLeader val =>
      match rd_Get (key ct ("leader:" +:+ val)) r with
      | inr err => let! _ := err_Error (Some err) in Returns (r, ct, Waiting)
      | inl leaderName => Returns (r, set_leaderName (default "" leaderName) ct, Beating (ReadState val))
      end
  | ReadState val =>
      match rd_Get (key ct ("state:" +:+ val)) r with
      | inr err => let! _ := err_Error (Some err) in Returns (r, ct, Waiting)
      | inl (Some "") => let! _ := err_Error None in Returns (r, ct, Waiting)
      | inl None => let! _ := err_Error (Some (ENew "redis: nil")) in Returns (r, ct, Waiting)
      | inl (Some state) =>
          match unmarshal_state state with
          | None => let! _ := err_Error (Some json_error) in Returns (r, ct, Waiting)
          | Some state => Returns (r, set_remote (update state (rt_remote ct)) ct, Waiting)
          end
      end
  end.

(** A heartbeat that nothing interferes with; [None] when [fuel] commands do not complete it. *)
Fixpoint hb_run (fuel : nat) (hostname : string) (cmd : hb_command) (r : R) (ct : RedisConsensusTracker)
    : option (outcome (R * RedisConsensusTracker)) :=
  match fuel with
  | O => None
  | S fuel =>
      match hb_step hostname cmd r ct with
      | Panics msg => Some (Panics msg)
      | Returns (r, ct, Beating cmd) => hb_run fuel hostname cmd r ct
      | Returns (r, ct, _) => Some (Returns (r, ct))
      end
  end.

Lemma post_commands fuel hostname val r ct :
  hb_run (S (S fuel)) hostname (PostState val (marshal_state (rt_local ct))) r ct = Some (postPayload hostname val r ct).
Proof.
  cbn [hb_run hb_step]. unfold postPayload. destruct (rd_Set _ _ _ r) as [r1 [e|]]; cbn [hb_run hb_step]; [done|].
  by destruct (rd_Set _ _ _ r1) as [r2 [e|]].
Qed.

Lemma release_commands fuel hostname r ct : hb_run (S fuel) hostname ReleaseLock r ct = Some (stepDown r ct).
Proof.
  cbn [hb_run hb_step]. unfold stepDown. destruct (rt_redlock ct) as [m|]; [|done].
  destruct (rl_Unlock _ _ r) as [r1 [ok err]]. destruct (_ || _); [|done]. by destruct err.
Qed.

Lemma follow_commands fuel hostname val r ct :
  hb_run (S (S fuel)) hostname (ReadLeader val) r ct = Some (follow val r ct).
Proof.
  cbn [hb_run hb_step]. unfold follow. destruct (rd_Get _ r) as [nm|e]; cbn [hb_run hb_step]; [|done].
  change (key (set_leaderName _ ct) _) with (key ct ("state:" +:+ val)).
  destruct (rd_Get _ r) as [[[|c s]|]|e]; [done| |done|done]. by destruct (unmarshal_state _).
Qed.

(** Four commands complete a heartbeat, and without interference they do what [stateHeartbeat] does. *)
Theorem heartbeat_commands hostname r ct : hb_run 4 hostname ReadLock r ct = Some (stateHeartbeat hostname r ct).
Proof.
  unfold hb_run; fold hb_run. unfold stateHeartbeat, hb_step at 1.
  destruct (rd_Get _ r) as [lock|e]; cbn [outcome_bind err_Error].
  2: { destruct (rt_leader ct); [|done]. by rewrite <- (release_commands 2 hostname). }
  destruct (bool_decide (default "" lock = "")).
  - unfold run_for_leader. destruct (negb _); [done|]. destruct (_ && _); [done|].
    unfold hb_step at 1. destruct (rl_Lock _ _ r) as [r1 [v|e]]; [|done]. by rewrite <- (post_commands 0).
  - destruct (rt_leader ct); [|by rewrite <- (follow_commands 1 hostname)].
    unfold hb_step at 1. destruct (rt_redlock ct) as [m|]; [|done].
    destruct (rl_Extend _ _ _ r) as [r1 [ok err]]. destruct (_ || _); [|by rewrite <- (post_commands 0)].
    destruct err; [|done]. cbn [outcome_bind err_Error]. by rewrite <- (release_commands 1 hostname).
Qed.

End commands.

(** ** The cluster *)

Inductive block_tag : Type := TagLatest | TagSafe | TagFinalized.

(** The setter of a tag: what a poller calls after a round, one tag after the other. *)
Definition set_tag (t : block_tag) (n : Z) (ct : RedisConsensusTracker) : RedisConsensusTracker :=
  match t with
  | TagLatest => SetLatestBlockNumber n ct
  | TagSafe => SetSafeBlockNumber n ct
  | TagFinalized => SetFinalizedBlockNumber n ct
  end.

(** The number a proxy serves for a tag. *)
Definition served_tag (t : block_tag) (ct : RedisConsensusTracker) : Z :=
  match t with
  | TagLatest => GetLatestBlockNumber ct
  | TagSafe => GetSafeBlockNumber ct
  | TagFinalized => GetFinalizedBlockNumber ct
  end.

Definition get_tag (t : block_tag) (s : ConsensusTrackerState) : Z :=
  match t with TagLatest => Latest s | TagSafe => Safe s | TagFinalized => Finalized s end.

(** ** An election *)

Section election.
Context {HX : HexUtil} {HJ : HexJSON} {R : Type} {RD : Redis R} {RDL : RedisLaws R}.
Variable hostname : string.

(** A heartbeat of one tracker, command by command; in between its poller writes the local state, and others
    do to Redis whatever they like. *)
Inductive beat_step : R * RedisConsensusTracker * init_state -> R * RedisConsensusTracker * init_state -> Prop :=
| beat_command r ct cmd r' ct' st : hb_step hostname cmd r ct = Returns (r', ct', st) -> beat_step (r, ct, Beating cmd) (r', ct', st)
| beat_polled r ct cmd t n : beat_step (r, ct, Beating cmd) (r, set_tag t n ct, Beating cmd)
| beat_others r r' ct cmd : beat_step (r, ct, Beating cmd) (r', ct, Beating cmd).

Section from.
Variables (r0 : R) (ct0 : RedisConsensusTracker).

(** What a heartbeat that has not ended keeps. *)
Definition beating (ct : RedisConsensusTracker) : Prop :=
  rt_remote ct = rt_remote ct0 /\ rt_namespace ct = rt_namespace ct0 /\ rt_lockPeriod ct = rt_lockPeriod ct0.

(** In the run from [(r0, ct0)] to [x] the lock was read from [rr] with [ctr], which may run for leader. *)
Definition runs (rr : R) (ctr : RedisConsensusTracker) (x : R * RedisConsensusTracker * init_state) : Prop :=
  rtc beat_step (r0, ct0, Beating ReadLock) (rr, ctr, Beating ReadLock) /\ rtc beat_step (rr, ctr, Beating TakeLock) x /\
  default "" (rd_live rr (key ct0 "mutex")) = "" /\ Valid (rt_local ctr) = true /\
  (Valid (rt_remote ct0) = true -> Behind (rt_local ctr) (rt_remote ct0) = false).

(** The lock was then taken, in [r1]. *)
Definition won (rr : R) (ctr : RedisConsensusTracker) (x : R * RedisConsensusTracker * init_state) : Prop :=
  exists r1 ct1 r2 val, runs rr ctr (r1, ct1, Beating TakeLock) /\
    rl_Lock (key ct0 "mutex") (rt_lockPeriod ct0) r1 = (r2, inl val) /\ runs rr ctr x.

Definition beat_inv (x : R * RedisConsensusTracker * init_state) : Prop :=
  let '(r, ct, st) := x in
  match st with
  | Beating ReadLock => rt_leader ct = false /\ beating ct /\ rtc beat_step (r0, ct0, Beating ReadLock) x
  | Beating (ReadLeader _) | Beating (ReadState _) => rt_leader ct = false
  | Beating TakeLock => rt_leader ct = false /\ beating ct /\ exists rr ctr, runs rr ctr x
  | Beating (PostState _ _) | Beating (PostLeader _) => exists rr ctr, won rr ctr x
  | Beating ReleaseLock | Beating (ExtendLock _) => False
  | Waiting => rt_leader ct = true -> rt_remote ct = rt_local ct /\ exists rr ctr, won rr ctr x
  | Stopped => False
  end.

Lemma beating_key ct t : beating ct -> key ct t = key ct0 t.
Proof. intros (_ & H & _). unfold key. by rewrite H. Qed.

Lemma runs_step rr ctr x y : beat_step x y -> runs rr ctr x -> runs rr ctr y.
Proof. intros Hs (H1 & H2 & H3). split_and!; [done|by eapply rtc_r|apply H3..]. Qed.

Lemma won_step rr ctr x y : beat_step x y -> won rr ctr x -> won rr ctr y.
Proof. intros Hs (r1 & ct1 & r2 & val & H1 & H2 & H3). exists r1, ct1, r2, val. split_and!; [done..|]. by eapply runs_step. Qed.

Lemma ReadLock_beat r ct x : beat_inv (r, ct, Beating ReadLock) -> hb_step hostname ReadLock r ct = Returns x -> beat_inv x.
Proof.
  intros (Hl & Hb & Hr) H. cbn [hb_step] in H. rewrite (beating_key _ _ Hb), Hl in H.
  destruct (rd_Get _ r) as [lock|e] eqn:Eg; cbn [outcome_bind err_Error] in H; [|injection H as <-; cbn; congruence].
  apply rd_Get_live in Eg. case_bool_decide as Ev; [|by injection H as <-].
  destruct (Valid (rt_local ct)) eqn:Vl; cbn [negb] in H; [|injection H as <-; cbn; congruence].
  destruct (Valid (rt_remote ct) && Behind (rt_local ct) (rt_remote ct)) eqn:Vb; injection H as <-; cbn; [congruence|].
  split_and!; [done|apply Hb..|]. exists r, ct. split_and!; [done|done|congruence|done|].
  destruct Hb as (Hrem & _). rewrite <- Hrem. intros Vr. by rewrite Vr in Vb.
Qed.

Lemma TakeLock_beat r ct x : beat_inv (r, ct, Beating TakeLock) -> hb_step hostname TakeLock r ct = Returns x -> beat_inv x.
Proof.
  intros (Hl & Hb & rr & ctr & Hr) H. assert (Hs : beat_step (r, ct, Beating TakeLock) x) by (destruct x as [[? ?] ?]; by apply beat_command).
  pose proof Hb as (_ & _ & Hp). cbn [hb_step] in H. rewrite (beating_key _ _ Hb), Hp in H.
  destruct (rl_Lock _ _ r) as [r1 [v|e]] eqn:El; injection H as <-; cbn; [|done].
  exists rr, ctr, r, ct, r1, v. split_and!; [done|done|]. by eapply runs_step.
Qed.

Lemma beat_step_inv x y : beat_inv x -> beat_step x y -> beat_inv y.
Proof.
  intros HI Hs. pose proof Hs as Hs'. destruct Hs as [r ct cmd r' ct' st H|r ct cmd t n|r r' ct cmd].
  - destruct cmd; try done; [by eapply ReadLock_beat|by eapply TakeLock_beat|..].
    1,2: destruct HI as (rr & ctr & Hw); pose proof (won_step _ _ _ _ Hs' Hw) as Hw'; cbn [hb_step] in H;
         destruct (rd_Set _ _ _ r) as [r1 [e|]]; injection H as <- <- <-; cbn; [done|]; eauto.
    + intros _. split; [by destruct (rt_local ct)|]. eauto.
    + cbn [hb_step] in H. destruct (rd_Get _ r) as [nm|e]; injection H as <- <- <-; cbn in *; congruence.
    + cbn [hb_step] in H. destruct (rd_Get _ r) as [[[|c s]|]|e]; try done; try (injection H as <- <- <-; cbn in *; congruence).
      destruct (unmarshal_state _); injection H as <- <- <-; cbn in *; congruence.
  - destruct cmd; cbn in HI |- *; try done; try (destruct HI as (rr & ctr & Hw); exists rr, ctr; by eapply won_step).
    + destruct HI as (Hl & Hb & Hr). destruct t; (split_and!; [done|apply Hb..|by eapply rtc_r]).
    + destruct HI as (Hl & Hb & rr & ctr & Hr). destruct t; (split_and!; [done|apply Hb..|]; exists rr, ctr; by eapply runs_step).
    + by destruct t.
    + by destruct t.
  - destruct cmd; cbn in HI |- *; try done; try (destruct HI as (rr & ctr & Hw); exists rr, ctr; by eapply won_step).
    + destruct HI as (Hl & Hb & Hr). split_and!; [done|apply Hb..|by eapply rtc_r].
    + destruct HI as (Hl & Hb & rr & ctr & Hr). split_and!; [done|apply Hb..|]. exists rr, ctr. by eapply runs_step.
Qed.

End from.


End election.


Record proxy : Type := mkProxy { px_hostname : string; px_tracker : RedisConsensusTracker; px_init : init_state }.

(** A proxy whose tracker was just made and [Init]ialised. *)
Definition new_proxy (hostname namespace : string) (opts : list RedisConsensusTrackerOpt) : proxy :=
  mkProxy hostname (NewRedisConsensusTracker namespace opts) (Beating ReadLock).

(** The options of the tracker. *)
Inductive tracker_opt : RedisConsensusTrackerOpt -> Prop :=
| opt_lock_period d : tracker_opt (WithLockPeriod d)
| opt_heartbeat_interval d : tracker_opt (WithHeartbeatInterval d).

(** [cl_polled] is a ghost: the numbers the pollers of all proxies wrote. *)
Record cluster (R : Type) : Type := mkCluster {
  cl_redis : R;
  cl_proxies : list proxy;
  cl_polled : list (block_tag * Z);
}.
Arguments mkCluster {R}. Arguments cl_redis {R}. Arguments cl_proxies {R}. Arguments cl_polled {R}.

(** A key is forgotten when it expires; a command that fails may have been executed or not; a lock
    that is not extended or released is reported with an error. *)
Class RedisFrames (R : Type) `{!Redis R, !RedisLaws R} : Prop := {
  rd_Set_frame k v ttl (r : R) r' e : rd_Set k v ttl r = (r', e) ->
    forall k' x, rd_live r' k' = Some x -> rd_live r k' = Some x \/ (k' = k /\ x = v);
  rl_Lock_frame k ttl (r : R) r' a : rl_Lock k ttl r = (r', a) ->
    forall k' x, rd_live r' k' = Some x -> rd_live r k' = Some x \/ k' = k;
  rl_Extend_frame k v ttl (r : R) r' a : rl_Extend k v ttl r = (r', a) ->
    forall k' x, rd_live r' k' = Some x -> rd_live r k' = Some x;
  rl_Unlock_frame k v (r : R) r' a : rl_Unlock k v r = (r', a) ->
    forall k' x, rd_live r' k' = Some x -> rd_live r k' = Some x;
  rl_Extend_error k v ttl (r : R) r' err : rl_Extend k v ttl r = (r', (false, err)) -> err <> None;
  rl_Unlock_error k v (r : R) r' err : rl_Unlock k v r = (r', (false, err)) -> err <> None;
}.

Section cluster_steps.
Context {HX : HexUtil} {HJ : HexJSON} {R : Type} {RD : Redis R} {RDL : RedisLaws R}.
Variable namespace : string.

Inductive cluster_step : cluster R -> cluster R -> Prop :=
| cl_command r ps seen i h ct cmd r' ct' st :
    ps !! i = Some (mkProxy h ct (Beating cmd)) -> hb_step h cmd r ct = Returns (r', ct', st) ->
    cluster_step (mkCluster r ps seen) (mkCluster r' (<[i := mkProxy h ct' st]> ps) seen)
| cl_timer r ps seen i h ct :
    ps !! i = Some (mkProxy h ct Waiting) ->
    cluster_step (mkCluster r ps seen) (mkCluster r (<[i := mkProxy h ct (Beating ReadLock)]> ps) seen)
| cl_done r ps seen i h ct :
    ps !! i = Some (mkProxy h ct Waiting) ->
    cluster_step (mkCluster r ps seen) (mkCluster r (<[i := mkProxy h ct Stopped]> ps) seen)
| cl_poll r ps seen i h ct st t n :
    ps !! i = Some (mkProxy h ct st) -> in_u64 n ->
    cluster_step (mkCluster r ps seen) (mkCluster r (<[i := mkProxy h (set_tag t n ct) st]> ps) ((t, n) :: seen))
| cl_start r ps seen h opts :
    Forall tracker_opt opts ->
    cluster_step (mkCluster r ps seen) (mkCluster r (ps ++ [new_proxy h namespace opts]) seen)
| cl_exit r ps seen i :
    cluster_step (mkCluster r ps seen) (mkCluster r (delete i ps) seen)
| cl_expire r ps seen r' :
    (forall k x, rd_live r' k = Some x -> rd_live r k = Some x) ->
    cluster_step (mkCluster r ps seen) (mkCluster r' ps seen).

(** ** The invariant *)

Definition from_pollers (seen : list (block_tag * Z)) (s : ConsensusTrackerState) : Prop :=
  wf_state s /\ forall t, get_tag t s = 0 \/ (t, get_tag t s) ∈ seen.

Definition payload_ok (seen : list (block_tag * Z)) (json : string) : Prop :=
  exists s, json = marshal_state s /\ from_pollers seen s.

Definition command_ok (seen : list (block_tag * Z)) (ct : RedisConsensusTracker) (st : init_state) : Prop :=
  match st with
  | Beating ReleaseLock | Beating (ExtendLock _) => rt_redlock ct <> None
  | Beating (PostState _ json) => payload_ok seen json
  | _ => True
  end.

Definition tracker_ok (seen : list (block_tag * Z)) (ct : RedisConsensusTracker) : Prop :=
  rt_namespace ct = namespace /\ from_pollers seen (rt_local ct) /\ from_pollers seen (rt_remote ct)
  /\ (rt_leader ct = true -> rt_redlock ct <> None).

Definition proxy_ok (seen : list (block_tag * Z)) (p : proxy) : Prop :=
  tracker_ok seen (px_tracker p) /\ command_ok seen (px_tracker p) (px_init p).

(** Every state posted for the group was marshalled from numbers of the pollers. *)
Definition redis_ok (seen : list (block_tag * Z)) (r : R) : Prop :=
  forall ct val json, rt_namespace ct = namespace ->
    rd_live r (key ct ("state:" +:+ val)) = Some json -> payload_ok seen json.

Definition cluster_ok (c : cluster R) : Prop :=
  redis_ok (cl_polled c) (cl_redis c) /\ Forall (proxy_ok (cl_polled c)) (cl_proxies c).

End cluster_steps.

Section cluster_facts.
Context {HX : HexUtil} {HJ : HexJSON} {HXL : HexUtilLaws} {HJL : HexJSONLaws}.
Context {R : Type} {RD : Redis R} {RDL : RedisLaws R} {RF : RedisFrames R}.
Variable namespace : string.
Implicit Types (ct : RedisConsensusTracker) (seen : list (block_tag * Z)) (r : R).
#[local] Abbreviation tracker_ok := (tracker_ok namespace).
#[local] Abbreviation redis_ok := (redis_ok namespace).

Lemma same_key ct ct' t : rt_namespace ct = rt_namespace ct' -> key ct t = key ct' t.
Proof. intros H. unfold key. by rewrite H. Qed.

Lemma redis_ok_frame seen r r' :
  (forall ct val x, rt_namespace ct = namespace -> rd_live r' (key ct ("state:" +:+ val)) = Some x ->
     rd_live r (key ct ("state:" +:+ val)) = Some x \/ payload_ok seen x) ->
  redis_ok seen r -> redis_ok seen r'.
Proof. intros Hf Hr ct val x Hn Hx. destruct (Hf _ _ _ Hn Hx) as [H|H]; [|done]. by eapply Hr. Qed.

(** Writing a key of the group that is not a state, or a state that is a payload. *)
Lemma redis_ok_write seen r r' ct tag : rt_namespace ct = namespace ->
  (forall k' x, rd_live r' k' = Some x -> rd_live r k' = Some x \/
     (k' = key ct tag /\ ((forall val, tag <> "state:" +:+ val) \/ payload_ok seen x))) ->
  redis_ok seen r -> redis_ok seen r'.
Proof.
  intros Hn Hf. apply redis_ok_frame. intros ct' val x Hn' Hx. destruct (Hf _ _ Hx) as [H|[Hk [Ht|Hp]]]; [by left| |by right].
  exfalso. apply (Ht val). rewrite (same_key ct' ct) in Hk by congruence. by apply key_inj in Hk.
Qed.

(** What a command leads to when the invariant holds. *)
Definition command_result seen (o : outcome (R * RedisConsensusTracker * init_state)) : Prop :=
  exists r ct st, o = Returns (r, ct, st) /\ redis_ok seen r /\ tracker_ok seen ct /\ command_ok seen ct st.

Lemma result_intro seen r ct st :
  redis_ok seen r -> tracker_ok seen ct -> command_ok seen ct st -> command_result seen (Returns (r, ct, st)).
Proof. intros. by exists r, ct, st. Qed.

Lemma tracker_ok_follower seen ct : tracker_ok seen ct -> tracker_ok seen (set_leader false ct).
Proof. intros (H1 & H2 & H3 & _). by split_and!. Qed.

Lemma tracker_ok_name seen n ct : tracker_ok seen ct -> tracker_ok seen (set_leaderName n ct).
Proof. done. Qed.

Lemma tracker_ok_remote seen s ct : from_pollers seen s -> tracker_ok seen ct -> tracker_ok seen (set_remote s ct).
Proof. intros Hs (H1 & H2 & _ & H4). by split_and!. Qed.

Lemma ReadLock_ok seen h r ct : redis_ok seen r -> tracker_ok seen ct -> command_result seen (hb_step h ReadLock r ct).
Proof.
  intros Hr Ht. cbn [hb_step]. destruct (rd_Get _ r) as [lock|e]; cbn.
  - repeat case_match; apply result_intro; try done. by apply Ht.
  - destruct (rt_leader ct) eqn:El; apply result_intro; try done. by apply Ht.
Qed.

Lemma ReleaseLock_ok seen h r ct : redis_ok seen r -> tracker_ok seen ct -> rt_redlock ct <> None ->
  command_result seen (hb_step h ReleaseLock r ct).
Proof.
  intros Hr Ht Hm. cbn [hb_step]. destruct (rt_redlock ct) as [m|] eqn:Em; [|done].
  destruct (rl_Unlock _ _ r) as [r1 [ok err]] eqn:Eu.
  assert (Hr1 : redis_ok seen r1).
  { eapply redis_ok_frame; [|exact Hr]. intros ct' val x _ Hx. left. by eapply rl_Unlock_frame. }
  destruct err as [e|]; cbn [bool_decide orb].
  - rewrite bool_decide_eq_true_2 by done. by apply result_intro.
  - rewrite bool_decide_eq_false_2 by (intros []; done). destruct ok; cbn.
    + apply result_intro; [done|by apply tracker_ok_follower|done].
    + by apply rl_Unlock_error in Eu.
Qed.

Lemma ExtendLock_ok seen h val r ct : redis_ok seen r -> tracker_ok seen ct -> rt_redlock ct <> None ->
  command_result seen (hb_step h (ExtendLock val) r ct).
Proof.
  intros Hr Ht Hm. cbn [hb_step]. destruct (rt_redlock ct) as [m|] eqn:Em; [|done].
  destruct (rl_Extend _ _ _ r) as [r1 [ok err]] eqn:Eu.
  assert (Hr1 : redis_ok seen r1).
  { eapply redis_ok_frame; [|exact Hr]. intros ct' v x _ Hx. left. by eapply rl_Extend_frame. }
  destruct err as [e|].
  - rewrite bool_decide_eq_true_2 by done. apply result_intro; [done|done|]. cbn. by rewrite Em.
  - rewrite bool_decide_eq_false_2 by (intros []; done). destruct ok; cbn.
    + apply result_intro; [done|done|]. exists (rt_local ct). split; [done|]. apply Ht.
    + by apply rl_Extend_error in Eu.
Qed.

Lemma TakeLock_ok seen h r ct : redis_ok seen r -> tracker_ok seen ct -> command_result seen (hb_step h TakeLock r ct).
Proof.
  intros Hr Ht. cbn [hb_step]. destruct (rl_Lock _ _ r) as [r1 a] eqn:El.
  assert (Hr1 : redis_ok seen r1).
  { apply (redis_ok_write seen r r1 ct "mutex"); [apply Ht| |done]. intros k' x Hx.
    destruct (rl_Lock_frame _ _ _ _ _ El _ _ Hx) as [H|H]; [by left|]. right. split; [done|]. by left. }
  destruct a as [v|e]; [|apply result_intro; [done|by apply tracker_ok_follower|done]].
  destruct Ht as (H1 & H2 & H3 & _). apply result_intro; [done|by split_and!|]. by exists (rt_local ct).
Qed.

Lemma PostState_ok seen h val json r ct : redis_ok seen r -> tracker_ok seen ct -> payload_ok seen json ->
  command_result seen (hb_step h (PostState val json) r ct).
Proof.
  intros Hr Ht Hp. cbn [hb_step]. destruct (rd_Set _ _ _ r) as [r1 e] eqn:Es.
  assert (Hr1 : redis_ok seen r1).
  { apply (redis_ok_write seen r r1 ct ("state:" +:+ val)); [apply Ht| |done]. intros k' x Hx.
    destruct (rd_Set_frame _ _ _ _ _ _ Es _ _ Hx) as [H|[H ->]]; [by left|]. right. split; [done|by right]. }
  destruct e; apply result_intro; try done. by apply tracker_ok_follower.
Qed.

Lemma PostLeader_ok seen h val r ct : redis_ok seen r -> tracker_ok seen ct ->
  command_result seen (hb_step h (PostLeader val) r ct).
Proof.
  intros Hr Ht. cbn [hb_step]. destruct (rd_Set _ _ _ r) as [r1 e] eqn:Es.
  assert (Hr1 : redis_ok seen r1).
  { apply (redis_ok_write seen r r1 ct ("leader:" +:+ val)); [apply Ht| |done]. intros k' x Hx.
    destruct (rd_Set_frame _ _ _ _ _ _ Es _ _ Hx) as [H|[H _]]; [by left|]. right. split; [done|by left]. }
  destruct e; apply result_intro; try done; [by apply tracker_ok_follower|].
  apply tracker_ok_remote; [|done]. destruct (rt_local ct) eqn:E. unfold update. cbn. rewrite <- E. apply Ht.
Qed.

Lemma ReadState_ok seen h val r ct : redis_ok seen r -> tracker_ok seen ct ->
  command_result seen (hb_step h (ReadState val) r ct).
Proof.
  intros Hr Ht. cbn [hb_step]. destruct (rd_Get _ r) as [o|e] eqn:Eg; [|by apply result_intro].
  apply rd_Get_live in Eg. destruct o as [state|]; [|by apply result_intro].
  destruct (Hr ct val state) as (s & -> & Hs); [apply Ht|done|].
  destruct (marshal_state s) as [|c t] eqn:Em; [by apply marshal_state_nonempty in Em|].
  rewrite <- Em, state_roundtrip by apply Hs. apply result_intro; [done| |done].
  apply tracker_ok_remote; [|done]. by destruct s.
Qed.

(** Any command returns and keeps the invariant. *)
Lemma hb_step_ok seen h cmd r ct : redis_ok seen r -> proxy_ok namespace seen (mkProxy h ct (Beating cmd)) ->
  command_result seen (hb_step h cmd r ct).
Proof.
  intros Hr [Ht Hc]. cbn in Ht, Hc. destruct cmd.
  - by apply ReadLock_ok.
  - by apply ReleaseLock_ok.
  - by apply ExtendLock_ok.
  - by apply TakeLock_ok.
  - by apply PostState_ok.
  - by apply PostLeader_ok.
  - cbn [hb_step]. destruct (rd_Get _ r); by apply result_intro.
  - by apply ReadState_ok.
Qed.

Lemma from_pollers_seen seen x s : from_pollers seen s -> from_pollers (x :: seen) s.
Proof. intros [Hw Hs]. split; [done|]. intros t. destruct (Hs t); [by left|]. right. by apply list_elem_of_further. Qed.

Lemma payload_seen seen x json : payload_ok seen json -> payload_ok (x :: seen) json.
Proof. intros (s & -> & Hs). exists s. split; [done|]. by apply from_pollers_seen. Qed.

Lemma proxy_ok_seen seen x p : proxy_ok namespace seen p -> proxy_ok namespace (x :: seen) p.
Proof.
  intros [(H1 & H2 & H3 & H4) Hc]. split; [split_and!; eauto using from_pollers_seen|].
  unfold command_ok in *. repeat case_match; eauto using payload_seen.
Qed.

Lemma set_tag_ok seen t n ct st h : in_u64 n -> proxy_ok namespace seen (mkProxy h ct st) ->
  proxy_ok namespace ((t, n) :: seen) (mkProxy h (set_tag t n ct) st).
Proof.
  intros Hn Hp. apply (proxy_ok_seen _ (t, n)) in Hp as [(H1 & H2 & H3 & H4) Hc]. cbn in *.
  split; [|by destruct t]. unfold tracker_ok. destruct H2 as [(W1 & W2 & W3) Hs].
  split_and!; [by destruct t| |by destruct t|by destruct t].
  split; [by destruct t|]. intros u. destruct t, u; first [apply (Hs TagLatest)|apply (Hs TagSafe)|apply (Hs TagFinalized)|idtac];
    right; by apply list_elem_of_here.
Qed.

Lemma fresh_tracker seen opts : Forall tracker_opt opts -> tracker_ok seen (NewRedisConsensusTracker namespace opts).
Proof.
  intros Ho. unfold NewRedisConsensusTracker.
  assert (Hz : from_pollers seen NewInMemoryConsensusTracker).
  { split; [repeat split; vm_compute; congruence|]. intros []; by left. }
  assert (H0 : tracker_ok seen (mkRedisTracker namespace (30 * Second) (2 * Second) None false ""
                 NewInMemoryConsensusTracker NewInMemoryConsensusTracker)) by done.
  revert H0. generalize (mkRedisTracker namespace (30 * Second) (2 * Second) None false ""
                 NewInMemoryConsensusTracker NewInMemoryConsensusTracker).
  induction Ho as [|o opts [d|d] _ IH]; intros ct Hct; [done| |]; cbn; by apply IH.
Qed.

Lemma cluster_step_ok c c' : cluster_step namespace c c' -> cluster_ok namespace c -> cluster_ok namespace c'.
Proof.
  intros H [Hr Hp]. cbn in Hr, Hp. destruct H as [r ps seen i h ct cmd r' ct' st Hi Hs|r ps seen i h ct Hi|r ps seen i h ct Hi
    |r ps seen i h ct st t n Hi Hn|r ps seen h opts Ho|r ps seen i|r ps seen r' He]; cbn in Hr, Hp; split; cbn.
  - destruct (hb_step_ok seen h cmd r ct) as (r1 & ct1 & st1 & E & Hr1 & _); [done|by eapply Forall_lookup_1 in Hp|].
    rewrite Hs in E. by injection E as <- _ _.
  - destruct (hb_step_ok seen h cmd r ct) as (r1 & ct1 & st1 & E & Hr1 & Ht & Hc); [done|by eapply Forall_lookup_1 in Hp|].
    rewrite Hs in E. injection E as <- <- <-. by apply Forall_insert.
  - done.
  - apply Forall_insert; [done|]. eapply Forall_lookup_1 in Hp; [|done]. by split; [apply Hp|].
  - done.
  - apply Forall_insert; [done|]. eapply Forall_lookup_1 in Hp; [|done]. by split; [apply Hp|].
  - intros ct' val x Hn' Hx. apply payload_seen. by eapply Hr.
  - apply Forall_insert; [eapply Forall_impl; [done|intros; by apply proxy_ok_seen]|].
    apply set_tag_ok; [done|]. by eapply Forall_lookup_1 in Hp.
  - done.
  - apply Forall_app; split; [done|]. apply Forall_singleton. split; [by apply fresh_tracker|done].
  - done.
  - by apply Forall_delete.
  - eapply redis_ok_frame; [|done]. intros; left; by apply He.
  - done.
Qed.

(** Nothing has been posted for the group and no proxy runs. *)
Definition cluster_start (r : R) : cluster R := mkCluster r [] [].

(** C24: proxies that share a Redis, from an empty group on and in every interleaving of their Redis
    commands, pollers, starts, exits and expiring keys: each number a proxy serves is the zero it
    started with or one that the poller of some proxy wrote for the same tag, and the next command of
    its heartbeat never panics. *)
Theorem ha_cluster r c i p :
  (forall k, rd_live r k = None) -> rtc (cluster_step namespace) (cluster_start r) c -> cl_proxies c !! i = Some p ->
  (forall t, served_tag t (px_tracker p) = 0 \/ (t, served_tag t (px_tracker p)) ∈ cl_polled c)
  /\ (forall cmd, px_init p = Beating cmd -> returns (hb_step (px_hostname p) cmd (cl_redis c) (px_tracker p))).
Proof.
  intros Hr Hs Hi.
  assert (H0 : cluster_ok namespace (cluster_start r)) by (split; [intros ct val x _ Hx; by rewrite Hr in Hx|constructor]).
  assert (Hc : cluster_ok namespace c).
  { revert H0. clear Hr Hi. induction Hs as [|c0 c1 c2 H _ IH]; [done|]. intros H0. apply IH. by eapply cluster_step_ok. }
  destruct Hc as [Hrc Hpc]. eapply Forall_lookup_1 in Hpc; [|done]. split.
  - intros t. destruct Hpc as [(_ & _ & [_ H] & _) _]. specialize (H t). by destruct t.
  - intros cmd Ec. destruct p as [h ct st]. cbn in *. subst st.
    destruct (hb_step_ok _ _ _ _ _ Hrc Hpc) as (r1 & ct1 & st1 & E & _). by eexists.
Qed.

End cluster_facts.

(** ** A run of two proxies on the Redis of the examples *)

#[global] Instance toy_redis_frames : RedisFrames toy_redis.
Proof.
  constructor; unfold rd_Set, rl_Lock, rl_Extend, rl_Unlock, toy_redis_ops, rd_live, toy_redis_laws.
  - intros k v ttl r r' e. injection 1 as <- _. cbn. intros k' x Hx. apply lookup_insert_Some in Hx as [[<- <-]|[_ Hx]]; auto.
  - intros k ttl r r' a. destruct (toy_store r !! k); injection 1 as <- _; [by auto|]. cbn. intros k' x Hx.
    apply lookup_insert_Some in Hx as [[<- _]|[_ Hx]]; auto.
  - intros k v ttl r r' a H. case_bool_decide; injection H as <- _; done.
  - intros k v r r' a H. case_bool_decide; injection H as <- _; [|done]. cbn. intros k' x Hx.
    by apply lookup_delete_Some in Hx as [_ Hx].
  - intros k v ttl r r' err H. case_bool_decide; [done|]. by injection H as _ <-.
  - intros k v r r' err H. case_bool_decide; [done|]. by injection H as _ <-.
Qed.

(** One proxy polls, takes the lock and posts its state; the other one follows it. *)
Ltac proxy_command i := eapply rtc_l; [eapply (cl_command _ _ _ _ i); [reflexivity|vm_compute; reflexivity]|].
Ltac proxy_polls i t n := eapply rtc_l; [eapply (cl_poll _ _ _ _ i _ _ _ t n); [reflexivity|vm_compute; split; congruence]|].
Ltac proxy_starts h := eapply rtc_l; [apply (cl_start _ _ _ _ h []); constructor|].

Lemma ha_cluster_witness :
  exists c p, rtc (cluster_step "main") (cluster_start (mkToy ∅ 1)) c /\ cl_proxies c !! 1%nat = Some p
    /\ served_tag TagLatest (px_tracker p) = 30 /\ (TagLatest, 30) ∈ cl_polled c.
Proof.
  assert (H : exists c, rtc (cluster_step "main") (cluster_start (mkToy ∅ 1)) c /\
            (px_tracker <$> cl_proxies c !! 1%nat) = Some (set_remote (mkTrackerState 30 20 10)
               (set_leaderName "a" (NewRedisConsensusTracker "main" [])))).
  { eexists. split.
    - proxy_starts "a". proxy_starts "b".
      proxy_polls 0%nat TagLatest 30. proxy_polls 0%nat TagSafe 20. proxy_polls 0%nat TagFinalized 10.
      proxy_command 0%nat. proxy_command 0%nat. proxy_command 0%nat. proxy_command 0%nat.
      proxy_command 1%nat. proxy_command 1%nat. proxy_command 1%nat. apply rtc_refl.
    - reflexivity. }
  destruct H as (c & Hs & Hp). destruct (cl_proxies c !! 1%nat) as [p|] eqn:Ep; [|discriminate].
  injection Hp as Hp. destruct (ha_cluster "main" (mkToy ∅ 1) c 1 p (lookup_empty (M := gmap string)) Hs Ep) as [H _].
  specialize (H TagLatest). rewrite Hp in H. exists c, p. split_and!; [done|done|by rewrite Hp|].
  by destruct H.
Defined.
