(* ===== verification/Consensus.v ===== *)
(** * The consensus poller (src/consensus_poller.go) and the data of a backend group (src/backend.go)

    A backend is identified by its position in the group, which stands for its pointer.  Clock
    readings are arguments, and so are the orders in which Go ranges over a map.  What the poller asks
    of a backend goes through [ForwardRPC]; the poller's loop over the candidates is written against
    the interface [BlockFetcher], which [fetchBlock] implements. *)

From S2P Require Import Prelude Json JsonFacts Geth Rpc Util Http SlidingWindow Backend BackendFacts Tracker.

(** ** The group *)

Definition RoutingStrategy : Type := string.
Definition ConsensusAwareRoutingStrategy : string := "consensus_aware".
Definition MulticallRoutingStrategy : string := "multicall".
Definition FallbackRoutingStrategy : string := "fallback".

Record BackendGroup (W : Type) : Type := mkBackendGroup {
  bg_Name : string;
  bg_Backends : list (Backend W);
  bg_WeightedRouting : bool;
  bg_FallbackBackends : gmap string bool;
  bg_routingStrategy : string;
  bg_multicallRPCErrorCheck : bool;
}.
Arguments mkBackendGroup {W}.
Arguments bg_Name {W}.
Arguments bg_Backends {W}.
Arguments bg_WeightedRouting {W}.
Arguments bg_FallbackBackends {W}.
Arguments bg_routingStrategy {W}.
Arguments bg_multicallRPCErrorCheck {W}.

(** ** The poller *)

Record backendState : Type := mkBackendState {
  latestBlockNumber : Z;
  latestBlockHash : string;
  safeBlockNumber : Z;
  finalizedBlockNumber : Z;
  peerCount : Z;
  inSync : bool;
  lastUpdate : Z;
  bannedUntil : Z;
}.

(** [&backendState{}] *)
Definition zeroState : backendState := mkBackendState 0 "" 0 0 0 false 0 0.

Record ConsensusPoller (T : Type) : Type := mkPoller {
  cp_listeners : list nat;
  cp_backendState : gmap nat backendState;
  cp_consensusGroup : list nat;
  cp_tracker : T;
  cp_minPeerCount : Z;
  cp_banPeriod : Z;
  cp_maxUpdateThreshold : Z;
  cp_maxBlockLag : Z;
  cp_maxBlockRange : Z;
  cp_interval : Z;
}.
Arguments mkPoller {T}.
Arguments cp_listeners {T}.
Arguments cp_backendState {T}.
Arguments cp_consensusGroup {T}.
Arguments cp_tracker {T}.
Arguments cp_minPeerCount {T}.
Arguments cp_banPeriod {T}.
Arguments cp_maxUpdateThreshold {T}.
Arguments cp_maxBlockLag {T}.
Arguments cp_maxBlockRange {T}.
Arguments cp_interval {T}.

(** Assignment to a field of the poller. *)
Definition poller_eta {T} (cp : ConsensusPoller T) : ConsensusPoller T :=
  mkPoller (cp_listeners cp) (cp_backendState cp) (cp_consensusGroup cp) (cp_tracker cp) (cp_minPeerCount cp)
    (cp_banPeriod cp) (cp_maxUpdateThreshold cp) (cp_maxBlockLag cp) (cp_maxBlockRange cp) (cp_interval cp).

Tactic Notation "set_poller" constr(cp) uconstr(f) constr(v) :=
  let fc := constr:(f cp) in
  let e := eval cbv beta delta [poller_eta] in (poller_eta cp) in
  match e with
  | context C [fc] => let r := context C [v] in exact r
  end.

Section group.
Context {W : Type}.
Implicit Types bg : BackendGroup W.

Definition set_Backends (bs : list (Backend W)) bg : BackendGroup W :=
  mkBackendGroup (bg_Name bg) bs (bg_WeightedRouting bg) (bg_FallbackBackends bg) (bg_routingStrategy bg)
    (bg_multicallRPCErrorCheck bg).

(** The backend behind a pointer, and assignment through it. *)
Definition backend_at bg (be : nat) : outcome (Backend W) :=
  match bg_Backends bg !! be with
  | Some b => Returns b
  | None => Panics "nil pointer dereference"
  end.

Definition set_backend (be : nat) (b : Backend W) bg : BackendGroup W :=
  set_Backends (<[be := b]> (bg_Backends bg)) bg.

(** The backends whose name is configured as a fallback, or as a primary. *)
Definition select_backends (p : string -> bool) bg : list nat :=
  filter (fun be => match bg_Backends bg !! be with Some b => p (b_Name b) | None => false end = true)
    (seq 0 (length (bg_Backends bg))).

Definition Fallbacks bg : list nat :=
  select_backends (fun name => match bg_FallbackBackends bg !! name with Some fallback => fallback | None => false end) bg.

Definition Primaries bg : list nat :=
  select_backends (fun name => match bg_FallbackBackends bg !! name with Some fallback => negb fallback | None => false end) bg.

End group.

Section poller.
Context {T : Type} {CT : ConsensusTracker T} {W : Type} {MW : MovingWindow W}.
Implicit Types cp : ConsensusPoller T.
Implicit Types bg : BackendGroup W.

Definition set_listeners (l : list nat) cp : ConsensusPoller T := ltac:(set_poller cp cp_listeners l).
Definition set_states (m : gmap nat backendState) cp : ConsensusPoller T := ltac:(set_poller cp cp_backendState m).
Definition set_consensusGroup (g : list nat) cp : ConsensusPoller T := ltac:(set_poller cp cp_consensusGroup g).
Definition set_tracker (t : T) cp : ConsensusPoller T := ltac:(set_poller cp cp_tracker t).

(** ** Accessors, options and the constructor *)

Definition bs_IsBanned (now : Z) (bs : backendState) : bool := now <? bannedUntil bs.

Definition GetLatestBlock (bs : backendState) : Z * string := (latestBlockNumber bs, latestBlockHash bs).

Definition GetConsensusGroup cp : list nat := cp_consensusGroup cp.
Definition cp_GetLatestBlockNumber cp : Z := GetLatestBlockNumber (cp_tracker cp).
Definition cp_GetSafeBlockNumber cp : Z := GetSafeBlockNumber (cp_tracker cp).
Definition cp_GetFinalizedBlockNumber cp : Z := GetFinalizedBlockNumber (cp_tracker cp).

Definition ConsensusOpt : Type := ConsensusPoller T -> ConsensusPoller T.

Definition AddListener (l : nat) cp : ConsensusPoller T := set_listeners (cp_listeners cp ++ [l]) cp.
Definition ClearListeners cp : ConsensusPoller T := set_listeners [] cp.
Definition WithTracker (tracker : T) : ConsensusOpt := set_tracker tracker.
Definition WithListener (l : nat) : ConsensusOpt := AddListener l.
Definition WithBanPeriod (d : Z) : ConsensusOpt := fun cp => ltac:(set_poller cp cp_banPeriod d).
Definition WithMaxUpdateThreshold (d : Z) : ConsensusOpt := fun cp => ltac:(set_poller cp cp_maxUpdateThreshold d).
Definition WithMaxBlockLag (n : Z) : ConsensusOpt := fun cp => ltac:(set_poller cp cp_maxBlockLag n).
Definition WithMaxBlockRange (n : Z) : ConsensusOpt := fun cp => ltac:(set_poller cp cp_maxBlockRange n).
Definition WithMinPeerCount (n : Z) : ConsensusOpt := fun cp => ltac:(set_poller cp cp_minPeerCount n).
Definition WithPollerInterval (d : Z) : ConsensusOpt := fun cp => ltac:(set_poller cp cp_interval d).

Definition DefaultPollerInterval : Z := 1 * Second.

(** Every backend starts again from the zero state. *)
Definition Reset bg cp : ConsensusPoller T :=
  set_states (foldr (fun be m => <[be := zeroState]> m) (cp_backendState cp) (seq 0 (length (bg_Backends bg)))) cp.

(** [tracker] is the one used when no option sets one. *)
Definition NewConsensusPoller (tracker : T) bg (opts : list ConsensusOpt) : ConsensusPoller T :=
  Reset bg (fold_left (fun cp opt => opt cp) opts
    {| cp_listeners := []; cp_backendState := ∅; cp_consensusGroup := []; cp_tracker := tracker;
       cp_minPeerCount := 3; cp_banPeriod := 5 * Minute; cp_maxUpdateThreshold := 30 * Second;
       cp_maxBlockLag := 8; cp_maxBlockRange := 0; cp_interval := DefaultPollerInterval |}).

(** [cp.backendState[be]] of a backend that was never registered is a nil pointer. *)
Definition state_of cp (be : nat) : outcome backendState :=
  match cp_backendState cp !! be with
  | Some bs => Returns bs
  | None => Panics "nil pointer dereference"
  end.

Definition set_state (be : nat) (bs : backendState) cp : ConsensusPoller T :=
  set_states (<[be := bs]> (cp_backendState cp)) cp.

Definition GetBackendState cp (be : nat) : outcome backendState := state_of cp be.
Definition GetLastUpdate cp (be : nat) : outcome Z := let! bs := state_of cp be in Returns (lastUpdate bs).
Definition IsBanned (now : Z) cp (be : nat) : outcome bool := let! bs := state_of cp be in Returns (bs_IsBanned now bs).
Definition BannedUntil cp (be : nat) : outcome Z := let! bs := state_of cp be in Returns (bannedUntil bs).

(** A banned node may start from any block when it is back. *)
Definition Ban (now : Z) bg (be : nat) cp : outcome (ConsensusPoller T) :=
  let! b := backend_at bg be in
  if b_forcedCandidate b then Returns cp
  else
    let! bs := state_of cp be in
    Returns (set_state be (mkBackendState 0 (latestBlockHash bs) 0 0 (peerCount bs) (inSync bs) (lastUpdate bs)
                             (now + cp_banPeriod cp)) cp).

Definition Unban (now : Z) (be : nat) cp : outcome (ConsensusPoller T) :=
  let! bs := state_of cp be in
  Returns (set_state be (mkBackendState (latestBlockNumber bs) (latestBlockHash bs) (safeBlockNumber bs)
                           (finalizedBlockNumber bs) (peerCount bs) (inSync bs) (lastUpdate bs) (now - 10 * Hour)) cp).

Definition setBackendState (now : Z) (be : nat) (peers : Z) (sync : bool) (latest : Z) (hash : string)
    (safe finalized : Z) cp : outcome (bool * ConsensusPoller T) :=
  let! bs := state_of cp be in
  Returns (negb (bool_decide (latestBlockHash bs = hash)),
           set_state be (mkBackendState latest hash safe finalized peers sync now (bannedUntil bs)) cp).

(** ** What the poller asks of a backend *)

Context {HX : HexUtil} {BX : BlockRPC} {RX : ReceiptsRPC} {SS : SortSlice}.

(** One call over the network: the clock when it starts, and the exchange. *)
Definition call : Type := Z * (http_request -> exchange).

(** [be.ForwardRPC] with the backend behind its pointer. *)
Definition rpc (ctx : Context) (c : call) (be : nat) (method params : string) bg
    : outcome ((RPCRes + error) * BackendGroup W) :=
  let! b := backend_at bg be in
  let! r := ForwardRPC ctx (snd c) "67" method params (fst c) b in
  Returns (fst r, set_backend be (snd r) bg).

Definition string_member (fs : list (string * json)) (k : string) : outcome string :=
  match obj_lookup k fs with
  | Some (JStr s) => Returns s
  | _ => Panics "interface conversion: interface {} is not string"
  end.

(** [hexutil.MustDecodeUint64] *)
Definition MustDecodeUint64 (s : string) : outcome Z :=
  match hex_DecodeUint64 s with Some n => Returns n | None => Panics "invalid hex number" end.

Definition fetchBlock (ctx : Context) (c : call) (be : nat) (block : string) bg
    : outcome ((Z * string + error) * BackendGroup W) :=
  let! r := rpc ctx c be "eth_getBlockByNumber" (json_Marshal (JArr [JStr block; JBool false])) bg in
  match r with
  | (inr err, bg') => Returns (inr err, bg')
  | (inl res, bg') =>
      match res_Result res with
      | Some (GJson (JObj fs)) =>
          let! number := string_member fs "number" in
          let! n := MustDecodeUint64 number in
          let! hash := string_member fs "hash" in
          Returns (inl (n, hash), bg')
      | _ => Returns (inr (ENew "unexpected response to eth_getBlockByNumber on backend"), bg')
      end
  end.

(** A call without parameters marshals a nil slice. *)
Definition getPeerCount (ctx : Context) (c : call) (be : nat) bg : outcome ((Z + error) * BackendGroup W) :=
  let! r := rpc ctx c be "net_peerCount" "null" bg in
  match r with
  | (inr err, bg') => Returns (inr err, bg')
  | (inl res, bg') =>
      match res_Result res with
      | Some (GJson (JStr s)) => let! n := MustDecodeUint64 s in Returns (inl n, bg')
      | _ => Returns (inr (ENew "unexpected response to net_peerCount on backend"), bg')
      end
  end.

(** [strconv.ParseBool] *)
Definition ParseBool (s : string) : option bool :=
  if bool_decide (s ∈ ["1"; "t"; "T"; "true"; "TRUE"; "True"]) then Some true
  else if bool_decide (s ∈ ["0"; "f"; "F"; "false"; "FALSE"; "False"]) then Some false
  else None.

Definition isInSync (ctx : Context) (c : call) (be : nat) bg : outcome ((bool + error) * BackendGroup W) :=
  let! r := rpc ctx c be "eth_syncing" "null" bg in
  match r with
  | (inr err, bg') => Returns (inr err, bg')
  | (inl res, bg') =>
      match res_Result res with
      | Some (GJson (JBool syncing)) => Returns (inl (negb syncing), bg')
      | Some (GJson (JStr s)) =>
          match ParseBool s with
          | Some syncing => Returns (inl (negb syncing), bg')
          | None => Returns (inr (ENew "strconv.ParseBool: invalid syntax"), bg')
          end
      | _ => Returns (inl false, bg')
      end
  end.

(** ** Updating one backend *)

(** Finalized never falls by more than its threshold, safe never by more than its own, and
    finalized <= safe <= latest.  The numbers are [uint64]. *)
Definition allowance (old threshold : Z) : Z := if threshold <? old then u64 (old - threshold) else old.

Definition checkExpectedBlockTags (safeDrift finalizedDrift latest oldSafe safe oldFinalized finalized : Z) : bool :=
  (allowance oldFinalized finalizedDrift <=? finalized) && (allowance oldSafe safeDrift <=? safe)
  && (finalized <=? safe) && (safe <=? latest).

(** The clock readings and calls of one [UpdateBackend]. *)
Record update_env : Type := mkUpdateEnv {
  ue_banned_at : Z;
  ue_healthy_at : Z;
  ue_sync : call;
  ue_peers : call;
  ue_latest : call;
  ue_safe : call;
  ue_finalized : call;
  ue_incr_at : Z;
  ue_set_at : Z;
  ue_ban_at : Z;
}.

(** An answer of zero is a backend's error. *)
Definition count_error_at (now : Z) (be : nat) bg : outcome (BackendGroup W) :=
  let! b := backend_at bg be in Returns (set_backend be (count_error now b) bg).

(** How far an update got: what was learnt about the blocks, or that it stopped. *)
Definition fetch_tag (ctx : Context) (env : update_env) (c : call) (be : nat) (tag : string) bg
    : outcome (option (Z * string) * BackendGroup W) :=
  let! r := fetchBlock ctx c be tag bg in
  match r with
  | (inr _, bg') => Returns (None, bg')
  | (inl (n, hash), bg') =>
      if n =? 0 then let! bg'' := count_error_at (ue_incr_at env) be bg' in Returns (None, bg'')
      else Returns (Some (n, hash), bg')
  end.

Definition fetch_peers (ctx : Context) (env : update_env) (be : nat) (skip : bool) bg
    : outcome (option Z * BackendGroup W) :=
  if skip then Returns (Some 0, bg)
  else
    let! r := getPeerCount ctx (ue_peers env) be bg in
    match r with
    | (inr _, bg') => Returns (None, bg')
    | (inl n, bg') =>
        if n =? 0 then let! bg'' := count_error_at (ue_incr_at env) be bg' in Returns (None, bg'')
        else Returns (Some n, bg')
    end.

(** Everything a full update learns about a backend. *)
Record observation : Type := mkObservation {
  ob_inSync : bool; ob_peers : Z; ob_latest : Z; ob_hash : string; ob_safe : Z; ob_finalized : Z }.

(** [let? x := m in k]: stop with what the network calls left behind when a step learns nothing. *)
#[local] Notation "'let?' ( x , bg ) := m 'in' k" :=
  (let! r := m in match r with (None, bg) => Returns (None, bg) | (Some x, bg) => k end)
  (at level 10, x pattern, bg name, m at level 100, k at level 200).

Definition observe (ctx : Context) (env : update_env) (be : nat) (skipPeers : bool) bg
    : outcome (option observation * BackendGroup W) :=
  let! r := isInSync ctx (ue_sync env) be bg in
  match r with
  | (inr _, bg) => Returns (None, bg)
  | (inl sync, bg) =>
      let? (peers, bg) := fetch_peers ctx env be skipPeers bg in
      let? ((latest, hash), bg) := fetch_tag ctx env (ue_latest env) be "latest" bg in
      let? ((safe, _), bg) := fetch_tag ctx env (ue_safe env) be "safe" bg in
      let? ((finalized, _), bg) := fetch_tag ctx env (ue_finalized env) be "finalized" bg in
      Returns (Some (mkObservation sync peers latest hash safe finalized), bg)
  end.

Definition UpdateBackend (ctx : Context) (env : update_env) (be : nat) bg cp
    : outcome (BackendGroup W * ConsensusPoller T) :=
  let! bs := GetBackendState cp be in
  if bs_IsBanned (ue_banned_at env) bs then Returns (bg, cp)
  else
    let! b := backend_at bg be in
    if negb (IsHealthy (ue_healthy_at env) b) && negb (b_forcedCandidate b)
    then let! cp := Ban (ue_ban_at env) bg be cp in Returns (bg, cp)
    else
      let! r := observe ctx env be (b_skipPeerCountCheck b) bg in
      match r with
      | (None, bg) => Returns (bg, cp)
      | (Some o, bg) =>
          let! r := setBackendState (ue_set_at env) be (ob_peers o) (ob_inSync o) (ob_latest o) (ob_hash o)
                      (ob_safe o) (ob_finalized o) cp in
          let '(_, cp) := r in
          let expected := checkExpectedBlockTags (b_safeBlockDriftThreshold b) (b_finalizedBlockDriftThreshold b)
                            (ob_latest o) (safeBlockNumber bs) (ob_safe o) (finalizedBlockNumber bs) (ob_finalized o) in
          if negb expected && negb (b_forcedCandidate b)
          then let! cp := Ban (ue_ban_at env) bg be cp in Returns (bg, cp)
          else Returns (bg, cp)
      end.

(** ** Candidates *)

(** The three clock readings of the tests on a backend. *)
Record filter_clock : Type := mkFilterClock { fc_banned_at : Z; fc_healthy_at : Z; fc_updated_at : Z }.

(** Whether a backend is taken, before its lag is known. *)
Definition eligible (fc : filter_clock) cp (b : Backend W) (bs : backendState) : bool :=
  if b_forcedCandidate b then true
  else if bs_IsBanned (fc_banned_at fc) bs then false
  else if negb (IsHealthy (fc_healthy_at fc) b) then false
  else if negb (b_skipPeerCountCheck b) && (peerCount bs <? cp_minPeerCount cp) then false
  else if negb (b_skipIsSyncingCheck b) && negb (inSync bs) then false
  else if lastUpdate bs + cp_maxUpdateThreshold cp <? fc_updated_at fc then false
  else true.

Fixpoint collect (clk : nat -> filter_clock) bg cp (backends : list nat) (acc : gmap nat backendState)
    : outcome (gmap nat backendState) :=
  match backends with
  | [] => Returns acc
  | be :: rest =>
      let! bs := GetBackendState cp be in
      let! b := backend_at bg be in
      collect clk bg cp rest (if eligible (clk be) cp b bs then <[be := bs]> acc else acc)
  end.

Definition highestLatestBlock (candidates : gmap nat backendState) : Z :=
  map_fold (fun _ bs hi => if hi <? latestBlockNumber bs then latestBlockNumber bs else hi) 0 candidates.

Definition lagging cp (hi : Z) (bs : backendState) : bool := cp_maxBlockLag cp <? u64 (hi - latestBlockNumber bs).

Definition FilterCandidates (clk : nat -> filter_clock) bg cp (backends : list nat)
    : outcome (gmap nat backendState) :=
  let! candidates := collect clk bg cp backends ∅ in
  let hi := highestLatestBlock candidates in
  Returns (filter (fun kv => lagging cp hi (snd kv) = false) candidates).

Definition getConsensusCandidates (clk : nat -> filter_clock) bg cp : outcome (gmap nat backendState) :=
  let! healthyPrimaries := FilterCandidates clk bg cp (Primaries bg) in
  if bool_decide (healthyPrimaries = ∅) then FilterCandidates clk bg cp (Fallbacks bg)
  else Returns healthyPrimaries.

(** ** The group's consensus *)

(** What the loop needs of a backend: the number and hash it reports for a block, in a given round. *)
Class BlockFetcher : Type :=
  fetch_block : nat -> nat -> string -> BackendGroup W -> outcome ((Z * string + error) * BackendGroup W).

(** [fetchBlock] over the network implements it. *)
Definition network_fetcher (ctx : Context) (calls : nat -> nat -> call) : BlockFetcher :=
  fun round be block bg => fetchBlock ctx (calls round be) be block bg.

(** A number that is zero counts as not set yet. *)
Definition lower (cur new : Z) : Z := if (cur =? 0) || (new <? cur) then new else cur.

(** The lowest latest block with its hash, the lowest finalized and the lowest safe block. *)
Fixpoint lowest (order : list backendState) (acc : Z * string * Z * Z) : Z * string * Z * Z :=
  match order with
  | [] => acc
  | bs :: rest =>
      let '(latest, hash, finalized, safe) := acc in
      lowest rest
        ((if (latest =? 0) || (latestBlockNumber bs <? latest) then (latestBlockNumber bs, latestBlockHash bs)
          else (latest, hash)),
         lower finalized (finalizedBlockNumber bs), lower safe (safeBlockNumber bs))
  end.

Context {BF : BlockFetcher}.

(** One round: ask the candidates for the proposed block until one does not match. *)
Fixpoint agree (round : nat) (order : list nat) (current proposed : Z) (hash : string) (broken : bool) bg
    : outcome (bool * string * bool * BackendGroup W) :=
  match order with
  | [] => Returns (true, hash, broken, bg)
  | be :: rest =>
      let! r := fetch_block round be (hex_String proposed) bg in
      match r with
      | (inr _, bg) => agree round rest current proposed hash broken bg
      | (inl (actual, actualHash), bg) =>
          let hash := if bool_decide (hash = "") then actualHash else hash in
          if negb (actual =? proposed) || negb (bool_decide (actualHash = hash))
          then Returns (false, hash, broken || (actual <=? current), bg)
          else agree round rest current proposed hash broken bg
      end
  end.

(** Walk back one block at a time until a round agrees.  [None]: the fuel ran out. *)
Fixpoint find_consensus (fuel round : nat) (orders : nat -> list nat) (current proposed : Z) (hash : string)
    (broken : bool) bg : outcome (option (Z * string * bool) * BackendGroup W) :=
  match fuel with
  | O => Returns (None, bg)
  | S fuel' =>
      let! r := agree round (orders round) current proposed hash broken bg in
      match r with
      | (true, hash, broken, bg) => Returns (Some (proposed, hash, broken), bg)
      | (false, _, broken, bg) => find_consensus fuel' (S round) orders current (u64 (proposed - 1)) "" broken bg
      end
  end.

(** The orders in which the map of candidates is ranged over: once for the states, then per round. *)
Record range_orders : Type := mkRangeOrders {
  ro_states : gmap nat backendState -> list backendState;
  ro_round : gmap nat backendState -> nat -> list nat;
}.

(** The end of an update: the tracker and the consensus group are set, and the listeners are called
    when the consensus broke. *)
Definition publish (candidates : gmap nat backendState) (lowSafe lowFinalized : Z) cp
    (r : option (Z * string * bool) * BackendGroup W) : option (BackendGroup W * ConsensusPoller T * list nat) :=
  match r with
  | (None, _) => None
  | (Some (proposed, _, broken), bg) =>
      let tracker := SetFinalizedBlockNumber lowFinalized
                       (SetSafeBlockNumber lowSafe (SetLatestBlockNumber proposed (cp_tracker cp))) in
      let group := filter (fun be => is_Some (candidates !! be)) (seq 0 (length (bg_Backends bg))) in
      Some (bg, set_consensusGroup group (set_tracker tracker cp), if broken then cp_listeners cp else [])
  end.

(** The new state and the listeners that were called; [None] when the fuel ran out. *)
Definition UpdateBackendGroupConsensus (fuel : nat) (clk : nat -> filter_clock) (ro : range_orders) bg cp
    : outcome (option (BackendGroup W * ConsensusPoller T * list nat)) :=
  let current := cp_GetLatestBlockNumber cp in
  let! candidates := getConsensusCandidates clk bg cp in
  let '(lowLatest, lowHash, lowFinalized, lowSafe) := lowest (ro_states ro candidates) (0, "", 0, 0) in
  let! r := (if 0 <? lowLatest
             then find_consensus fuel 0 (ro_round ro candidates) current lowLatest lowHash false bg
             else Returns (Some (lowLatest, lowHash, false), bg)) in
  Returns (publish candidates lowSafe lowFinalized cp r).

End poller.
