(* ===== verification/Metrics.v ===== *)
(** * Metrics (src/metrics.go)

    The metrics of the proxy and the functions that record them.  Prometheus is a parameter: creating a
    metric registers it, which panics when its description is not valid or its name is taken, and
    recording with the wrong number of label values, or with a label value that is not valid UTF-8,
    panics as well.  A recording function gives the samples it records. *)

From S2P Require Import Prelude Json JsonFacts JsonRaw Geth Rpc Util Http Backend BackendFacts Tracker Consensus.

(** ** Prometheus *)

Inductive metric_kind : Type := Counter | Gauge | Histogram | Summary.

Record metric : Type := mkMetric {
  mt_kind : metric_kind;
  mt_name : string;
  mt_labels : list string;
  mt_buckets : list Z;
}.

Inductive operation : Type := Inc | Dec | Set_to (x : Q) | Observe (x : Q).

Record sample : Type := mkSample { sa_metric : metric; sa_labels : list string; sa_op : operation }.

Definition name_char (first : bool) (c : Ascii.ascii) : bool :=
  let n := code c in
  ((65 <=? n) && (n <=? 90)) || ((97 <=? n) && (n <=? 122)) || (n =? 95) || (negb first && (48 <=? n) && (n <=? 57)).

Definition valid_name (s : string) : bool :=
  match String.list_ascii_of_string s with
  | [] => false
  | c :: cs => name_char true c && forallb (name_char false) cs
  end.

Fixpoint increasing (l : list Z) : bool :=
  match l with
  | a :: ((b :: _) as l') => (a <? b) && increasing l'
  | _ => true
  end.

(** What a description needs: names in the data model, labels that are distinct and not reserved, and
    buckets in order. *)
Definition valid_metric (m : metric) : bool :=
  valid_name (mt_name m) && forallb (fun l => valid_name l && negb (str_HasPrefix l "__")) (mt_labels m) &&
  bool_decide (NoDup (mt_labels m)) && increasing (mt_buckets m) &&
  negb (bool_decide (match mt_kind m with Histogram => "le" | Summary => "quantile" | _ => "" end ∈ mt_labels m)).

Class Prometheus (M : Type) : Type := {
  prom_NewRegistry : M;
  prom_registered : M -> list string;
  prom_Register : metric -> M -> outcome M;
  prom_Record : sample -> M -> outcome M;
  prom_value : M -> metric -> list string -> Q;
}.

Definition labelled (sa : sample) : Prop :=
  length (sa_labels sa) = length (mt_labels (sa_metric sa)) /\ Forall (fun l => valid_utf8 0 l = true) (sa_labels sa).

Definition apply_op (op : operation) (x : Q) : Q :=
  match op with Inc => (x + 1)%Q | Dec => (x - 1)%Q | Set_to y => y | Observe _ => x end.

Class PrometheusLaws (M : Type) `{!Prometheus M} : Prop := {
  prom_fresh : prom_registered prom_NewRegistry = [];
  prom_Register_ok m r : valid_metric m = true -> mt_name m ∉ prom_registered r ->
    exists r', prom_Register m r = Returns r' /\ prom_registered r' = mt_name m :: prom_registered r;
  prom_Record_ok sa r : labelled sa -> returns (prom_Record sa r);
  prom_Record_value sa r r' : prom_Record sa r = Returns r' ->
    prom_value r' (sa_metric sa) (sa_labels sa) == apply_op (sa_op sa) (prom_value r (sa_metric sa) (sa_labels sa));
  prom_Record_other sa r r' m ls : prom_Record sa r = Returns r' -> (mt_name m, ls) <> (mt_name (sa_metric sa), sa_labels sa) ->
    prom_value r' m ls = prom_value r m ls;
}.

(** ** The metrics *)

Definition MetricsNamespace : string := "proxyd".
Definition RPCRequestSourceHTTP : string := "http".
Definition RPCRequestSourceWS : string := "ws".
Definition BackendProxyd : string := "proxyd".
Definition SourceClient : string := "client".
Definition SourceBackend : string := "backend".
Definition MethodUnknown : string := "unknown".

Definition PayloadSizeBuckets : list Z := [10; 50; 100; 500; 1000; 5000; 10000; 100000; 1000000].
Definition MillisecondDurationBuckets : list Z := [1; 10; 50; 100; 500; 1000; 5000; 10000; 100000].

Definition fq_name (name : string) : string := MetricsNamespace +:+ "_" +:+ name.
Definition counter (name : string) (labels : list string) : metric := mkMetric Counter (fq_name name) labels [].
Definition gauge (name : string) (labels : list string) : metric := mkMetric Gauge (fq_name name) labels [].
Definition summary (name : string) (labels : list string) : metric := mkMetric Summary (fq_name name) labels [].
Definition histogram (name : string) (labels : list string) (buckets : list Z) : metric :=
  mkMetric Histogram (fq_name name) labels buckets.

Definition rpcRequestsTotal : metric := counter "rpc_requests_total" [].
Definition rpcForwardsTotal : metric := counter "rpc_forwards_total" ["auth"; "backend_name"; "method_name"; "source"].
Definition rpcBackendHTTPResponseCodesTotal : metric :=
  counter "rpc_backend_http_response_codes_total" ["auth"; "backend_name"; "method_name"; "status_code"; "batched"].
Definition rpcSupervisorChecksTotal : metric :=
  counter "rpc_supervisor_checks_total" ["supervisor_url"; "http_code"; "rpc_error_code"; "strategy"].
Definition rpcErrorsTotal : metric := counter "rpc_errors_total" ["auth"; "backend_name"; "method_name"; "error_code"].
Definition rpcSpecialErrorsTotal : metric :=
  counter "rpc_special_errors_total" ["auth"; "backend_name"; "method_name"; "error_type"].
Definition rpcBackendRequestDurationSumm : metric :=
  summary "rpc_backend_request_duration_seconds" ["backend_name"; "method_name"; "batched"].
Definition activeClientWsConnsGauge : metric := gauge "active_client_ws_conns" ["auth"].
Definition activeBackendWsConnsGauge : metric := gauge "active_backend_ws_conns" ["backend_name"].
Definition unserviceableRequestsTotal : metric := counter "unserviceable_requests_total" ["auth"; "request_source"].
Definition httpResponseCodesTotal : metric := counter "http_response_codes_total" ["status_code"].
Definition httpRequestDurationSumm : metric := summary "http_request_duration_seconds" [].
Definition wsMessagesTotal : metric := counter "ws_messages_total" ["auth"; "backend_name"; "source"].
Definition redisErrorsTotal : metric := counter "redis_errors_total" ["source"].
Definition requestPayloadSizesGauge : metric := histogram "request_payload_sizes" ["auth"] PayloadSizeBuckets.
Definition responsePayloadSizesGauge : metric := histogram "response_payload_sizes" ["auth"] PayloadSizeBuckets.
Definition cacheHitsTotal : metric := counter "cache_hits_total" ["method"].
Definition cacheMissesTotal : metric := counter "cache_misses_total" ["method"].
Definition cacheErrorsTotal : metric := counter "cache_errors_total" ["method"].
Definition batchRPCShortCircuitsTotal : metric := counter "batch_rpc_short_circuits_total" [].
Definition redisCacheDurationSumm : metric :=
  histogram "redis_cache_duration_milliseconds" ["command"] MillisecondDurationBuckets.
Definition redisFrontendRateLimiterCacheDurationSumm : metric :=
  histogram "redis_frontend_rate_limiter_cache_duration_milliseconds" ["command"] MillisecondDurationBuckets.
Definition tooManyRequestErrorsTotal : metric := counter "too_many_request_errors_total" ["backend_name"].
Definition batchSizeHistogram : metric := histogram "batch_size_summary" [] [1; 5; 10; 25; 50; 100].
Definition frontendRateLimitTakeErrors : metric := counter "rate_limit_take_errors" [].
Definition consensusLatestBlock : metric := gauge "group_consensus_latest_block" ["backend_group_name"].
Definition consensusSafeBlock : metric := gauge "group_consensus_safe_block" ["backend_group_name"].
Definition consensusFinalizedBlock : metric := gauge "group_consensus_finalized_block" ["backend_group_name"].
Definition consensusHAError : metric := counter "group_consensus_ha_error" ["error"].
Definition consensusHALatestBlock : metric := gauge "group_consensus_ha_latest_block" ["backend_group_name"; "leader"].
Definition consensusHASafeBlock : metric := gauge "group_consensus_ha_safe_block" ["backend_group_name"; "leader"].
Definition consensusHAFinalizedBlock : metric := gauge "group_consensus_ha_finalized_block" ["backend_group_name"; "leader"].
Definition backendLatestBlockBackend : metric := gauge "backend_latest_block" ["backend_name"].
Definition backendSafeBlockBackend : metric := gauge "backend_safe_block" ["backend_name"].
Definition backendFinalizedBlockBackend : metric := gauge "backend_finalized_block" ["backend_name"].
Definition backendUnexpectedBlockTagsBackend : metric := gauge "backend_unexpected_block_tags" ["backend_name"].
Definition consensusGroupCount : metric := gauge "group_consensus_count" ["backend_group_name"].
Definition consensusGroupFilteredCount : metric := gauge "group_consensus_filtered_count" ["backend_group_name"].
Definition consensusGroupTotalCount : metric := gauge "group_consensus_total_count" ["backend_group_name"].
Definition consensusBannedBackends : metric := gauge "consensus_backend_banned" ["backend_name"].
Definition consensusPeerCountBackend : metric := gauge "consensus_backend_peer_count" ["backend_name"].
Definition consensusInSyncBackend : metric := gauge "consensus_backend_in_sync" ["backend_name"].
Definition consensusUpdateDelayBackend : metric := gauge "consensus_backend_update_delay" ["backend_name"].
Definition avgLatencyBackend : metric := gauge "backend_avg_latency" ["backend_name"].
Definition degradedBackends : metric := gauge "backend_degraded" ["backend_name"].
Definition networkErrorRateBackend : metric := gauge "backend_error_rate" ["backend_name"].
Definition healthyPrimaryCandidates : metric := gauge "healthy_candidates" ["backend_group_name"].
Definition backendGroupFallbackBackend : metric :=
  gauge "backend_group_fallback_backenend" ["backend_group"; "backend_name"; "fallback"].
Definition backendGroupMulticallCounter : metric :=
  counter "backend_group_multicall_request_counter" ["backend_group"; "backend_name"].
Definition backendGroupMulticallCompletionCounter : metric :=
  counter "backend_group_multicall_completion_counter" ["backend_group"; "backend_name"; "error"].

(** All of them, in the order in which they are created. *)
Definition all_metrics : list metric :=
  [rpcRequestsTotal; rpcForwardsTotal; rpcBackendHTTPResponseCodesTotal; rpcSupervisorChecksTotal; rpcErrorsTotal;
   rpcSpecialErrorsTotal; rpcBackendRequestDurationSumm; activeClientWsConnsGauge; activeBackendWsConnsGauge;
   unserviceableRequestsTotal; httpResponseCodesTotal; httpRequestDurationSumm; wsMessagesTotal; redisErrorsTotal;
   requestPayloadSizesGauge; responsePayloadSizesGauge; cacheHitsTotal; cacheMissesTotal; cacheErrorsTotal;
   batchRPCShortCircuitsTotal; redisCacheDurationSumm; redisFrontendRateLimiterCacheDurationSumm;
   tooManyRequestErrorsTotal; batchSizeHistogram; frontendRateLimitTakeErrors; consensusLatestBlock;
   consensusSafeBlock; consensusFinalizedBlock; consensusHAError; consensusHALatestBlock; consensusHASafeBlock;
   consensusHAFinalizedBlock; backendLatestBlockBackend; backendSafeBlockBackend; backendFinalizedBlockBackend;
   backendUnexpectedBlockTagsBackend; consensusGroupCount; consensusGroupFilteredCount; consensusGroupTotalCount;
   consensusBannedBackends; consensusPeerCountBackend; consensusInSyncBackend; consensusUpdateDelayBackend;
   avgLatencyBackend; degradedBackends; networkErrorRateBackend; healthyPrimaryCandidates;
   backendGroupFallbackBackend; backendGroupMulticallCounter; backendGroupMulticallCompletionCounter].

Fixpoint register_all `{!Prometheus M} (l : list metric) (r : M) : outcome M :=
  match l with
  | [] => Returns r
  | m :: l => let! r := prom_Register m r in register_all l r
  end.

Fixpoint record_all `{!Prometheus M} (l : list sample) (r : M) : outcome M :=
  match l with
  | [] => Returns r
  | sa :: l => let! r := prom_Record sa r in record_all l r
  end.

(** ** Recording *)

Definition inc (m : metric) (labels : list string) : list sample := [mkSample m labels Inc].
Definition set (m : metric) (labels : list string) (x : Q) : list sample := [mkSample m labels (Set_to x)].
Definition observation (m : metric) (labels : list string) (x : Q) : list sample := [mkSample m labels (Observe x)].

Definition boolToFloat64 (b : bool) : Q := if b then 1 else 0.
Definition FormatBool (b : bool) : string := if b then "true" else "false".

Definition rpcSpecialErrors : list string :=
  ["nonce too low"; "gas price too high"; "gas price too low"; "invalid parameters"; "txpool is full"; "pool is full";
   "pool overflow"; "transaction pool is full"; "insufficient funds"; "replacement underpriced";
   "replacement transaction underpriced"; "already known"; "max initcode size exceeded"; "insufficient balance";
   "gas limit exceeded"; "intrinsic gas too low"].

(** [strings.ToLower] as far as texts in ASCII can tell: besides the capital letters, the Kelvin sign
    and the dotted capital I become ASCII; what other characters become is not ASCII. *)
Fixpoint str_ToLower (s : string) : string :=
  match s with
  | EmptyString => EmptyString
  | String c s1 =>
      match s1 with
      | String c2 s2 =>
          if (code c =? 196) && (code c2 =? 176) then String (chr 105) (str_ToLower s2)
          else match s2 with
               | String c3 s3 =>
                   if (code c =? 226) && (code c2 =? 132) && (code c3 =? 170) then String (chr 107) (str_ToLower s3)
                   else String (if (65 <=? code c) && (code c <=? 90) then chr (code c + 32) else c) (str_ToLower s1)
               | _ => String (if (65 <=? code c) && (code c <=? 90) then chr (code c + 32) else c) (str_ToLower s1)
               end
      | _ => String (if (65 <=? code c) && (code c <=? 90) then chr (code c + 32) else c) (str_ToLower s1)
      end
  end.

(** At most one special error is recorded, the first that the message contains. *)
Definition MaybeRecordSpecialRPCError (ctx : Context) (backendName method : string) (rpcErr : RPCErr) : list sample :=
  let errMsg := str_ToLower (err_Message rpcErr) in
  match list_find (fun errStr => str_Contains errMsg errStr = true) rpcSpecialErrors with
  | Some (_, errStr) => inc rpcSpecialErrorsTotal [GetAuthCtx ctx; backendName; method; errStr]
  | None => []
  end.

Definition RecordRedisError (source : string) : list sample := inc redisErrorsTotal [source].

Definition RecordRPCError (ctx : Context) (backendName method : string) (err : option error) : list sample :=
  match err with
  | Some e =>
      match as_RPCErr e with
      | Some rpcErr => MaybeRecordSpecialRPCError ctx backendName method rpcErr ++
                       inc rpcErrorsTotal [GetAuthCtx ctx; backendName; method; dec_string (err_Code rpcErr)]
      | None => inc rpcErrorsTotal [GetAuthCtx ctx; backendName; method; dec_string (-1)]
      end
  | None => inc rpcErrorsTotal [GetAuthCtx ctx; backendName; method; dec_string (-1)]
  end.

Definition RecordWSMessage (ctx : Context) (backendName source : string) : list sample :=
  inc wsMessagesTotal [GetAuthCtx ctx; backendName; source].
Definition RecordUnserviceableRequest (ctx : Context) (source : string) : list sample :=
  inc unserviceableRequestsTotal [GetAuthCtx ctx; source].
Definition RecordRPCForward (ctx : Context) (backendName method source : string) : list sample :=
  inc rpcForwardsTotal [GetAuthCtx ctx; backendName; method; source].
Definition RecordRequestPayloadSize (ctx : Context) (payloadSize : Z) : list sample :=
  observation requestPayloadSizesGauge [GetAuthCtx ctx] (inject_Z payloadSize).
Definition RecordResponsePayloadSize (ctx : Context) (payloadSize : Z) : list sample :=
  observation responsePayloadSizesGauge [GetAuthCtx ctx] (inject_Z payloadSize).
Definition RecordCacheHit (method : string) : list sample := inc cacheHitsTotal [method].
Definition RecordCacheMiss (method : string) : list sample := inc cacheMissesTotal [method].
Definition RecordCacheError (method : string) : list sample := inc cacheErrorsTotal [method].
Definition RecordBatchSize (size : Z) : list sample := observation batchSizeHistogram [] (inject_Z size).

(** [nonAlphanumericRegex.ReplaceAllString(s, "")]: letters and spaces stay. *)
Definition letter_or_space (c : Ascii.ascii) : bool :=
  let n := code c in ((65 <=? n) && (n <=? 90)) || ((97 <=? n) && (n <=? 122)) || (n =? 32).

Fixpoint str_filter (p : Ascii.ascii -> bool) (s : string) : string :=
  match s with EmptyString => EmptyString | String c s' => if p c then String c (str_filter p s') else str_filter p s' end.

(** [strings.ReplaceAll] of a space by an underscore, and of two underscores by one. *)
Fixpoint underscores (s : string) : string :=
  match s with EmptyString => EmptyString | String c s' => String (if code c =? 32 then chr 95 else c) (underscores s') end.

Fixpoint single_underscores (s : string) : string :=
  match s with
  | EmptyString => EmptyString
  | String c s1 =>
      match s1 with
      | String c2 s2 =>
          if (code c =? 95) && (code c2 =? 95) then String c (single_underscores s2) else String c (single_underscores s1)
      | _ => String c (single_underscores s1)
      end
  end.

Definition errClean (text : string) : string := single_underscores (underscores (str_filter letter_or_space text)).

(** A nil error has no text. *)
Definition RecordGroupConsensusError (label : string) (err : option error) : outcome (list sample) :=
  let! text := err_Error err in Returns (inc consensusHAError [label +:+ "." +:+ errClean text]).

Section record.
Context {W : Type} {MW : MovingWindow W}.
Implicit Types bg : BackendGroup W.
Implicit Types b : Backend W.

Definition RecordGroupConsensusHALatestBlock bg (leader : string) (blockNumber : Z) : list sample :=
  set consensusHALatestBlock [bg_Name bg; leader] (inject_Z blockNumber).
Definition RecordGroupConsensusHASafeBlock bg (leader : string) (blockNumber : Z) : list sample :=
  set consensusHASafeBlock [bg_Name bg; leader] (inject_Z blockNumber).
Definition RecordGroupConsensusHAFinalizedBlock bg (leader : string) (blockNumber : Z) : list sample :=
  set consensusHAFinalizedBlock [bg_Name bg; leader] (inject_Z blockNumber).
Definition RecordGroupConsensusLatestBlock bg (blockNumber : Z) : list sample :=
  set consensusLatestBlock [bg_Name bg] (inject_Z blockNumber).
Definition RecordGroupConsensusSafeBlock bg (blockNumber : Z) : list sample :=
  set consensusSafeBlock [bg_Name bg] (inject_Z blockNumber).
Definition RecordGroupConsensusFinalizedBlock bg (blockNumber : Z) : list sample :=
  set consensusFinalizedBlock [bg_Name bg] (inject_Z blockNumber).
Definition RecordGroupConsensusCount bg (count : Z) : list sample := set consensusGroupCount [bg_Name bg] (inject_Z count).
Definition RecordGroupConsensusFilteredCount bg (count : Z) : list sample :=
  set consensusGroupFilteredCount [bg_Name bg] (inject_Z count).
Definition RecordGroupTotalCount bg (count : Z) : list sample := set consensusGroupTotalCount [bg_Name bg] (inject_Z count).
Definition RecordBackendLatestBlock b (blockNumber : Z) : list sample :=
  set backendLatestBlockBackend [b_Name b] (inject_Z blockNumber).
Definition RecordBackendSafeBlock b (blockNumber : Z) : list sample :=
  set backendSafeBlockBackend [b_Name b] (inject_Z blockNumber).
Definition RecordBackendFinalizedBlock b (blockNumber : Z) : list sample :=
  set backendFinalizedBlockBackend [b_Name b] (inject_Z blockNumber).
Definition RecordBackendUnexpectedBlockTags b (unexpected : bool) : list sample :=
  set backendUnexpectedBlockTagsBackend [b_Name b] (boolToFloat64 unexpected).
Definition RecordConsensusBackendBanned b (banned : bool) : list sample :=
  set consensusBannedBackends [b_Name b] (boolToFloat64 banned).
Definition RecordHealthyCandidates bg (candidates : Z) : list sample :=
  set healthyPrimaryCandidates [bg_Name bg] (inject_Z candidates).
Definition RecordConsensusBackendPeerCount b (peerCount : Z) : list sample :=
  set consensusPeerCountBackend [b_Name b] (inject_Z peerCount).
Definition RecordConsensusBackendInSync b (inSync : bool) : list sample :=
  set consensusInSyncBackend [b_Name b] (boolToFloat64 inSync).

(** The delay of the first update is not recorded. *)
Definition RecordConsensusBackendUpdateDelay (now : Z) b (lastUpdate : Z) : list sample :=
  if lastUpdate =? 0 then []
  else set consensusUpdateDelayBackend [b_Name b] (inject_Z (Z.quot (now - lastUpdate) Millisecond)).

Definition RecordBackendNetworkLatencyAverageSlidingWindow (now : Z) b (avgLatency : Z) : list sample :=
  set avgLatencyBackend [b_Name b] (inject_Z (Z.quot avgLatency Millisecond)) ++
  set degradedBackends [b_Name b] (boolToFloat64 (IsDegraded now b)).
Definition RecordBackendNetworkErrorRateSlidingWindow b (rate : Q) : list sample := set networkErrorRateBackend [b_Name b] rate.
Definition RecordBackendGroupFallbacks bg (name : string) (fallback : bool) : list sample :=
  set backendGroupFallbackBackend [bg_Name bg; name; FormatBool fallback] (boolToFloat64 fallback).
Definition RecordBackendGroupMulticallRequest bg (backendName : string) : list sample :=
  inc backendGroupMulticallCounter [bg_Name bg; backendName].
Definition RecordBackendGroupMulticallCompletion bg (backendName error : string) : list sample :=
  inc backendGroupMulticallCompletionCounter [bg_Name bg; backendName; error].

(** Of backend.go. *)
Definition RecordBatchRPCError (ctx : Context) (backendName : string) (reqs : list RPCReq) (err : option error) : list sample :=
  concat (map (fun req => RecordRPCError ctx backendName (req_Method req) err) reqs).

Definition RecordBatchRPCForward (ctx : Context) (backendName : string) (reqs : list RPCReq) (source : string) : list sample :=
  concat (map (fun req => RecordRPCForward ctx backendName (req_Method req) source) reqs).

(** The [i]-th response is recorded under the method of the [i]-th request. *)
Fixpoint MaybeRecordErrorsInRPCRes (ctx : Context) (backendName : string) (reqs : list RPCReq) (resBatch : list RPCRes)
    : outcome (list sample) :=
  match resBatch with
  | [] => Returns []
  | res :: resBatch =>
      let! here := (if IsError res then
                      match reqs with
                      | req :: _ => Returns (RecordRPCError ctx backendName (req_Method req) (ERPC <$> res_Error res))
                      | [] => Panics "index out of range"
                      end
                    else Returns []) in
      let! rest := MaybeRecordErrorsInRPCRes ctx backendName (tail reqs) resBatch in
      Returns (here ++ rest)
  end.

(** The method under which a request to a backend is recorded. *)
Definition metricLabelMethod (reqs : list RPCReq) (isBatch : bool) : outcome string :=
  match reqs with
  | [] => Panics "index out of range"
  | req :: _ => Returns (if isBatch then "<batch>" else req_Method req)
  end.

Definition record_response_code (ctx : Context) b (method : string) (code : Z) (isBatch : bool) : list sample :=
  inc rpcBackendHTTPResponseCodesTotal [GetAuthCtx ctx; b_Name b; method; dec_string code; FormatBool isBatch].
Definition record_request_duration b (method : string) (isBatch : bool) (seconds : Q) : list sample :=
  observation rpcBackendRequestDurationSumm [b_Name b; method; FormatBool isBatch] seconds.

(** What the proxy may record, and the texts that go into it. *)
Inductive recording : list string -> list sample -> Prop :=
| rec_redis source : recording [source] (RecordRedisError source)
| rec_rpc_error ctx be method err : recording [GetAuthCtx ctx; be; method] (RecordRPCError ctx be method err)
| rec_ws ctx be source : recording [GetAuthCtx ctx; be; source] (RecordWSMessage ctx be source)
| rec_unserviceable ctx source : recording [GetAuthCtx ctx; source] (RecordUnserviceableRequest ctx source)
| rec_forward ctx be method source : recording [GetAuthCtx ctx; be; method; source] (RecordRPCForward ctx be method source)
| rec_request_size ctx n : recording [GetAuthCtx ctx] (RecordRequestPayloadSize ctx n)
| rec_response_size ctx n : recording [GetAuthCtx ctx] (RecordResponsePayloadSize ctx n)
| rec_hit method : recording [method] (RecordCacheHit method)
| rec_miss method : recording [method] (RecordCacheMiss method)
| rec_cache_error method : recording [method] (RecordCacheError method)
| rec_batch n : recording [] (RecordBatchSize n)
| rec_group_error label err l : RecordGroupConsensusError label err = Returns l -> recording [label] l
| rec_ha_latest bg leader n : recording [bg_Name bg; leader] (RecordGroupConsensusHALatestBlock bg leader n)
| rec_ha_safe bg leader n : recording [bg_Name bg; leader] (RecordGroupConsensusHASafeBlock bg leader n)
| rec_ha_finalized bg leader n : recording [bg_Name bg; leader] (RecordGroupConsensusHAFinalizedBlock bg leader n)
| rec_latest bg n : recording [bg_Name bg] (RecordGroupConsensusLatestBlock bg n)
| rec_safe bg n : recording [bg_Name bg] (RecordGroupConsensusSafeBlock bg n)
| rec_finalized bg n : recording [bg_Name bg] (RecordGroupConsensusFinalizedBlock bg n)
| rec_count bg n : recording [bg_Name bg] (RecordGroupConsensusCount bg n)
| rec_filtered bg n : recording [bg_Name bg] (RecordGroupConsensusFilteredCount bg n)
| rec_total bg n : recording [bg_Name bg] (RecordGroupTotalCount bg n)
| rec_be_latest b n : recording [b_Name b] (RecordBackendLatestBlock b n)
| rec_be_safe b n : recording [b_Name b] (RecordBackendSafeBlock b n)
| rec_be_finalized b n : recording [b_Name b] (RecordBackendFinalizedBlock b n)
| rec_unexpected b x : recording [b_Name b] (RecordBackendUnexpectedBlockTags b x)
| rec_banned b x : recording [b_Name b] (RecordConsensusBackendBanned b x)
| rec_healthy bg n : recording [bg_Name bg] (RecordHealthyCandidates bg n)
| rec_peers b n : recording [b_Name b] (RecordConsensusBackendPeerCount b n)
| rec_in_sync b x : recording [b_Name b] (RecordConsensusBackendInSync b x)
| rec_delay now b t : recording [b_Name b] (RecordConsensusBackendUpdateDelay now b t)
| rec_latency now b d : recording [b_Name b] (RecordBackendNetworkLatencyAverageSlidingWindow now b d)
| rec_error_rate b q : recording [b_Name b] (RecordBackendNetworkErrorRateSlidingWindow b q)
| rec_fallbacks bg name x : recording [bg_Name bg; name] (RecordBackendGroupFallbacks bg name x)
| rec_multicall bg name : recording [bg_Name bg; name] (RecordBackendGroupMulticallRequest bg name)
| rec_completion bg name err : recording [bg_Name bg; name; err] (RecordBackendGroupMulticallCompletion bg name err)
| rec_code ctx b method n batch : recording [GetAuthCtx ctx; b_Name b; method] (record_response_code ctx b method n batch)
| rec_duration b method batch q : recording [b_Name b; method] (record_request_duration b method batch q).

(** ** Labels *)

Lemma digits_of_low f : forall z acc, 0 <= z -> all_low acc = true -> all_low (digits_of f z acc) = true.
Proof.
  induction f as [|f IH]; intros z acc Hz Ha; [done|]. cbn [digits_of].
  assert (Hm : 0 <= z mod 10 < 10) by (apply Z.mod_pos_bound; lia).
  assert (Hc : all_low (String (chr (48 + z mod 10)) acc) = true).
  { cbn [all_low]. rewrite code_chr by lia. rewrite Ha, andb_true_r. apply Z.ltb_lt. lia. }
  destruct (z <? 10); [done|]. apply IH; [|done]. apply Z.div_pos; lia.
Qed.

Lemma dec_string_utf8 z : valid_utf8 0 (dec_string z) = true.
Proof.
  apply all_low_utf8. unfold dec_string. destruct (Z.ltb_spec z 0); [|by apply digits_of_low].
  rewrite all_low_app, digits_of_low by (lia || done). done.
Qed.

Lemma filter_low s : all_low (str_filter letter_or_space s) = true.
Proof.
  induction s as [|c s IH]; [done|]. cbn [str_filter]. destruct (letter_or_space c) eqn:E; [|done]. cbn [all_low].
  rewrite IH, andb_true_r. unfold letter_or_space in E. apply Z.ltb_lt.
  rewrite !orb_true_iff, !andb_true_iff, !Z.leb_le, Z.eqb_eq in E. lia.
Qed.

Lemma underscores_low s : all_low s = true -> all_low (underscores s) = true.
Proof.
  induction s as [|c s IH]; [done|]. cbn [underscores all_low]. rewrite !andb_true_iff. intros [Hc Hs]. split; [|by apply IH].
  by destruct (code c =? 32).
Qed.

Lemma single_underscores_low n : forall s, (String.length s <= n)%nat -> all_low s = true -> all_low (single_underscores s) = true.
Proof.
  induction n as [|n IH]; intros [|c [|c2 s]] Hn H; cbn [String.length] in Hn; try lia; try done.
  cbn [all_low] in H. rewrite !andb_true_iff in H. destruct H as (Hc & Hc2 & Hs).
  cbn [single_underscores]. destruct (_ && _); cbn [all_low]; rewrite Hc; cbn [andb].
  - apply IH; [lia|done].
  - apply (IH (String c2 s)); [cbn [String.length]; lia|]. cbn [all_low]. by rewrite Hc2, Hs.
Qed.

(** Whatever the text of the error is, what becomes of it can be a label. *)
Lemma errClean_low text : all_low (errClean text) = true.
Proof. eapply single_underscores_low; [reflexivity|]. apply underscores_low, filter_low. Qed.

Lemma FormatBool_utf8 (x : bool) : valid_utf8 0 (FormatBool x) = true.
Proof. by destruct x. Qed.

Lemma special_utf8 errMsg i e : list_find (fun errStr => str_Contains errMsg errStr = true) rpcSpecialErrors = Some (i, e) ->
  valid_utf8 0 e = true.
Proof.
  intros (Hl & _ & _)%list_find_Some. apply list_elem_of_lookup_2 in Hl.
  assert (H : Forall (fun e => valid_utf8 0 e = true) rpcSpecialErrors) by (repeat constructor). rewrite Forall_forall in H. by apply H.
Qed.

Lemma rune_extra_app_Some c s t n : rune_extra c s = Some n -> rune_extra c (s +:+ t) = Some n.
Proof.
  unfold rune_extra. destruct s as [|c1 [|c2 [|c3 s]]]; rewrite ?str_app_cons; [done|..|done].
  - by destruct (in_range 194 223 c).
  - by destruct (in_range 194 223 c), (in_range 224 239 c).
Qed.

Lemma valid_utf8_app s : forall copy t, valid_utf8 copy s = true -> valid_utf8 0 t = true -> valid_utf8 copy (s +:+ t) = true.
Proof.
  induction s as [|c s IH]; intros copy t Hs Ht; [by apply bool_decide_eq_true in Hs as ->|].
  rewrite str_app_cons. cbn [valid_utf8] in *. destruct copy; [|apply andb_true_iff in Hs as [-> Hs]; by apply IH].
  destruct (code c <? 128); [by apply IH|]. destruct (rune_extra c s) as [n|] eqn:E; [|done].
  rewrite (rune_extra_app_Some _ _ _ _ E). by apply IH.
Qed.

Definition texts (l : list string) : Prop := Forall (fun s => valid_utf8 0 s = true) l.

Lemma texts_app l l' : texts l -> texts l' -> texts (l ++ l').
Proof. by apply Forall_app_2. Qed.

Lemma text x : valid_utf8 0 x = true -> texts [x].
Proof. by repeat constructor. Qed.

Lemma one_labelled m ls op : length ls = length (mt_labels m) -> texts ls -> Forall labelled [mkSample m ls op].
Proof. intros. by repeat constructor. Qed.

Lemma special_labelled ctx be method e : texts [GetAuthCtx ctx; be; method] -> Forall labelled (MaybeRecordSpecialRPCError ctx be method e).
Proof.
  intros H. unfold MaybeRecordSpecialRPCError. destruct (list_find _ _) as [[i errStr]|] eqn:E; [|constructor].
  apply special_utf8 in E. apply one_labelled; [done|]. exact (texts_app _ [errStr] H (text _ E)).
Qed.

Lemma rpc_error_labelled ctx be method err : texts [GetAuthCtx ctx; be; method] -> Forall labelled (RecordRPCError ctx be method err).
Proof.
  intros H. assert (Hc : forall z, texts [GetAuthCtx ctx; be; method; dec_string z]).
  { intros z. exact (texts_app _ [dec_string z] H (text _ (dec_string_utf8 z))). }
  unfold RecordRPCError. destruct err as [e|]; [destruct (as_RPCErr e)|]; try (by apply one_labelled).
  apply Forall_app. split; [by apply special_labelled|by apply one_labelled].
Qed.

(** Every recording function gives as many label values as the metric has labels. *)
Lemma recording_labelled args l : recording args l -> texts args -> Forall labelled l.
Proof.
  destruct 1; intros Hargs; try (by apply one_labelled).
  - by apply rpc_error_labelled.
  - destruct err as [e|]; [|done]. injection H as <-. apply one_labelled; [done|]. apply text.
    apply Forall_inv in Hargs. apply valid_utf8_app; [done|]. apply (valid_utf8_app "."); [done|]. apply all_low_utf8, errClean_low.
  - unfold RecordConsensusBackendUpdateDelay. destruct (t =? 0); [constructor|by apply one_labelled].
  - apply Forall_app. split; by apply one_labelled.
  - apply one_labelled; [done|]. exact (texts_app _ [FormatBool x] Hargs (text _ (FormatBool_utf8 x))).
  - apply one_labelled; [done|]. refine (texts_app _ [dec_string n; FormatBool batch] Hargs _).
    exact (texts_app [_] [_] (text _ (dec_string_utf8 n)) (text _ (FormatBool_utf8 batch))).
  - apply one_labelled; [done|]. exact (texts_app _ [FormatBool batch] Hargs (text _ (FormatBool_utf8 batch))).
Qed.

End record.

(** ** Nothing panics *)

Section prometheus.
Context {M : Type} {PM : Prometheus M} {PL : PrometheusLaws M} {W : Type} {MW : MovingWindow W}.
Implicit Types r : M.

Lemma record_all_ok l r : Forall labelled l -> returns (record_all l r).
Proof.
  intros H. revert r. induction H as [|sa l Hsa _ IH]; intros r; [by eexists|]. cbn [record_all].
  destruct (prom_Record_ok sa r Hsa) as [r' ->]. apply IH.
Qed.

Lemma register_all_ok l : forall r, Forall (fun m => valid_metric m = true) l -> NoDup (map mt_name l) ->
  (forall m, m ∈ l -> mt_name m ∉ prom_registered r) -> returns (register_all l r).
Proof.
  induction l as [|m l IH]; intros r Hv Hn Hd; [by eexists|]. cbn [register_all map] in *.
  apply Forall_cons in Hv as [Hm Hv]. apply NoDup_cons in Hn as [Hx Hn].
  destruct (prom_Register_ok m r Hm) as (r' & -> & Hr); [apply Hd; by left|]. cbn [outcome_bind]. apply IH; [done|done|].
  intros m' Hin. rewrite Hr, not_elem_of_cons. split; [|apply Hd; by right]. intros Heq. apply Hx. rewrite <- Heq. by apply list_elem_of_fmap_2.
Qed.

Lemma all_metrics_valid : forallb valid_metric all_metrics && bool_decide (NoDup (map mt_name all_metrics)) = true.
Proof. vm_compute. reflexivity. Qed.

(** C31: metrics never take the proxy down. Creating all of them at start-up does not panic, since every
    description is valid and every name is used once; and after that no sequence of calls of the
    recording functions panics, as long as the texts they are given are valid UTF-8 and
    [RecordGroupConsensusError] is not given a nil error: each gives as
    many label values as its metric has labels, and what is made of numbers, flags and the text of an
    error is valid whatever they are. *)
Theorem metrics_never_panic : exists r0, register_all all_metrics prom_NewRegistry = Returns r0 /\
  forall calls, Forall (fun c => recording (W := W) (fst c) (snd c) /\ texts (fst c)) calls ->
    returns (record_all (concat (map snd calls)) r0).
Proof.
  pose proof all_metrics_valid as [Hv Hn%bool_decide_eq_true]%andb_true_iff.
  destruct (register_all_ok all_metrics prom_NewRegistry) as [r0 Hr]; [|done| |].
  { apply Forall_forall. intros m Hm. rewrite forallb_forall in Hv. by apply Hv, list_elem_of_In. }
  { intros m _. rewrite prom_fresh. apply not_elem_of_nil. }
  exists r0. split; [done|]. intros calls H. apply record_all_ok. induction H as [|c calls [Hc Ht] _ IH]; [constructor|].
  cbn [map concat]. apply Forall_app. split; [by eapply recording_labelled|done].
Qed.

(** ** Forwarded requests are counted under their methods *)

Lemma forwards_value ctx be source reqs : forall r r', record_all (RecordBatchRPCForward ctx be reqs source) r = Returns r' -> forall m,
  (prom_value r' rpcForwardsTotal [GetAuthCtx ctx; be; m; source] ==
   prom_value r rpcForwardsTotal [GetAuthCtx ctx; be; m; source] + inject_Z (Z.of_nat (length (filter (fun q => req_Method q = m) reqs))))%Q.
Proof.
  induction reqs as [|req reqs IH]; intros r r' H m.
  { injection H as <-. cbn. by rewrite Qplus_0_r. }
  unfold RecordBatchRPCForward in H. cbn [map concat] in H. unfold RecordRPCForward in H at 1. cbn [app inc record_all] in H.
  step_outcome H. change (record_all (RecordBatchRPCForward ctx be reqs source) a = Returns r') in H.
  rewrite (IH _ _ H m), filter_cons. destruct (decide (req_Method req = m)) as [<-|Hne].
  - apply prom_Record_value in E. cbn [sa_metric sa_labels sa_op apply_op] in E. rewrite E. cbn [length].
    rewrite Nat2Z.inj_succ, <- Z.add_1_r, inject_Z_plus. ring.
  - rewrite (prom_Record_other _ _ _ rpcForwardsTotal [GetAuthCtx ctx; be; m; source] E); [done|]. cbn. congruence.
Qed.

(** The forwards of a batch are counted under the methods of its calls. The method is the client's
    text, but it was decoded from JSON and is therefore valid UTF-8 whatever the bytes of the body
    were: counting the forwards of parsed calls does not panic, and the counter of every method goes
    up by the number of its calls. *)
Theorem forwards_counted ctx be source raws reqs r : texts [GetAuthCtx ctx; be; source] ->
  Forall2 (fun raw req => ParseRPCReq raw = inl req) raws reqs ->
  exists r', record_all (RecordBatchRPCForward ctx be reqs source) r = Returns r' /\ forall m,
    (prom_value r' rpcForwardsTotal [GetAuthCtx ctx; be; m; source] ==
     prom_value r rpcForwardsTotal [GetAuthCtx ctx; be; m; source] + inject_Z (Z.of_nat (length (filter (fun q => req_Method q = m) reqs))))%Q.
Proof.
  intros Ht Hp. assert (Hl : Forall labelled (RecordBatchRPCForward ctx be reqs source)).
  { unfold texts in Ht. rewrite !Forall_cons in Ht. destruct Ht as (Ha & Hb & Hs & _).
    induction Hp as [|raw req raws reqs Hm _ IH]; [constructor|]. unfold RecordBatchRPCForward. cbn [map concat]. apply Forall_app.
    split; [|exact IH]. apply one_labelled; [done|]. apply ParseRPCReq_method_utf8 in Hm. by repeat constructor. }
  destruct (record_all_ok _ r Hl) as [r' Hr]. exists r'. split; [done|]. by apply forwards_value.
Qed.

(** A backend that answers as many calls as it was asked has its errors recorded. *)
Lemma errors_recorded ctx be : forall resBatch raws reqs r, texts [GetAuthCtx ctx; be] -> length resBatch = length reqs ->
  Forall2 (fun raw req => ParseRPCReq raw = inl req) raws reqs ->
  exists l, MaybeRecordErrorsInRPCRes ctx be reqs resBatch = Returns l /\ returns (record_all l r).
Proof.
  intros resBatch raws reqs r Ht Hlen Hp.
  enough (exists l, MaybeRecordErrorsInRPCRes ctx be reqs resBatch = Returns l /\ Forall labelled l) as (l & E & Hl).
  { exists l. split; [done|by apply record_all_ok]. }
  revert resBatch Hlen. induction Hp as [|raw req raws reqs Hm _ IH]; intros [|res resBatch] Hlen; try discriminate; [by exists []|].
  destruct (IH resBatch) as (l & E & Hl); [by injection Hlen|]. cbn [MaybeRecordErrorsInRPCRes tail].
  rewrite E. apply ParseRPCReq_method_utf8 in Hm. destruct (IsError res); cbn [outcome_bind]; eexists; (split; [done|]); [|done].
  apply Forall_app. split; [|done]. apply rpc_error_labelled. exact (texts_app _ [_] Ht (text _ Hm)).
Qed.

End prometheus.

(** ** A registry *)

Record registry : Type := mkRegistry { rg_names : list string; rg_values : gmap (string * list string) Q }.

#[global] Instance simple_prometheus : Prometheus registry := {
  prom_NewRegistry := mkRegistry [] ∅;
  prom_registered := rg_names;
  prom_Register m r :=
    if negb (valid_metric m) then Panics "invalid description"
    else if bool_decide (mt_name m ∈ rg_names r) then Panics "duplicate metrics collector registration attempted"
    else Returns (mkRegistry (mt_name m :: rg_names r) (rg_values r));
  prom_Record sa r :=
    if negb (length (sa_labels sa) =? length (mt_labels (sa_metric sa)))%nat then Panics "inconsistent label cardinality"
    else if negb (forallb (valid_utf8 0) (sa_labels sa)) then Panics "label value is not valid UTF-8"
    else let k := (mt_name (sa_metric sa), sa_labels sa) in
         Returns (mkRegistry (rg_names r) (<[k := apply_op (sa_op sa) (default 0%Q (rg_values r !! k))]> (rg_values r)));
  prom_value r m ls := default 0%Q (rg_values r !! (mt_name m, ls));
}.

#[global] Instance simple_prometheus_laws : PrometheusLaws registry.
Proof.
  constructor.
  - done.
  - intros m r Hv Hn. cbn. rewrite Hv, bool_decide_eq_false_2 by done. by eexists.
  - intros sa r [Hl Hu]. cbn. rewrite (proj2 (Nat.eqb_eq _ _) Hl). cbn [negb].
    rewrite (proj2 (forallb_forall _ _)); [by eexists|]. intros x Hx%list_elem_of_In. rewrite Forall_forall in Hu. by apply Hu.
  - intros sa r r' H. cbn in *. repeat (destruct (negb _); [done|]). injection H as <-. cbn. by rewrite lookup_insert_eq.
  - intros sa r r' m ls H Hne. cbn in *. repeat (destruct (negb _); [done|]). injection H as <-. cbn. by rewrite lookup_insert_ne.
Qed.

Module metrics_samples.

#[local] Existing Instance total_window.

Lemma metrics_never_panic_witness : exists r0 : registry, register_all all_metrics prom_NewRegistry = Returns r0 /\
  returns (record_all (RecordCacheHit "eth_chainId" ++ RecordRPCError background "a" "eth_call" (Some (ENew "nonce too low"))) r0).
Proof.
  destruct (metrics_never_panic (M := registry) (W := Q)) as (r0 & Hr & H). exists r0. split; [exact Hr|].
  apply (H [(["eth_chainId"], RecordCacheHit "eth_chainId");
            (["none"; "a"; "eth_call"], RecordRPCError background "a" "eth_call" (Some (ENew "nonce too low")))]).
  constructor; [split; [apply rec_hit|by repeat constructor]|]. constructor; [|constructor].
  split; [apply (rec_rpc_error background)|by repeat constructor].
Defined.

(** A body with a byte that is no character. *)
Definition odd_call : string := jtext "{'method':'eth_" +:+ String (chr 255) (jtext "','id':1}").

Lemma forwards_counted_witness : exists req (r' : registry), ParseRPCReq odd_call = inl req /\
  record_all (RecordBatchRPCForward background "a" [req; req] RPCRequestSourceHTTP) prom_NewRegistry = Returns r' /\
  (prom_value r' rpcForwardsTotal ["none"; "a"; req_Method req; "http"] == 2)%Q.
Proof.
  destruct (ParseRPCReq odd_call) as [req|] eqn:E; [|vm_compute in E; discriminate]. exists req.
  destruct (forwards_counted background "a" RPCRequestSourceHTTP [odd_call; odd_call] [req; req] (prom_NewRegistry : registry)) as (r' & Hr & Hv).
  - by repeat constructor.
  - by repeat constructor.
  - exists r'. split; [done|]. split; [exact Hr|]. rewrite (Hv (req_Method req)). cbn. rewrite !decide_True by done. reflexivity.
Defined.

End metrics_samples.
