(* ===== verification/ConsensusFacts.v ===== *)
(** * Properties of the consensus poller: candidates, agreement, bans *)

From S2P Require Import Prelude Json JsonFacts Geth Rpc Util Http SlidingWindow Backend BackendFacts Tracker Consensus.

(** ** Candidates *)

Section candidates.
Context {T : Type} {CT : ConsensusTracker T} {W : Type} {MW : MovingWindow W}.
Implicit Types cp : ConsensusPoller T.
Implicit Types bg : BackendGroup W.

(** Every backend of the group is registered with the poller, with [uint64] numbers. *)
Definition registered bg cp : Prop :=
  forall be, (be < length (bg_Backends bg))%nat -> exists bs, cp_backendState cp !! be = Some bs.

Definition wf_numbers bg cp : Prop := 0 <= cp_maxBlockLag cp /\
  forall be bs, is_Some (bg_Backends bg !! be) -> cp_backendState cp !! be = Some bs -> in_u64 (latestBlockNumber bs).

(** The conditions the poller documents, for one backend. *)
Definition serving (fc : filter_clock) cp (b : Backend W) (bs : backendState) : Prop :=
  b_forcedCandidate b = true \/
  (bannedUntil bs <= fc_banned_at fc /\ IsHealthy (fc_healthy_at fc) b = true
   /\ (b_skipPeerCountCheck b = true \/ cp_minPeerCount cp <= peerCount bs)
   /\ (b_skipIsSyncingCheck b = true \/ inSync bs = true)
   /\ fc_updated_at fc <= lastUpdate bs + cp_maxUpdateThreshold cp).

Definition serves (clk : nat -> filter_clock) bg cp (backends : list nat) (be : nat) (bs : backendState) : Prop :=
  be ∈ backends /\ cp_backendState cp !! be = Some bs /\
  exists b, bg_Backends bg !! be = Some b /\ serving (clk be) cp b bs.

Lemma eligible_serving fc cp (b : Backend W) bs : eligible fc cp b bs = true <-> serving fc cp b bs.
Proof.
  unfold eligible, serving, bs_IsBanned. destruct (b_forcedCandidate b); [tauto|].
  destruct (Z.ltb_spec (fc_banned_at fc) (bannedUntil bs)); [split; [done|naive_solver lia]|].
  destruct (IsHealthy (fc_healthy_at fc) b); cbn [negb]; [|naive_solver].
  destruct (b_skipPeerCountCheck b); cbn [negb andb];
    [|destruct (Z.ltb_spec (peerCount bs) (cp_minPeerCount cp)); [split; [done|naive_solver lia]|]];
    (destruct (b_skipIsSyncingCheck b); cbn [negb andb]; [|destruct (inSync bs); cbn [negb andb]; [|naive_solver]]);
    destruct (Z.ltb_spec (lastUpdate bs + cp_maxUpdateThreshold cp) (fc_updated_at fc)); naive_solver lia.
Qed.

Lemma collect_spec clk bg cp backends : registered bg cp ->
  Forall (fun be => (be < length (bg_Backends bg))%nat) backends -> forall acc,
  exists m, collect clk bg cp backends acc = Returns m /\
    forall be bs, m !! be = Some bs <->
      serves clk bg cp backends be bs \/
      (acc !! be = Some bs /\ ~ exists bs', serves clk bg cp backends be bs').
Proof.
  intros Hr. induction backends as [|x rest IH]; intros Hall acc; cbn [collect].
  { exists acc. split; [done|]. intros be bs. unfold serves. split; [intros ?; right; split; [done|]|].
    - intros (? & Hin & _). by apply elem_of_nil in Hin.
    - intros [(Hin & _)|[? _]]; [by apply elem_of_nil in Hin|done]. }
  apply Forall_cons in Hall as [Hx Hall]. destruct (Hr x Hx) as [bs Hbs].
  destruct (lookup_lt_is_Some_2 _ _ Hx) as [b Hb].
  unfold GetBackendState, state_of, backend_at. rewrite Hbs, Hb. cbn [outcome_bind].
  destruct (IH Hall (if eligible (clk x) cp b bs then <[x := bs]> acc else acc)) as (m & -> & Hm).
  exists m. split; [done|]. intros be bs'. rewrite Hm. clear Hm IH.
  assert (Hs : forall be bs', serves clk bg cp (x :: rest) be bs' <->
            serves clk bg cp rest be bs' \/ (be = x /\ bs' = bs /\ eligible (clk x) cp b bs = true)).
  { intros be' bs2. unfold serves. rewrite elem_of_cons, eligible_serving. split.
    - intros ([->|Hin] & H2 & H3); [|naive_solver].
      right. destruct H3 as (b' & Hb' & Hsv). simplify_eq. done.
    - intros [(H1 & H2 & H3)|(-> & -> & Hsv)]; [naive_solver|]. split; [by left|]. eauto. }
  rewrite Hs. setoid_rewrite Hs. destruct (eligible (clk x) cp b bs) eqn:Ee.
  - destruct (decide (be = x)) as [->|Hne].
    + rewrite lookup_insert_eq. split.
      * intros [H|[H _]]; [by left; left|]. left; right. by simplify_eq.
      * intros [[H|(_ & -> & _)]|[_ H]]; [by left| |exfalso; apply H; eauto].
        destruct (decide (x ∈ rest)) as [Hin|Hin]; [left; split; [done|split; [done|]]|right].
        { exists b. split; [done|]. by apply eligible_serving. }
        split; [done|]. by intros (? & ? & _).
    + rewrite lookup_insert_ne by done. naive_solver.
  - naive_solver.
Qed.

Lemma highest_spec (m : gmap nat backendState) : 0 <= highestLatestBlock m /\
  (forall be bs, m !! be = Some bs -> latestBlockNumber bs <= highestLatestBlock m) /\
  (highestLatestBlock m = 0 \/ exists be bs, m !! be = Some bs /\ highestLatestBlock m = latestBlockNumber bs).
Proof.
  unfold highestLatestBlock. apply (map_fold_weak_ind (fun hi m => 0 <= hi /\
    (forall be bs, m !! be = Some bs -> latestBlockNumber bs <= hi) /\
    (hi = 0 \/ exists be bs, m !! be = Some bs /\ hi = latestBlockNumber bs))).
  - split; [lia|]. split; [|by left]. intros be bs H. by rewrite lookup_empty in H.
  - intros i x m' r Hi (H0 & Hle & Hat). destruct (Z.ltb_spec r (latestBlockNumber x)).
    + split; [lia|]. split; [|right; exists i, x; by rewrite lookup_insert_eq].
      intros be bs H'. rewrite lookup_insert_Some in H'. destruct H' as [[_ <-]|[_ H']]; [lia|].
      specialize (Hle _ _ H'). lia.
    + split; [done|]. split.
      * intros be bs H'. rewrite lookup_insert_Some in H'. destruct H' as [[_ <-]|[_ H']]; [lia|]. eauto.
      * destruct Hat as [->|(be & bs & Hb & ->)]; [by left|]. right. exists be, bs. split; [|done].
        rewrite lookup_insert_ne; [done|]. congruence.
Qed.

Lemma serves_u64 clk bg cp backends be bs : wf_numbers bg cp -> serves clk bg cp backends be bs ->
  in_u64 (latestBlockNumber bs).
Proof. intros [_ Hwf] (_ & Hs & b & Hb & _). apply (Hwf be); [by rewrite Hb|done]. Qed.

Lemma FilterCandidates_spec clk bg cp backends : registered bg cp -> wf_numbers bg cp ->
  Forall (fun be => (be < length (bg_Backends bg))%nat) backends ->
  exists m, FilterCandidates clk bg cp backends = Returns m /\
    forall be bs, m !! be = Some bs <->
      serves clk bg cp backends be bs /\
      forall be' bs', serves clk bg cp backends be' bs' -> latestBlockNumber bs' - latestBlockNumber bs <= cp_maxBlockLag cp.
Proof.
  intros Hr Hwf Hall. pose proof (proj1 Hwf) as Hlag. unfold FilterCandidates.
  destruct (collect_spec clk bg cp backends Hr Hall ∅) as (m & -> & Hm). cbn [outcome_bind].
  eexists. split; [done|]. intros be bs. rewrite map_lookup_filter_Some, Hm, lookup_empty. cbn [snd].
  assert (Hm' : forall be bs, m !! be = Some bs <-> serves clk bg cp backends be bs).
  { intros be' bs'. rewrite Hm, lookup_empty. naive_solver. } clear Hm.
  destruct (highest_spec m) as (H0 & Hle & Hat). unfold lagging.
  split.
  - intros [[Hs|[? _]] Hl]; [|done]. split; [done|]. intros be' bs' Hs'. apply Z.ltb_ge in Hl.
    pose proof (Hle _ _ (proj2 (Hm' _ _) Hs)). pose proof (Hle _ _ (proj2 (Hm' _ _) Hs')).
    assert (in_u64 (latestBlockNumber bs)) by (by eapply serves_u64).
    rewrite u64_small in Hl; [lia|]. destruct Hat as [E|(b2 & s2 & E2 & E)]; [unfold in_u64 in *; lia|].
    apply Hm' in E2. assert (in_u64 (latestBlockNumber s2)) by (by eapply serves_u64). unfold in_u64 in *. lia.
  - intros [Hs Hall']. split; [by left|]. apply Z.ltb_ge.
    assert (in_u64 (latestBlockNumber bs)) by (by eapply serves_u64).
    pose proof (Hle _ _ (proj2 (Hm' _ _) Hs)).
    destruct Hat as [E|(b2 & s2 & E2 & E)].
    + rewrite E in *. replace (0 - latestBlockNumber bs) with 0 by (unfold in_u64 in *; lia). done.
    + apply Hm' in E2. specialize (Hall' _ _ E2). assert (in_u64 (latestBlockNumber s2)) by (by eapply serves_u64).
      rewrite u64_small; [lia|]. unfold in_u64 in *. lia.
Qed.

(** Serving, and not lagging behind another serving backend of the list. *)
Definition qualifies clk bg cp (backends : list nat) (be : nat) (bs : backendState) : Prop :=
  serves clk bg cp backends be bs /\
  forall be' bs', serves clk bg cp backends be' bs' -> latestBlockNumber bs' - latestBlockNumber bs <= cp_maxBlockLag cp.

Lemma select_backends_bounds (p : string -> bool) bg : Forall (fun be => (be < length (bg_Backends bg))%nat) (select_backends p bg).
Proof.
  unfold select_backends. rewrite Forall_forall. intros be [_ H]%list_elem_of_filter. apply elem_of_seq in H. lia.
Qed.

(** C22: the candidates for the consensus group are exactly the primaries that meet the documented
    conditions - forced, or not banned, healthy, with enough peers (unless the backend skips the check of
    its peers), in sync (unless it skips the check of its sync state) and updated recently - and are at most [maxBlockLag] blocks behind every other such primary; only if there is none, the
    fallbacks are chosen by the same rule.  Looking for them never panics. *)
Theorem candidates_conditions clk bg cp : registered bg cp -> wf_numbers bg cp ->
  exists m, getConsensusCandidates clk bg cp = Returns m /\
    forall be bs, m !! be = Some bs <->
      qualifies clk bg cp (Primaries bg) be bs \/
      ((~ exists be' bs', qualifies clk bg cp (Primaries bg) be' bs') /\ qualifies clk bg cp (Fallbacks bg) be bs).
Proof.
  intros Hr Hwf. unfold getConsensusCandidates.
  destruct (FilterCandidates_spec clk bg cp (Primaries bg) Hr Hwf (select_backends_bounds _ _)) as (m1 & -> & H1).
  destruct (FilterCandidates_spec clk bg cp (Fallbacks bg) Hr Hwf (select_backends_bounds _ _)) as (m2 & -> & H2).
  cbn [outcome_bind]. unfold qualifies. setoid_rewrite <- H1. setoid_rewrite <- H2. case_bool_decide as E.
  - subst m1. exists m2. split; [done|]. intros be bs. rewrite lookup_empty. split; [intros H; right|naive_solver].
    split; [|done]. intros (be' & bs' & H'). by rewrite lookup_empty in H'.
  - exists m1. split; [done|]. intros be bs. split; [by left|]. intros [?|[Hno _]]; [done|]. exfalso.
    apply E, map_empty. intros be'. destruct (m1 !! be') as [bs'|] eqn:E'; [|done]. exfalso. eauto.
Qed.

End candidates.

(** ** The lowest numbers of the candidates *)

(** [v] is the least value of [f] on a list. *)
Definition least {A} (f : A -> Z) (l : list A) (v : Z) : Prop :=
  (forall x, x ∈ l -> v <= f x) /\ exists x, x ∈ l /\ f x = v.

Lemma lower_least {A} (f : A -> Z) l x v : (forall y, y ∈ l ++ [x] -> 0 < f y) ->
  (l = [] /\ v = 0) \/ least f l v -> least f (l ++ [x]) (lower v (f x)).
Proof.
  intros Hpos [[-> ->]|[Hle (y & Hy & Ey)]]; unfold lower; cbn.
  - split; [intros z ->%list_elem_of_singleton; lia|]. exists x. split; [by left|done].
  - assert (0 < v) by (rewrite <- Ey; apply Hpos; set_solver). destruct (Z.eqb_spec v 0); [lia|]. cbn.
    destruct (Z.ltb_spec (f x) v).
    + split; [|exists x; set_solver]. intros z [Hz| ->%list_elem_of_singleton]%elem_of_app; [|lia].
      specialize (Hle z Hz). lia.
    + split; [|exists y; set_solver]. intros z [Hz| ->%list_elem_of_singleton]%elem_of_app; [by apply Hle|lia].
Qed.

Definition positive (bs : backendState) : Prop :=
  0 < latestBlockNumber bs /\ 0 < safeBlockNumber bs /\ 0 < finalizedBlockNumber bs.

(** The accumulator after the states [seen]. *)
Definition lowest_of (seen : list backendState) (acc : Z * string * Z * Z) : Prop :=
  let '(latest, hash, finalized, safe) := acc in
  (seen = [] /\ acc = (0, "", 0, 0)) \/
  (least latestBlockNumber seen latest
   /\ (exists bs, bs ∈ seen /\ latestBlockNumber bs = latest /\ latestBlockHash bs = hash)
   /\ least finalizedBlockNumber seen finalized /\ least safeBlockNumber seen safe).

Lemma lowest_spec order : forall seen acc, Forall positive (seen ++ order) ->
  lowest_of seen acc -> lowest_of (seen ++ order) (lowest order acc).
Proof.
  induction order as [|x rest IH]; intros seen [[[latest hash] fin] safe] Hpos Hacc; cbn [lowest].
  { by rewrite app_nil_r. }
  replace (seen ++ x :: rest) with ((seen ++ [x]) ++ rest) in * by (by rewrite <- app_assoc).
  apply IH; [done|]. apply Forall_app in Hpos as [Hpos _]. rewrite Forall_forall in Hpos.
  assert (Hacc' : forall f v, (forall y, positive y -> 0 < f y) -> (seen = [] /\ v = 0) \/ least f seen v ->
            least f (seen ++ [x]) (lower v (f x))).
  { intros f v Hf. apply lower_least. intros y Hy. by apply Hf, Hpos. }
  assert (Hx : positive x) by (apply Hpos; set_solver).
  pose proof (Hacc' latestBlockNumber latest) as HL. pose proof (Hacc' finalizedBlockNumber fin) as HF.
  pose proof (Hacc' safeBlockNumber safe) as HS. clear Hacc'. unfold lower in HL.
  destruct ((latest =? 0) || (latestBlockNumber x <? latest)) eqn:Eb; right;
    (split; [apply HL; [by intros ? []|destruct Hacc as [[-> [= -> _ _ _]]|[? _]]; auto]|]);
    (split; [|split; [apply HF|apply HS]; try (by intros ? (? & ? & ?));
       destruct Hacc as [[-> [= _ _ -> ->]]|(_ & _ & ? & ?)]; auto]).
  - exists x. set_solver.
  - destruct Hacc as [[-> [= -> _ _ _]]|(_ & (bs & H1 & H2 & H3) & _)]; [done|]. exists bs. set_solver.
Qed.

(** ** Agreement on a block *)

Section agreement.
Context {T : Type} {CT : ConsensusTracker T} {W : Type} {MW : MovingWindow W}.
Context {HX : HexUtil} {BF : BlockFetcher (W := W)}.
Implicit Types cp : ConsensusPoller T.
Implicit Types bg : BackendGroup W.

(** Every backend answers with the hash of its own chain. *)
Definition chain_fetcher (chain : nat -> Z -> string) : Prop :=
  (forall be n, chain be n <> "") /\
  forall round be n bg, in_u64 n -> exists bg', fetch_block round be (hex_String n) bg = Returns (inl (n, chain be n), bg')
    /\ length (bg_Backends bg') = length (bg_Backends bg).

(** The backends [keys] have the same block at height [n]. *)
Definition same_at (chain : nat -> Z -> string) (keys : list nat) (n : Z) : Prop :=
  forall be be', be ∈ keys -> be' ∈ keys -> chain be n = chain be' n.

Lemma agree_chain chain : chain_fetcher chain -> forall round order current p, in_u64 p -> forall hash broken bg,
  exists (ok : bool) hash' bg', agree round order current p hash broken bg
      = Returns (ok, hash', (if ok then broken else broken || (p <=? current)), bg')
    /\ length (bg_Backends bg') = length (bg_Backends bg)
    /\ (hash <> "" -> (ok = true <-> forall be, be ∈ order -> chain be p = hash))
    /\ (hash = "" -> (ok = true <-> same_at chain order p)).
Proof.
  intros [Hne Hf] round order current p Hu. induction order as [|x rest IH]; intros hash broken bg; cbn [agree].
  { exists true, hash, bg. split_and!; [done|done| |]; intros _; (split; [|done]); intros _ ? ; set_solver. }
  destruct (Hf round x p bg Hu) as (bg1 & -> & Hl1). cbn [outcome_bind]. rewrite Z.eqb_refl. cbn [negb orb].
  destruct (decide (hash = "")) as [->|Hh].
  - rewrite (bool_decide_eq_true_2 ("" = "")) by done. rewrite (bool_decide_eq_true_2 (chain x p = _)) by done.
    cbn [negb]. destruct (IH (chain x p) broken bg1) as (ok & h' & bg' & -> & Hl & H1 & _).
    exists ok, h', bg'. split_and!; [done|congruence|done|]. intros _. rewrite (H1 (Hne x p)). split.
    + intros Hall. assert (Hx : forall be, be ∈ x :: rest -> chain be p = chain x p).
      { intros be [->|Hb]%elem_of_cons; [done|by apply Hall]. }
      intros be be' Hb Hb'. by rewrite (Hx be Hb), (Hx be' Hb').
    + intros Hs be Hb. apply Hs; set_solver.
  - rewrite (bool_decide_eq_false_2 (hash = "")) by done. case_bool_decide as Ex; cbn [negb].
    + destruct (IH hash broken bg1) as (ok & h' & bg' & -> & Hl & H1 & _).
      exists ok, h', bg'. split_and!; [done|congruence| |done]. intros _. rewrite (H1 Hh). set_solver.
    + exists false, hash, bg1. split_and!; [done|done| |done]. intros _. split; [done|]. set_solver.
Qed.

(** The hash to compare with: none yet, or the one of a backend of the round. *)
Definition hash_ok (chain : nat -> Z -> string) (keys : list nat) (p : Z) (hash : string) : Prop :=
  hash = "" \/ exists be, be ∈ keys /\ hash = chain be p.

Lemma agree_round chain keys order round current p hash broken bg :
  chain_fetcher chain -> in_u64 p -> order ≡ₚ keys -> hash_ok chain keys p hash ->
  exists (ok : bool) hash' bg', agree round order current p hash broken bg
      = Returns (ok, hash', (if ok then broken else broken || (p <=? current)), bg')
    /\ length (bg_Backends bg') = length (bg_Backends bg) /\ (ok = true <-> same_at chain keys p).
Proof.
  intros Hc Hu Hp Hh. destruct (agree_chain chain Hc round order current p Hu hash broken bg)
    as (ok & h' & bg' & E & Hl & H1 & H2). exists ok, h', bg'. split; [done|]. split; [done|].
  assert (Hin : forall be, be ∈ order <-> be ∈ keys) by (intros; by rewrite Hp).
  destruct Hh as [->|(be0 & Hb0 & ->)].
  - rewrite (H2 eq_refl). unfold same_at. by setoid_rewrite Hin.
  - rewrite (H1 (proj1 Hc be0 p)). setoid_rewrite Hin. split.
    + intros Hall be be' Hb Hb'. by rewrite (Hall be Hb), (Hall be' Hb').
    + intros Hs be Hb. by apply Hs.
Qed.

Lemma find_consensus_chain chain keys a orders current :
  chain_fetcher chain -> (forall r, orders r ≡ₚ keys) -> 0 <= a -> same_at chain keys a ->
  forall fuel round p hash broken bg, a <= p < 2 ^ 64 -> (Z.to_nat (p - a) < fuel)%nat -> hash_ok chain keys p hash ->
  exists q h bg', find_consensus fuel round orders current p hash broken bg
      = Returns (Some (q, h, broken || ((q <? p) && (q <? current))), bg')
    /\ length (bg_Backends bg') = length (bg_Backends bg)
    /\ a <= q <= p /\ same_at chain keys q /\ (forall i, q < i <= p -> ~ same_at chain keys i).
Proof.
  intros Hc Ho Ha Hsame. induction fuel as [|fuel IH]; intros round p hash broken bg Hp Hf Hh; [lia|].
  cbn [find_consensus].
  destruct (agree_round chain keys (orders round) round current p hash broken bg Hc ltac:(unfold in_u64; lia) (Ho round) Hh)
    as (ok & h1 & bg1 & -> & Hl1 & Hok). cbn [outcome_bind]. destruct ok.
  - exists p, h1, bg1. rewrite Z.ltb_irrefl. cbn [andb]. rewrite orb_false_r. split_and!; try done; try lia.
    by apply Hok.
  - assert (Hpa : a < p).
    { destruct (decide (p = a)) as [->|]; [|lia]. apply Hok in Hsame. discriminate. }
    rewrite u64_small by (unfold in_u64; lia).
    destruct (IH (S round) (p - 1) "" (broken || (p <=? current)) bg1) as (q & h & bg' & -> & Hl & Hq & Hs & Hhi);
      [lia|lia|by left|].
    exists q, h, bg'. split; [|split; [congruence|split; [lia|split; [done|]]]].
    + do 4 f_equal. rewrite <- orb_assoc. f_equal.
      destruct (Z.leb_spec p current), (Z.ltb_spec q (p - 1)), (Z.ltb_spec q current), (Z.ltb_spec q p); cbn; lia || done.
    + intros i Hi. destruct (decide (i = p)) as [->|]; [|apply Hhi; lia]. intros Hs'. by apply Hok in Hs'.
Qed.

(** Go ranges over a map in some order, each entry once. *)
Definition orders_ok (ro : range_orders) : Prop :=
  forall m, ro_states ro m ≡ₚ (map_to_list m).*2 /\ forall r, ro_round ro m r ≡ₚ (map_to_list m).*1.

Definition states_of (m : gmap nat backendState) : list backendState := (map_to_list m).*2.
Definition keys_of (m : gmap nat backendState) : list nat := (map_to_list m).*1.

Lemma elem_of_keys (m : gmap nat backendState) be : be ∈ keys_of m <-> is_Some (m !! be).
Proof.
  unfold keys_of. rewrite list_elem_of_fmap. split.
  - intros ([k v] & -> & H). apply elem_of_map_to_list in H. by eexists.
  - intros [v H]. exists (be, v). split; [done|]. by apply elem_of_map_to_list.
Qed.

Lemma elem_of_states (m : gmap nat backendState) bs : bs ∈ states_of m <-> exists be, m !! be = Some bs.
Proof.
  unfold states_of. rewrite list_elem_of_fmap. split.
  - intros ([k v] & -> & H). apply elem_of_map_to_list in H. by eexists.
  - intros [k H]. exists (k, bs). split; [done|]. by apply elem_of_map_to_list.
Qed.

Lemma least_perm {A} (f : A -> Z) l k v : l ≡ₚ k -> least f l v -> least f k v.
Proof. intros Hp [H1 (x & Hx & Ex)]. split; [intros y Hy; apply H1; by rewrite Hp|]. exists x. by rewrite <- Hp. Qed.

(** The lowest numbers of a non-empty map of candidates with positive numbers. *)
Lemma lowest_candidates ro (m : gmap nat backendState) : orders_ok ro -> m <> ∅ ->
  (forall be bs, m !! be = Some bs -> positive bs) ->
  exists latest hash fin safe, lowest (ro_states ro m) (0, "", 0, 0) = (latest, hash, fin, safe) /\
    least latestBlockNumber (states_of m) latest /\ least finalizedBlockNumber (states_of m) fin /\
    least safeBlockNumber (states_of m) safe /\
    exists be bs, m !! be = Some bs /\ latestBlockNumber bs = latest /\ latestBlockHash bs = hash.
Proof.
  intros Ho Hne Hpos. destruct (Ho m) as [Hp _]. fold (states_of m) in Hp.
  assert (HF : Forall positive (ro_states ro m)).
  { rewrite Forall_forall. intros bs Hb. rewrite Hp, elem_of_states in Hb. destruct Hb as [be Hb]. by eapply Hpos. }
  pose proof (lowest_spec (ro_states ro m) [] (0, "", 0, 0) HF) as HL. cbn [app] in HL.
  destruct (lowest (ro_states ro m) (0, "", 0, 0)) as [[[latest hash] fin] safe].
  exists latest, hash, fin, safe. split; [done|].
  destruct HL as [[HE _]|(H1 & (bs & H2 & H3 & H4) & H5 & H6)]; [by left| |].
  - exfalso. apply Hne. apply map_empty. intros be. destruct (m !! be) as [bs|] eqn:E; [|done]. exfalso.
    assert (Hin : bs ∈ ro_states ro m) by (rewrite Hp, elem_of_states; eauto). rewrite HE in Hin. by apply elem_of_nil in Hin.
  - repeat (split; [by eapply least_perm|]). rewrite Hp, elem_of_states in H2. destruct H2 as [be H2]. eauto.
Qed.

(** C3: the group's consensus.  Let every candidate report its own chain, and let the candidates'
    chains agree at some height [a].  Then the update terminates, and publishes: as latest block the
    highest block, not above the lowest latest block, on which all candidates agree; the lowest safe
    and finalized blocks; and the candidates as consensus group.  The listeners are called exactly
    when the agreed block had to fall below both the lowest latest block and the block agreed before,
    that is on a reorganisation. *)
Theorem consensus_agreement fuel clk ro bg cp m chain a : orders_ok ro -> chain_fetcher chain ->
  getConsensusCandidates clk bg cp = Returns m -> m <> ∅ ->
  (forall be bs, m !! be = Some bs -> positive bs /\ in_u64 (latestBlockNumber bs)
     /\ latestBlockHash bs = chain be (latestBlockNumber bs)
     /\ a <= latestBlockNumber bs < a + Z.of_nat fuel) ->
  0 <= a -> same_at chain (keys_of m) a ->
  exists bg' cp' called p low safe fin,
    UpdateBackendGroupConsensus fuel clk ro bg cp = Returns (Some (bg', cp', called)) /\
    least latestBlockNumber (states_of m) low /\ least safeBlockNumber (states_of m) safe /\
    least finalizedBlockNumber (states_of m) fin /\
    a <= p <= low /\ same_at chain (keys_of m) p /\ (forall i, p < i <= low -> ~ same_at chain (keys_of m) i) /\
    cp_tracker cp' = SetFinalizedBlockNumber fin (SetSafeBlockNumber safe (SetLatestBlockNumber p (cp_tracker cp))) /\
    (forall be, be ∈ GetConsensusGroup cp' <-> (be < length (bg_Backends bg))%nat /\ is_Some (m !! be)) /\
    called = (if (p <? low) && (p <? cp_GetLatestBlockNumber cp) then cp_listeners cp else []).
Proof.
  intros Ho Hc Hm Hne Hcand Ha Hsame. unfold UpdateBackendGroupConsensus. rewrite Hm. cbn [outcome_bind].
  destruct (lowest_candidates ro m Ho Hne) as (low & hash & fin & safe & -> & HL & HF & HS & be0 & bs0 & Hb0 & El & Eh).
  { intros be bs H. by apply Hcand in H as [? _]. }
  destruct (Hcand _ _ Hb0) as ((Hp0 & _) & Hu & Hh & Hal). rewrite El in *.
  destruct (Z.ltb_spec 0 low) as [_|]; [|lia].
  destruct (find_consensus_chain chain (keys_of m) a (ro_round ro m) (cp_GetLatestBlockNumber cp) Hc
              (fun r => proj2 (Ho m) r) Ha Hsame fuel 0%nat low hash false bg)
    as (p & h & bg' & -> & Hl & Hp & Hs & Hhi); [unfold in_u64 in Hu; lia|lia| |].
  { right. exists be0. split; [apply elem_of_keys; eauto|congruence]. }
  cbn [outcome_bind publish orb]. eexists bg', _, _, p, low, safe, fin. split; [reflexivity|].
  split_and!; [exact HL|exact HS|exact HF|lia|lia|exact Hs|exact Hhi|reflexivity| |reflexivity].
  intros be. unfold GetConsensusGroup. cbn. rewrite list_elem_of_filter, elem_of_seq, Hl. split; [intros []; split; [lia|done]|].
  intros []. split; [done|lia].
Qed.

End agreement.

(** ** The block tags of one backend *)

(** The tags of a backend are as expected exactly when finalized <= safe <= latest and neither
    safe nor finalized fell by more than its drift threshold - where a number that was not above its
    threshold may not fall at all. *)
Theorem expected_tags safeDrift finDrift latest oldSafe safe oldFin fin :
  in_u64 safeDrift -> in_u64 finDrift -> in_u64 oldSafe -> in_u64 oldFin ->
  checkExpectedBlockTags safeDrift finDrift latest oldSafe safe oldFin fin = true <->
  fin <= safe <= latest /\ oldSafe - safe <= (if safeDrift <? oldSafe then safeDrift else 0)
  /\ oldFin - fin <= (if finDrift <? oldFin then finDrift else 0).
Proof.
  intros H1 H2 H3 H4. unfold checkExpectedBlockTags, allowance. rewrite !andb_true_iff, !Z.leb_le. unfold in_u64 in *.
  destruct (Z.ltb_spec safeDrift oldSafe), (Z.ltb_spec finDrift oldFin); rewrite ?u64_small by (unfold in_u64; lia); lia.
Qed.

Lemma expected_tags_witness : checkExpectedBlockTags 5 5 100 90 86 80 76 = true.
Proof. apply (expected_tags 5 5 100 90 86 80 76); unfold in_u64; cbn; lia. Defined.

(** ** What survives a call *)

Section keeps.
Context {W : Type} {MW : MovingWindow W}.
Context {HX : HexUtil} {HXL : HexUtilLaws} {BX : BlockRPC} {RX : ReceiptsRPC} {SS : SortSlice} {SSL : SortSliceLaws}.
Implicit Types bg : BackendGroup W.

(** A backend without its windows: its configuration. *)
Definition config (b : Backend W) : Backend W :=
  set_latency mw_New (set_networkRequests mw_New (set_intermittentErrors mw_New b)).

Definition group_config bg : BackendGroup W := set_Backends (map config (bg_Backends bg)) bg.

(** A computation that changes nothing of a group but the windows of its backends. *)
Definition keeps {A} bg (m : outcome (A * BackendGroup W)) : Prop :=
  forall a bg', m = Returns (a, bg') -> group_config bg' = group_config bg.

Lemma group_config_backend bg bg' be b' : group_config bg' = group_config bg -> bg_Backends bg' !! be = Some b' ->
  exists b, bg_Backends bg !! be = Some b /\ config b = config b'.
Proof.
  intros H Hb. apply (f_equal (fun g => bg_Backends g !! be)) in H. cbn in H. rewrite !list_lookup_fmap, Hb in H.
  destruct (bg_Backends bg !! be) as [b|]; [|done]. exists b. split; [done|]. symmetry. by apply (inj Some).
Qed.

Lemma group_config_length bg bg' : group_config bg' = group_config bg -> length (bg_Backends bg') = length (bg_Backends bg).
Proof. intros H. apply (f_equal (fun g => length (bg_Backends g))) in H. cbn in H. by rewrite !length_map in H. Qed.

Lemma set_backend_config be b b' bg : bg_Backends bg !! be = Some b -> config b' = config b ->
  group_config (set_backend be b' bg) = group_config bg.
Proof.
  intros Hb Hc. unfold group_config, set_backend, set_Backends. cbn. f_equal.
  rewrite (list_fmap_insert config). rewrite Hc. apply list_insert_id. by rewrite list_lookup_fmap, Hb.
Qed.

Lemma doForward_config ctx net reqs isBatch now (b : Backend W) res b' reqs' :
  doForward ctx net reqs isBatch now b = Returns (res, b', reqs') -> config b' = config b.
Proof.
  intros H. destruct (doForward_ok _ _ _ _ _ _ _ H) as [_ Hm].
  destruct res; [destruct Hm as (_ & _ & rq & resp & _ & _ & _ & ->)|destruct Hm as [->|(rq & _ & ->)]]; done.
Qed.

Lemma ForwardRPC_config ctx net id method params now (b : Backend W) res b' :
  ForwardRPC ctx net id method params now b = Returns (res, b') -> config b' = config b.
Proof.
  unfold ForwardRPC. intros H. destruct (doForward _ _ _ _ _ b) as [[[r b1] rs]|] eqn:E; cbn [outcome_bind] in H; [|done].
  apply doForward_config in E. destruct r as [[|x [|]]|]; [|destruct (res_Error x)|..]; by injection H as _ <-.
Qed.

Lemma rpc_keeps ctx c be method params bg : keeps bg (rpc ctx c be method params bg).
Proof.
  intros a bg' H. unfold rpc, backend_at in H. destruct (bg_Backends bg !! be) as [b|] eqn:Eb; cbn [outcome_bind] in H; [|done].
  step_outcome H. destruct a0 as [r b']. injection H as _ <-. eapply set_backend_config; [done|]. by eapply ForwardRPC_config.
Qed.

Lemma fetchBlock_keeps ctx c be block bg : keeps bg (fetchBlock ctx c be block bg).
Proof.
  intros a bg' H. unfold fetchBlock in H. step_outcome H. destruct a0 as [[res|err] bg1]; apply rpc_keeps in E; [|by injection H as _ <-].
  destruct (res_Result res) as [[[| | | | |fs]| | |]|]; try (by injection H as _ <-).
  do 3 step_outcome H. by injection H as _ <-.
Qed.

Lemma fetchBlock_u64 ctx c be block bg n h bg' : fetchBlock ctx c be block bg = Returns (inl (n, h), bg') -> in_u64 n.
Proof.
  intros H. unfold fetchBlock in H. step_outcome H. destruct a as [[res|err] bg1]; [|done].
  destruct (res_Result res) as [[[| | | | |fs]| | |]|]; try done.
  do 3 step_outcome H. injection H as <- <- <-. unfold MustDecodeUint64 in E1.
  destruct (hex_DecodeUint64 a) as [z|] eqn:Ez; [|done]. injection E1 as <-. by eapply hex_range.
Qed.

Lemma getPeerCount_keeps ctx c be bg : keeps bg (getPeerCount ctx c be bg).
Proof.
  intros a bg' H. unfold getPeerCount in H. step_outcome H. destruct a0 as [[res|err] bg1]; apply rpc_keeps in E; [|by injection H as _ <-].
  destruct (res_Result res) as [[[| | | | |]| | |]|]; try (by injection H as _ <-). step_outcome H. by injection H as _ <-.
Qed.

Lemma isInSync_keeps ctx c be bg : keeps bg (isInSync ctx c be bg).
Proof.
  intros a bg' H. unfold isInSync in H. step_outcome H. destruct a0 as [[res|err] bg1]; apply rpc_keeps in E; [|by injection H as _ <-].
  destruct (res_Result res) as [[[| | |s| |]| | |]|]; try (by injection H as _ <-).
  destruct (ParseBool s); by injection H as _ <-.
Qed.

Lemma count_error_at_keeps now be bg bg' : count_error_at now be bg = Returns bg' -> group_config bg' = group_config bg.
Proof.
  unfold count_error_at, backend_at. intros H. destruct (bg_Backends bg !! be) as [b|] eqn:Eb; cbn [outcome_bind] in H; [|done].
  injection H as <-. by eapply set_backend_config.
Qed.

Lemma fetch_tag_spec ctx env c be tag bg r bg' : fetch_tag ctx env c be tag bg = Returns (r, bg') ->
  group_config bg' = group_config bg /\ forall n h, r = Some (n, h) -> in_u64 n /\ n <> 0.
Proof.
  unfold fetch_tag. intros H. step_outcome H. destruct a as [[[n h]|err] bg1]; pose proof (fetchBlock_keeps _ _ _ _ _ _ _ E) as Hk.
  - apply fetchBlock_u64 in E. destruct (Z.eqb_spec n 0) as [Hz|Hz].
    + step_outcome H. injection H as <- <-. apply count_error_at_keeps in E0. split; [congruence|done].
    + injection H as <- <-. split; [done|]. by intros ? ? [= <- <-].
  - by injection H as <- <-.
Qed.

Lemma fetch_peers_keeps ctx env be skip bg : keeps bg (fetch_peers ctx env be skip bg).
Proof.
  unfold fetch_peers. intros r bg' H. destruct skip; [by injection H as _ <-|]. step_outcome H.
  destruct a as [[n|err] bg1]; apply getPeerCount_keeps in E; [|by injection H as _ <-].
  destruct (n =? 0); [|by injection H as _ <-]. step_outcome H. injection H as _ <-. apply count_error_at_keeps in E0. congruence.
Qed.

(** An observation holds [uint64] block numbers that are not zero. *)
Lemma observe_spec ctx env be skip bg r bg' : observe ctx env be skip bg = Returns (r, bg') ->
  group_config bg' = group_config bg /\
  forall o, r = Some o -> (in_u64 (ob_latest o) /\ ob_latest o <> 0) /\ (in_u64 (ob_safe o) /\ ob_safe o <> 0)
                          /\ (in_u64 (ob_finalized o) /\ ob_finalized o <> 0).
Proof.
  unfold observe. intros H. step_outcome H. destruct a as [[sync|err] bg1]; apply isInSync_keeps in E; [|by injection H as <- <-].
  step_outcome H. destruct a as [[peers|] bg2]; apply fetch_peers_keeps in E0; [|injection H as <- <-; split; [congruence|done]].
  step_outcome H. destruct a as [[[latest hash]|] bg3]; apply fetch_tag_spec in E1 as [E1 N1];
    [|injection H as <- <-; split; [congruence|done]].
  step_outcome H. destruct a as [[[safe hash2]|] bg4]; apply fetch_tag_spec in E2 as [E2 N2];
    [|injection H as <- <-; split; [congruence|done]].
  step_outcome H. destruct a as [[[fin hash3]|] bg5]; apply fetch_tag_spec in E3 as [E3 N3];
    [|injection H as <- <-; split; [congruence|done]].
  injection H as <- <-. split; [congruence|]. intros o [= <-]. cbn.
  exact (conj (N1 _ _ eq_refl) (conj (N2 _ _ eq_refl) (N3 _ _ eq_refl))).
Qed.

End keeps.
