(* ===== verification/ConsensusInvariant.v ===== *)
(** * The critical sections of the poller

    What the goroutines of the poller do to its shared state, one critical section at a time, with the
    invariant of a single backend's numbers and the samples of a polled group.  An update of a backend and
    an update of the group's consensus are sequences of such sections, and anything may come between two
    of them. *)

From S2P Require Import Prelude Json JsonFacts Geth Rpc Util Http SlidingWindow Backend BackendFacts Tracker Consensus.
From S2P Require Import ConsensusFacts.

Section invariant.
Context {T : Type} {CT : ConsensusTracker T} {W : Type} {MW : MovingWindow W}.
Context {HX : HexUtil} {HXL : HexUtilLaws} {BX : BlockRPC} {RX : ReceiptsRPC} {SS : SortSlice} {SSL : SortSliceLaws}.
Implicit Types cp : ConsensusPoller T.
Implicit Types bg : BackendGroup W.

(** [ps_tracker] is the heartbeat of a shared tracker, [ps_traffic] whatever requests and polls do to the
    windows of the backends. *)
Inductive poller_step : BackendGroup W * ConsensusPoller T -> BackendGroup W * ConsensusPoller T -> Prop :=
| ps_record now be peers sync latest hash safe finalized bg cp changed cp' :
    setBackendState now be peers sync latest hash safe finalized cp = Returns (changed, cp') -> poller_step (bg, cp) (bg, cp')
| ps_ban now be bg cp cp' : Ban now bg be cp = Returns cp' -> poller_step (bg, cp) (bg, cp')
| ps_unban now be bg cp cp' : Unban now be cp = Returns cp' -> poller_step (bg, cp) (bg, cp')
| ps_latest n bg cp : poller_step (bg, cp) (bg, set_tracker (SetLatestBlockNumber n (cp_tracker cp)) cp)
| ps_safe n bg cp : poller_step (bg, cp) (bg, set_tracker (SetSafeBlockNumber n (cp_tracker cp)) cp)
| ps_finalized n bg cp : poller_step (bg, cp) (bg, set_tracker (SetFinalizedBlockNumber n (cp_tracker cp)) cp)
| ps_consensus group bg cp : poller_step (bg, cp) (bg, set_consensusGroup group cp)
| ps_tracker tracker bg cp : poller_step (bg, cp) (bg, set_tracker tracker cp)
| ps_traffic bg bg' cp : group_config bg' = group_config bg -> poller_step (bg, cp) (bg', cp).

Definition numbers_u64 (bs : backendState) : Prop :=
  in_u64 (latestBlockNumber bs) /\ in_u64 (safeBlockNumber bs) /\ in_u64 (finalizedBlockNumber bs).

(** Finalized <= safe <= latest, and all three zero or none. *)
Definition tags_ordered (bs : backendState) : Prop :=
  finalizedBlockNumber bs <= safeBlockNumber bs <= latestBlockNumber bs /\
  (finalizedBlockNumber bs = 0 -> latestBlockNumber bs = 0).

Lemma Reset_lookup bg cp be : (be < length (bg_Backends bg))%nat -> cp_backendState (Reset bg cp) !! be = Some zeroState.
Proof.
  unfold Reset. cbn. intros Hb. assert (Hin : be ∈ seq 0 (length (bg_Backends bg))) by (apply elem_of_seq; lia).
  clear Hb. induction (seq 0 (length (bg_Backends bg))) as [|x l IH]; cbn; [by apply elem_of_nil in Hin|].
  destruct (decide (x = be)) as [->|Hne]; [by rewrite lookup_insert_eq|].
  rewrite lookup_insert_ne by done. apply IH. set_solver.
Qed.

Lemma agree_keeps ctx calls round order current p : forall hash broken bg a bg',
  agree (BF := network_fetcher ctx calls) round order current p hash broken bg = Returns (a, bg') ->
  group_config bg' = group_config bg.
Proof.
  induction order as [|x rest IH]; intros hash broken bg a bg' H; cbn [agree] in H; [by injection H as _ <-|].
  step_outcome H. destruct a0 as [[[n h]|err] bg1]; apply fetchBlock_keeps in E; [|apply IH in H; congruence].
  destruct (_ || _); [by injection H as _ <-|]. apply IH in H. congruence.
Qed.

Lemma find_consensus_keeps ctx calls orders current fuel : forall round p hash broken bg a bg',
  find_consensus (BF := network_fetcher ctx calls) fuel round orders current p hash broken bg = Returns (a, bg') ->
  group_config bg' = group_config bg.
Proof.
  induction fuel as [|fuel IH]; intros round p hash broken bg a bg' H; cbn [find_consensus] in H; [by injection H as _ <-|].
  step_outcome H. destruct a0 as [[[ok h] br] bg1]. apply agree_keeps in E. destruct ok; [by injection H as _ <-|].
  apply IH in H. congruence.
Qed.

End invariant.

#[local] Existing Instance total_window.

(** A group of two primaries, freshly polled. *)
Definition two_primaries : BackendGroup Q :=
  mkBackendGroup "main" [NewBackend "a" "http://a" "" []; NewBackend "b" "http://b" "" []] false
    (list_to_map [("a", false); ("b", false)]) ConsensusAwareRoutingStrategy false.

Definition polled_state (hash : string) : backendState := mkBackendState 10 hash 7 5 4 true Second 0.

Definition polled_poller : ConsensusPoller InMemoryConsensusTracker :=
  set_state 1 (polled_state "y") (set_state 0 (polled_state "x")
    (NewConsensusPoller (mkTrackerState 9 6 5) two_primaries [WithListener 42])).

Definition calm : nat -> filter_clock := fun _ => mkFilterClock Second Second Second.

Lemma candidates_conditions_witness :
  exists m, getConsensusCandidates calm two_primaries polled_poller = Returns m /\ m !! 1%nat = Some (polled_state "y").
Proof.
  destruct (candidates_conditions calm two_primaries polled_poller) as (m & Hm & _).
  - intros [|[|be]] Hb; [by eexists|by eexists|]. cbn in Hb. lia.
  - split; [done|]. intros [|[|be]] bs [b Hb] Hs; [| |done]; vm_compute in Hs; injection Hs as <-; unfold in_u64; cbn; lia.
  - exists m. split; [done|]. vm_compute in Hm. injection Hm as <-. vm_compute. reflexivity.
Defined.

(** The two chains fork after block 8. *)
Definition forked (be : nat) (n : Z) : string := if n <=? 8 then "c" else if (be =? 0)%nat then "x" else "y".

(** Asks the chains directly: a block is named by its number in hexadecimal. *)
Definition forked_fetcher : BlockFetcher (W := Q) := fun _ be block bg =>
  match hex_DecodeUint64 block with
  | Some n => Returns (inl (n, forked be n), bg)
  | None => Returns (inr (ENew "no such block"), bg)
  end.

Lemma forked_fetcher_chain : chain_fetcher (BF := forked_fetcher) forked.
Proof.
  split; [intros be n; unfold forked; destruct (n <=? 8), (be =? 0)%nat; discriminate|].
  intros round be n bg Hn. exists bg. unfold fetch_block, forked_fetcher. by rewrite hex_roundtrip.
Qed.

Definition plain_orders : range_orders := mkRangeOrders (fun m => (map_to_list m).*2) (fun m _ => (map_to_list m).*1).

Lemma consensus_agreement_witness :
  exists bg' cp' p, UpdateBackendGroupConsensus (BF := forked_fetcher) 3 calm plain_orders two_primaries polled_poller
      = Returns (Some (bg', cp', [42%nat])) /\ GetLatestBlockNumber (cp_tracker cp') = p /\ 8 <= p <= 10.
Proof.
  destruct (getConsensusCandidates calm two_primaries polled_poller) as [m|] eqn:Em; [|vm_compute in Em; discriminate].
  pose proof Em as Em'. vm_compute in Em'. injection Em' as Em'.
  destruct (consensus_agreement (BF := forked_fetcher) 3 calm plain_orders two_primaries polled_poller m forked 8)
    as (bg' & cp' & called & p & low & safe & fin & E & Hlow & _ & _ & Hp & _ & _ & Ht & _ & Hc).
  - intros m'. done.
  - apply forked_fetcher_chain.
  - done.
  - rewrite <- Em'. discriminate.
  - intros be bs Hb. rewrite <- Em' in Hb.
    apply elem_of_map_to_list in Hb. vm_compute in Hb.
    apply elem_of_cons in Hb as [[= -> ->]|[= -> ->]%list_elem_of_singleton];
      unfold positive, in_u64; cbn; split_and!; try lia; reflexivity.
  - done.
  - intros be be' _ _. reflexivity.
  - pose proof E as E2. vm_compute in E2. injection E2 as E2 E3 E4.
    exists bg', cp', p. rewrite <- E4 in E. split; [exact E|]. rewrite Ht. split; [done|].
    destruct Hlow as [Hlow _]. specialize (Hlow (polled_state "x")).
    assert (low <= 10); [|lia]. apply Hlow. rewrite <- Em'. apply elem_of_states. exists 0%nat. vm_compute. reflexivity.
Defined.
