(* ===== verification/PollerLoop.v ===== *)
(** * The goroutines of the poller ([PollerAsyncHandler] of src/consensus_poller.go)

    [Init] starts a goroutine for every primary, one for every fallback and one for the group's
    consensus.  Each repeats its round and then waits for its timer or for the handler's context,
    which [Shutdown] cancels.  A round is cut where the code takes or releases a lock: a goroutine has a
    stage, which holds what its local variables hold, and a step reads or writes the shared state once.
    The goroutines interleave freely at these points, client traffic changes the windows of the backends,
    and the heartbeat of a shared tracker may change the tracker at any time. *)

From S2P Require Import Prelude Json JsonFacts Geth Rpc Util Http SlidingWindow Backend BackendFacts Tracker Consensus.
From S2P Require Import ConsensusFacts ConsensusInvariant.

Section handler.
Context {T : Type} {CT : ConsensusTracker T} {W : Type} {MW : MovingWindow W}.
Context {HX : HexUtil} {HXL : HexUtilLaws} {BX : BlockRPC} {RX : ReceiptsRPC} {SS : SortSlice} {SSL : SortSliceLaws}.
Implicit Types cp : ConsensusPoller T.
Implicit Types bg : BackendGroup W.

Inductive goroutine : Type :=
| PollsPrimary (be : nat)
| PollsFallback (be : nat)
| PollsGroup.

(** Why candidates are filtered: before a fallback is polled, or for the consensus, with the consensus
    block read at the start, among the primaries or then among the fallbacks. *)
Inductive purpose : Type :=
| ForFallback
| ForConsensus (current : Z) (fallbacks : bool).

(** What an update of the consensus is about to publish. *)
Record election : Type := mkElection { el_latest : Z; el_safe : Z; el_finalized : Z; el_group : list nat }.

Inductive stage : Type :=
| AtTop
| Filtering (why : purpose) (todo : list nat) (acc : gmap nat backendState)
| Testing (why : purpose) (be : nat) (bs : backendState) (todo : list nat) (acc : gmap nat backendState)
| Starting
| Copied (bs : backendState)
| Asking (bs : backendState)
| Observed (bs : backendState) (o : observation)
| Recorded (bs : backendState) (o : observation)
| Banning (o : option observation)
| Walking (current : Z) (candidates : gmap nat backendState)
| SettingLatest (e : election)
| SettingSafe (e : election)
| SettingFinalized (e : election)
| SettingGroup (e : election)
| Waiting.

Record PollerAsyncHandler : Type := mkHandler {
  ah_group : BackendGroup W;
  ah_poller : ConsensusPoller T;
  ah_cancelled : bool;
  ah_running : list (goroutine * stage);
}.

(** [NoopAsyncHandler] starts nothing. *)
Definition noop_Init bg cp : PollerAsyncHandler := mkHandler bg cp false [].

Definition jobs bg : list goroutine := map PollsPrimary (Primaries bg) ++ map PollsFallback (Fallbacks bg) ++ [PollsGroup].

Definition Init bg cp : PollerAsyncHandler := mkHandler bg cp false (map (fun j => (j, AtTop)) (jobs bg)).

Definition ah_Shutdown (h : PollerAsyncHandler) : PollerAsyncHandler :=
  mkHandler (ah_group h) (ah_poller h) true (ah_running h).

(** The backend whose state a goroutine updates. *)
Definition polls (j : goroutine) : option nat :=
  match j with PollsPrimary be | PollsFallback be => Some be | PollsGroup => None end.

(** The end of [FilterCandidates], on the copies it has made. *)
Definition unlagged cp (candidates : gmap nat backendState) : gmap nat backendState :=
  filter (fun kv => lagging cp (highestLatestBlock candidates) (snd kv) = false) candidates.

(** The middle of [UpdateBackendGroupConsensus], on the copies of the candidates. *)
Definition walk (ctx : Context) (calls : nat -> nat -> call) (fuel : nat) (ro : range_orders) (current : Z)
    (candidates : gmap nat backendState) bg : outcome (option (election * bool) * BackendGroup W) :=
  let '(lowLatest, lowHash, lowFinalized, lowSafe) := lowest (ro_states ro candidates) (0, "", 0, 0) in
  let! r := (if 0 <? lowLatest
             then find_consensus (BF := network_fetcher ctx calls) fuel 0 (ro_round ro candidates) current lowLatest lowHash false bg
             else Returns (Some (lowLatest, lowHash, false), bg)) in
  let '(found, bg) := r in
  Returns (match found with
           | None => None
           | Some (proposed, _, broken) =>
               let group := filter (fun be => is_Some (candidates !! be)) (seq 0 (length (bg_Backends bg))) in
               Some (mkElection proposed lowSafe lowFinalized group, broken)
           end, bg).

(** Whether the tags that were observed are as expected, given the copy made before. *)
Definition tags_expected (b : Backend W) (bs : backendState) (o : observation) : bool :=
  checkExpectedBlockTags (b_safeBlockDriftThreshold b) (b_finalizedBlockDriftThreshold b)
    (ob_latest o) (safeBlockNumber bs) (ob_safe o) (finalizedBlockNumber bs) (ob_finalized o).

(** What a goroutine does next.  The calls of [rs_ask] and [rs_walk] are made over some windows of the
    backends and leave others behind, since traffic goes on meanwhile; they touch nothing else. *)
Inductive round_step : goroutine -> BackendGroup W * ConsensusPoller T * stage -> BackendGroup W * ConsensusPoller T * stage -> Prop :=
| rs_primary be bg cp : round_step (PollsPrimary be) (bg, cp, AtTop) (bg, cp, Starting)
| rs_fallback be bg cp : round_step (PollsFallback be) (bg, cp, AtTop) (bg, cp, Filtering ForFallback (Primaries bg) ∅)
| rs_group bg cp : round_step PollsGroup (bg, cp, AtTop)
    (bg, cp, Filtering (ForConsensus (cp_GetLatestBlockNumber cp) false) (Primaries bg) ∅)
| rs_copy j why be todo acc bs bg cp : GetBackendState cp be = Returns bs ->
    round_step j (bg, cp, Filtering why (be :: todo) acc) (bg, cp, Testing why be bs todo acc)
| rs_test j why be bs todo acc fc b bg cp : backend_at bg be = Returns b ->
    round_step j (bg, cp, Testing why be bs todo acc)
      (bg, cp, Filtering why todo (if eligible fc cp b bs then <[be := bs]> acc else acc))
| rs_primaries_filtered j acc bg cp :
    round_step j (bg, cp, Filtering ForFallback [] acc)
      (bg, cp, if bool_decide (unlagged cp acc = ∅) then Starting else Waiting)
| rs_candidates j current acc bg cp :
    round_step j (bg, cp, Filtering (ForConsensus current false) [] acc)
      (bg, cp, if bool_decide (unlagged cp acc = ∅) then Filtering (ForConsensus current true) (Fallbacks bg) ∅
               else Walking current (unlagged cp acc))
| rs_fallbacks j current acc bg cp :
    round_step j (bg, cp, Filtering (ForConsensus current true) [] acc) (bg, cp, Walking current (unlagged cp acc))
| rs_start j be now bs bg cp : polls j = Some be -> GetBackendState cp be = Returns bs ->
    round_step j (bg, cp, Starting) (bg, cp, if bs_IsBanned now bs then Waiting else Copied bs)
| rs_health j be now b bs bg cp : polls j = Some be -> backend_at bg be = Returns b ->
    round_step j (bg, cp, Copied bs)
      (bg, cp, if negb (IsHealthy now b) && negb (b_forcedCandidate b) then Banning None else Asking bs)
| rs_ask j be ctx env b bs r bg bg0 bg1 bg' cp : polls j = Some be -> backend_at bg be = Returns b ->
    group_config bg0 = group_config bg -> observe ctx env be (b_skipPeerCountCheck b) bg0 = Returns (r, bg1) ->
    group_config bg' = group_config bg ->
    round_step j (bg, cp, Asking bs) (bg', cp, match r with None => Waiting | Some o => Observed bs o end)
| rs_record j be now bs o changed bg cp cp' : polls j = Some be ->
    setBackendState now be (ob_peers o) (ob_inSync o) (ob_latest o) (ob_hash o) (ob_safe o) (ob_finalized o) cp
      = Returns (changed, cp') ->
    round_step j (bg, cp, Observed bs o) (bg, cp', Recorded bs o)
| rs_check j be b bs o bg cp : polls j = Some be -> backend_at bg be = Returns b ->
    round_step j (bg, cp, Recorded bs o)
      (bg, cp, if negb (tags_expected b bs o) && negb (b_forcedCandidate b) then Banning (Some o) else Waiting)
| rs_ban j be now o bg cp cp' : polls j = Some be -> Ban now bg be cp = Returns cp' ->
    round_step j (bg, cp, Banning o) (bg, cp', Waiting)
| rs_walk ctx calls fuel ro current candidates e broken bg bg0 bg1 bg' cp : group_config bg0 = group_config bg ->
    walk ctx calls fuel ro current candidates bg0 = Returns (Some (e, broken), bg1) -> group_config bg' = group_config bg ->
    round_step PollsGroup (bg, cp, Walking current candidates) (bg', cp, SettingLatest e)
| rs_latest e bg cp : round_step PollsGroup (bg, cp, SettingLatest e)
    (bg, set_tracker (SetLatestBlockNumber (el_latest e) (cp_tracker cp)) cp, SettingSafe e)
| rs_safe e bg cp : round_step PollsGroup (bg, cp, SettingSafe e)
    (bg, set_tracker (SetSafeBlockNumber (el_safe e) (cp_tracker cp)) cp, SettingFinalized e)
| rs_finalized e bg cp : round_step PollsGroup (bg, cp, SettingFinalized e)
    (bg, set_tracker (SetFinalizedBlockNumber (el_finalized e) (cp_tracker cp)) cp, SettingGroup e)
| rs_consensus e bg cp : round_step PollsGroup (bg, cp, SettingGroup e) (bg, set_consensusGroup (el_group e) cp, Waiting)
| rs_timer j bg cp : round_step j (bg, cp, Waiting) (bg, cp, AtTop).

Inductive ah_step : PollerAsyncHandler -> PollerAsyncHandler -> Prop :=
| ah_go l1 j st l2 bg cp c bg' cp' st' : round_step j (bg, cp, st) (bg', cp', st') ->
    ah_step (mkHandler bg cp c (l1 ++ (j, st) :: l2)) (mkHandler bg' cp' c (l1 ++ (j, st') :: l2))
| ah_leave l1 j l2 bg cp :
    ah_step (mkHandler bg cp true (l1 ++ (j, Waiting) :: l2)) (mkHandler bg cp true (l1 ++ l2))
| ah_shutdown h : ah_step h (ah_Shutdown h)
| ah_heartbeat tracker bg cp c gs : ah_step (mkHandler bg cp c gs) (mkHandler bg (set_tracker tracker cp) c gs)
| ah_traffic bg bg' cp c gs : group_config bg' = group_config bg -> ah_step (mkHandler bg cp c gs) (mkHandler bg' cp c gs).

(** The handler only does what the critical sections of the poller do. *)
Lemma round_step_poller j bg cp st bg' cp' st' : round_step j (bg, cp, st) (bg', cp', st') -> rtc poller_step (bg, cp) (bg', cp').
Proof.
  intros H. remember (bg, cp, st) as x eqn:Ex. remember (bg', cp', st') as y eqn:Ey.
  destruct H; injection Ex as <- <- <-; injection Ey as <- <- <-; try done; apply rtc_once.
  all: econstructor; eassumption.
Qed.

Lemma ah_step_poller h h' : ah_step h h' -> rtc poller_step (ah_group h, ah_poller h) (ah_group h', ah_poller h').
Proof.
  destruct 1 as [l1 j st l2 bg cp c bg' cp' st' H|l1 j l2 bg cp|h|t bg cp c gs|bg bg' cp c gs H]; cbn; try done.
  - by eapply round_step_poller.
  - apply rtc_once, ps_tracker.
  - by apply rtc_once, ps_traffic.
Qed.

(** ** A round that nothing interrupts *)

(** One round of the goroutine of a fallback: it only polls when no primary is a candidate. *)
Definition poll_fallback (clk : nat -> filter_clock) (ctx : Context) (env : update_env) (be : nat) bg cp
    : outcome (BackendGroup W * ConsensusPoller T) :=
  let! healthyCandidates := FilterCandidates clk bg cp (Primaries bg) in
  if bool_decide (healthyCandidates = ∅) then UpdateBackend ctx env be bg cp else Returns (bg, cp).

(** What the rounds read of a backend is part of its configuration. *)
Lemma config_reads (b b' : Backend W) : config b = config b' ->
  b_forcedCandidate b = b_forcedCandidate b' /\ b_skipPeerCountCheck b = b_skipPeerCountCheck b' /\
  forall bs o, tags_expected b bs o = tags_expected b' bs o.
Proof.
  intros E. pose proof (f_equal b_forcedCandidate E) as E1. pose proof (f_equal b_skipPeerCountCheck E) as E2.
  pose proof (f_equal b_safeBlockDriftThreshold E) as E3. pose proof (f_equal b_finalizedBlockDriftThreshold E) as E4.
  cbn in *. unfold tags_expected. by rewrite E3, E4.
Qed.

Lemma backend_at_lookup bg be (b : Backend W) : backend_at bg be = Returns b <-> bg_Backends bg !! be = Some b.
Proof. unfold backend_at. destruct (bg_Backends bg !! be); split; congruence. Qed.

Lemma collect_alone j why clk bg cp todo : forall acc m, collect clk bg cp todo acc = Returns m ->
  rtc (round_step j) (bg, cp, Filtering why todo acc) (bg, cp, Filtering why [] m).
Proof.
  induction todo as [|be todo IH]; intros acc m H; cbn [collect] in H; [by injection H as <-|].
  step_outcome H. step_outcome H. eapply rtc_l; [by apply rs_copy|]. eapply rtc_l; [by apply rs_test with (fc := clk be)|]. by apply IH.
Qed.

Lemma UpdateBackend_alone j be ctx env bg cp bg' cp' : polls j = Some be ->
  UpdateBackend ctx env be bg cp = Returns (bg', cp') -> rtc (round_step j) (bg, cp, Starting) (bg', cp', Waiting).
Proof.
  intros Hj H. unfold UpdateBackend in H. step_outcome H. eapply rtc_l; [by apply rs_start with (be := be) (now := ue_banned_at env)|].
  destruct (bs_IsBanned _ _); [by injection H as <- <-|]. step_outcome H.
  eapply rtc_l; [by apply rs_health with (be := be) (now := ue_healthy_at env)|].
  destruct (_ && _); [step_outcome H; injection H as <- <-; apply rtc_once; by eapply rs_ban|].
  step_outcome H. destruct a1 as [r bg1]. destruct (observe_spec _ _ _ _ _ _ _ E1) as [Hk _].
  eapply rtc_l; [by eapply (rs_ask j be ctx env a0 a r bg bg bg1 bg1)|]. destruct r as [o|]; [|by injection H as <- <-].
  step_outcome H. destruct a1 as [ch cp1]. eapply rtc_l; [by eapply rs_record|].
  apply backend_at_lookup in E0. destruct (group_config_backend _ _ _ _ (eq_sym Hk) E0) as (b1 & Hb1 & Ec).
  destruct (config_reads _ _ Ec) as (Hf & _ & He). apply backend_at_lookup in Hb1.
  eapply rtc_l; [by eapply rs_check|]. rewrite He, Hf. unfold tags_expected.
  destruct (_ && _); [|by injection H as <- <-]. step_outcome H. injection H as <- <-. apply rtc_once. by eapply rs_ban.
Qed.

Lemma poll_fallback_alone be clk ctx env bg cp bg' cp' : poll_fallback clk ctx env be bg cp = Returns (bg', cp') ->
  rtc (round_step (PollsFallback be)) (bg, cp, AtTop) (bg', cp', Waiting).
Proof.
  intros H. unfold poll_fallback, FilterCandidates in H. step_outcome H. step_outcome E. injection E as <-.
  eapply rtc_l; [apply rs_fallback|]. etrans; [by eapply collect_alone|]. eapply rtc_l; [apply rs_primaries_filtered|]. unfold unlagged.
  case_bool_decide; [by eapply UpdateBackend_alone|by injection H as <- <-].
Qed.

Lemma candidates_alone clk bg cp m : getConsensusCandidates clk bg cp = Returns m ->
  rtc (round_step PollsGroup) (bg, cp, AtTop) (bg, cp, Walking (cp_GetLatestBlockNumber cp) m).
Proof.
  intros H. unfold getConsensusCandidates, FilterCandidates in H. step_outcome H. step_outcome E. injection E as <-.
  eapply rtc_l; [apply rs_group|]. etrans; [by eapply collect_alone|]. eapply rtc_l; [apply rs_candidates|]. unfold unlagged.
  case_bool_decide; [|by injection H as <-]. step_outcome H. injection H as <-.
  etrans; [by eapply collect_alone|]. apply rtc_once. apply rs_fallbacks.
Qed.

Lemma group_alone ctx calls fuel clk ro bg cp bg' cp' called :
  UpdateBackendGroupConsensus (BF := network_fetcher ctx calls) fuel clk ro bg cp = Returns (Some (bg', cp', called)) ->
  rtc (round_step PollsGroup) (bg, cp, AtTop) (bg', cp', Waiting).
Proof.
  intros H. unfold UpdateBackendGroupConsensus in H. step_outcome H. etrans; [by eapply candidates_alone|].
  destruct (lowest _ _) as [[[low hash] fin] safe] eqn:El. step_outcome H. destruct a0 as [r bg1].
  assert (Hk : group_config bg1 = group_config bg).
  { destruct (0 <? low); [by eapply find_consensus_keeps|by injection E0 as _ <-]. }
  destruct r as [[[p h] broken]|]; [|done]. cbn [publish] in H. injection H as <- <- _.
  eapply rtc_l; [eapply (rs_walk ctx calls fuel ro _ _ (mkElection p safe fin _) broken bg bg bg1 bg1); [done| |done]|].
  { unfold walk. rewrite El, E0. cbn [outcome_bind]. done. }
  do 3 (eapply rtc_l; [constructor|]). apply rtc_once. apply rs_consensus.
Qed.

(** ** What holds all the time *)

(** The tags that a goroutine has stored and not yet found to be expected. *)
Definition pending (st : stage) : option observation :=
  match st with Recorded _ o => Some o | Banning o => o | _ => None end.

Definition unchecked (gs : list (goroutine * stage)) (be : nat) (o : observation) : Prop :=
  exists j st, (j, st) ∈ gs /\ polls j = Some be /\ pending st = Some o.

Definition records (bs : backendState) (o : observation) : Prop :=
  latestBlockNumber bs = ob_latest o /\ safeBlockNumber bs = ob_safe o /\ finalizedBlockNumber bs = ob_finalized o.

(** Every backend is registered, with [uint64] numbers; the numbers of one that is not forced are in order,
    or they are tags that its goroutine has just stored and is about to check. *)
Definition poller_inv bg cp (gs : list (goroutine * stage)) : Prop :=
  forall be b, bg_Backends bg !! be = Some b ->
    exists bs, cp_backendState cp !! be = Some bs /\ numbers_u64 bs /\
      (b_forcedCandidate b = false -> tags_ordered bs \/ exists o, unchecked gs be o /\ records bs o).

(** What the local variables of a goroutine hold. *)
Definition observed_ok (o : observation) : Prop :=
  (in_u64 (ob_latest o) /\ ob_latest o <> 0) /\ (in_u64 (ob_safe o) /\ ob_safe o <> 0) /\ (in_u64 (ob_finalized o) /\ ob_finalized o <> 0).

Definition copies_u64 (acc : gmap nat backendState) : Prop := forall be bs, acc !! be = Some bs -> numbers_u64 bs.

Definition in_group bg (todo : list nat) : Prop := Forall (fun be => (be < length (bg_Backends bg))%nat) todo.

Definition stage_ok bg (st : stage) : Prop :=
  match st with
  | Observed _ o | Recorded _ o => observed_ok o
  | Filtering _ todo acc => in_group bg todo /\ copies_u64 acc
  | Testing _ _ bs todo acc => in_group bg todo /\ numbers_u64 bs /\ copies_u64 acc
  | _ => True
  end.

Lemma numbers_zero : numbers_u64 zeroState /\ tags_ordered zeroState.
Proof. unfold numbers_u64, tags_ordered, in_u64. cbn. lia. Qed.

Lemma poller_inv_config bg bg' cp gs : group_config bg' = group_config bg -> poller_inv bg cp gs -> poller_inv bg' cp gs.
Proof.
  intros Hc HI be b' Hb'. destruct (group_config_backend _ _ _ _ Hc Hb') as (b & Hb & E).
  destruct (HI be b Hb) as (bs & Hs & Hn). exists bs. by destruct (config_reads _ _ E) as [<- _].
Qed.

(** A goroutine moves on without forgetting tags that it has stored. *)
Lemma unchecked_move j st st' l1 l2 be o : pending st = None \/ pending st' = pending st ->
  unchecked (l1 ++ (j, st) :: l2) be o -> unchecked (l1 ++ (j, st') :: l2) be o.
Proof.
  intros Hp (j0 & s0 & Hin & Hj & Ho). apply elem_of_app in Hin. rewrite elem_of_cons in Hin.
  assert (Hcase : (j0, s0) ∈ l1 \/ (j0, s0) ∈ l2 \/ (j0 = j /\ s0 = st)) by (destruct Hin as [|[[= -> ->]|]]; auto).
  destruct Hcase as [H|[H|[-> ->]]]; [exists j0, s0|exists j0, s0|exists j, st']; rewrite elem_of_app, elem_of_cons; split_and!; auto.
  destruct Hp; congruence.
Qed.

Lemma poller_inv_move j st st' l1 l2 bg cp : pending st = None \/ pending st' = pending st ->
  poller_inv bg cp (l1 ++ (j, st) :: l2) -> poller_inv bg cp (l1 ++ (j, st') :: l2).
Proof.
  intros Hp HI be b Hb. destruct (HI be b Hb) as (bs & Hs & Hn & Ho). exists bs. split_and!; [done..|]. intros Hf.
  destruct (Ho Hf) as [?|(o & Hu & Hr)]; [by left|]. right. exists o. split; [|done]. by eapply unchecked_move.
Qed.

(** The state of one backend becomes one that is fine for it. *)
Lemma poller_inv_set bg cp gs be bs : numbers_u64 bs ->
  (forall b, bg_Backends bg !! be = Some b -> b_forcedCandidate b = false -> tags_ordered bs \/ exists o, unchecked gs be o /\ records bs o) ->
  poller_inv bg cp gs -> poller_inv bg (set_state be bs cp) gs.
Proof.
  intros Hn Ho HI be' b' Hb'. cbn. destruct (decide (be = be')) as [->|Hne].
  - exists bs. rewrite lookup_insert_eq. eauto.
  - rewrite lookup_insert_ne by done. by apply HI.
Qed.

Lemma record_inv now be j bs o l1 l2 bg cp changed cp' : polls j = Some be -> observed_ok o ->
  setBackendState now be (ob_peers o) (ob_inSync o) (ob_latest o) (ob_hash o) (ob_safe o) (ob_finalized o) cp = Returns (changed, cp') ->
  poller_inv bg cp (l1 ++ (j, Observed bs o) :: l2) -> poller_inv bg cp' (l1 ++ (j, Recorded bs o) :: l2).
Proof.
  intros Hj Hok H HI. unfold setBackendState in H. step_outcome H. injection H as _ <-. apply poller_inv_set.
  - destruct Hok as ([? _] & [? _] & [? _]). by split_and!.
  - intros _ _ _. right. exists o. split; [|done]. exists j, (Recorded bs o). rewrite elem_of_app, elem_of_cons. auto.
  - by apply (poller_inv_move j (Observed bs o)); [left|].
Qed.

(** Tags that are as expected are in order. *)
Lemma expected_ordered b bs0 bs o : observed_ok o -> tags_expected b bs0 o = true -> records bs o -> tags_ordered bs.
Proof.
  intros ([? ?] & [? ?] & [? ?]) He (E1 & E2 & E3). unfold tags_expected, checkExpectedBlockTags in He.
  rewrite !andb_true_iff, !Z.leb_le in He. unfold tags_ordered, in_u64 in *. rewrite E1, E2, E3. lia.
Qed.

Lemma check_inv be j b bs o l1 l2 bg cp : polls j = Some be -> bg_Backends bg !! be = Some b -> observed_ok o ->
  poller_inv bg cp (l1 ++ (j, Recorded bs o) :: l2) ->
  poller_inv bg cp (l1 ++ (j, if negb (tags_expected b bs o) && negb (b_forcedCandidate b) then Banning (Some o) else Waiting) :: l2).
Proof.
  intros Hj Hb Hok HI. destruct (_ && _) eqn:Ec; [by apply (poller_inv_move j (Recorded bs o)); [right|]|].
  intros be' b' Hb'. destruct (HI be' b' Hb') as (bs' & Hs & Hn & Ho). exists bs'. split_and!; [done..|]. intros Hf.
  destruct (Ho Hf) as [?|(o' & (j0 & s0 & Hin & Hj0 & Hp) & Hr)]; [by left|].
  apply elem_of_app in Hin. rewrite elem_of_cons in Hin. destruct Hin as [Hin|[[= -> ->]|Hin]].
  - right. exists o'. split; [|done]. exists j0, s0. by rewrite elem_of_app; auto.
  - left. cbn in Hp. injection Hp as <-. simplify_eq. rewrite Hf, andb_true_r in Ec. apply negb_false_iff in Ec.
    by eapply expected_ordered.
  - right. exists o'. split; [|done]. exists j0, s0. by rewrite elem_of_app, elem_of_cons; auto.
Qed.

Lemma ban_inv now be j o l1 l2 bg cp cp' : polls j = Some be -> Ban now bg be cp = Returns cp' ->
  poller_inv bg cp (l1 ++ (j, Banning o) :: l2) -> poller_inv bg cp' (l1 ++ (j, Waiting) :: l2).
Proof.
  intros Hj H HI. unfold Ban in H. step_outcome H. apply backend_at_lookup in E.
  assert (HW : forall be' b', bg_Backends bg !! be' = Some b' -> exists bs, cp_backendState cp !! be' = Some bs /\ numbers_u64 bs /\
    (b_forcedCandidate b' = false -> be' <> be -> tags_ordered bs \/ exists o, unchecked (l1 ++ (j, Waiting) :: l2) be' o /\ records bs o)).
  { intros be' b' Hb'. destruct (HI be' b' Hb') as (bs' & Hs & Hn & Ho). exists bs'. split_and!; [done..|]. intros Hf Hne.
    destruct (Ho Hf) as [?|(o' & (j0 & s0 & Hin & Hj0 & Hp) & Hr)]; [by left|]. right. exists o'. split; [|done].
    exists j0, s0. split; [|done]. apply elem_of_app in Hin. rewrite elem_of_app, !elem_of_cons in *.
    destruct Hin as [?|[[= -> ->]|?]]; [by left|congruence|auto]. }
  destruct (b_forcedCandidate a) eqn:Ef.
  - injection H as <-. intros be' b' Hb'. destruct (HW be' b' Hb') as (bs & Hs & Hn & Ho). exists bs. split_and!; [done..|].
    intros Hf. apply Ho; congruence.
  - step_outcome H. injection H as <-. intros be' b' Hb'. cbn. destruct (decide (be = be')) as [->|Hne].
    + eexists. rewrite lookup_insert_eq. split; [done|]. unfold numbers_u64, tags_ordered, in_u64. cbn. lia.
    + rewrite lookup_insert_ne by done. destruct (HW be' b' Hb') as (bs & Hs & Hn & Ho). exists bs. auto.
Qed.

Lemma copied_u64 bg cp gs be bs : (be < length (bg_Backends bg))%nat -> poller_inv bg cp gs ->
  GetBackendState cp be = Returns bs -> numbers_u64 bs.
Proof.
  intros Hlt HI H. apply lookup_lt_is_Some in Hlt as [b Hb]. destruct (HI be b Hb) as (bs' & Hs & Hn & _).
  unfold GetBackendState, state_of in H. rewrite Hs in H. by injection H as <-.
Qed.

Lemma copies_empty : copies_u64 ∅.
Proof. intros be bs H. by rewrite lookup_empty in H. Qed.

Lemma copies_insert be bs acc : numbers_u64 bs -> copies_u64 acc -> copies_u64 (<[be := bs]> acc).
Proof. intros Hn Ha be' bs' [[_ <-]|[_ H]]%lookup_insert_Some; eauto. Qed.

(** A step of a goroutine keeps the configuration, the invariant and what the goroutine itself holds. *)
Lemma round_step_inv j l1 l2 bg cp st bg' cp' st' : round_step j (bg, cp, st) (bg', cp', st') ->
  stage_ok bg st -> poller_inv bg cp (l1 ++ (j, st) :: l2) ->
  stage_ok bg' st' /\ poller_inv bg' cp' (l1 ++ (j, st') :: l2).
Proof.
  intros H Hok HI. remember (bg, cp, st) as x eqn:Ex. remember (bg', cp', st') as y eqn:Ey.
  assert (Hmove : pending st = None -> poller_inv bg cp (l1 ++ (j, st') :: l2)).
  { intros Hp. by apply (poller_inv_move j st); [left|]. }
  destruct H; injection Ex as <- <- <-; injection Ey as <- <- <-; cbn [stage_ok] in *; try (by split; [|apply Hmove]).
  - split; [|by apply Hmove]. split; [apply select_backends_bounds|apply copies_empty].
  - split; [|by apply Hmove]. split; [apply select_backends_bounds|apply copies_empty].
  - split; [|by apply Hmove]. destruct Hok as [[Hlt Ht]%Forall_cons Ha]. split_and!; [done| |done]. by eapply copied_u64.
  - split; [|by apply Hmove]. destruct Hok as (Ht & Hb & Ha). split; [done|]. destruct (eligible _ _ _ _); [by apply copies_insert|done].
  - split; [|by apply Hmove]. by case_bool_decide.
  - split; [|by apply Hmove]. case_bool_decide; [|done]. split; [apply select_backends_bounds|apply copies_empty].
  - split; [|by apply Hmove]. by destruct (bs_IsBanned _ _).
  - split; [|by apply Hmove]. by destruct (_ && _).
  - split; [|eapply poller_inv_config; [eassumption|by apply Hmove]].
    destruct r as [o|]; [|done]. cbn. by apply (proj2 (observe_spec _ _ _ _ _ _ _ ltac:(eassumption))).
  - split; [done|]. by eapply record_inv.
  - split; [by destruct (_ && _)|]. eapply check_inv; [done|by apply backend_at_lookup|done|done].
  - split; [done|]. by eapply ban_inv.
  - split; [done|]. eapply poller_inv_config; [eassumption|by apply Hmove].
Qed.

(** ** Primaries and fallbacks do not change *)

Lemma select_config p bg bg' : group_config bg' = group_config bg -> select_backends p bg' = select_backends p bg.
Proof.
  intros Hc. unfold select_backends. rewrite (group_config_length _ _ Hc). apply list_filter_iff. intros be.
  assert (Hn : b_Name <$> bg_Backends bg' !! be = b_Name <$> bg_Backends bg !! be).
  { assert (Hl : config <$> bg_Backends bg' !! be = config <$> bg_Backends bg !! be).
    { rewrite <- !list_lookup_fmap. exact (f_equal (fun g => bg_Backends g !! be) Hc). }
    destruct (bg_Backends bg' !! be), (bg_Backends bg !! be); try done. cbn in *. apply (inj Some) in Hl.
    f_equal. exact (f_equal b_Name Hl). }
  destruct (bg_Backends bg' !! be), (bg_Backends bg !! be); try done. cbn in Hn. by injection Hn as ->.
Qed.

Lemma FallbackBackends_config bg bg' : group_config bg' = group_config bg -> bg_FallbackBackends bg' = bg_FallbackBackends bg.
Proof. intros Hc. exact (f_equal bg_FallbackBackends Hc). Qed.

Lemma Primaries_config bg bg' : group_config bg' = group_config bg -> Primaries bg' = Primaries bg.
Proof. intros Hc. unfold Primaries. rewrite (FallbackBackends_config _ _ Hc). by apply select_config. Qed.

Lemma primary_not_fallback bg be : be ∈ Primaries bg -> be ∈ Fallbacks bg -> False.
Proof.
  unfold Primaries, Fallbacks, select_backends. rewrite !list_elem_of_filter. intros [H1 _] [H2 _].
  destruct (bg_Backends bg !! be) as [b|]; [|done]. destruct (bg_FallbackBackends bg !! b_Name b) as [[]|]; done.
Qed.

Lemma stage_ok_config bg bg' st : group_config bg' = group_config bg -> stage_ok bg st -> stage_ok bg' st.
Proof. intros Hc. unfold stage_ok, in_group. by rewrite (group_config_length _ _ Hc). Qed.

Lemma Ban_fixed now bg be cp cp' : Ban now bg be cp = Returns cp' -> cp_maxBlockLag cp' = cp_maxBlockLag cp.
Proof. unfold Ban. intros H. step_outcome H. destruct (b_forcedCandidate a); [by injection H as <-|]. step_outcome H. by injection H as <-. Qed.

Lemma round_step_fixed j bg cp st bg' cp' st' : round_step j (bg, cp, st) (bg', cp', st') ->
  group_config bg' = group_config bg /\ cp_maxBlockLag cp' = cp_maxBlockLag cp.
Proof.
  intros H. remember (bg, cp, st) as x eqn:Ex. remember (bg', cp', st') as y eqn:Ey.
  destruct H; injection Ex as <- <- <-; injection Ey as <- <- <-; try done.
  - unfold setBackendState in *. step_outcome H0. by injection H0 as _ <-.
  - split; [done|]. by eapply Ban_fixed.
Qed.

(** The goroutines are those that were started, and before the shutdown all of them. *)
Definition handler_inv bg0 cp0 (h : PollerAsyncHandler) : Prop :=
  group_config (ah_group h) = group_config bg0 /\ cp_maxBlockLag (ah_poller h) = cp_maxBlockLag cp0 /\
  (ah_running h).*1 `sublist_of` jobs bg0 /\ (ah_cancelled h = false -> (ah_running h).*1 = jobs bg0) /\
  poller_inv (ah_group h) (ah_poller h) (ah_running h) /\ Forall (fun g => stage_ok (ah_group h) g.2) (ah_running h).

Lemma Init_inv tracker bg0 opts (cp0 := NewConsensusPoller tracker bg0 opts) : handler_inv bg0 cp0 (Init bg0 cp0).
Proof.
  assert (Hj : (ah_running (Init bg0 cp0)).*1 = jobs bg0).
  { cbn. rewrite <- list_fmap_compose. apply list_fmap_id. }
  split_and!; [done|done|by rewrite Hj|by rewrite Hj| |].
  - intros be b Hb. exists zeroState. destruct numbers_zero as [Hu Ho]. split_and!; [|done|by left].
    apply Reset_lookup. by eapply lookup_lt_Some.
  - cbn. apply Forall_fmap, Forall_true. done.
Qed.

Lemma ah_step_inv bg0 cp0 h h' : handler_inv bg0 cp0 h -> ah_step h h' -> handler_inv bg0 cp0 h'.
Proof.
  intros (Hc & Hl & Hs & Hj & HI & Hst). destruct 1 as [l1 j st l2 bg cp c bg' cp' st' H|l1 j l2 bg cp|h|t bg cp c gs|bg bg' cp c gs H].
  - cbn in *. destruct (round_step_fixed _ _ _ _ _ _ _ H) as [Hc' Hl']. rewrite Forall_app, Forall_cons in Hst.
    destruct Hst as (H1 & H2 & H3). destruct (round_step_inv _ _ _ _ _ _ _ _ _ H H2 HI) as [Hok HI'].
    rewrite fmap_app in Hs, Hj. split_and!; cbn; rewrite ?fmap_app; [congruence|congruence|done|done|done|].
    rewrite Forall_app, Forall_cons. split_and!; [|done|]; (eapply Forall_impl; [done|]; intros x; by apply stage_ok_config).
  - cbn in *. rewrite fmap_app in Hs. rewrite Forall_app, Forall_cons in Hst. split_and!; cbn; rewrite ?fmap_app; [done|done| |done| |].
    + etrans; [|exact Hs]. apply sublist_app; [done|]. by apply sublist_cons.
    + intros be b Hb. destruct (HI be b Hb) as (bs & Hsb & Hn & Ho). exists bs. split_and!; [done..|]. intros Hf.
      destruct (Ho Hf) as [?|(o & (j0 & s0 & Hin & Hj0 & Hp) & Hr)]; [by left|]. right. exists o. split; [|done].
      exists j0, s0. split; [|done]. apply elem_of_app in Hin. rewrite elem_of_cons in Hin. rewrite elem_of_app.
      destruct Hin as [?|[[= -> ->]|?]]; [by left|done|by right].
    + rewrite Forall_app. tauto.
  - by split_and!.
  - by split_and!.
  - cbn in *. split_and!; cbn; [congruence|done..| |].
    + by eapply poller_inv_config.
    + eapply Forall_impl; [done|]. intros x. by apply stage_ok_config.
Qed.

Lemma handler_reachable tracker bg0 opts h (cp0 := NewConsensusPoller tracker bg0 opts) : rtc ah_step (Init bg0 cp0) h -> handler_inv bg0 cp0 h.
Proof.
  intros Hr. eapply (rtc_ind_r (handler_inv bg0 cp0)); [apply Init_inv| |exact Hr]. intros x y _ Hxy Hx. by eapply ah_step_inv.
Qed.

(** C4: in every state that the goroutines of the poller can reach, in any interleaving of their critical
    sections with each other, with client traffic and with the heartbeat of a shared tracker: every
    backend of the group is registered, so that no look-up of its state can fail, with numbers that fit
    a uint64; and for every backend that is not forced, finalized <= safe <= latest, with all three
    zero or none, unless its own goroutine has stored those very numbers a moment ago and has not finished
    checking them.  Whatever it stored, once no goroutine of the backend is between storing and checking, the
    numbers are in order. *)
Theorem poller_invariant tracker bg0 opts h : rtc ah_step (Init bg0 (NewConsensusPoller tracker bg0 opts)) h ->
  forall be b, bg_Backends (ah_group h) !! be = Some b ->
    exists bs, GetBackendState (ah_poller h) be = Returns bs /\ numbers_u64 bs /\
      (b_forcedCandidate b = false -> tags_ordered bs \/ exists o, unchecked (ah_running h) be o /\ records bs o).
Proof.
  intros (_ & _ & _ & _ & HI & _)%handler_reachable be b Hb. destruct (HI be b Hb) as (bs & Hs & Hn & Ho).
  exists bs. split; [|done]. unfold GetBackendState, state_of. by rewrite Hs.
Qed.

(** ** Fallbacks are polled when no primary is a candidate *)

Definition busy (be : nat) (h : PollerAsyncHandler) : Prop := (PollsFallback be, Waiting) ∉ ah_running h.

(** A step during a round of the goroutine of the fallback [be], whoever makes it. *)
Definition in_round (be : nat) (h h' : PollerAsyncHandler) : Prop := ah_step h h' /\ busy be h /\ busy be h'.

(** In the round of [be] that goes on at [h], the state of the primary [p] was copied, and then it was
    found not to be a candidate. *)
Definition passed_over (h0 : PollerAsyncHandler) (be p : nat) (h : PollerAsyncHandler) : Prop :=
  exists h1 h2 bs b fc, rtc ah_step h0 h1 /\ rtc (in_round be) h1 h2 /\ rtc (in_round be) h2 h /\
    GetBackendState (ah_poller h1) p = Returns bs /\ backend_at (ah_group h2) p = Returns b /\
    eligible fc (ah_poller h2) b bs = false.

(** What the stage of the goroutine of [be] says about the primaries it has looked at. *)
Definition looked_at bg0 (h0 : PollerAsyncHandler) (be : nat) (st : stage) (h : PollerAsyncHandler) : Prop :=
  match st with
  | AtTop | Waiting => True
  | Filtering ForFallback todo acc => forall p, p ∈ Primaries bg0 -> p ∈ todo \/ is_Some (acc !! p) \/ passed_over h0 be p h
  | Testing ForFallback q bs todo acc => forall p, p ∈ Primaries bg0 -> p ∈ todo \/ is_Some (acc !! p) \/ passed_over h0 be p h \/
      (p = q /\ exists h1, rtc ah_step h0 h1 /\ rtc (in_round be) h1 h /\ GetBackendState (ah_poller h1) p = Returns bs)
  | _ => forall p, p ∈ Primaries bg0 -> passed_over h0 be p h
  end.

Lemma passed_over_mono h0 be p h h' : in_round be h h' -> passed_over h0 be p h -> passed_over h0 be p h'.
Proof.
  intros Hs (h1 & h2 & bs & b & fc & H0 & H1 & H2 & Hrest). exists h1, h2, bs, b, fc. split_and!; [done|done|by eapply rtc_r|apply Hrest..].
Qed.

Lemma looked_at_mono bg0 h0 be st h h' : in_round be h h' -> looked_at bg0 h0 be st h -> looked_at bg0 h0 be st h'.
Proof.
  intros Hs H. pose proof (fun p => passed_over_mono h0 be p _ _ Hs) as Hm.
  destruct st as [|[|] todo acc|[|] q bs todo acc| | | | | | | | | | | |]; cbn in *; try done; intros p Hp; try (by apply Hm, H).
  - destruct (H p Hp) as [?|[?|?]]; auto.
  - destruct (H p Hp) as [?|[?|[?|(-> & h1 & H0 & H1 & E)]]]; auto.
    right; right; right. split; [done|]. exists h1. split_and!; [done|by eapply rtc_r|done].
Qed.

Lemma unlagged_empty cp acc : 0 <= cp_maxBlockLag cp -> copies_u64 acc -> unlagged cp acc = ∅ -> acc = ∅.
Proof.
  intros Hlag Hu He. destruct (map_choose_or_empty acc) as [(be & bs & Hb)|]; [|done]. exfalso.
  destruct (highest_spec acc) as (H0 & Hle & Hat).
  assert (Hne : exists be bs, acc !! be = Some bs /\ highestLatestBlock acc - latestBlockNumber bs = 0).
  { destruct Hat as [E|(b2 & s2 & E2 & E)]; [exists be, bs|exists b2, s2]; (split; [done|]); [|lia].
    specialize (Hle _ _ Hb). destruct (Hu _ _ Hb) as [[? _] _]. lia. }
  destruct Hne as (be1 & bs1 & Hb1 & Hz). assert (Hin : unlagged cp acc !! be1 = Some bs1).
  { unfold unlagged. rewrite map_lookup_filter_Some. split; [done|]. cbn. unfold lagging. rewrite Hz. apply Z.ltb_ge. done. }
  by rewrite He, lookup_empty in Hin.
Qed.

Lemma NoDup_jobs bg : NoDup (jobs bg).
Proof.
  assert (Hs : forall p, NoDup (select_backends p bg)) by (intros p; apply NoDup_filter, NoDup_seq).
  unfold jobs. apply NoDup_app. split_and!.
  - apply NoDup_fmap; [by intros ? ? [=]|apply Hs].
  - intros g (be & -> & _)%list_elem_of_fmap [(be' & [=] & _)%list_elem_of_fmap|[=]%list_elem_of_singleton]%elem_of_app.
  - apply NoDup_app. split_and!; [apply NoDup_fmap; [by intros ? ? [=]|apply Hs]| |apply NoDup_singleton].
    intros g (be & -> & _)%list_elem_of_fmap [=]%list_elem_of_singleton.
Qed.

(** A goroutine is at one stage. *)
Lemma one_stage bg0 cp0 h j st st' : handler_inv bg0 cp0 h -> (j, st) ∈ ah_running h -> (j, st') ∈ ah_running h -> st = st'.
Proof.
  intros (_ & _ & Hs & _) H1 H2. assert (Hn : NoDup (ah_running h).*1) by (eapply sublist_NoDup; [apply NoDup_jobs|done]).
  clear Hs. induction (ah_running h) as [|[j0 s0] gs IH]; [by apply elem_of_nil in H1|]. cbn in Hn. apply NoDup_cons in Hn as [Hj Hn].
  apply elem_of_cons in H1, H2. destruct H1 as [H1|H1], H2 as [H2|H2]; simplify_eq; try done; [..|by apply IH].
  all: exfalso; apply Hj; apply list_elem_of_fmap; eexists (_, _); split; [reflexivity|done].
Qed.

(** The goroutine of a fallback moves on, and has looked at the primaries as its new stage says. *)
Lemma fallback_move bg0 cp0 h0 be l1 st l2 bg cp c bg' cp' st' (h := mkHandler bg cp c (l1 ++ (PollsFallback be, st) :: l2))
    (h' := mkHandler bg' cp' c (l1 ++ (PollsFallback be, st') :: l2)) :
  0 <= cp_maxBlockLag cp0 -> handler_inv bg0 cp0 h -> rtc ah_step h0 h -> in_round be h h' ->
  round_step (PollsFallback be) (bg, cp, st) (bg', cp', st') ->
  looked_at bg0 h0 be st h -> looked_at bg0 h0 be st' h'.
Proof.
  intros Hlag (Hc & Hl & _ & _ & _ & Hst) Hr Hin H Hs. pose proof (looked_at_mono _ _ _ _ _ _ Hin Hs) as Hs'.
  cbn in Hc, Hl. assert (Hok : stage_ok bg st) by (cbn in Hst; rewrite Forall_app, Forall_cons in Hst; tauto).
  clearbody h'. remember (PollsFallback be) as j eqn:Ej. remember (bg, cp, st) as x eqn:Ex. remember (bg', cp', st') as y eqn:Ey.
  destruct H; injection Ex as <- <- <-; injection Ey as <- <- <-; try discriminate Ej; try done.
  all: try (by case_bool_decide). all: try (by destruct (bs_IsBanned _ _)). all: try (by destruct (_ && _)). all: try (by destruct r).
  - intros p Hp. left. by rewrite (Primaries_config _ _ Hc).
  - destruct why; [|done]. intros p Hp. destruct (Hs' p Hp) as [[->|?]%elem_of_cons|[?|?]]; auto.
    right; right; right. split; [done|]. exists h. split_and!; [done|by apply rtc_once|done].
  - destruct why; [|by destruct (eligible _ _ _ _)]. intros p Hp. destruct (Hs p Hp) as [?|[Ha|[Hpo|(-> & h1 & H0 & H1 & E)]]].
    + by left.
    + right; left. destruct (eligible _ _ _ _); [|done]. rewrite lookup_insert_is_Some. destruct (decide (be0 = p)); auto.
    + right; right. by eapply passed_over_mono.
    + right. destruct (eligible _ _ _ _) eqn:Ee; [left; rewrite lookup_insert_eq; by eexists|right].
      eexists h1, h, bs, b, fc. split_and!; [done|done|by apply rtc_once|done|done|done].
  - case_bool_decide as Hu; [|done]. apply unlagged_empty in Hu; [|by rewrite Hl|apply Hok]. intros p Hp.
    destruct (Hs' p Hp) as [?%elem_of_nil|[Ha|?]]; [done| |done]. rewrite Hu, lookup_empty in Ha. by destruct Ha.
Qed.

Lemma busy_at bg0 cp0 h be st : handler_inv bg0 cp0 h -> (PollsFallback be, st) ∈ ah_running h -> st <> Waiting -> busy be h.
Proof. intros Hi Hin Hne Hw. apply Hne. by eapply one_stage. Qed.

(** After a timer a goroutine is at the top of its loop. *)
Lemma timer_top j bg cp bg' cp' st' : round_step j (bg, cp, Waiting) (bg', cp', st') -> st' = AtTop.
Proof. inversion 1; by subst. Qed.

Lemma ah_step_looked_at bg0 cp0 h0 h h' : 0 <= cp_maxBlockLag cp0 -> handler_inv bg0 cp0 h -> rtc ah_step h0 h -> ah_step h h' ->
  (forall be st, (PollsFallback be, st) ∈ ah_running h -> looked_at bg0 h0 be st h) ->
  forall be st, (PollsFallback be, st) ∈ ah_running h' -> looked_at bg0 h0 be st h'.
Proof.
  intros Hlag Hi Hr Hs HP be st' Hin'.
  assert (Hst : st' = AtTop \/ st' = Waiting \/ (st' <> AtTop /\ st' <> Waiting)) by (destruct st'; auto).
  destruct Hst as [->|[->|Hne]]; [done..|].
  assert (Hi' : handler_inv bg0 cp0 h') by (by eapply ah_step_inv).
  assert (Hb' : busy be h') by (eapply busy_at; [done..|]; tauto).
  assert (Hmono : (PollsFallback be, st') ∈ ah_running h -> looked_at bg0 h0 be st' h').
  { intros Hin. eapply looked_at_mono; [|by apply HP]. split_and!; [done| |done]. eapply busy_at; [done..|]. tauto. }
  destruct Hs as [l1 j st l2 bg cp c bg' cp' st2 H|l1 j l2 bg cp|h|t bg cp c gs|bg bg' cp c gs H]; cbn in Hin'; [|..|by apply Hmono].
  - apply elem_of_app in Hin'. rewrite elem_of_cons in Hin'. destruct Hin' as [Hin'|[[= <- <-]|Hin']].
    1,3: apply Hmono; cbn; rewrite elem_of_app, elem_of_cons; auto.
    assert (Hin : (PollsFallback be, st) ∈ l1 ++ (PollsFallback be, st) :: l2) by (rewrite elem_of_app, elem_of_cons; auto).
    eapply fallback_move; [exact Hlag|exact Hi|exact Hr| |exact H|by apply HP]. split_and!; [by apply ah_go| |done].
    eapply busy_at; [done|done|]. intros ->. apply timer_top in H. tauto.
  - apply Hmono. cbn. apply elem_of_app in Hin'. rewrite elem_of_app, elem_of_cons. tauto.
  - by apply Hmono.
  - by apply Hmono.
Qed.

(** Only the goroutine of a backend changes what is recorded of it, when it records or bans. *)
Lemma set_state_other be bs cp be' : be' <> be -> cp_backendState (set_state be bs cp) !! be' = cp_backendState cp !! be'.
Proof. intros Hne. cbn. by rewrite lookup_insert_ne. Qed.

Definition writes (st : stage) : Prop := match st with Observed _ _ | Banning _ => True | _ => False end.

Lemma round_step_writes j bg cp st bg' cp' st' be : round_step j (bg, cp, st) (bg', cp', st') ->
  cp_backendState cp' !! be <> cp_backendState cp !! be -> polls j = Some be /\ writes st.
Proof.
  intros H Hne. remember (bg, cp, st) as x eqn:Ex. remember (bg', cp', st') as y eqn:Ey.
  destruct H; injection Ex as <- <- <-; injection Ey as <- <- <-; try done.
  all: destruct (decide (be = be0)) as [->|Hbe]; [done|]; exfalso; apply Hne.
  - unfold setBackendState in *. step_outcome H0. injection H0 as _ <-. by apply set_state_other.
  - unfold Ban in *. step_outcome H0. destruct (b_forcedCandidate a); [by injection H0 as <-|]. step_outcome H0.
    injection H0 as <-. by apply set_state_other.
Qed.

(** A whole round, as the functions of the poller have it. *)
Definition whole_round (j : goroutine) bg cp bg' cp' : Prop :=
  match j with
  | PollsPrimary be => exists ctx env, UpdateBackend ctx env be bg cp = Returns (bg', cp')
  | PollsFallback be => exists clk ctx env, poll_fallback clk ctx env be bg cp = Returns (bg', cp')
  | PollsGroup => exists ctx calls fuel clk ro called,
      UpdateBackendGroupConsensus (BF := network_fetcher ctx calls) fuel clk ro bg cp = Returns (Some (bg', cp', called))
  end.

Lemma whole_round_alone j bg cp bg' cp' : whole_round j bg cp bg' cp' -> rtc (round_step j) (bg, cp, AtTop) (bg', cp', Waiting).
Proof.
  destruct j as [be|be|]; cbn.
  - intros (ctx & env & H). eapply rtc_l; [apply rs_primary|]. by eapply UpdateBackend_alone.
  - intros (clk & ctx & env & H). by eapply poll_fallback_alone.
  - intros (ctx & calls & fuel & clk & ro & called & H). by eapply group_alone.
Qed.

Lemma alone_runs j l1 l2 c x y : rtc (round_step j) x y ->
  rtc ah_step (mkHandler x.1.1 x.1.2 c (l1 ++ (j, x.2) :: l2)) (mkHandler y.1.1 y.1.2 c (l1 ++ (j, y.2) :: l2)).
Proof.
  induction 1 as [x|[[bg cp] st] [[bg1 cp1] st1] z Hs _ IH]; [done|]. eapply rtc_l; [by apply ah_go|exact IH].
Qed.


End handler.

#[local] Existing Instance total_window.

(** A primary and a fallback. *)
Definition with_fallback : BackendGroup Q :=
  mkBackendGroup "main" [NewBackend "a" "http://a" "" []; NewBackend "b" "http://b" "" []] false
    (list_to_map [("a", false); ("b", true)]) ConsensusAwareRoutingStrategy false.

Definition fresh : ConsensusPoller InMemoryConsensusTracker := NewConsensusPoller NewInMemoryConsensusTracker with_fallback [].

Definition started : PollerAsyncHandler := Init with_fallback fresh.

(** The primary answers with a safe block above its latest one. *)
Definition answers (result : string) : call :=
  (Second, fun _ => mkExchange Second Second None None
     (inl (mkResponse 200 (BodyBytes (mkBody (jtext ("{'jsonrpc':'2.0','id':67,'result':" +:+ result +:+ "}")) (fun _ => 512) true))))).

Definition block (number : string) : call := answers ("{'number':'" +:+ number +:+ "','hash':'0xa'}").

Definition confused : update_env :=
  mkUpdateEnv Second Second (answers "false") (answers "'0x5'") (block "0x6") (block "0x9") (block "0x2") Second Second Second.

Definition confused_tags : observation := mkObservation true 5 6 "0xa" 9 2.

Definition stored : ConsensusPoller InMemoryConsensusTracker := set_state 0 (mkBackendState 6 "0xa" 9 2 5 true Second 0) fresh.

(** The tags are stored, and then published before they are checked. *)
Definition published : PollerAsyncHandler :=
  mkHandler with_fallback (set_tracker (mkTrackerState 6 9 0) stored) false
    [(PollsPrimary 0, Recorded zeroState confused_tags); (PollsFallback 1, AtTop);
     (PollsGroup, SettingFinalized (mkElection 6 9 2 [0%nat]))].

Lemma confused_primary : rtc (round_step (PollsPrimary 0)) (with_fallback, fresh, AtTop) (with_fallback, stored, Recorded zeroState confused_tags).
Proof.
  eapply rtc_l; [apply rs_primary|].
  eapply rtc_l; [apply (rs_start (PollsPrimary 0) 0 Second zeroState); reflexivity|].
  eapply rtc_l; [eapply (rs_health (PollsPrimary 0) 0 Second (NewBackend "a" "http://a" "" []) zeroState); reflexivity|].
  eapply rtc_l; [eapply (rs_ask (PollsPrimary 0) 0 background confused (NewBackend "a" "http://a" "" []) zeroState (Some confused_tags) with_fallback with_fallback
    (match observe background confused 0 false with_fallback with Returns (_, bg) => bg | _ => with_fallback end) with_fallback)|].
  1-3: reflexivity. 1: vm_compute; reflexivity. 1: reflexivity.
  apply rtc_once. apply (rs_record (PollsPrimary 0) 0 Second zeroState confused_tags true). all: vm_compute; reflexivity.
Qed.

Lemma confused_group : rtc (round_step PollsGroup) (with_fallback, stored, AtTop)
  (with_fallback, set_tracker (mkTrackerState 6 9 0) stored, SettingFinalized (mkElection 6 9 2 [0%nat])).
Proof.
  etrans; [apply (candidates_alone calm with_fallback stored {[0%nat := mkBackendState 6 "0xa" 9 2 5 true Second 0]}); vm_compute; reflexivity|].
  eapply rtc_l; [eapply (rs_walk background (fun _ _ => block "0x6") 1 plain_orders _ _ (mkElection 6 9 2 [0%nat]) false with_fallback with_fallback
    (match walk background (fun _ _ => block "0x6") 1 plain_orders 0 {[0%nat := mkBackendState 6 "0xa" 9 2 5 true Second 0]} with_fallback
     with Returns (_, bg) => bg | _ => with_fallback end) with_fallback)|].
  1: reflexivity. 1: vm_compute; reflexivity. 1: reflexivity.
  eapply rtc_l; [apply rs_latest|]. apply rtc_once. exact (rs_safe (mkElection 6 9 2 [0%nat]) with_fallback (set_tracker (mkTrackerState 6 0 0) stored)).
Qed.

Lemma published_reachable : rtc ah_step started published.
Proof.
  etrans; [exact (alone_runs (PollsPrimary 0) [] [(PollsFallback 1, AtTop); (PollsGroup, AtTop)] false _ _ confused_primary)|].
  exact (alone_runs PollsGroup [(PollsPrimary 0, Recorded zeroState confused_tags); (PollsFallback 1, AtTop)] [] false _ _ confused_group).
Qed.

(** The consensus shows a safe block above the latest one, while the tags of the primary are unchecked. *)
Lemma poller_invariant_witness : GetSafeBlockNumber (cp_tracker (ah_poller published)) = 9 /\
  GetLatestBlockNumber (cp_tracker (ah_poller published)) = 6 /\
  exists bs, GetBackendState (ah_poller published) 0 = Returns bs /\
    (tags_ordered bs \/ exists o, unchecked (ah_running published) 0 o /\ records bs o).
Proof.
  split; [reflexivity|]. split; [reflexivity|].
  destruct (poller_invariant NewInMemoryConsensusTracker with_fallback [] published published_reachable 0%nat
    (NewBackend "a" "http://a" "" []) eq_refl) as (bs & Hs & _ & Ho).
  exists bs. split; [exact Hs|]. apply Ho. reflexivity.
Defined.

