(* ===== verification/BackendGroup.v ===== *)
(** * Backend groups (src/backend.go: [BackendGroup] and its methods)

    A group picks the order of its backends, rewrites requests against the consensus, forwards them
    to the first backend that serves them - or to all of them at once - and puts the responses it
    made itself back at their positions.  Shuffles are arguments, and so is the order in which the
    answers of a multicall arrive. *)

From S2P Require Import Prelude Json JsonFacts Geth Rpc Util Http SlidingWindow Rewriter Backend BackendFacts Tracker Consensus.

(** ** Overridden responses *)

Record indexedReqRes : Type := mkIndexed { ir_index : nat; ir_req : RPCReq; ir_res : RPCRes }.

(** [res[:i]] and [res[i:]] panic when [i] is beyond the slice. *)
Fixpoint OverrideResponses (res : list RPCRes) (overridden : list indexedReqRes) : outcome (list RPCRes) :=
  match overridden with
  | [] => Returns res
  | ov :: rest =>
      if (0 <? length res)%nat then
        if (length res <? ir_index ov)%nat then Panics "slice bounds out of range"
        else OverrideResponses (take (ir_index ov) res ++ ir_res ov :: drop (ir_index ov) res) rest
      else OverrideResponses (res ++ [ir_res ov]) rest
  end.

Definition set_Error (e : RPCErr) (r : RPCRes) : RPCRes := mkRPCRes (res_JSONRPC r) (res_Result r) (Some e) (res_ID r).

(** The [*RPCErr] behind a sentinel of the error table. *)
Definition rpc_error (s : sentinel) : RPCErr := default (mkRPCErr 0 "" "" 0) (sentinel_rpc s).

Definition override_error (rctx : RewriteContext) (err : option error) : RPCErr :=
  if errors_Is err ErrRewriteBlockOutOfRange then rpc_error ErrBlockOutOfRange
  else if errors_Is err ErrRewriteRangeTooLarge
  then ErrInvalidParams ("block range greater than " +:+ dec_string (rc_maxBlockRange rctx) +:+ " max")
  else rpc_error ErrParseErr.

(** ** The environment of a request to a group *)

Record shuffles : Type := mkShuffles {
  sh_healthy : list nat -> list nat;
  sh_degraded : list nat -> list nat;
  sh_weighted : (nat -> Z) -> list nat -> list nat;
}.

Record BackendGroupRPCResponse : Type := mkGroupResponse {
  gr_RPCRes : list RPCRes;
  gr_ServedBy : string;
  gr_error : option error;
}.

Section group.
Context {T : Type} {CT : ConsensusTracker T} {W : Type} {MW : MovingWindow W}.
Context {HX : HexUtil} {BX : BlockRPC} {RX : ReceiptsRPC} {SS : SortSlice}.
Implicit Types bg : BackendGroup W.
Implicit Types cp : ConsensusPoller T.

Definition GetRoutingStrategy bg : RoutingStrategy := bg_routingStrategy bg.

(** ** Rewriting against the consensus *)

Fixpoint overwrite (rctx : RewriteContext) (i : nat) (rpcReqs : list RPCReq)
    : outcome (list RPCReq * list indexedReqRes) :=
  match rpcReqs with
  | [] => Returns ([], [])
  | req :: rest =>
      let! r := RewriteTags rctx req (mkRPCRes JSONRPCVersion None None (req_ID req)) in
      let '(result, err, req', res) := r in
      let! r := overwrite rctx (S i) rest in
      let '(reqs, ovs) := r in
      match result with
      | RewriteOverrideError => Returns (reqs, mkIndexed i req' (set_Error (override_error rctx err) res) :: ovs)
      | RewriteOverrideResponse => Returns (reqs, mkIndexed i req' res :: ovs)
      | RewriteOverrideRequest | RewriteNone => Returns (req' :: reqs, ovs)
      end
  end.

Definition rewrite_context cp : RewriteContext :=
  mkRewriteContext (cp_GetLatestBlockNumber cp) (cp_GetSafeBlockNumber cp) (cp_GetFinalizedBlockNumber cp)
    (cp_maxBlockRange cp).

Definition OverwriteConsensusResponses cp (rpcReqs : list RPCReq) : outcome (list RPCReq * list indexedReqRes) :=
  overwrite (rewrite_context cp) 0 rpcReqs.

(** ** The order of the backends *)

(** The healthiness of a backend, read at the time [clk] gives. *)
Definition healthy_at (clk : nat -> Z) bg (be : nat) : bool :=
  match bg_Backends bg !! be with Some b => IsHealthy (clk be) b | None => false end.
Definition degraded_at (clk : nat -> Z) bg (be : nat) : bool :=
  match bg_Backends bg !! be with Some b => IsDegraded (clk be) b | None => false end.
Definition weight_of bg (be : nat) : Z :=
  match bg_Backends bg !! be with Some b => b_weight b | None => 0 end.

Definition weightedShuffle (sh : shuffles) bg (backends : list nat) : list nat := sh_weighted sh (weight_of bg) backends.

(** Unhealthy members are left out, degraded ones come last. *)
Definition loadBalancedConsensusGroup (clk : nat -> Z) (sh : shuffles) bg cp : list nat :=
  let cg := GetConsensusGroup cp in
  let backendsHealthy := filter (fun be => healthy_at clk bg be = true /\ degraded_at clk bg be = false) cg in
  let backendsDegraded := filter (fun be => healthy_at clk bg be = true /\ degraded_at clk bg be = true) cg in
  let backendsHealthy := sh_healthy sh backendsHealthy in
  let backendsDegraded := sh_degraded sh backendsDegraded in
  let backendsHealthy := if bg_WeightedRouting bg then weightedShuffle sh bg backendsHealthy else backendsHealthy in
  backendsHealthy ++ backendsDegraded.

Definition orderedBackendsForRequest (clk : nat -> Z) (sh : shuffles) bg (consensus : option (ConsensusPoller T))
    : list nat :=
  match consensus with
  | Some cp => loadBalancedConsensusGroup clk sh bg cp
  | None =>
      let all := seq 0 (length (bg_Backends bg)) in
      let healthy := filter (fun be => healthy_at clk bg be = true) all in
      let unhealthy := filter (fun be => healthy_at clk bg be = false) all in
      if bg_WeightedRouting bg
      then weightedShuffle sh bg healthy ++ weightedShuffle sh bg unhealthy
      else healthy ++ unhealthy
  end.

(** ** Forwarding *)

(** What becomes of a request one backend was asked to serve: answered, refused for good, or to be
    tried on the next backend. *)
Inductive disposition : Type :=
| Served (rs : list RPCRes)
| Refused (servedBy : string) (err : error)
| TryNext.

Definition dispose (servedBy : string) (r : list RPCRes + error) : disposition :=
  match r with
  | inl rs => Served rs
  | inr err =>
      if errors_Is (Some err) ErrConsensusGetReceiptsCantBeBatched
         || errors_Is (Some err) ErrConsensusGetReceiptsInvalidTarget
         || errors_Is (Some err) ErrContextCanceled then Refused "" err
      else if errors_Is (Some err) ErrBackendResponseTooLarge || errors_Is (Some err) ErrRequestBodyTooLarge
              || errors_Is (Some err) ErrMethodNotWhitelisted then Refused servedBy err
      else TryNext
  end.

(** The requests are shared, so a translation by one backend is what the next one sees. *)
Fixpoint ForwardRequestToBackendGroup (ctx : Context) (env : nat -> attempts) (isBatch : bool)
    (backends : list nat) (rpcReqs : list RPCReq) bg
    : outcome (BackendGroupRPCResponse * BackendGroup W * list RPCReq) :=
  match backends with
  | [] => Returns (mkGroupResponse [] "" (Some (ESentinel ErrNoBackends)), bg, rpcReqs)
  | be :: rest =>
      let! back := backend_at bg be in
      let servedBy := bg_Name bg +:+ "/" +:+ b_Name back in
      match rpcReqs with
      | [] => Returns (mkGroupResponse [] servedBy None, bg, rpcReqs)
      | _ =>
          let! r := Forward ctx (env be) rpcReqs isBatch back in
          let '(res, back', rpcReqs', _) := r in
          let bg := set_backend be back' bg in
          match dispose servedBy res with
          | Served rs => Returns (mkGroupResponse rs servedBy None, bg, rpcReqs')
          | Refused by' err => Returns (mkGroupResponse [] by' (Some err), bg, rpcReqs')
          | TryNext => ForwardRequestToBackendGroup ctx env isBatch rest rpcReqs' bg
          end
      end
  end.

(** ** Multicall *)

Definition isValidMulticallTx (rpcReqs : list RPCReq) : bool :=
  match rpcReqs with
  | [r] => bool_decide (req_Method r = "eth_sendRawTransaction")
  | _ => false
  end.

(** One backend at a time: the calls run concurrently but each touches its own backend only. *)
Fixpoint multicall_requests (ctx : Context) (env : nat -> attempts) (backends : list nat) (rpcReqs : list RPCReq) bg
    : outcome (list (nat * BackendGroupRPCResponse) * BackendGroup W) :=
  match backends with
  | [] => Returns ([], bg)
  | be :: rest =>
      let! r := ForwardRequestToBackendGroup ctx env false [be] rpcReqs bg in
      let '(resp, bg, _) := r in
      let! r := multicall_requests ctx env rest rpcReqs bg in
      let '(resps, bg) := r in Returns ((be, resp) :: resps, bg)
  end.

(** The first success wins; otherwise the last response received is returned. *)
Fixpoint process_responses (rpcErrorCheck : bool) (received : list BackendGroupRPCResponse)
    (finalResp : option BackendGroupRPCResponse) : outcome BackendGroupRPCResponse :=
  match received with
  | [] =>
      Returns (match finalResp with
               | Some resp => resp
               | None => mkGroupResponse [] "" (Some (ENew "no multicall response received"))
               end)
  | resp :: rest =>
      match gr_error resp with
      | Some _ => process_responses rpcErrorCheck rest (Some resp)
      | None =>
          if rpcErrorCheck then
            match gr_RPCRes resp with
            | [] => Panics "index out of range"
            | r :: _ => if IsError r then process_responses rpcErrorCheck rest (Some resp) else Returns resp
            end
          else Returns resp
      end
  end.

Definition ProcessMulticallResponses bg (received : list BackendGroupRPCResponse) : outcome BackendGroupRPCResponse :=
  process_responses (bg_multicallRPCErrorCheck bg) received None.

(** [arrival] is the order in which the responses reach the channel. *)
Definition ExecuteMulticall (ctx : Context) (env : nat -> attempts)
    (arrival : list (nat * BackendGroupRPCResponse) -> list BackendGroupRPCResponse) (rpcReqs : list RPCReq) bg
    : outcome (BackendGroupRPCResponse * BackendGroup W) :=
  let! r := multicall_requests ctx env (seq 0 (length (bg_Backends bg))) rpcReqs bg in
  let '(resps, bg') := r in
  let! resp := ProcessMulticallResponses bg (arrival resps) in Returns (resp, bg').

(** ** The whole request *)

Record group_env : Type := mkGroupEnv {
  ge_clock : nat -> Z;
  ge_shuffles : shuffles;
  ge_attempts : nat -> attempts;
  ge_arrival : list (nat * BackendGroupRPCResponse) -> list BackendGroupRPCResponse;
}.

(** The caller's requests after the call: rewriting and translation change them in place. *)
Definition place_back (overridden : list indexedReqRes) (sent : list RPCReq) : list RPCReq :=
  fold_left (fun l ov => take (ir_index ov) l ++ ir_req ov :: drop (ir_index ov) l) overridden sent.

Definition group_Forward (ctx : Context) (env : group_env) (consensus : option (ConsensusPoller T))
    (rpcReqs : list RPCReq) (isBatch : bool) bg
    : outcome (BackendGroupRPCResponse * list RPCReq * BackendGroup W) :=
  match rpcReqs with
  | [] => Returns (mkGroupResponse [] "" None, [], bg)
  | _ =>
      let backends := orderedBackendsForRequest (ge_clock env) (ge_shuffles env) bg consensus in
      let! r := (match consensus with
                 | Some cp => OverwriteConsensusResponses cp rpcReqs
                 | None => Returns (rpcReqs, [])
                 end) in
      let '(rpcReqs, overridden) := r in
      if bool_decide (GetRoutingStrategy bg = MulticallRoutingStrategy) && isValidMulticallTx rpcReqs && negb isBatch
      then
        let! r := ExecuteMulticall ctx (ge_attempts env) (ge_arrival env) rpcReqs bg in
        let '(resp, bg) := r in Returns (resp, place_back overridden rpcReqs, bg)
      else
        let! r := ForwardRequestToBackendGroup ctx (ge_attempts env) isBatch backends rpcReqs bg in
        let '(resp, bg, rpcReqs) := r in
        let reqs := place_back overridden rpcReqs in
        match gr_error resp with
        | Some _ => Returns (resp, reqs, bg)
        | None =>
            let! res := OverrideResponses (gr_RPCRes resp) overridden in
            Returns (mkGroupResponse res (gr_ServedBy resp) None, reqs, bg)
        end
  end.

(** ** WebSocket connections *)

(** [Backend.ProxyWS]: the dialer connects or fails. *)
Definition backend_ProxyWS (dial : nat -> option error) (be : nat) : nat + error :=
  match dial be with
  | Some err => inr (wrapErr (Some err) "error dialing backend")
  | None => inl be
  end.

(** Every failing backend is skipped; the connection is proxied to the first that can be dialled. *)
Fixpoint ProxyWS (dial : nat -> option error) (backends : list nat) : nat + error :=
  match backends with
  | [] => inr (ESentinel ErrNoBackends)
  | be :: rest => match backend_ProxyWS dial be with inl conn => inl conn | inr _ => ProxyWS dial rest end
  end.

End group.
