(* ===== verification/BackendGroupFacts.v ===== *)
(** * Properties of backend groups: positions in a batch, routing order, failover, multicall *)

From S2P Require Import Prelude Json JsonFacts Geth Rpc Util Http SlidingWindow Rewriter Backend BackendFacts Tracker.
From S2P Require Import Consensus ConsensusFacts BackendGroup.

(** ** Merging overridden responses with a backend's *)

(** For every request: the response the group made itself, or nothing if it was forwarded. *)
Fixpoint merge (ds : list (option RPCRes)) (rs : list RPCRes) : list RPCRes :=
  match ds with
  | [] => rs
  | Some r :: ds' => r :: merge ds' rs
  | None :: ds' => match rs with [] => [] | x :: rs' => x :: merge ds' rs' end
  end.

Fixpoint forwarded_count (ds : list (option RPCRes)) : nat :=
  match ds with
  | [] => O
  | Some _ :: ds' => forwarded_count ds'
  | None :: ds' => S (forwarded_count ds')
  end.

(** Overrides that carry the decisions [ds] of the requests from position [i] on. *)
Inductive carries : nat -> list (option RPCRes) -> list indexedReqRes -> Prop :=
| carries_nil i : carries i [] []
| carries_some i r req ds ovs : carries (S i) ds ovs -> carries i (Some r :: ds) (mkIndexed i req r :: ovs)
| carries_none i ds ovs : carries (S i) ds ovs -> carries i (None :: ds) ovs.

Lemma OverrideResponses_merge ds i ovs : carries i ds ovs -> forall pre rs, length pre = i ->
  length rs = forwarded_count ds -> OverrideResponses (pre ++ rs) ovs = Returns (pre ++ merge ds rs).
Proof.
  induction 1 as [i|i r req ds ovs _ IH|i ds ovs _ IH]; intros pre rs Hp Hl; cbn [OverrideResponses merge forwarded_count] in *.
  - done.
  - cbn [ir_index ir_res]. destruct (Nat.ltb_spec 0 (length (pre ++ rs))) as [Hn|Hn]; rewrite length_app in Hn.
    + destruct (Nat.ltb_spec (length (pre ++ rs)) i); [rewrite length_app in *; lia|].
      rewrite take_app_length', drop_app_length' by done.
      replace (pre ++ r :: rs) with ((pre ++ [r]) ++ rs) by (by rewrite <- app_assoc).
      rewrite IH; [by rewrite <- app_assoc|rewrite length_app; cbn; lia|done].
    + destruct pre; [|cbn in Hn; lia]. destruct rs; [|cbn in Hn; lia]. cbn [app].
      change [r] with ([r] ++ []). rewrite IH; [done|cbn in *; lia|done].
  - destruct rs as [|x rs]; [discriminate|].
    replace (pre ++ x :: rs) with ((pre ++ [x]) ++ rs) by (by rewrite <- app_assoc).
    rewrite IH; [by rewrite <- app_assoc|rewrite length_app; cbn; lia|by injection Hl].
Qed.

Lemma merge_length ds rs : length rs = forwarded_count ds -> length (merge ds rs) = length ds.
Proof.
  revert rs. induction ds as [|[r|] ds IH]; intros rs H; cbn in *; [by destruct rs|by rewrite IH|].
  destruct rs as [|x rs]; [done|]. cbn. f_equal. apply IH. by injection H.
Qed.

Section rewriting.
Context {HX : HexUtil} {BX : BlockRPC}.

Lemma RewriteRequest_id rctx req rw err req' : RewriteRequest rctx req = Returns (rw, err, req') ->
  req_ID req' = req_ID req /\ rw <> RewriteOverrideResponse.
Proof.
  unfold RewriteRequest. case_bool_decide.
  - unfold rewriteRange. intros H'. repeat (case_match; simplify_eq/=; try done).
  - destruct (block_param _) as [[[pos rq] mode]|]; [|by intros [= <- _ <-]].
    unfold rewriteParam. intros H'. repeat (case_match; simplify_eq/=; try done).
Qed.

Lemma RewriteTags_id rctx req res rw err req' res' : RewriteTags rctx req res = Returns (rw, err, req', res') ->
  req_ID req' = req_ID req /\ res_ID res' = res_ID res.
Proof.
  unfold RewriteTags, RewriteResponse. case_bool_decide; [by intros [= _ _ <- <-]|]. intros H'. step_outcome H'.
  destruct a as [[rw1 e1] r1]. injection H' as <- <- <- <-. apply RewriteRequest_id in E as [? _]. done.
Qed.

(** The ids of the requests, from the decisions and the ids of the forwarded requests. *)
Fixpoint merge_ids (ds : list (option RPCRes)) (ids : list string) : list string :=
  match ds with
  | [] => ids
  | Some r :: ds' => res_ID r :: merge_ids ds' ids
  | None :: ds' => match ids with [] => [] | x :: ids' => x :: merge_ids ds' ids' end
  end.

Lemma merge_map_ids ds rs : map res_ID (merge ds rs) = merge_ids ds (map res_ID rs).
Proof.
  revert rs. induction ds as [|[r|] ds IH]; intros rs; cbn; [done|by rewrite IH|]. destruct rs; cbn; [done|by rewrite IH].
Qed.

Lemma overwrite_carries rctx reqs : forall i out ovs, overwrite rctx i reqs = Returns (out, ovs) ->
  exists ds, length ds = length reqs /\ carries i ds ovs /\ length out = forwarded_count ds /\
    merge_ids ds (map req_ID out) = map req_ID reqs.
Proof.
  induction reqs as [|req rest IH]; intros i out ovs H; cbn [overwrite] in H.
  - injection H as <- <-. exists []. split_and!; [done|constructor|done|done].
  - step_outcome H. destruct a as [[[rw err] req'] res]. apply RewriteTags_id in E as [Eq Er]. cbn in Er.
    step_outcome H. destruct a as [out' ovs']. destruct (IH _ _ _ E) as (ds & H1 & H2 & H3 & H4).
    destruct rw; injection H as <- <-.
    + exists (None :: ds). cbn. rewrite H4, Eq. split_and!; try congruence. by constructor.
    + exists (Some (set_Error (override_error rctx err) res) :: ds). cbn [length merge_ids forwarded_count map]. rewrite H4. cbn [res_ID set_Error]. rewrite Er.
      split_and!; [congruence| |done|done]. by constructor.
    + exists (None :: ds). cbn. rewrite H4, Eq. split_and!; try congruence. by constructor.
    + exists (Some res :: ds). cbn [length merge_ids forwarded_count map]. rewrite H4, Er.
      split_and!; [congruence| |done|done]. by constructor.
Qed.

End rewriting.

(** ** A batch through a group *)

Section forwarding.
Context {T : Type} {CT : ConsensusTracker T} {W : Type} {MW : MovingWindow W}.
Context {HX : HexUtil} {BX : BlockRPC} {RX : ReceiptsRPC} {SS : SortSlice} {SSL : SortSliceLaws}.
Implicit Types bg : BackendGroup W.
Implicit Types cp : ConsensusPoller T.

(** [rs] answers [reqs]: as many, and in their order if the ids match. *)
Definition in_order (reqs : list RPCReq) (rs : list RPCRes) : Prop :=
  length rs = length reqs /\ (map res_ID rs ≡ₚ map req_ID reqs -> map res_ID rs = map req_ID reqs).

Lemma forward_loop_ok ctx env isBatch fuel : forall i reqs (b : Backend W) last res b' reqs' evs,
  forward_loop ctx env isBatch fuel i reqs b last = Returns (res, b', reqs', evs) ->
  map req_ID reqs' = map req_ID reqs /\ forall rs, res = inl rs -> in_order reqs rs.
Proof.
  induction fuel as [|fuel IH]; intros i reqs b last res b' reqs' evs H; cbn [forward_loop] in H.
  - by injection H as <- <- <- <-.
  - destruct reqs as [|r0 rs0]; [done|]. step_outcome H. destruct a as [[r b1] reqs1].
    apply doForward_ok in E as [Hi Hm]. destruct r as [ok|err].
    + injection H as <- <- <- <-. split; [done|]. intros rs [= <-]. destruct Hm as (? & ? & _). by split.
    + destruct (ends_loop err); [by injection H as <- <- <- <-|]. destruct (at_jitter env i).
      step_outcome H. destruct a as [[[r2 b2] reqs2] evs2]. injection H as <- <- <- <-.
      apply IH in E as [Hi2 Hrs]. rewrite Hi in Hi2. split; [done|]. intros rs Hr. destruct (Hrs rs Hr) as [Hl Ho].
      pose proof (f_equal length Hi) as Hlen. rewrite !length_map in Hlen. unfold in_order. rewrite <- Hi. split; [congruence|done].
Qed.

Lemma group_forward_ok ctx env isBatch backends : forall reqs bg resp bg' reqs',
  ForwardRequestToBackendGroup ctx env isBatch backends reqs bg = Returns (resp, bg', reqs') ->
  gr_error resp = None -> in_order reqs (gr_RPCRes resp).
Proof.
  induction backends as [|be rest IH]; intros reqs bg resp bg' reqs' H Herr; cbn [ForwardRequestToBackendGroup] in H.
  - injection H as <- <- <-. done.
  - step_outcome H. destruct reqs as [|r0 rs0]; [by injection H as <- <- <-|].
    step_outcome H. destruct a0 as [[[res b1] reqs1] evs]. apply forward_loop_ok in E0 as [Hi Hrs].
    destruct (dispose _ res) as [rs|by' err|] eqn:Ed.
    + injection H as <- <- <-. apply Hrs. destruct res as [rs'|err]; cbn in Ed; [by injection Ed as <-|].
      by repeat case_match.
    + by injection H as <- <- <-.
    + apply IH in H; [|done]. destruct H as [Hl Ho]. unfold in_order. rewrite <- Hi. split; [|done].
      rewrite Hl. apply (f_equal length) in Hi. by rewrite !length_map in Hi.
Qed.

(** What the group decides about the requests before it forwards them. *)
Definition decisions (consensus : option (ConsensusPoller T)) (reqs : list RPCReq) : outcome (list RPCReq * list indexedReqRes) :=
  match consensus with
  | Some cp => OverwriteConsensusResponses cp reqs
  | None => Returns (reqs, [])
  end.

Lemma decisions_carry consensus reqs sent ovs : decisions consensus reqs = Returns (sent, ovs) ->
  exists ds, length ds = length reqs /\ carries 0 ds ovs /\ length sent = forwarded_count ds /\
    merge_ids ds (map req_ID sent) = map req_ID reqs.
Proof.
  intros E. destruct consensus as [cp|]; [by eapply overwrite_carries|]. injection E as <- <-.
  exists (map (fun _ => None) reqs). induction reqs as [|r rs (H1 & H2 & H3 & H4)]; cbn; [split_and!; [done|constructor|done|done]|].
  split_and!; [congruence| |congruence|by rewrite H4]. constructor. clear -rs. generalize 1%nat.
  induction rs; intros i; cbn; constructor; done.
Qed.

(** Putting the responses together cannot fail. *)
Lemma decisions_override consensus reqs sent ovs rs : decisions consensus reqs = Returns (sent, ovs) ->
  length rs = length sent -> returns (OverrideResponses rs ovs).
Proof.
  intros (ds & H1 & H2 & H3 & H4)%decisions_carry Hl. eexists.
  apply (OverrideResponses_merge ds 0 ovs H2 [] rs eq_refl). congruence.
Qed.

Lemma carries_at i ds ovs : carries i ds ovs -> forall ov, ov ∈ ovs ->
  (i <= ir_index ov)%nat /\ ds !! (ir_index ov - i)%nat = Some (Some (ir_res ov)).
Proof.
  induction 1 as [i|i r req ds ovs _ IH|i ds ovs _ IH]; intros ov Hov; [by apply elem_of_nil in Hov|apply elem_of_cons in Hov as [->|Hov]|].
  - cbn. by rewrite Nat.sub_diag.
  - destruct (IH ov Hov) as [Hi Hd]. split; [lia|]. by replace (ir_index ov - i)%nat with (S (ir_index ov - S i)) by lia.
  - destruct (IH ov Hov) as [Hi Hd]. split; [lia|]. by replace (ir_index ov - i)%nat with (S (ir_index ov - S i)) by lia.
Qed.

Lemma merge_at ds : forall rs i r, length rs = forwarded_count ds -> ds !! i = Some (Some r) -> merge ds rs !! i = Some r.
Proof.
  induction ds as [|[r0|] ds IH]; intros rs [|i] r Hl Hi; cbn in *; try done; [by injection Hi as ->|by apply IH|].
  destruct rs as [|x rs]; [done|]. cbn. apply IH; [by injection Hl|done].
Qed.

(** C5: a request or batch that is not multicast, and that is answered without an error, comes back complete: there is one
    response per request.  The responses that the group makes itself, [ovs], are at the positions of their
    requests; the others are those with which the backends, tried in order, answered the
    requests [sent] to them, one for each and in the order they came back.  If these carry
    the ids of the requests that were sent, in whatever order, then the whole answer has the ids of the
    client's requests, in their order. *)
Theorem group_positions ctx env consensus reqs isBatch bg resp reqs' bg' :
  group_Forward ctx env consensus reqs isBatch bg = Returns (resp, reqs', bg') -> gr_error resp = None ->
  (GetRoutingStrategy bg = MulticallRoutingStrategy -> isBatch = true) -> reqs <> [] ->
  length (gr_RPCRes resp) = length reqs /\
  exists sent ovs answer bg1 sent',
    decisions consensus reqs = Returns (sent, ovs) /\
    ForwardRequestToBackendGroup ctx (ge_attempts env) isBatch
      (orderedBackendsForRequest (ge_clock env) (ge_shuffles env) bg consensus) sent bg = Returns (answer, bg1, sent') /\
    length (gr_RPCRes answer) = length sent /\
    (forall ov, ov ∈ ovs -> gr_RPCRes resp !! ir_index ov = Some (ir_res ov)) /\
    (exists ds, carries 0 ds ovs /\ gr_RPCRes resp = merge ds (gr_RPCRes answer)) /\
    (map res_ID (gr_RPCRes answer) ≡ₚ map req_ID sent -> map res_ID (gr_RPCRes resp) = map req_ID reqs).
Proof.
  intros H Herr Hs Hne. unfold group_Forward in H. destruct reqs as [|r0 rs0]; [done|].
  set (reqs := r0 :: rs0) in *. step_outcome H. destruct a as [sent ovs].
  destruct (bool_decide _ && _ && _) eqn:Em.
  { exfalso. rewrite !andb_true_iff, bool_decide_eq_true, negb_true_iff in Em. destruct Em as [[Em _] Ef]. rewrite Hs in Ef; done. }
  step_outcome H. destruct a as [[gr bg1] reqs1]. destruct (gr_error gr) eqn:Eg; [injection H as <- <- <-; congruence|].
  destruct (group_forward_ok _ _ _ _ _ _ _ _ _ E0 Eg) as [Hl Ho].
  destruct (decisions_carry consensus reqs sent ovs E) as (ds & H1 & H2 & H3 & H4).
  pose proof (OverrideResponses_merge ds 0 ovs H2 [] (gr_RPCRes gr) eq_refl ltac:(congruence)) as Hov. cbn [app] in Hov.
  rewrite Hov in H. cbn [outcome_bind] in H. injection H as <- <- <-. cbn [gr_RPCRes].
  split; [rewrite merge_length; congruence|]. exists sent, ovs, gr, bg1, reqs1. split_and!; [done|done|done| |by exists ds|].
  - intros ov Hin. destruct (carries_at _ _ _ H2 ov Hin) as [_ Hd]. rewrite Nat.sub_0_r in Hd. apply merge_at; [congruence|done].
  - intros Hp. by rewrite merge_map_ids, (Ho Hp).
Qed.

(** ** The order of the backends *)

(** The shuffles only permute. *)
Definition shuffles_ok (sh : shuffles) : Prop :=
  (forall l, sh_healthy sh l ≡ₚ l) /\ (forall l, sh_degraded sh l ≡ₚ l) /\ (forall w l, sh_weighted sh w l ≡ₚ l).

(** C34: without consensus every backend is tried, all healthy ones before all unhealthy ones; with
    consensus exactly the healthy members of the consensus group are tried, the ones that are not
    degraded first. *)
Theorem routing_order clk sh bg (consensus : option (ConsensusPoller T)) : shuffles_ok sh ->
  exists first second, orderedBackendsForRequest clk sh bg consensus = first ++ second /\
  match consensus with
  | None =>
      first ++ second ≡ₚ seq 0 (length (bg_Backends bg))
      /\ Forall (fun be => healthy_at clk bg be = true) first /\ Forall (fun be => healthy_at clk bg be = false) second
  | Some cp =>
      (forall be, be ∈ first ++ second <-> be ∈ GetConsensusGroup cp /\ healthy_at clk bg be = true)
      /\ Forall (fun be => degraded_at clk bg be = false) first /\ Forall (fun be => degraded_at clk bg be = true) second
  end.
Proof.
  intros (S1 & S2 & S3). unfold orderedBackendsForRequest, loadBalancedConsensusGroup, weightedShuffle.
  destruct consensus as [cp|].
  - eexists _, _. split; [reflexivity|].
    assert (Hp : forall l, (if bg_WeightedRouting bg then sh_weighted sh (weight_of bg) l else l) ≡ₚ l) by (intros; case_match; auto).
    split_and!.
    + intros be. rewrite elem_of_app, Hp, S1, S2, !list_elem_of_filter. destruct (degraded_at clk bg be); naive_solver.
    + rewrite Hp, S1. rewrite Forall_forall. intros be [[_ ?] _]%list_elem_of_filter. done.
    + rewrite S2. rewrite Forall_forall. intros be [[_ ?] _]%list_elem_of_filter. done.
  - set (h := filter _ _). set (u := filter (fun be => healthy_at clk bg be = false) _).
    assert (Hh : Forall (fun be => healthy_at clk bg be = true) h) by (rewrite Forall_forall; by intros be [? _]%list_elem_of_filter).
    assert (Hu : Forall (fun be => healthy_at clk bg be = false) u) by (rewrite Forall_forall; by intros be [? _]%list_elem_of_filter).
    assert (Hall : h ++ u ≡ₚ seq 0 (length (bg_Backends bg))).
    { subst h u. clear. induction (seq 0 (length (bg_Backends bg))) as [|x l IH]; [done|].
      destruct (healthy_at clk bg x) eqn:Ex.
      - rewrite filter_cons_True, filter_cons_False by congruence. cbn [app]. by rewrite IH.
      - rewrite filter_cons_False, filter_cons_True by congruence. rewrite <- Permutation_middle. by rewrite IH. }
    destruct (bg_WeightedRouting bg).
    + exists (sh_weighted sh (weight_of bg) h), (sh_weighted sh (weight_of bg) u).
      split; [done|]. rewrite !S3. done.
    + by exists h, u.
Qed.

(** ** Failover *)

(** Requests that no backend translates are left alone. *)
Definition untranslated (reqs : list RPCReq) : Prop := ConsensusGetReceiptsMethod ∉ map req_Method reqs.

Lemma translate_untranslated isBatch target reqs : untranslated reqs -> translate isBatch target reqs = Returns (reqs, [], None).
Proof.
  intros Hu. unfold translate, untranslated in *. destruct isBatch; [by rewrite bool_decide_eq_false_2|].
  induction reqs as [|r rs IH]; [done|]. cbn [translate_all]. cbn [map] in Hu. rewrite elem_of_cons in Hu.
  rewrite bool_decide_eq_false_2 by (intros E; apply Hu; by left). rewrite IH by tauto. done.
Qed.

Lemma receive_reqs ex tr reqs resp (b : Backend W) res b' reqs' :
  receive ex tr reqs resp b = Returns (res, b', reqs') -> reqs' = reqs.
Proof.
  intros H. unfold receive, fails in H. destruct (negb _ && negb _); [by injection H as <- <- <-|].
  destruct (read_body _ _) as [resB|err]; [|by destruct (errors_Is _ _); injection H as <- <- <-].
  destruct (decode_responses _ resB) as [ptrs|[err []]]; [|by injection H as <- <- <-..].
  destruct (negb _); [by injection H as <- <- <-|]. do 3 step_outcome H. by injection H as <- <- <-.
Qed.

Lemma doForward_untranslated ctx net reqs isBatch now (b : Backend W) res b' reqs' : untranslated reqs ->
  doForward ctx net reqs isBatch now b = Returns (res, b', reqs') -> reqs' = reqs.
Proof.
  intros Hu H. unfold doForward in H. rewrite translate_untranslated in H by done. cbn [outcome_bind] in H.
  destruct (build_request _ ctx reqs) as [rq|]; [|done]. destruct (ex_build (net rq)); [by injection H as <- <- <-|].
  destruct (DoLimited (net rq)) as [resp|err]; [by apply receive_reqs in H|].
  destruct (errors_Is (Some err) ErrContextCanceled); by injection H as <- <- <-.
Qed.

Lemma forward_loop_untranslated ctx env isBatch fuel : forall i reqs (b : Backend W) last res b' reqs' evs,
  untranslated reqs -> forward_loop ctx env isBatch fuel i reqs b last = Returns (res, b', reqs', evs) -> reqs' = reqs.
Proof.
  induction fuel as [|fuel IH]; intros i reqs b last res b' reqs' evs Hu H; cbn [forward_loop] in H;
    [by injection H as <- <- <- <-|].
  destruct reqs as [|r0 rs0]; [done|]. step_outcome H. destruct a as [[r b1] reqs1].
  apply doForward_untranslated in E as ->; [|done]. destruct r as [ok|err]; [by injection H as <- <- <- <-|].
  destruct (ends_loop err); [by injection H as <- <- <- <-|]. destruct (at_jitter env i).
  step_outcome H. destruct a as [[[r2 b2] reqs2] evs2]. injection H as <- <- <- <-. by eapply IH.
Qed.

(** The errors that are handed to the client: the request itself is at fault, or the client is gone. *)
Definition final_errors : list sentinel :=
  [ErrConsensusGetReceiptsCantBeBatched; ErrConsensusGetReceiptsInvalidTarget; ErrContextCanceled;
   ErrBackendResponseTooLarge; ErrRequestBodyTooLarge; ErrMethodNotWhitelisted].

(** The backends [pre] fail one after the other with any other error, each on the requests as the one before it
    has left them. *)
Inductive failed_over ctx (env : nat -> attempts) (isBatch : bool)
    : list nat -> list RPCReq -> BackendGroup W -> list RPCReq -> BackendGroup W -> Prop :=
| no_failure reqs bg : failed_over ctx env isBatch [] reqs bg reqs bg
| one_failure be rest reqs bg b err b' reqs' evs reqs1 bg1 : bg_Backends bg !! be = Some b ->
    Forward ctx (env be) reqs isBatch b = Returns (inr err, b', reqs', evs) ->
    Forall (fun s => errors_Is (Some err) s = false) final_errors ->
    failed_over ctx env isBatch rest reqs' (set_backend be b' bg) reqs1 bg1 ->
    failed_over ctx env isBatch (be :: rest) reqs bg reqs1 bg1.

Lemma dispose_TryNext s err : Forall (fun s => errors_Is (Some err) s = false) final_errors -> dispose s (inr err) = TryNext.
Proof.
  unfold final_errors. rewrite !Forall_cons. intros (H1 & H2 & H3 & H4 & H5 & H6 & _). unfold dispose.
  by rewrite H1, H2, H3, H4, H5, H6.
Qed.

Lemma forward_nonempty ctx env isBatch reqs (b : Backend W) res b' reqs' evs :
  Forward ctx env reqs isBatch b = Returns (res, b', reqs', evs) -> reqs <> [] -> reqs' <> [].
Proof. intros [Hi _]%forward_loop_ok Hne ->. by destruct reqs. Qed.

Lemma skip_failing ctx env isBatch pre post reqs bg reqs1 bg1 : failed_over ctx env isBatch pre reqs bg reqs1 bg1 -> reqs <> [] ->
  ForwardRequestToBackendGroup ctx env isBatch (pre ++ post) reqs bg = ForwardRequestToBackendGroup ctx env isBatch post reqs1 bg1
  /\ bg_Name bg1 = bg_Name bg /\ reqs1 <> [] /\ (untranslated reqs -> reqs1 = reqs).
Proof.
  induction 1 as [reqs bg|be rest reqs bg b err b' reqs' evs reqs1 bg1 Hb HF Hd _ IH]; intros Hne; [done|].
  destruct IH as (E & Hn & Hne1 & Hu); [by eapply forward_nonempty|]. cbn [app ForwardRequestToBackendGroup].
  unfold backend_at. rewrite Hb. cbn [outcome_bind]. destruct reqs as [|r0 rs0]; [done|].
  rewrite HF. cbn [outcome_bind]. rewrite (dispose_TryNext _ _ Hd). split_and!; [exact E|exact Hn|done|].
  intros H. pose proof (forward_loop_untranslated _ _ _ _ _ _ _ _ _ _ _ _ H HF) as ->. by apply Hu.
Qed.

(** A receipts request that has been offered to a backend has that backend's method. *)
Lemma doForward_receipts ctx net r now (b : Backend W) res b' reqs' : req_Method r = ConsensusGetReceiptsMethod ->
  doForward ctx net [r] false now b = Returns (res, b', reqs') -> exists r1, reqs' = [r1] /\ req_Method r1 = b_receiptsTarget b.
Proof.
  intros Hm H. unfold doForward in H. step_outcome H. destruct a as [[reqs1 tr] terr].
  assert (Hr : exists r1, reqs1 = [r1] /\ req_Method r1 = b_receiptsTarget b).
  { cbn [translate translate_all] in E. rewrite bool_decide_eq_true_2 in E by done. step_outcome E. destruct a as [r1 err1].
    exists r1. split; [destruct err1; [|cbn [outcome_bind] in E]; by injection E as <- _ _|].
    unfold translate_one in E0. destruct (unmarshal_bnhs _); [|by injection E0 as <- _]. step_outcome E0.
    destruct a; by injection E0 as <- _. }
  destruct Hr as (r1 & -> & Hr1). exists r1. split; [|done]. destruct terr as [err|]; [by injection H as _ _ <-|].
  destruct (build_request _ ctx [r1]) as [rq|]; [|done]. destruct (ex_build (net rq)); [by injection H as _ _ <-|].
  destruct (DoLimited (net rq)) as [resp|err]; [by apply receive_reqs in H|].
  destruct (errors_Is (Some err) ErrContextCanceled); by injection H as _ _ <-.
Qed.

Lemma Forward_receipts ctx env r (b : Backend W) res b' reqs' evs : req_Method r = ConsensusGetReceiptsMethod ->
  b_receiptsTarget b <> ConsensusGetReceiptsMethod -> 0 <= b_maxRetries b ->
  Forward ctx env [r] false b = Returns (res, b', reqs', evs) ->
  exists r1, reqs' = [r1] /\ req_Method r1 = b_receiptsTarget b /\ untranslated reqs'.
Proof.
  intros Hm Ht Hk H. unfold Forward in H. destruct (Z.to_nat (b_maxRetries b + 1)) as [|fuel] eqn:Ef; [lia|].
  cbn [forward_loop] in H. step_outcome H. destruct a as [[r2 b1] reqs1].
  destruct (doForward_receipts _ _ _ _ _ _ _ _ Hm E) as (r1 & -> & Hr1).
  assert (Hu : untranslated [r1]) by (unfold untranslated; cbn [map]; rewrite Hr1; intros Hin%list_elem_of_singleton; congruence).
  destruct r2 as [ok|err]; [injection H as _ _ <- _; eauto|]. destruct (ends_loop err); [injection H as _ _ <- _; eauto|].
  destruct (at_jitter env 0). step_outcome H. destruct a as [[[r2 b2] reqs2] evs2]. injection H as _ _ <- _.
  apply forward_loop_untranslated in E0 as ->; [|done]. eauto.
Qed.

(** C10: failover.  While backends fail with an error that is not the client's, the next one is tried; the first
    one that answers serves the request, whatever comes after it, and if none does the error is that
    no backend is available.  Each backend is sent the requests as the backends before it have left them:
    that is, unchanged - except for a [consensus_getReceipts] request, which the first backend
    that is tried rewrites in place to its own receipts method, and which every later backend then gets with
    that method, whatever its own one is. *)
Theorem failover ctx env isBatch reqs bg pre post reqs1 bg1 : reqs <> [] -> failed_over ctx env isBatch pre reqs bg reqs1 bg1 ->
  match post with
  | [] => ForwardRequestToBackendGroup ctx env isBatch (pre ++ post) reqs bg
          = Returns (mkGroupResponse [] "" (Some (ESentinel ErrNoBackends)), bg1, reqs1)
  | be :: _ => forall b rs b' reqs' evs, bg_Backends bg1 !! be = Some b ->
      Forward ctx (env be) reqs1 isBatch b = Returns (inl rs, b', reqs', evs) ->
      ForwardRequestToBackendGroup ctx env isBatch (pre ++ post) reqs bg
      = Returns (mkGroupResponse rs (bg_Name bg +:+ "/" +:+ b_Name b) None, set_backend be b' bg1, reqs')
  end /\
  (untranslated reqs -> reqs1 = reqs) /\
  (forall r be rest b, reqs = [r] -> isBatch = false -> req_Method r = ConsensusGetReceiptsMethod -> pre = be :: rest ->
     bg_Backends bg !! be = Some b -> b_receiptsTarget b <> ConsensusGetReceiptsMethod -> 0 <= b_maxRetries b ->
     exists r1, reqs1 = [r1] /\ req_Method r1 = b_receiptsTarget b).
Proof.
  intros Hne Hf. destruct (skip_failing ctx env isBatch pre post reqs bg reqs1 bg1 Hf Hne) as (E & Hn & Hne1 & Hu).
  split_and!; [|done|].
  - rewrite E. destruct post as [|be post]; [done|]. intros b rs b' reqs' evs Hb HF.
    cbn [ForwardRequestToBackendGroup]. unfold backend_at. rewrite Hb. cbn [outcome_bind]. destruct reqs1; [done|].
    rewrite HF. cbn. by rewrite Hn.
  - intros r be rest b -> -> Hm -> Hb Ht Hk. clear E Hn Hne1 Hu. inversion Hf as [|? ? ? ? b0 err b' reqs' evs ? ? Hb0 HF Hd Hrest]; subst.
    rewrite Hb0 in Hb. injection Hb as ->. destruct (Forward_receipts _ _ _ _ _ _ _ _ Hm Ht Hk HF) as (r1 & -> & Hr1 & Hu).
    exists r1. split; [|done]. by destruct (skip_failing _ _ _ _ [] _ _ _ _ Hrest) as (_ & _ & _ & H); [|apply H].
Qed.

(** ** Multicall *)

(** A response a multicall may return at once. *)
Definition success (check : bool) (resp : BackendGroupRPCResponse) : Prop :=
  gr_error resp = None /\ (check = true -> exists r rest, gr_RPCRes resp = r :: rest /\ IsError r = false).

Definition answered (resp : BackendGroupRPCResponse) : Prop := gr_error resp = None -> gr_RPCRes resp <> [].

Lemma process_responses_spec check received : Forall answered received -> forall final,
  exists resp, process_responses check received final = Returns resp /\
    (received <> [] -> resp ∈ received) /\ (Exists (success check) received -> success check resp).
Proof.
  induction 1 as [|x rest Hx _ IH]; intros final; cbn [process_responses].
  { eexists. split; [done|]. split; [done|]. intros H. by inversion H. }
  assert (Hnext : ~ success check x -> exists resp, process_responses check rest (Some x) = Returns resp /\
    (x :: rest <> [] -> resp ∈ x :: rest) /\ (Exists (success check) (x :: rest) -> success check resp)).
  { intros Hns. destruct rest as [|y rest].
    - exists x. split; [done|]. rewrite Exists_cons, Exists_nil. split; [by left|tauto].
    - destruct (IH (Some x)) as (resp & -> & H1 & H2). exists resp. split; [done|].
      split; [intros _; right; by apply H1|]. rewrite Exists_cons. tauto. }
  assert (Hdone : success check x -> exists resp, Returns x = Returns resp /\
    (x :: rest <> [] -> resp ∈ x :: rest) /\ (Exists (success check) (x :: rest) -> success check resp)).
  { intros Hs. exists x. split; [done|]. split; [by left|done]. }
  unfold success in Hnext at 1. destruct (gr_error x) eqn:Ee; [apply Hnext; naive_solver|].
  destruct check; [|by apply Hdone].
  destruct (gr_RPCRes x) as [|r rs] eqn:Er; [by apply Hx in Ee|]. destruct (IsError r) eqn:Ei.
  - apply Hnext. intros [_ Hc]. destruct (Hc eq_refl) as (r' & rs' & [= <- <-] & E'). congruence.
  - apply Hdone. split; [done|]. rewrite Er. eauto.
Qed.

Lemma multicall_answered ctx env backends reqs : isValidMulticallTx reqs = true -> forall bg resps bg',
  multicall_requests ctx env backends reqs bg = Returns (resps, bg') ->
  length resps = length backends /\ Forall answered (map snd resps).
Proof.
  intros Hv. induction backends as [|be rest IH]; intros bg resps bg' H; cbn [multicall_requests] in H;
    [by injection H as <- <-|].
  step_outcome H. destruct a as [[resp bg1] reqs1]. step_outcome H. destruct a as [resps1 bg2].
  injection H as <- <-. apply IH in E0 as [Hl Hf]. cbn. split; [congruence|]. constructor; [|done].
  intros Herr. apply group_forward_ok in E as [Hlen _]; [|done]. cbn. destruct reqs as [|r [|]]; try done.
  intros E'. by rewrite E' in Hlen.
Qed.

(** C35: in a multicall to a non-empty group the client gets the answer of one of the backends, and a
    successful one (with the error check on: one without an RPC error) if there is any, in whatever
    order the answers arrive; processing them never panics. *)
Theorem multicall_success ctx env arrival reqs bg resps bg' :
  (forall l, arrival l ≡ₚ map snd l) -> isValidMulticallTx reqs = true -> bg_Backends bg <> [] ->
  multicall_requests ctx env (seq 0 (length (bg_Backends bg))) reqs bg = Returns (resps, bg') ->
  exists resp, ExecuteMulticall ctx env arrival reqs bg = Returns (resp, bg') /\ resp ∈ map snd resps /\
    (Exists (success (bg_multicallRPCErrorCheck bg)) (map snd resps) -> success (bg_multicallRPCErrorCheck bg) resp).
Proof.
  intros Ha Hv Hne H. unfold ExecuteMulticall. rewrite H. cbn [outcome_bind].
  apply multicall_answered in H as [Hl Hf]; [|done]. unfold ProcessMulticallResponses.
  destruct (process_responses_spec (bg_multicallRPCErrorCheck bg) (arrival resps)) with (final := @None BackendGroupRPCResponse)
    as (resp & -> & H1 & H2); [by rewrite Ha|].
  assert (Hin : forall x, x ∈ arrival resps <-> x ∈ map snd resps) by (intros x; by rewrite Ha).
  exists resp. split; [done|]. split.
  - apply Hin, H1. intros E. pose proof (Permutation_length (Ha resps)) as Hlen. rewrite E, length_map, Hl, length_seq in Hlen.
    by destruct (bg_Backends bg).
  - intros He. apply H2. rewrite Exists_exists in *. destruct He as (x & Hx & Hs). exists x. by rewrite Hin.
Qed.

End forwarding.

(** ** Examples *)

#[local] Existing Instance total_window.

Definition one_backend (strategy : RoutingStrategy) (n : nat) : BackendGroup Q :=
  mkBackendGroup "main" (map (fun i => NewBackend (dec_string (Z.of_nat i)) "http://b" "" []) (seq 0 n)) false ∅ strategy true.

Definition agreed : ConsensusPoller InMemoryConsensusTracker :=
  set_consensusGroup [0%nat] (NewConsensusPoller (mkTrackerState 30 20 10) (one_backend ConsensusAwareRoutingStrategy 1) []).

Definition three_calls : list RPCReq :=
  [mkRPCReq "2.0" "eth_chainId" "[]" "1"; mkRPCReq "2.0" "eth_blockNumber" "[]" "3"; mkRPCReq "2.0" "net_version" "[]" "2"].

Definition no_shuffle : shuffles := mkShuffles id id (fun _ => id).

Definition quiet (net : nat -> http_request -> exchange) : group_env :=
  mkGroupEnv (fun _ => Second) no_shuffle (fun be => mkAttempts (fun _ => Second) (fun _ => net be) (fun _ => (0, 0))) (map snd).

Lemma group_positions_witness :
  exists resp reqs' bg', group_Forward background (quiet (fun _ => reversed)) (Some agreed) three_calls true
      (one_backend ConsensusAwareRoutingStrategy 1) = Returns (resp, reqs', bg') /\ map res_ID (gr_RPCRes resp) = ["1"; "3"; "2"].
Proof.
  destruct (group_Forward background (quiet (fun _ => reversed)) (Some agreed) three_calls true
      (one_backend ConsensusAwareRoutingStrategy 1)) as [[[resp reqs'] bg']|] eqn:E; [|vm_compute in E; discriminate].
  exists resp, reqs', bg'. split; [done|].
  destruct (group_positions background (quiet (fun _ => reversed)) (Some agreed) three_calls true
           (one_backend ConsensusAwareRoutingStrategy 1) resp reqs' bg' E)
    as (_ & sent & ovs & answer & bg1 & sent' & Ed & Ef & _ & _ & _ & Hids); [|discriminate|discriminate|].
  - vm_compute in E. injection E as <- _ _. reflexivity.
  - apply Hids. vm_compute in Ed. injection Ed as <- _. vm_compute in Ef. injection Ef as <- _ _. vm_compute. reflexivity.
Defined.

Lemma routing_order_witness :
  exists first second, orderedBackendsForRequest (fun _ => Second) no_shuffle (one_backend FallbackRoutingStrategy 2)
      (@None (ConsensusPoller InMemoryConsensusTracker)) = first ++ second /\ first ++ second ≡ₚ [0; 1]%nat.
Proof.
  destruct (routing_order (fun _ => Second) no_shuffle (one_backend FallbackRoutingStrategy 2)
    (@None (ConsensusPoller InMemoryConsensusTracker))) as (f & s & E & Hp & _); [by repeat split|].
  exists f, s. split; [exact E|exact Hp].
Defined.

(** The first backend refuses connections, the second answers. *)
Definition flaky (be : nat) : attempts := if (be =? 0)%nat then refused else mkAttempts (fun _ => Second) (fun _ => reversed) (fun _ => (0, 0)).

(** Two backends that prefer different methods for receipts. *)
Definition two_targets : BackendGroup Q :=
  mkBackendGroup "main" [NewBackend "0" "http://a" "" [WithConsensusReceiptTarget "debug_getRawReceipts"];
                         NewBackend "1" "http://b" "" [WithConsensusReceiptTarget "eth_getBlockReceipts"]] false ∅ FallbackRoutingStrategy false.

Definition receipts_call : list RPCReq := [mkRPCReq "2.0" "consensus_getReceipts" (jtext "['0x10']") "1"].

Lemma failover_witness :
  exists bg1 rs bg', failed_over background flaky true [0%nat] two_calls (one_backend FallbackRoutingStrategy 2) two_calls bg1 /\
    ForwardRequestToBackendGroup background flaky true [0; 1]%nat two_calls (one_backend FallbackRoutingStrategy 2)
      = Returns (mkGroupResponse rs "main/1" None, bg', two_calls) /\
    exists reqs2 bg2, failed_over background flaky false [0%nat] receipts_call two_targets reqs2 bg2 /\
      map req_Method reqs2 = ["debug_getRawReceipts"].
Proof.
  destruct (Forward background (flaky 1) two_calls true (NewBackend (W := Q) "1" "http://b" "" []))
    as [[[[[rs|e] b'] reqs'] evs]|] eqn:E; [|vm_compute in E; discriminate..].
  assert (Er : reqs' = two_calls) by (vm_compute in E; by injection E as _ _ <- _). subst reqs'.
  assert (Hf : exists bg1, failed_over background flaky true [0%nat] two_calls (one_backend FallbackRoutingStrategy 2) two_calls bg1
    /\ bg_Backends bg1 !! 1%nat = Some (NewBackend (W := Q) "1" "http://b" "" [])).
  { eexists. split; [eapply one_failure; [reflexivity|vm_compute; reflexivity|repeat constructor|apply no_failure]|reflexivity]. }
  destruct Hf as (bg1 & Hf & Hb1).
  destruct (failover background flaky true two_calls (one_backend FallbackRoutingStrategy 2) [0%nat] [1%nat] two_calls bg1)
    as (Hserved & _ & _); [discriminate|exact Hf|].
  exists bg1, rs. eexists. split; [exact Hf|]. split; [exact (Hserved _ _ _ _ _ Hb1 E)|].
  assert (Hg : exists reqs2 bg2, failed_over background flaky false [0%nat] receipts_call two_targets reqs2 bg2).
  { do 2 eexists. eapply one_failure; [reflexivity|vm_compute; reflexivity|repeat constructor|apply no_failure]. }
  destruct Hg as (reqs2 & bg2 & Hg). exists reqs2, bg2. split; [exact Hg|].
  destruct (failover background flaky false receipts_call two_targets [0%nat] [1%nat] reqs2 bg2) as (_ & _ & Hr); [discriminate|exact Hg|].
  edestruct Hr as (r1 & -> & Hm); [reflexivity|reflexivity|reflexivity|reflexivity|reflexivity|discriminate|vm_compute; discriminate|].
  cbn [map]. rewrite Hm. reflexivity.
Defined.

Definition raw_tx : list RPCReq := [mkRPCReq "2.0" "eth_sendRawTransaction" (jtext "['0x01']") "1"].

Definition accepted : http_request -> exchange := fun _ =>
  mkExchange Second (3 * Second) None None
    (inl (mkResponse 200 (BodyBytes (mkBody (jtext "{'jsonrpc':'2.0','id':1,'result':'0xab'}") (fun _ => 512) true)))).

Definition mixed (be : nat) : attempts := if (be =? 0)%nat then refused else mkAttempts (fun _ => Second) (fun _ => accepted) (fun _ => (0, 0)).

Lemma multicall_success_witness :
  exists resp bg', ExecuteMulticall background mixed (map snd) raw_tx (one_backend MulticallRoutingStrategy 2) = Returns (resp, bg')
    /\ success true resp.
Proof.
  destruct (multicall_requests background mixed [0; 1]%nat raw_tx (one_backend MulticallRoutingStrategy 2))
    as [[resps bg']|] eqn:E; [|vm_compute in E; discriminate].
  destruct (multicall_success background mixed (map snd) raw_tx (one_backend MulticallRoutingStrategy 2) resps bg')
    as (resp & Er & _ & Hs); [done|reflexivity|discriminate|exact E|].
  exists resp, bg'. split; [exact Er|]. apply Hs. vm_compute in E. injection E as <- _.
  apply Exists_cons_tl, Exists_cons_hd. split; [reflexivity|]. intros _. vm_compute. eauto.
Defined.
