(* ===== verification/Server.v ===== *)
(** * The HTTP server (src/server.go, [rateLimitInteropSender] of src/interop.go)

    The server parses requests, applies limits and validation, groups calls into upstream batches,
    serves them from the cache or forwards them to a backend group, and writes every response at the
    position of its request.  Limiters, the cache, the interop strategy and the backend groups are
    interfaces; transactions and cryptography (go-ethereum) are the classes [TxLib] and [Crypto].  A
    compiled regular expression is its [MatchString] function.  The order in which Go ranges over the
    map of batches is an argument. *)

From S2P Require Import Prelude Json JsonFacts Geth Rpc Util Http RateLimiter Cache BackendGroup.

(** ** What the server uses *)

(** The signer is picked by the chain id: [LatestSignerForChainID] panics on zero. *)
Inductive Signer : Type := HomesteadSigner | LatestSignerForChainID (chainId : Z).

(** Transactions of go-ethereum. *)
Class TxLib (Tx : Type) : Type := {
  hex_Bytes : string -> string + string;          (** [hexutil.Bytes.UnmarshalText], or its error text *)
  tx_UnmarshalBinary : string -> Tx + string;
  tx_ChainId : Tx -> Z;
  types_Sender : Signer -> Tx -> string + string; (** the address in hexadecimal, or the error text *)
  tx_Nonce : Tx -> Z;
  tx_MarshalJSON : Tx -> option string;
  TxToInteropAccessList : Tx -> list string;
}.

(** Signatures over a body; addresses are kept as values that can be compared. *)
Class Crypto (Addr Pub : Type) : Type := {
  nullAddress : Addr;
  hexutil_Decode : string -> option (list Z);
  keccak256_Hex : string -> string;
  TextHash : string -> string;
  Ecrecover : string -> list Z -> option string;
  UnmarshalPubkey : string -> option Pub;
  PubkeyToAddress : Pub -> Addr;
  HexToAddress : string -> Addr;
  VerifySignature : string -> string -> list Z -> bool;
}.

(** An interop validation strategy with its state. *)
Class InteropStrategy (I : Type) : Type :=
  ValidateAccessList : list string -> I -> outcome (option error * I).

(** The backend groups by name: the response, the requests after the call, the groups after it. *)
Class Groups (G : Type) : Type :=
  group_forward : string -> list RPCReq -> bool -> G -> outcome (BackendGroupRPCResponse * list RPCReq * G).

Record Server (Addr L C I : Type) : Type := mkServer {
  sv_rpcMethodMappings : gmap string string;
  sv_maxBodySize : Z;
  sv_authenticatedPaths : gmap string string;
  sv_timeout : Z;
  sv_maxUpstreamBatchSize : Z;
  sv_maxBatchSize : Z;
  sv_enableServedByHeader : bool;
  sv_mainLim : option L;                           (** [None]: [NoopFrontendRateLimiter] *)
  sv_highPrioSigners : list Addr;
  sv_overrideLims : gmap string L;
  sv_highPrioOverrideLims : gmap string L;
  sv_senderLim : option L;
  sv_interopSenderLim : option L;
  sv_enableRequestLog : bool;
  sv_maxRequestBodyLogLen : Z;
  sv_allowedChainIds : list Z;
  sv_limExemptOrigins : list (string -> bool);
  sv_limExemptUserAgents : list (string -> bool);
  sv_globallyLimitedMethods : gmap string bool;
  sv_cache : option C;                             (** [None]: [NoopRPCCache] *)
  sv_rateLimitHeader : string;
  sv_interopReqSizeLimit : Z;
  sv_interopStrategy : I;
  sv_allowedDynamicHeaders : list string;
}.
Arguments mkServer {Addr L C I}.
Arguments sv_rpcMethodMappings {Addr L C I}.
Arguments sv_maxBodySize {Addr L C I}.
Arguments sv_authenticatedPaths {Addr L C I}.
Arguments sv_timeout {Addr L C I}.
Arguments sv_maxUpstreamBatchSize {Addr L C I}.
Arguments sv_maxBatchSize {Addr L C I}.
Arguments sv_enableServedByHeader {Addr L C I}.
Arguments sv_mainLim {Addr L C I}.
Arguments sv_highPrioSigners {Addr L C I}.
Arguments sv_overrideLims {Addr L C I}.
Arguments sv_highPrioOverrideLims {Addr L C I}.
Arguments sv_senderLim {Addr L C I}.
Arguments sv_interopSenderLim {Addr L C I}.
Arguments sv_enableRequestLog {Addr L C I}.
Arguments sv_maxRequestBodyLogLen {Addr L C I}.
Arguments sv_allowedChainIds {Addr L C I}.
Arguments sv_limExemptOrigins {Addr L C I}.
Arguments sv_limExemptUserAgents {Addr L C I}.
Arguments sv_globallyLimitedMethods {Addr L C I}.
Arguments sv_cache {Addr L C I}.
Arguments sv_rateLimitHeader {Addr L C I}.
Arguments sv_interopReqSizeLimit {Addr L C I}.
Arguments sv_interopStrategy {Addr L C I}.
Arguments sv_allowedDynamicHeaders {Addr L C I}.

(** Assignment to a field. *)
Definition server_eta {Addr L C I} (s : Server Addr L C I) : Server Addr L C I :=
  mkServer (sv_rpcMethodMappings s) (sv_maxBodySize s) (sv_authenticatedPaths s) (sv_timeout s)
    (sv_maxUpstreamBatchSize s) (sv_maxBatchSize s) (sv_enableServedByHeader s) (sv_mainLim s)
    (sv_highPrioSigners s) (sv_overrideLims s) (sv_highPrioOverrideLims s) (sv_senderLim s)
    (sv_interopSenderLim s) (sv_enableRequestLog s) (sv_maxRequestBodyLogLen s) (sv_allowedChainIds s) (sv_limExemptOrigins s) (sv_limExemptUserAgents s)
    (sv_globallyLimitedMethods s) (sv_cache s) (sv_rateLimitHeader s) (sv_interopReqSizeLimit s)
    (sv_interopStrategy s) (sv_allowedDynamicHeaders s).

Tactic Notation "set_server" constr(s) uconstr(f) constr(v) :=
  let fs := constr:(f s) in
  let e := eval cbv beta delta [server_eta] in (server_eta s) in
  match e with
  | context C [fs] => let r := context C [v] in exact r
  end.

(** ** Constants *)

Definition DefaultMaxBatchRPCCallsLimit : Z := 100.
Definition MaxBatchRPCCallsHardLimit : Z := 1000.
Definition defaultRPCTimeout : Z := 10 * Second.
Definition defaultBodySizeLimit : Z := 256 * 1024.
Definition defaultMaxUpstreamBatchSize : Z := 10.
Definition defaultRateLimitHeader : string := "X-Forwarded-For".
Definition FlashbotsAuthHeader : string := "X-Flashbots-Signature".
Definition maxRequestBodyLogLen : Z := 2000.
Definition proxydHealthzMethod : string := "proxyd_healthz".

(** ** Construction *)

Record RateLimitMethodOverride : Type := mkOverride { mo_Limit : Z; mo_Interval : Z; mo_Global : bool }.

Record RateLimitConfig : Type := mkRateLimitConfig {
  rl_BaseRate : Z;
  rl_BaseInterval : Z;
  rl_ExemptOrigins : list string;
  rl_ExemptUserAgents : list string;
  rl_MethodOverrides : gmap string RateLimitMethodOverride;
  rl_IPHeaderOverride : string;
}.

Record SenderRateLimitConfig : Type := mkSenderConfig {
  sl_Enabled : bool;
  sl_Interval : Z;
  sl_Limit : Z;
  sl_AllowedChainIds : list Z;
}.

Section server.
Context {Addr Pub L C I G Tx : Type} {AddrEq : EqDecision Addr}.
Context {LX : FrontendRateLimiter L} {CX : Cache C} {SX : SHA256} {IX : InteropStrategy I} {GX : Groups G}.
Context {TX : TxLib Tx} {KX : Crypto Addr Pub} {HX : HexUtil} {BX : BlockRPC}.
Implicit Types s : Server Addr L C I.

Definition set_mainLim (l : option L) s : Server Addr L C I := ltac:(set_server s sv_mainLim l).
Definition set_overrideLims (m : gmap string L) s : Server Addr L C I := ltac:(set_server s sv_overrideLims m).
Definition set_highPrioOverrideLims (m : gmap string L) s : Server Addr L C I :=
  ltac:(set_server s sv_highPrioOverrideLims m).
Definition set_senderLim (l : option L) s : Server Addr L C I := ltac:(set_server s sv_senderLim l).
Definition set_interopSenderLim (l : option L) s : Server Addr L C I := ltac:(set_server s sv_interopSenderLim l).
Definition set_cache (c : option C) s : Server Addr L C I := ltac:(set_server s sv_cache c).
Definition set_interopStrategy (i : I) s : Server Addr L C I := ltac:(set_server s sv_interopStrategy i).

Definition or_default (v d : Z) : Z := if v =? 0 then d else v.

(** [regexp.Compile] of every pattern; the first one that does not compile is the error. *)
Definition compile_all (compile : string -> (string -> bool) + error) (l : list string)
    : list (string -> bool) + error :=
  foldr (fun p acc =>
    match compile p, acc with
    | inr e, _ => inr e
    | inl f, inl fs => inl (f :: fs)
    | inl _, inr e => inr e
    end) (inl []) l.

Definition global_methods (c : RateLimitConfig) (m : gmap string bool) : gmap string bool :=
  map_fold (fun method o acc => if mo_Global o then <[method := true]> acc else acc) m (rl_MethodOverrides c).

Definition NewServer (rpcMethodMappings : gmap string string) (maxBodySize : Z)
    (authenticatedPaths : gmap string string) (timeout maxUpstreamBatchSize : Z) (enableServedByHeader : bool)
    (cache : option C) (rateLimit highPrio : RateLimitConfig) (highPrioSigners : list Addr)
    (sender interopSender : SenderRateLimitConfig) (enableRequestLog : bool) (maxRequestBodyLogLen maxBatchSize : Z) (limiterFactory : Z -> Z -> string -> L)
    (compile : string -> (string -> bool) + error) (interopReqSizeLimit : Z) (interopStrategy : I)
    (allowedDynamicHeaders : list string) : Server Addr L C I + error :=
  let limited := 0 <? rl_BaseRate rateLimit in
  match (if limited then compile_all compile (rl_ExemptOrigins rateLimit) else inl []),
        (if limited then compile_all compile (rl_ExemptUserAgents rateLimit) else inl []) with
  | inr e, _ | inl _, inr e => inr e
  | inl origins, inl agents =>
      let override_lims c := map_imap (fun method o => Some (limiterFactory (mo_Interval o) (mo_Limit o) method))
                               (rl_MethodOverrides c) in
      inl {| sv_rpcMethodMappings := rpcMethodMappings;
             sv_maxBodySize := or_default maxBodySize defaultBodySizeLimit;
             sv_authenticatedPaths := authenticatedPaths;
             sv_timeout := or_default timeout defaultRPCTimeout;
             sv_maxUpstreamBatchSize := or_default maxUpstreamBatchSize defaultMaxUpstreamBatchSize;
             sv_maxBatchSize := Z.min (or_default maxBatchSize DefaultMaxBatchRPCCallsLimit) MaxBatchRPCCallsHardLimit;
             sv_enableServedByHeader := enableServedByHeader;
             sv_mainLim := if limited then Some (limiterFactory (rl_BaseInterval rateLimit) (rl_BaseRate rateLimit) "main") else None;
             sv_highPrioSigners := highPrioSigners;
             sv_overrideLims := override_lims rateLimit;
             sv_highPrioOverrideLims := override_lims highPrio;
             sv_senderLim := if sl_Enabled sender then Some (limiterFactory (sl_Interval sender) (sl_Limit sender) "senders") else None;
             sv_interopSenderLim := if sl_Enabled interopSender
               then Some (limiterFactory (sl_Interval interopSender) (sl_Limit interopSender) "interop_senders") else None;
             sv_enableRequestLog := enableRequestLog;
             sv_maxRequestBodyLogLen := maxRequestBodyLogLen;
             sv_allowedChainIds := sl_AllowedChainIds sender;
             sv_limExemptOrigins := origins;
             sv_limExemptUserAgents := agents;
             sv_globallyLimitedMethods := global_methods highPrio (global_methods rateLimit ∅);
             sv_cache := cache;
             sv_rateLimitHeader := if bool_decide (rl_IPHeaderOverride rateLimit = "") then defaultRateLimitHeader
                                   else rl_IPHeaderOverride rateLimit;
             sv_interopReqSizeLimit := interopReqSizeLimit;
             sv_interopStrategy := interopStrategy;
             sv_allowedDynamicHeaders := allowedDynamicHeaders |}
  end.

(** ** Rate limits *)

Definition isUnlimitedOrigin s (origin : string) : bool := existsb (fun pat => pat origin) (sv_limExemptOrigins s).
Definition isUnlimitedUserAgent s (agent : string) : bool := existsb (fun pat => pat agent) (sv_limExemptUserAgents s).
Definition isGlobalLimit s (method : string) : bool := default false (sv_globallyLimitedMethods s !! method).

(** What the closure [isLimited] captures of a request. *)
Record requestor : Type := mkRequestor { rq_exempt : bool; rq_signer : Addr; rq_xff : string }.

Definition isHighPrio s (who : requestor) : bool := bool_decide (rq_signer who ∈ sv_highPrioSigners s).

(** The limiter for a method (the empty method: the main one), with how to store it back. *)
Definition limiter_for s (who : requestor) (method : string) : option (L * (L -> Server Addr L C I)) :=
  if bool_decide (method = "") then (fun l => (l, fun l' => set_mainLim (Some l') s)) <$> sv_mainLim s
  else if isHighPrio s who
  then (fun l => (l, fun l' => set_highPrioOverrideLims (<[method := l']> (sv_highPrioOverrideLims s)) s))
         <$> sv_highPrioOverrideLims s !! method
  else (fun l => (l, fun l' => set_overrideLims (<[method := l']> (sv_overrideLims s)) s))
         <$> sv_overrideLims s !! method.

(** An error of the limiter limits the request. *)
Definition isLimited (now : Z) (who : requestor) (method : string) s : outcome (bool * Server Addr L C I) :=
  if negb (isGlobalLimit s method) && rq_exempt who then Returns (false, s)
  else
    match limiter_for s who method with
    | None => Returns (false, s)
    | Some (lim, put) =>
        let! r := lim_Take now (rq_xff who) lim in
        match r with
        | (_, Some _, lim') => Returns (true, put lim')
        | (ok, None, lim') => Returns (negb ok, put lim')
        end
    end.

(** ** Transactions *)

(** Only called for the two methods, so an empty list of parameters has been refused at the end. *)
Definition convertSendReqToSendTx (req : RPCReq) : Tx + error :=
  match unmarshal_slice (req_Params req) with
  | None => inr (ESentinel ErrParseErr)
  | Some params =>
      if bool_decide (req_Method req = "eth_sendRawTransaction") && negb (length params =? 1)%nat
      then inr (ERPC (ErrInvalidParams "missing value for required argument 0"))
      else if bool_decide (req_Method req = "eth_sendRawTransactionConditional") && negb (length params =? 2)%nat
      then inr (ERPC (ErrInvalidParams "missing value for required argument 0 or 1"))
      else
        match params with
        | JStr address :: _ =>
            match hex_Bytes address with
            | inr err => inr (ERPC (ErrInvalidParams err))
            | inl data =>
                match tx_UnmarshalBinary data with
                | inr err => inr (ERPC (ErrInvalidParams err))
                | inl tx => inl tx
                end
            end
        | _ => inr (ESentinel ErrParseErr)
        end
  end.

Definition isAllowedChainId s (chainId : Z) : bool :=
  match sv_allowedChainIds s with
  | [] => true
  | ids => bool_decide (chainId ∈ ids)
  end.

(** The key is the sender and the nonce. *)
Definition sender_key (from : string) (nonce : Z) : string := from +:+ ":" +:+ dec_string nonce.

Definition genericRateLimitSender (now : Z) (tx : Tx) (lim : L) s : outcome (option error * L) :=
  if negb (isAllowedChainId s (tx_ChainId tx)) then Returns (Some (ESentinel TxpoolErrInvalidSender), lim)
  else
    let signer := if tx_ChainId tx =? 0 then HomesteadSigner else LatestSignerForChainID (tx_ChainId tx) in
    match types_Sender signer tx with
    | inr err => Returns (Some (ERPC (ErrInvalidParams err)), lim)
    | inl from =>
        let! r := lim_Take now (sender_key from (tx_Nonce tx)) lim in
        match r with
        | (_, Some _, lim') => Returns (Some (ESentinel ErrInternal), lim')
        | (true, None, lim') => Returns (None, lim')
        | (false, None, lim') => Returns (Some (ESentinel ErrOverSenderRateLimit), lim')
        end
    end.

Definition rateLimitSender (now : Z) (tx : Tx) s : outcome (option error * Server Addr L C I) :=
  match sv_senderLim s with
  | None => Returns (None, s)
  | Some lim => let! r := genericRateLimitSender now tx lim s in Returns (fst r, set_senderLim (Some (snd r)) s)
  end.

Definition rateLimitInteropSender (now : Z) (tx : Tx) s : outcome (option error * Server Addr L C I) :=
  match sv_interopSenderLim s with
  | None => Returns (None, s)
  | Some lim => let! r := genericRateLimitSender now tx lim s in Returns (fst r, set_interopSenderLim (Some (snd r)) s)
  end.

Definition reqSizeLimitCheck (tx : Tx) (maxSize : Z) : option error :=
  if maxSize <=? 0 then None
  else
    match tx_MarshalJSON tx with
    | None => Some (ESentinel ErrInternal)
    | Some reqBytes => if maxSize <? Z.of_nat (String.length reqBytes) then Some (ESentinel ErrRequestBodyTooLarge) else None
    end.

Definition checkInteropAndReturnAccessList (tx : Tx) : list string * bool :=
  match TxToInteropAccessList tx with
  | [] => ([], false)
  | l => (l, true)
  end.

Definition validateInteropSendRpcRequest (now : Z) (tx : Tx) s : outcome (option error * Server Addr L C I) :=
  let '(interopAccessList, isInterop) := checkInteropAndReturnAccessList tx in
  if negb isInterop then Returns (None, s)
  else
    let! r := rateLimitInteropSender now tx s in
    match r with
    | (Some err, s) => Returns (Some err, s)
    | (None, s) =>
        match reqSizeLimitCheck tx (sv_interopReqSizeLimit s) with
        | Some err => Returns (Some err, s)
        | None =>
            let! r := ValidateAccessList interopAccessList (sv_interopStrategy s) in
            Returns (fst r, set_interopStrategy (snd r) s)
        end
    end.

(** ** One call of a batch *)

Inductive verdict : Type :=
| Respond (r : RPCRes)
| Healthz (r : RPCRes)
| Enqueue (group : string) (req : RPCReq).

Definition reject (req : RPCReq) (err : error) : verdict := Respond (NewRPCErrorRes (req_ID req) err).

(** The checks on a transaction that is being sent. *)
Definition check_send (now : Z) (req : RPCReq) s : outcome (option error * Server Addr L C I) :=
  if bool_decide (req_Method req ∈ ["eth_sendRawTransaction"; "eth_sendRawTransactionConditional"]) then
    match convertSendReqToSendTx req with
    | inr err => Returns (Some err, s)
    | inl tx =>
        let! r := rateLimitSender now tx s in
        match r with
        | (Some err, s) => Returns (Some err, s)
        | (None, s) => validateInteropSendRpcRequest now tx s
        end
    end
  else Returns (None, s).

Definition triage (now : Z) (who : requestor) (n : nat) (raw : string) s : outcome (verdict * Server Addr L C I) :=
  match ParseRPCReq raw with
  | inr err => Returns (Respond (NewRPCErrorRes "" err), s)
  | inl req =>
      if (n =? 1)%nat && bool_decide (req_Method req = proxydHealthzMethod)
      then Returns (Healthz (mkRPCRes JSONRPCVersion (Some (GJson (JStr "OK"))) None (req_ID req)), s)
      else
        match ValidateRPCReq req with
        | Some err => Returns (Respond (NewRPCErrorRes "" err), s)
        | None =>
            if bool_decide (req_Method req = "eth_accounts")
            then Returns (Respond (NewRPCRes (req_ID req) (GRawMessage "[]")), s)
            else
              let group := default "" (sv_rpcMethodMappings s !! req_Method req) in
              if bool_decide (group = "") then Returns (reject req (ESentinel ErrMethodNotWhitelisted), s)
              else
                let! r := isLimited now who "" s in
                match r with
                | (true, s) => Returns (reject req (ESentinel ErrOverRateLimit), s)
                | (false, s) =>
                    let! r :=
                      (match sv_overrideLims s !! req_Method req with
                       | Some _ => isLimited now who (req_Method req) s
                       | None => Returns (false, s)
                       end) in
                    match r with
                    | (true, s) => Returns (reject req (ESentinel ErrOverRateLimit), s)
                    | (false, s) =>
                        let! r := check_send now req s in
                        match r with
                        | (Some err, s) => Returns (reject req err, s)
                        | (None, s) => Returns (Enqueue group req, s)
                        end
                    end
                end
        end
  end.

(** ** Upstream batches *)

Record batchElem : Type := mkBatchElem { el_Req : RPCReq; el_Index : nat }.

(** A batch group: which occurrence of its id a call is, and the backend group it goes to. *)
Definition batchGroup : Type := nat * string.

Record batching : Type := mkBatching {
  bt_responses : list (option RPCRes);
  bt_batches : gmap batchGroup (list batchElem);
  bt_ids : gmap string nat;
}.

(** A repeated id moves the call to the next batch group. *)
Definition enqueue (group : string) (req : RPCReq) (i : nat) (bt : batching) : batching :=
  let n := S (default O (bt_ids bt !! req_ID req)) in
  mkBatching (bt_responses bt)
    (<[(n, group) := default [] (bt_batches bt !! (n, group)) ++ [mkBatchElem req i]]> (bt_batches bt))
    (<[req_ID req := n]> (bt_ids bt)).

Definition respond (i : nat) (r : RPCRes) (bt : batching) : batching :=
  mkBatching (<[i := Some r]> (bt_responses bt)) (bt_batches bt) (bt_ids bt).

(** The first loop: [inl] a health check that is answered at once, [inr] the batches to serve. *)
Fixpoint sort_out (clk : nat -> Z) (who : requestor) (n i : nat) (reqs : list string) (bt : batching) s
    : outcome ((RPCRes + batching) * Server Addr L C I) :=
  match reqs with
  | [] => Returns (inr bt, s)
  | raw :: rest =>
      let! v := triage (clk i) who n raw s in
      match v with
      | (Healthz r, s) => Returns (inl r, s)
      | (Respond r, s) => sort_out clk who n (S i) rest (respond i r bt) s
      | (Enqueue group req, s) => sort_out clk who n (S i) rest (enqueue group req i bt) s
      end
  end.

(** [createBatchRequest] *)
Definition createBatchRequest (elems : list batchElem) : list RPCReq := map el_Req elems.

Definition server_GetRPC (ctx : Context) (req : RPCReq) (c : option C) : option RPCRes * option C :=
  match c with
  | None => (None, None)
  | Some c =>
      match GetRPC (GetHeadersToForward ctx) req c with
      | (inl r, c') => (r, Some c')
      | (inr _, c') => (None, Some c')
      end
  end.

Definition server_PutRPC (ctx : Context) (req : RPCReq) (res : RPCRes) (c : option C) : outcome (option C) :=
  match c with
  | None => Returns None
  | Some c => let! r := PutRPC (GetHeadersToForward ctx) req res c in Returns (Some (snd r))
  end.

(** Looks every call of a batch up: the responses, whether one was cached, and the misses. *)
Fixpoint lookup_batch (ctx : Context) (batch : list batchElem) (responses : list (option RPCRes)) (c : option C)
    : list (option RPCRes) * bool * list batchElem * option C :=
  match batch with
  | [] => (responses, false, [], c)
  | e :: rest =>
      match server_GetRPC ctx (el_Req e) c with
      | (Some r, c) =>
          let '(responses, _, misses, c) := lookup_batch ctx rest (<[el_Index e := Some r]> responses) c in
          (responses, true, misses, c)
      | (None, c) =>
          let '(responses, cached, misses, c) := lookup_batch ctx rest responses c in
          (responses, cached, e :: misses, c)
      end
  end.

(** Minibatches of at most [k] calls; none when [k] is negative (it is never zero). *)
Definition numBatches (k : Z) (len : nat) : nat :=
  if 0 <? k then Z.to_nat ((Z.of_nat len + k - 1) / k) else O.

Definition minibatch (k : Z) (misses : list batchElem) (i : nat) : list batchElem :=
  take (Z.to_nat k) (drop (i * Z.to_nat k) misses).

(** Stores the responses of a minibatch and offers the successful ones to the cache, under the
    request as the call left it. *)
Fixpoint store (ctx : Context) (elems : list batchElem) (reqs : list RPCReq) (res : list RPCRes)
    (responses : list (option RPCRes)) (c : option C) : outcome (list (option RPCRes) * option C) :=
  match elems with
  | [] => Returns (responses, c)
  | e :: elems =>
      match res with
      | [] => Panics "index out of range"
      | r :: res =>
          let req := default (el_Req e) (head reqs) in
          let! c := (match res_Error r, res_Result r with
                     | None, Some _ => server_PutRPC ctx req r c
                     | _, _ => Returns c
                     end) in
          store ctx elems (tail reqs) res (<[el_Index e := Some r]> responses) c
      end
  end.

Definition receipts_error (err : error) : bool :=
  errors_Is (Some err) ErrConsensusGetReceiptsCantBeBatched || errors_Is (Some err) ErrConsensusGetReceiptsInvalidTarget.

(** What is carried from minibatch to minibatch. *)
Record progress : Type := mkProgress {
  pg_responses : list (option RPCRes);
  pg_servedBy : list string;
  pg_cache : option C;
  pg_groups : G;
}.

(** Forwards one minibatch; only an error about receipts ends the whole request. *)
Definition forward_minibatch (ctx : Context) (group : string) (isBatch : bool) (elems : list batchElem) (p : progress)
    : outcome (progress * option error) :=
  let! r := group_forward group (createBatchRequest elems) isBatch (pg_groups p) in
  let '(resp, reqs, g) := r in
  let servedBy := pg_servedBy p ++ [gr_ServedBy resp] in
  match gr_error resp with
  | Some err =>
      if receipts_error err then Returns (mkProgress (pg_responses p) servedBy (pg_cache p) g, Some err)
      else
        let res := map (fun e => NewRPCErrorRes (req_ID (el_Req e)) err) elems in
        let! st := store ctx elems reqs res (pg_responses p) (pg_cache p) in
        Returns (mkProgress (fst st) servedBy (snd st) g, None)
  | None =>
      let! st := store ctx elems reqs (gr_RPCRes resp) (pg_responses p) (pg_cache p) in
      Returns (mkProgress (fst st) servedBy (snd st) g, None)
  end.

(** [expired i]: the deadline has passed before minibatch [i]. *)
Fixpoint forward_minibatches (ctx : Context) (group : string) (isBatch : bool) (expired : nat -> bool) (i : nat)
    (minis : list (list batchElem)) (p : progress) : outcome (progress * option error) :=
  match minis with
  | [] => Returns (p, None)
  | elems :: rest =>
      if expired i then Returns (p, Some (ESentinel ContextDeadlineExceeded))
      else
        let! r := forward_minibatch ctx group isBatch elems p in
        match r with
        | (p, Some err) => Returns (p, Some err)
        | (p, None) => forward_minibatches ctx group isBatch expired (S i) rest p
        end
  end.

(** The second loop, over the batch groups in the order of the range. *)
Fixpoint serve_batches (ctx : Context) (k : Z) (isBatch : bool) (expired : batchGroup -> nat -> bool)
    (batches : list (batchGroup * list batchElem)) (cached : bool) (p : progress)
    : outcome (progress * bool * option error) :=
  match batches with
  | [] => Returns (p, cached, None)
  | (bg, batch) :: rest =>
      let '(responses, hit, misses, c) := lookup_batch ctx batch (pg_responses p) (pg_cache p) in
      let minis := map (minibatch k misses) (seq 0 (numBatches k (length misses))) in
      let! r := forward_minibatches ctx (snd bg) isBatch (expired bg) 0 minis
                  (mkProgress responses (pg_servedBy p) c (pg_groups p)) in
      match r with
      | (p, Some err) => Returns (p, cached || hit, Some err)
      | (p, None) => serve_batches ctx k isBatch expired rest (cached || hit) p
      end
  end.

(** The names that served, without repetition, in the order of the range over the set. *)
Definition join_servedBy (names : list string) : string :=
  fold_left (fun acc sb => (if bool_decide (acc = "") then acc else acc +:+ ", ") +:+ sb) names "".

Record batch_env : Type := mkBatchEnv {
  be_clock : nat -> Z;
  be_range : gmap batchGroup (list batchElem) -> list (batchGroup * list batchElem);
  be_expired : batchGroup -> nat -> bool;
  be_names : list string -> list string;
}.

(** The responses, whether one came from the cache, who served, and the error. *)
Definition handled : Type := list (option RPCRes) * bool * string + error.

Definition handleBatchRPC (ctx : Context) (env : batch_env) (who : requestor) (reqs : list string) (isBatch : bool)
    s (g : G) : outcome (handled * Server Addr L C I * G) :=
  let n := length reqs in
  let! r := sort_out (be_clock env) who n 0 reqs (mkBatching (replicate n None) ∅ ∅) s in
  match r with
  | (inl res, s) => Returns (inl ([Some res], false, ""), s, g)
  | (inr bt, s) =>
      let! r := serve_batches ctx (sv_maxUpstreamBatchSize s) isBatch (be_expired env) (be_range env (bt_batches bt)) false
                  (mkProgress (bt_responses bt) [] (sv_cache s) g) in
      let '(p, cached, err) := r in
      let s := set_cache (pg_cache p) s in
      match err with
      | Some err => Returns (inr err, s, pg_groups p)
      | None =>
          Returns (inl (pg_responses p, cached, join_servedBy (be_names env (remove_dups (pg_servedBy p)))), s, pg_groups p)
      end
  end.

(** ** The request handler *)

Record http_in : Type := mkHttpIn {
  hi_vars : gmap string string;                    (** the variables of the route *)
  hi_Header : http_header;
  hi_RemoteAddr : string;
  hi_Path : string;
  hi_RawQuery : string;
  hi_Body : body + error;                          (** the body, or the error that reading it meets *)
}.

(** [randStr] is the request id. *)
Definition populateContext (reqID : string) (r : http_in) s : option Context :=
  let authorization := default "" (hi_vars r !! "authorization") in
  let xff := header_Get (hi_Header r) (sv_rateLimitHeader s) in
  let xff := if bool_decide (xff = "") then
               match str_Split (hi_RemoteAddr r) (chr 58) with [ip; _] => ip | _ => xff end
             else xff in
  let opTxProxyAuth := header_Get (hi_Header r) DefaultOpTxProxyAuthHeader in
  let headers : gmap string (list string) :=
    fold_left (fun m h => match header_Values (hi_Header r) h with [] => m | vs => <[h := vs]> m end)
      (sv_allowedDynamicHeaders s) ∅ in
  let ctx auth :=
    {| ctx_Auth := auth; ctx_ReqID := Some reqID; ctx_XForwardedFor := Some xff;
       ctx_OpTxProxyAuth := if bool_decide (opTxProxyAuth = "") then None else Some opTxProxyAuth;
       ctx_HeadersToForward := if bool_decide (headers = ∅) then None else Some headers;
       ctx_Path := Some (hi_Path r); ctx_RawQuery := Some (hi_RawQuery r) |} in
  if bool_decide (sv_authenticatedPaths s = ∅) then Some (ctx None)
  else
    let alias := default "" (sv_authenticatedPaths s !! authorization) in
    if bool_decide (authorization = "") || bool_decide (alias = "") then None else Some (ctx (Some alias)).

(** The last byte of a signature is the recovery id, 0 or 1, possibly with 27 added. *)
Definition normalize_v (sig : list Z) : option (list Z) :=
  match rev sig with
  | [] => None
  | v :: rest =>
      let v := if 27 <=? v then v - 27 else v in
      if 1 <? v then None else Some (rev (v :: rest))
  end.

(** [strings.Cut] at the first colon. *)
Definition cut_colon (s : string) : option (string * string) :=
  match str_Split s (chr 58) with
  | a :: b :: rest => Some (a, str_Join (b :: rest) ":")
  | _ => None
  end.

(** Every failure wraps [ErrInvalidSignature]; its text is only logged. *)
Definition invalid_signature : error := EWrap "invalid signature" (Some (ESentinel ErrInvalidSignature)).

Definition VerifyFlashbotsAuth (header bodyText : string) : Addr + error :=
  if bool_decide (header = "") then inr (ESentinel ErrNoSignature)
  else
    match cut_colon header with
    | None => inr invalid_signature
    | Some (parsedSignerStr, parsedSignatureStr) =>
        match hexutil_Decode parsedSignatureStr with
        | None => inr invalid_signature
        | Some sig =>
            match normalize_v sig with
            | None => inr invalid_signature
            | Some sig =>
                let messageHash := TextHash (keccak256_Hex bodyText) in
                match Ecrecover messageHash sig with
                | None => inr invalid_signature
                | Some pubBytes =>
                    match UnmarshalPubkey pubBytes with
                    | None => inr invalid_signature
                    | Some pub =>
                        let recoveredSigner := PubkeyToAddress pub in
                        if negb (bool_decide (recoveredSigner = HexToAddress parsedSignerStr)) then inr invalid_signature
                        else if negb (VerifySignature pubBytes messageHash (removelast sig)) then inr invalid_signature
                        else inl recoveredSigner
                    end
                end
            end
        end
    end.

(** What the handler writes: nothing but a status, one response with its status, or a batch. *)
Inductive reply : Type :=
| ReplyStatus (code : Z)
| ReplyRes (code : Z) (servedBy : option string) (cacheStatus : option string) (res : RPCRes)
| ReplyBatch (servedBy : option string) (cacheStatus : option string) (res : list (option RPCRes)).

Definition cache_status (cached : bool) : string := if cached then "HIT" else "MISS".

Definition status_code (res : RPCRes) : Z :=
  match res_Error res with
  | Some e => if err_HTTPErrorCode e =? 0 then 200 else err_HTTPErrorCode e
  | None => 200
  end.

Definition writeRPCRes (servedBy cacheStatus : option string) (res : RPCRes) : reply :=
  ReplyRes (status_code res) servedBy cacheStatus res.

(** An error that is not an [RPCErr] is reported as an internal one. *)
Definition writeRPCError (id : string) (err : error) : reply :=
  writeRPCRes None None
    (NewRPCErrorRes id (match as_RPCErr err with Some _ => err | None => ESentinel ErrInternal end)).

Definition read_request (s : Server Addr L C I) (r : http_in) : string + error :=
  match hi_Body r with
  | inr err => inr err
  | inl data =>
      match ReadAll (String.length (rest data) + 2) (fun _ => 512) (LimitReader data (sv_maxBodySize s)) "" with
      | Some (text, None) => inl text
      | Some (_, Some (RErr e)) => inr (ESentinel e)
      | _ => inr (ENew "unexpected EOF")
      end
  end.

Record rpc_env : Type := mkRpcEnv { re_reqID : string; re_batch : batch_env }.

(** The reply to a batch. *)
Definition reply_batch (s : Server Addr L C I) (h : handled) : reply :=
  match h with
  | inl (responses, cached, servedBy) =>
      ReplyBatch (if sv_enableServedByHeader s then Some servedBy else None) (Some (cache_status cached)) responses
  | inr (ESentinel ContextDeadlineExceeded) => writeRPCError "" (ESentinel ErrGatewayTimeout)
  | inr err =>
      if receipts_error err then writeRPCError "" (ERPC (ErrInvalidRequest (error_Error err)))
      else writeRPCError "" (ESentinel ErrInternal)
  end.

(** The reply to a single call; a missing response is a nil pointer. *)
Definition reply_single (s : Server Addr L C I) (h : handled) : outcome reply :=
  match h with
  | inl (Some res :: _, cached, servedBy) =>
      Returns (writeRPCRes (if sv_enableServedByHeader s then Some servedBy else None) (Some (cache_status cached)) res)
  | inl _ => Panics "nil pointer dereference"
  | inr err =>
      if receipts_error err then Returns (writeRPCError "" (ERPC (ErrInvalidRequest (error_Error err))))
      else Returns (writeRPCError "" (ESentinel ErrInternal))
  end.

(** [truncate]: a slice up to a negative bound panics. *)
Definition truncate (str : string) (maxLen : Z) : outcome string :=
  let maxLen := if maxLen =? 0 then maxRequestBodyLogLen else maxLen in
  if maxLen <? Z.of_nat (String.length str)
  then if maxLen <? 0 then Panics "slice bounds out of range" else Returns (str_take (Z.to_nat maxLen) str +:+ "...")
  else Returns str.

(** The log line of a request: its text, or none. *)
Definition log_request s (text : string) : outcome (option string) :=
  if sv_enableRequestLog s then let! line := truncate text (sv_maxRequestBodyLogLen s) in Returns (Some line) else Returns None.

Definition HandleRPC (env : rpc_env) (r : http_in) s (g : G) : outcome (reply * Server Addr L C I * G) :=
  match populateContext (re_reqID env) r s with
  | None => Returns (ReplyStatus 401, s, g)
  | Some ctx =>
      let xff := stripXFF (GetXForwardedFor ctx) in
      let exempt := isUnlimitedOrigin s (header_Get (hi_Header r) "Origin")
                    || isUnlimitedUserAgent s (header_Get (hi_Header r) "User-Agent") in
      if bool_decide (xff = "")
      then Returns (writeRPCError "" (ERPC (ErrInvalidRequest "request does not include a remote IP")), s, g)
      else
        match read_request s r with
        | inr err =>
            Returns (writeRPCError "" (ESentinel (if errors_Is (Some err) ErrLimitReaderOverLimit
                                                  then ErrRequestBodyTooLarge else ErrInternal)), s, g)
        | inl text =>
            let flashbotsAuth := header_Get (hi_Header r) FlashbotsAuthHeader in
            match (if bool_decide (flashbotsAuth = "") then inl nullAddress else VerifyFlashbotsAuth flashbotsAuth text) with
            | inr _ => Returns (writeRPCError "" (ESentinel ErrFlashbotsSignature), s, g)
            | inl signer =>
                let who := mkRequestor exempt signer xff in
                let! _ := log_request s text in
                if IsBatch text then
                  match ParseBatchRPCReq text with
                  | inr _ => Returns (writeRPCError "" (ESentinel ErrParseErr), s, g)
                  | inl reqs =>
                      if sv_maxBatchSize s <? Z.of_nat (length reqs)
                      then Returns (writeRPCError "" (ESentinel ErrTooManyBatchRequests), s, g)
                      else if (length reqs =? 0)%nat
                      then Returns (writeRPCError "" (ERPC (ErrInvalidRequest "must specify at least one batch call")), s, g)
                      else
                        let! h := handleBatchRPC ctx (re_batch env) who reqs true s g in
                        let '(h, s, g) := h in Returns (reply_batch s h, s, g)
                  end
                else
                  let! h := handleBatchRPC ctx (re_batch env) who [text] false s g in
                  let '(h, s, g) := h in
                  let! rep := reply_single s h in Returns (rep, s, g)
            end
        end
  end.

End server.
