(* ===== verification/Wire.v ===== *)
(** * What goes over the wire (src/rpc.go, src/backend.go [doForward], src/server.go [writeRPCRes], [writeBatchRPCRes])

    The texts of the requests that a backend is sent and of the replies that a client is sent, and what
    is read from them at the other end.  Raw messages are compacted on the way, which keeps their
    values (JsonCompact). *)

From S2P Require Import Prelude Json JsonFacts JsonRaw JsonCompact Geth Rpc Util Http RateLimiter Cache Backend BackendFacts.
From S2P Require Import Tracker Consensus Metrics BackendGroup Server.

(** ** Raw messages *)

(** The value a raw message stands for; a nil one is null. *)
Definition raw_parse (raw : string) : option json := if bool_decide (raw = "") then Some JNull else json_parse raw.

(** The message as it is written. *)
Definition sent_raw (raw : string) : string := if bool_decide (raw = "") then "null" else compact raw.

Lemma marshal_raw_sent raw t : marshal_raw raw = Some t ->
  t = sent_raw raw /\ raw_ok t = true /\ json_parse t = raw_parse raw /\ is_Some (raw_parse raw) /\ compact_raw t = true.
Proof.
  unfold marshal_raw, sent_raw, raw_parse. case_bool_decide as E; [intros [= <-]; by split_and!|].
  destruct (json_parse raw) as [j|] eqn:Ej; [|done]. intros [= <-]. change (compact_go false false raw) with (compact raw).
  destruct (compact_same_value raw j Ej) as (H1 & H2 & H3). split_and!; [done|done|done|done|].
  unfold compact_raw. rewrite H2. cbn. by rewrite bool_decide_eq_true_2.
Qed.

Lemma marshal_raw_again raw t : marshal_raw raw = Some t -> marshal_raw t = Some t.
Proof. intros (_ & _ & _ & _ & H)%marshal_raw_sent. by apply compact_raw_spec in H as [_ ->]. Qed.

(** ** Requests *)

(** The raw members of the request are empty or valid. *)
Definition sendable (r : RPCReq) : Prop := is_Some (marshal_raw (req_Params r)) /\ is_Some (marshal_raw (req_ID r)).

Lemma marshal_raw_valid raw j : json_parse raw = Some j -> is_Some (marshal_raw raw).
Proof. intros H. unfold marshal_raw. case_bool_decide; [by eexists|]. rewrite H. by eexists. Qed.

Lemma raw_ok_marshals raw : raw_ok raw = true -> is_Some (marshal_raw raw).
Proof. intros [j Hj]%raw_ok_json_parse. by eapply marshal_raw_valid. Qed.

Lemma parsed_sendable raw req : ParseRPCReq raw = inl req -> sendable req.
Proof.
  unfold ParseRPCReq, decode_RPCReq. destruct (decode_struct _ _ _) as [r|] eqn:E; [|done]. intros [= <-].
  refine (decode_struct_inv decode_req_field sendable _ _ _ _ _ E); [|split; by eexists]. clear. intros k v [jr m p i] r' Hv%raw_ok_marshals [Hp Hi] H.
  unfold decode_req_field in H. cbn in Hp, Hi. repeat case_bool_decide; try destruct (decode_string v _); simplify_eq/=; by split.
Qed.

Lemma sendable_marshals r : sendable r -> is_Some (marshal_req r).
Proof. intros [[p Hp] [i Hi]]. unfold marshal_req. rewrite Hp, Hi. by eexists. Qed.

Lemma marshal_reqs_sendable rs : Forall sendable rs -> is_Some (marshal_reqs rs).
Proof.
  intros H. assert (Hm : is_Some (mapM marshal_req rs)).
  { apply mapM_is_Some. eapply Forall_impl; [exact H|]. apply sendable_marshals. }
  unfold marshal_reqs. destruct rs as [|r [|r' rs]]; [by eexists| |by apply fmap_is_Some].
  apply Forall_cons in H as [H _]. by apply sendable_marshals.
Qed.

Lemma ParseRPCReq_version_utf8 raw req : ParseRPCReq raw = inl req -> valid_utf8 0 (req_JSONRPC req) = true.
Proof.
  unfold ParseRPCReq, decode_RPCReq. destruct (decode_struct _ _ _) as [r|] eqn:E; [|done]. intros [= <-].
  refine (decode_struct_inv decode_req_field (fun r => valid_utf8 0 (req_JSONRPC r) = true) _ _ _ _ _ E); [|done].
  intros k v [jr m p i] r' _ Hm H. unfold decode_req_field in H. cbn in Hm.
  repeat case_bool_decide; [destruct (decode_string v jr) eqn:Ed|destruct (decode_string v m)|..]; simplify_eq/=; try done. by eapply decode_string_utf8.
Qed.

(** The request as the receiver reads it. *)
Definition sent (r : RPCReq) : RPCReq := mkRPCReq (req_JSONRPC r) (req_Method r) (sent_raw (req_Params r)) (sent_raw (req_ID r)).

(** The same call: version and method, and the values of parameters and id. *)
Definition same_call (r r' : RPCReq) : Prop :=
  req_JSONRPC r' = req_JSONRPC r /\ req_Method r' = req_Method r /\
  raw_parse (req_Params r') = raw_parse (req_Params r) /\ raw_parse (req_ID r') = raw_parse (req_ID r).

Lemma raw_parse_ok raw : raw_ok raw = true -> raw_parse raw = json_parse raw.
Proof. intros H%raw_ok_ne. unfold raw_parse. by rewrite bool_decide_eq_false_2. Qed.

Lemma sent_same r : sendable r -> same_call r (sent r).
Proof.
  intros [[p Hp] [i Hi]]. apply marshal_raw_sent in Hp as (-> & Hp1 & Hp2 & _). apply marshal_raw_sent in Hi as (-> & Hi1 & Hi2 & _).
  split_and!; [done|done| |]; cbn; by rewrite raw_parse_ok.
Qed.

Lemma request_roundtrip r : sendable r -> valid_utf8 0 (req_JSONRPC r) = true -> valid_utf8 0 (req_Method r) = true ->
  exists t, marshal_req r = Some t /\ raw_ok t = true /\ IsBatch t = false /\ ParseRPCReq t = inl (sent r).
Proof.
  intros [[p Hp] [i Hi]] Hv Hm. unfold marshal_req. rewrite Hp, Hi. apply marshal_raw_sent in Hp as (-> & Hp1 & _).
  apply marshal_raw_sent in Hi as (-> & Hi1 & _). destruct (quoted_raw _ "" Hv) as [Hv1 Hv2]. destruct (quoted_raw _ "" Hm) as [Hm1 Hm2].
  eexists. split; [done|].
  destruct (raw_object_ok [("jsonrpc", quoted (req_JSONRPC r)); ("method", quoted (req_Method r)); ("params", sent_raw (req_Params r));
    ("id", sent_raw (req_ID r))]) as (Hok & fs & Hj); [done|members_ok|]. split; [done|]. split; [by rewrite (IsBatch_array _ _ Hj)|].
  unfold ParseRPCReq, decode_RPCReq, decode_struct. rewrite json_shape_raw_object by (done || members_ok).
  by run_fields.
Qed.

Lemma parsed_roundtrip raw r : ParseRPCReq raw = inl r ->
  exists t, marshal_req r = Some t /\ raw_ok t = true /\ IsBatch t = false /\ exists r', ParseRPCReq t = inl r' /\ same_call r r'.
Proof.
  intros H. destruct (request_roundtrip r) as (t & H1 & H2 & H3 & H4); [by eapply parsed_sendable|by eapply ParseRPCReq_version_utf8|by eapply ParseRPCReq_method_utf8|].
  exists t. split_and!; [done|done|done|]. eexists. split; [done|]. by eapply sent_same, parsed_sendable.
Qed.

Lemma parsed_roundtrips raws rs : Forall2 (fun raw r => ParseRPCReq raw = inl r) raws rs ->
  exists ts, mapM marshal_req rs = Some ts /\ Forall (fun t => raw_ok t = true) ts /\
    Forall2 (fun r t => exists r', ParseRPCReq t = inl r' /\ same_call r r') rs ts.
Proof.
  induction 1 as [|raw r raws rs (t & H1 & H2 & _ & H3)%parsed_roundtrip _ (ts & E & Hts & Hf)]; [by exists []|].
  exists (t :: ts). cbn. rewrite H1. cbn. rewrite E. cbn. split_and!; [done|by constructor|by constructor].
Qed.

Lemma marshal_reqs_batch rs : length rs <> 1%nat -> marshal_reqs rs = raw_array <$> mapM marshal_req rs.
Proof. by destruct rs as [|r [|r' rs]]. Qed.

Lemma json_shape_parses s sh : json_shape s = Some sh -> is_Some (json_parse s).
Proof. intros H. pose proof (json_shape_complete s) as Hs. destruct (json_parse s); [by eexists|]. congruence. Qed.

Lemma raw_array_shape ts : Forall (fun t => raw_ok t = true) ts -> json_shape (raw_array ts) = Some (RawArr ts) /\ IsBatch (raw_array ts) = true.
Proof. intros H. split; [|done]. rewrite <- (str_app_nil (raw_array ts)). by apply json_shape_raw_array. Qed.

(** C12: the requests a client sends reach a backend as they are.  Requests that were parsed from any
    texts can be marshalled; a single one is sent unwrapped and parses as a request, several are sent
    as an array with one element each, in order; what the backend parses is the same call: the same
    version and method, and parameters and an id with the same JSON values. *)
Theorem requests_on_the_wire raws reqs : Forall2 (fun raw r => ParseRPCReq raw = inl r) raws reqs ->
  exists body, marshal_reqs reqs = Some body /\ IsBatch body = negb (length reqs =? 1)%nat /\
    match reqs with
    | [r] => exists r', ParseRPCReq body = inl r' /\ same_call r r'
    | _ => exists batch, ParseBatchRPCReq body = inl batch /\
             Forall2 (fun r raw => exists r', ParseRPCReq raw = inl r' /\ same_call r r') reqs batch
    end.
Proof.
  intros H. destruct (decide (length reqs = 1%nat)) as [E|E].
  - destruct reqs as [|r [|r' reqs]]; [done| |done]. apply Forall2_cons_inv_r in H as (raw & raws' & Hr & _ & ->).
    apply parsed_roundtrip in Hr as (t & H1 & _ & H2 & H3). by exists t.
  - apply parsed_roundtrips in H as (ts & Hts & Hok & Hf). exists (raw_array ts). rewrite marshal_reqs_batch, Hts by done.
    apply raw_array_shape in Hok as [Hs Hb]. assert (Hp : ParseBatchRPCReq (raw_array ts) = inl ts) by (unfold ParseBatchRPCReq, unmarshal_raw_slice; by rewrite Hs).
    split; [done|]. split; [rewrite Hb; symmetry; by apply negb_true_iff, Nat.eqb_neq|]. destruct reqs as [|r [|r' reqs]]; [by exists ts|done|by exists ts].
Qed.

Definition two_calls : list string :=
  [jtext "{'id': 1, 'method': 'eth_call', 'params': [ {'to': '0x<1>'}, 'latest' ]}"; jtext "{'jsonrpc':'2.0', 'method':'eth_chainId', 'id':'a b'}"].

Lemma requests_on_the_wire_witness : exists reqs, Forall2 (fun raw r => ParseRPCReq raw = inl r) two_calls reqs /\
  exists body, marshal_reqs reqs = Some body /\ IsBatch body = true /\
    exists batch, ParseBatchRPCReq body = inl batch /\
      Forall2 (fun r raw => exists r', ParseRPCReq raw = inl r' /\ same_call r r') reqs batch.
Proof.
  exists [mkRPCReq "" "eth_call" (jtext "[ {'to': '0x<1>'}, 'latest' ]") "1"; mkRPCReq "2.0" "eth_chainId" "" (jtext "'a b'")].
  assert (H : Forall2 (fun raw r => ParseRPCReq raw = inl r) two_calls
    [mkRPCReq "" "eth_call" (jtext "[ {'to': '0x<1>'}, 'latest' ]") "1"; mkRPCReq "2.0" "eth_chainId" "" (jtext "'a b'")]).
  { constructor; [vm_compute; reflexivity|]. constructor; [vm_compute; reflexivity|constructor]. }
  split; [exact H|]. exact (requests_on_the_wire _ _ H).
Defined.

(** ** Responses *)

Section responses.
Context `{HX : HexUtil}.

(** The result is written as a compact text that an [interface{}] is decoded from. *)
Definition writable_value (v : gvalue) : bool :=
  match marshal_gvalue v with
  | Some t => compact_raw t && match decode_result t with Some _ => true | None => false end
  | None => false
  end.

Definition writable_raw (raw : string) : bool := match marshal_raw raw with Some _ => true | None => false end.

Definition writable_err (e : RPCErr) : bool :=
  bool_decide (in_i64 (err_Code e)) && (bool_decide (err_Data e = "") || writable_raw (err_Data e)).

(** A response that can be written and read: a 64-bit error code and valid raw members. *)
Definition writable (r : RPCRes) : bool :=
  match res_Result r with Some v => writable_value v | None => true end
  && match res_Error r with Some e => writable_err e | None => true end && writable_raw (res_ID r).

(** The response as it is read at the other end: bytes that are no UTF-8 are replaced, raw members are
    compacted, and the HTTP status is not part of the text. *)
Definition received_err (e : RPCErr) : RPCErr :=
  mkRPCErr (err_Code e) (str_valid 0 (err_Message e)) (if bool_decide (err_Data e = "") then "" else sent_raw (err_Data e)) 0.

Definition received (r : RPCRes) : RPCRes :=
  mkRPCRes (str_valid 0 (res_JSONRPC r)) (v ← res_Result r; mjoin (t ← marshal_gvalue v; decode_result t))
    (received_err <$> res_Error r) (sent_raw (res_ID r)).

Lemma compact_raw_stable t : compact_raw t = true -> stable t.
Proof.
  intros H. pose proof H as [[j Hj]%raw_ok_json_parse _]%compact_raw_spec. apply compact_stable in Hj. unfold compact_raw in H.
  apply andb_true_iff in H as [_ H%bool_decide_eq_true]. unfold compact in Hj. by rewrite H in Hj.
Qed.

Lemma writable_raw_spec raw : writable_raw raw = true -> marshal_raw raw = Some (sent_raw raw) /\ raw_ok (sent_raw raw) = true /\ stable (sent_raw raw).
Proof.
  unfold writable_raw. destruct (marshal_raw raw) as [t|] eqn:E; [|done]. intros _.
  apply marshal_raw_sent in E as (-> & H1 & _ & _ & H2). split_and!; [done|done|by apply compact_raw_stable].
Qed.

Lemma writable_value_spec v : writable_value v = true ->
  exists t w, marshal_gvalue v = Some t /\ raw_ok t = true /\ stable t /\ decode_result t = Some w /\
    mjoin (t ← marshal_gvalue v; decode_result t) = w.
Proof.
  unfold writable_value. destruct (marshal_gvalue v) as [t|]; [|done]. intros [Hc Hd]%andb_true_iff.
  destruct (decode_result t) as [w|] eqn:E; [|done]. exists t, w. pose proof (compact_raw_spec _ Hc) as [Ho _].
  split_and!; [done|done|by apply compact_raw_stable|done|]. cbn. by rewrite E.
Qed.

Lemma quoted_decode s old : raw_ok (quoted s) = true /\ decode_string (quoted s) old = Some (str_valid 0 s).
Proof. destruct (quoted_reads s) as [H1 H2]. split; [done|]. unfold decode_string. by rewrite H2. Qed.

Lemma dec_string_stable z : in_i64 z -> stable (dec_string z).
Proof. intros (i & _ & E)%dec_string_scan. by eapply stable_verbatim, scan_number_verbatim. Qed.

Lemma writable_err_spec e : writable_err e = true ->
  exists t, marshal_err e = Some t /\ raw_ok t = true /\ stable t /\ decode_err t None = Some (Some (received_err e)).
Proof.
  destruct e as [c m d h]. unfold writable_err, marshal_err, received_err. cbn. rewrite !andb_true_iff, bool_decide_eq_true. intros [Hc Hd].
  destruct (dec_string_decode _ 0 Hc) as [Hc1 Hc2]. destruct (quoted_decode m "") as [Hm1 Hm2]. pose proof (dec_string_stable _ Hc) as Hc3.
  pose proof (quoted_stable m) as Hm3. case_bool_decide as E.
  - destruct (raw_object_ok [("code", dec_string c); ("message", quoted m)]) as (Hok & fs & Hj); [done|members_ok|].
    eexists. split; [done|]. split; [done|]. split; [apply raw_object_stable; by repeat constructor|].
    unfold decode_err, decode_struct. rewrite Hj, json_shape_raw_object by (done || members_ok). by run_fields.
  - cbn in Hd. apply writable_raw_spec in Hd as (-> & Hd1 & Hd2).
    destruct (raw_object_ok [("code", dec_string c); ("message", quoted m); ("data", sent_raw d)]) as (Hok & fs & Hj); [done|members_ok|].
    eexists. split; [done|]. split; [done|]. split; [apply raw_object_stable; by repeat constructor|].
    unfold decode_err, decode_struct. cbn [app]. rewrite Hj, json_shape_raw_object by (done || members_ok). by run_fields.
Qed.

(** The members a response is written with, and what they decode to. *)
Lemma response_members r : writable r = true -> exists kvs, RPCRes_MarshalJSON r = Some (raw_object kvs) /\
  kvs <> [] /\ Forall (fun kv => member_ok kv = true) kvs /\ stable (raw_object kvs) /\
  decode_members decode_res_field kvs (mkRPCRes "" None None "") = Some (received r).
Proof.
  destruct r as [v x e i]. unfold writable, RPCRes_MarshalJSON, received. simpl. rewrite !andb_true_iff. intros [[Hx He] Hi].
  destruct (quoted_decode v "") as [Hv1 Hv2]. pose proof (quoted_stable v) as Hv3. apply writable_raw_spec in Hi as (-> & Hi1 & Hi2).
  assert (Hnull : raw_ok "null" = true) by done. assert (Hnone : decode_result "null" = Some None) by done.
  assert (Hstable : stable "null") by (by apply stable_verbatim).
  destruct x as [x|]; destruct e as [e|]; cbn [opt_member];
    try destruct (writable_value_spec x Hx) as (tx & w & Hx0 & Hx1 & Hx2 & Hx3 & Hx4); try destruct (writable_err_spec e He) as (te & -> & He1 & He2 & He3);
    try (cbn [mbind option_bind]; rewrite Hx4, Hx0);
    (eexists; split; [done|]; split; [done|]; cbn [app]; split; [members_ok|]; split; [apply raw_object_stable; by repeat constructor|]; by run_fields).
Qed.
(** [json.Marshal] of a [*RPCRes] compacts what [MarshalJSON] returned; a nil pointer is null. *)
Definition encode_res (r : RPCRes) : option string := compact <$> RPCRes_MarshalJSON r.

Definition encode_res_ptr (o : option RPCRes) : option string := match o with Some r => encode_res r | None => Some "null" end.

(** The text of a response, up to white space after it. *)
Lemma encode_res_spec r : writable r = true -> exists t, encode_res r = Some t /\ RPCRes_MarshalJSON r = Some t /\ raw_ok t = true /\
  (forall rest, skip_ws rest = "" -> IsBatch (t +:+ rest) = false /\ decode_RPCRes (t +:+ rest) = Some (received r)) /\ decode_res_ptr t = Some (Some (received r)).
Proof.
  intros (kvs & Hm & Hn & Hk & Hst & Hd)%response_members. pose proof (raw_object_ok kvs Hn Hk) as (Hok & fs & Hj). exists (raw_object kvs).
  assert (Hdec : forall rest, skip_ws rest = "" -> IsBatch (raw_object kvs +:+ rest) = false /\ decode_RPCRes (raw_object kvs +:+ rest) = Some (received r)).
  { intros rest Hr. split; [done|]. unfold decode_RPCRes, decode_struct. by rewrite json_shape_raw_object_spaces. }
  unfold encode_res. rewrite Hm. cbn [fmap option_fmap option_map]. specialize (Hst ""). rewrite !str_app_nil in Hst. rewrite Hst.
  split_and!; [done|done|done|done|]. unfold decode_res_ptr. destruct (Hdec "" eq_refl) as [_ Hd']. rewrite str_app_nil in Hd'. by rewrite Hj, Hd'.
Qed.

Lemma encode_ptrs_spec rs : Forall (fun o => match o with Some r => writable r = true | None => True end) rs ->
  exists ts, mapM encode_res_ptr rs = Some ts /\ Forall (fun t => raw_ok t = true) ts /\ mapM decode_res_ptr ts = Some (map (fun o : option RPCRes => received <$> o) rs).
Proof.
  induction 1 as [|o rs Ho _ (ts & E & Hok & Hd)]; [by exists []|]. destruct o as [r|].
  - apply encode_res_spec in Ho as (t & H1 & _ & H2 & _ & H3). exists (t :: ts). cbn. rewrite H1. cbn. rewrite E. cbn. rewrite H3. cbn. rewrite Hd.
    split_and!; [done|by constructor|done].
  - exists ("null" :: ts). cbn. rewrite E. cbn. rewrite Hd. split_and!; [done|by constructor|done].
Qed.

(** *** A response that was decoded can be written again *)

(** The same answer: version, result, error code and message, and the values of the raw members. *)
Definition same_err (e e' : RPCErr) : Prop :=
  err_Code e' = err_Code e /\ err_Message e' = err_Message e /\ (err_Data e' = "" <-> err_Data e = "") /\
  raw_parse (err_Data e') = raw_parse (err_Data e).

Definition same_answer (r r' : RPCRes) : Prop :=
  res_JSONRPC r' = res_JSONRPC r /\ res_Result r' = res_Result r /\ option_Forall2 same_err (res_Error r) (res_Error r') /\
  raw_parse (res_ID r') = raw_parse (res_ID r).

Lemma decode_result_wf raw w : decode_result raw = Some w -> wf_result w = true.
Proof.
  unfold decode_result. destruct (json_Unmarshal raw) as [j|] eqn:E; [|done]. apply json_Unmarshal_wf in E.
  destruct j; intros [= <-]; cbn; by rewrite ?andb_true_r.
Qed.

Lemma decode_int_range raw old z : decode_int raw old = Some z -> in_i64 old -> in_i64 z.
Proof. unfold decode_int. intros H Ho. repeat case_match; try done; try case_bool_decide; by simplify_eq. Qed.

Lemma wf_value_writable v : wf_result (Some v) = true -> writable_value v = true /\ mjoin (t ← marshal_gvalue v; decode_result t) = Some v.
Proof.
  intros H. destruct (wf_result_roundtrip v H) as (t & Ht & Hok & Hd). unfold writable_value. rewrite Ht. cbn. rewrite Hd. split; [|done].
  unfold compact_raw. rewrite Hok. destruct v as [j| | |]; try done. cbn in H, Ht. apply andb_true_iff in H as [H _]. injection Ht as <-.
  pose proof (json_Marshal_stable j H "") as Hs. rewrite !str_app_nil in Hs. by rewrite bool_decide_eq_true_2.
Qed.
Definition decoded_err (e : RPCErr) : Prop := writable_err e = true /\ valid_utf8 0 (err_Message e) = true.

Definition decoded (r : RPCRes) : Prop :=
  valid_utf8 0 (res_JSONRPC r) = true /\ wf_result (res_Result r) = true /\
  match res_Error r with Some e => decoded_err e | None => True end /\ writable_raw (res_ID r) = true.

Lemma raw_ok_writable raw : raw_ok raw = true -> writable_raw raw = true.
Proof. intros [t Ht]%raw_ok_marshals. unfold writable_raw. by rewrite Ht. Qed.

Lemma writable_err_intro c m d h : writable_err (mkRPCErr c m d h) = true <-> in_i64 c /\ (d = "" \/ writable_raw d = true).
Proof. unfold writable_err. cbn. rewrite !andb_true_iff, orb_true_iff, !bool_decide_eq_true. tauto. Qed.

Lemma decode_err_decoded raw old e : decode_err raw old = Some (Some e) ->
  match old with Some e => decoded_err e | None => True end -> decoded_err e.
Proof.
  intros H Ho. assert (Hd : decode_struct decode_err_field raw (default (mkRPCErr 0 "" "" 0) old) = Some e).
  { unfold decode_err in H. destruct (json_parse raw) as [[]|]; try done; by destruct (decode_struct _ _ _); simplify_eq/=. }
  refine (decode_struct_inv decode_err_field decoded_err _ _ _ _ _ Hd); [|by destruct old]. clear.
  intros k v [c m d h] e' Hv%raw_ok_writable [(Hc & Hd)%writable_err_intro Hm] H. cbn in Hm. unfold decode_err_field in H.
  repeat case_bool_decide; [destruct (decode_int v c) eqn:E|destruct (decode_string v m) eqn:E|..]; simplify_eq/=;
    (split; [apply writable_err_intro|]); try done; [split; [|done]; by eapply decode_int_range|by eapply decode_string_utf8|split; [done|by right]].
Qed.

Lemma decode_RPCRes_decoded t r : decode_RPCRes t = Some r -> decoded r.
Proof.
  intros E. refine (decode_struct_inv decode_res_field decoded _ _ _ _ _ E); [|by split_and!]. clear. intros k v [jr x e i] r' Hv (H1 & H2 & H3 & H4) H.
  unfold decode_res_field in H. cbn in H1, H2, H3, H4.
  repeat case_bool_decide;
    [destruct (decode_string v jr) eqn:Ed|destruct (decode_result v) eqn:Ed|destruct (decode_err v e) as [[e'|]|] eqn:Ed|..]; simplify_eq/=; split_and!; try done; cbn.
  - by eapply decode_string_utf8.
  - by eapply decode_result_wf.
  - by eapply decode_err_decoded.
  - by apply raw_ok_writable.
Qed.

Lemma decoded_writable r : decoded r -> writable r = true /\ same_answer r (received r).
Proof.
  destruct r as [v x e i]. unfold decoded, writable, received, same_answer. cbn. intros (Hv & Hx & He & Hi). rewrite Hi, str_valid_utf8 by done.
  assert (Hraw : forall raw, writable_raw raw = true -> raw_parse (sent_raw raw) = raw_parse raw).
  { intros raw Hr. unfold writable_raw in Hr. destruct (marshal_raw raw) as [t|] eqn:E; [|done]. apply marshal_raw_sent in E as (-> & H1 & H2 & _). by rewrite raw_parse_ok. }
  split.
  - rewrite !andb_true_iff. split_and!; [|by destruct e as [e|]; [destruct He|]|done]. destruct x as [x|]; [|done]. by apply wf_value_writable.
  - split; [done|]. split; [|split; [|by apply Hraw]].
    + destruct x as [x|]; [|done]. cbn. by apply wf_value_writable.
    + destruct e as [[c m d h]|]; constructor. destruct He as [(_ & Hd)%writable_err_intro Hm]. unfold same_err, received_err. cbn in *. rewrite str_valid_utf8 by done.
      case_bool_decide as E; [by subst|]. destruct Hd as [|Hd]; [done|]. split_and!; [done|done| |by apply Hraw].
      apply writable_raw_spec in Hd as (_ & Hd%raw_ok_ne & _). done.
Qed.
(** C13: a backend's response reaches the client as it is.  Whatever text a response was decoded from, it
    can be written, the text is the one [MarshalJSON] returns, and the client that reads it gets the
    same answer: version, result, error code and message are equal, and the error data and the id have
    the same JSON values. *)
Theorem relayed_response text r : decode_RPCRes text = Some r ->
  exists body, encode_res r = Some body /\ RPCRes_MarshalJSON r = Some body /\
    exists r', decode_RPCRes body = Some r' /\ same_answer r r'.
Proof.
  intros [Hw Hs]%decode_RPCRes_decoded%decoded_writable. destruct (encode_res_spec r Hw) as (t & H1 & H2 & _ & H3 & _). exists t.
  destruct (H3 "" eq_refl) as [_ H4]. rewrite str_app_nil in H4. split_and!; [done|done|]. by exists (received r).
Qed.
End responses.

Definition reverted : string :=
  jtext "{ 'jsonrpc': '2.0', 'error': {'code': 3, 'message': 'reverted', 'data': { 'x' : '<' } }, 'id' : [ 7 ] }".

Definition reverted_res : RPCRes := mkRPCRes "2.0" None (Some (mkRPCErr 3 "reverted" (jtext "{ 'x' : '<' }") 0)) "[ 7 ]".

Lemma relayed_response_witness : decode_RPCRes reverted = Some reverted_res /\
  exists body, encode_res reverted_res = Some body /\ RPCRes_MarshalJSON reverted_res = Some body /\
    exists r', decode_RPCRes body = Some r' /\ same_answer reverted_res r'.
Proof.
  assert (H : decode_RPCRes reverted = Some reverted_res) by (vm_compute; reflexivity). split; [exact H|]. exact (relayed_response _ _ H).
Defined.

(** ** Writing a reply *)

(** [io.Writer] of a connection: how many bytes of the text were taken, and the error. *)
Definition io_writer : Type := string -> Z * option error.

Record recordLenWriter : Type := mkRecordLenWriter { rl_Writer : io_writer; rl_Len : Z }.

Definition recordLenWriter_Write (w : recordLenWriter) (p : string) : Z * option error * recordLenWriter :=
  let '(n, err) := rl_Writer w p in (n, err, mkRecordLenWriter (rl_Writer w) (rl_Len w + n)).

Definition newline : string := String (chr 10) "".

(** [json.Encoder.Encode]: a newline follows the text, and both are written at once. *)
Definition Encode (w : recordLenWriter) (text : option string) : option error * recordLenWriter :=
  match text with
  | None => (Some (ENew "json: error calling MarshalJSON"), w)
  | Some t => let '(_, err, w') := recordLenWriter_Write w (t +:+ newline) in (err, w')
  end.

Section writing.
Context `{HX : HexUtil}.

(** [writeRPCRes] after the headers: the samples it records. *)
Definition writeRPCRes_body (ctx : Context) (w : io_writer) (statusCode : Z) (res : RPCRes) : list sample :=
  let '(err, ww) := Encode (mkRecordLenWriter w 0) (encode_res res) in
  match err with
  | Some _ => RecordRPCError ctx BackendProxyd MethodUnknown err
  | None => inc httpResponseCodesTotal [dec_string statusCode] ++ RecordResponsePayloadSize ctx (rl_Len ww)
  end.

Definition encode_batch (res : list (option RPCRes)) : option string := raw_array <$> mapM encode_res_ptr res.

(** [writeBatchRPCRes]: the response code of a batch is not counted. *)
Definition writeBatchRPCRes (ctx : Context) (w : io_writer) (res : list (option RPCRes)) : list sample :=
  let '(err, ww) := Encode (mkRecordLenWriter w 0) (encode_batch res) in
  match err with
  | Some _ => RecordRPCError ctx BackendProxyd MethodUnknown err
  | None => RecordResponsePayloadSize ctx (rl_Len ww)
  end.

(** What the handler's reply does to the connection: the status, the text given to the writer if there
    is one, and the samples. *)
Definition reply_text (rep : reply) : option string :=
  match rep with
  | ReplyStatus _ => None
  | ReplyRes _ _ _ res => (fun t => t +:+ newline) <$> encode_res res
  | ReplyBatch _ _ res => (fun t => t +:+ newline) <$> encode_batch res
  end.

Definition reply_code (rep : reply) : Z :=
  match rep with ReplyStatus code => code | ReplyRes code _ _ _ => code | ReplyBatch _ _ _ => 200 end.

Definition reply_samples (ctx : Context) (w : io_writer) (rep : reply) : list sample :=
  match rep with
  | ReplyStatus code => inc httpResponseCodesTotal [dec_string code]
  | ReplyRes code _ _ res => writeRPCRes_body ctx w code res
  | ReplyBatch _ _ res => writeBatchRPCRes ctx w res
  end.

(** [instrumentedHdlr]: the time from the start of the handler to its return. *)
Definition instrumentedHdlr (started finished : Z) (samples : list sample) : list sample :=
  samples ++ observation httpRequestDurationSumm [] (inject_Z (finished - started) / inject_Z 1000000000).

(** A reply with a body whose responses can be written. *)
Definition writable_reply (rep : reply) : bool :=
  match rep with
  | ReplyStatus _ => false
  | ReplyRes _ _ _ res => writable res
  | ReplyBatch _ _ res => forallb (fun o => match o with Some r => writable r | None => true end) res
  end.

(** The reply as the client reads it. *)
Definition reads (rep : reply) (body : string) : Prop :=
  match rep with
  | ReplyStatus _ => False
  | ReplyRes _ _ _ res => IsBatch body = false /\ decode_RPCRes body = Some (received res)
  | ReplyBatch _ _ res => IsBatch body = true /\ decode_res_slice body = Some (map (fun o : option RPCRes => received <$> o) res)
  end.

Definition counted (rep : reply) : list sample :=
  match rep with ReplyBatch _ _ _ => [] | _ => inc httpResponseCodesTotal [dec_string (reply_code rep)] end.

Lemma reads_text rep : writable_reply rep = true -> exists body, reply_text rep = Some body /\ reads rep body.
Proof.
  destruct rep as [code|code sb cs res|sb cs res]; cbn; intros H; [done|..].
  - destruct (encode_res_spec _ H) as (t & Ht & _ & _ & Hd & _). rewrite Ht. eexists. split; [done|]. by destruct (Hd newline eq_refl).
  - unfold encode_batch. destruct (encode_ptrs_spec res) as (ts & Ht & Hok & Hd).
    { refine (forallb_Forall_imp _ _ _ _ H). apply Forall_forall. by intros [r|] _. }
    rewrite Ht. eexists. split; [done|]. split; [done|]. unfold decode_res_slice, unmarshal_raw_slice. by rewrite json_shape_raw_array.
Qed.
(** C11: a reply reads back as what was replied.  If its responses can be written, the body is a text
    that is a batch exactly if the reply is one and that decodes to the responses in order: nil ones
    as null, bytes that are no UTF-8 replaced, HTTP statuses left out.  A connection that takes the whole body makes the proxy record its
    exact size, and the response code unless the reply is a batch; one that fails makes it record the
    error and nothing else. *)
Theorem reply_on_the_wire ctx w rep : writable_reply rep = true ->
  exists body, reply_text rep = Some body /\ reads rep body /\
    (w body = (Z.of_nat (String.length body), None) ->
       reply_samples ctx w rep = counted rep ++ RecordResponsePayloadSize ctx (Z.of_nat (String.length body))) /\
    (forall n err, w body = (n, Some err) -> reply_samples ctx w rep = RecordRPCError ctx BackendProxyd MethodUnknown (Some err)).
Proof.
  intros H. destruct (reads_text rep H) as (body & Ht & Hr). exists body. split; [done|]. split; [done|].
  destruct rep as [code|code sb cs res|sb cs res]; [done|..]; cbn in Ht; unfold reply_samples, writeRPCRes_body, writeBatchRPCRes, Encode, recordLenWriter_Write;
    [destruct (encode_res res) as [t|]|destruct (encode_batch res) as [t|]]; try done; injection Ht as <-; cbn; (split; [intros ->|intros n err ->]; by rewrite ?Z.add_0_l).
Qed.
End writing.

Definition batch_reply : reply := ReplyBatch None (Some "MISS") [Some reverted_res; None; Some (mkRPCRes "2.0" (Some (GHexUint64 255)) None "1")].

Definition whole (p : string) : Z * option error := (Z.of_nat (String.length p), None).

Lemma reply_on_the_wire_witness : writable_reply batch_reply = true /\
  exists body, reply_text batch_reply = Some body /\ reads batch_reply body /\
    reply_samples background whole batch_reply = RecordResponsePayloadSize background (Z.of_nat (String.length body)).
Proof.
  assert (H : writable_reply batch_reply = true) by (vm_compute; reflexivity). split; [exact H|].
  destruct (reply_on_the_wire background whole batch_reply H) as (body & H1 & H2 & H3 & _). exists body. split; [exact H1|]. split; [exact H2|].
  exact (H3 eq_refl).
Defined.
