(* ===== verification/Replies.v ===== *)
(** * Every reply can be written (src/backend.go, src/server.go)

    [writable] of Wire followed through the program: what a backend answers, what a group makes of it,
    what the cache returns and what the server answers itself are responses that the encoder accepts
    and the client can read. *)

From S2P Require Import Prelude Json JsonFacts JsonRaw JsonCompact Geth Rpc Util Http RateLimiter Rewriter Cache SlidingWindow.
From S2P Require Import Backend BackendFacts Tracker Consensus Metrics BackendGroup BackendGroupFacts Server Wire.

(** ** Values *)

Section values.
Context `{HX : HexUtil}.

Lemma quoted_value s : compact_raw (quoted s) = true /\ is_Some (decode_result (quoted s)).
Proof.
  destruct (quoted_reads s) as [H1 H2]. unfold compact_raw, decode_result, json_Unmarshal. rewrite H1, H2. split; [|by eexists].
  pose proof (quoted_stable s "") as Hs. rewrite !str_app_nil in Hs. by rewrite bool_decide_eq_true_2.
Qed.

Lemma hex_writable z : writable_value (GHexUint64 z) = true.
Proof. unfold writable_value. cbn. destruct (quoted_value (hex_String z)) as [-> [w ->]]. done. Qed.

(** Receipts are wrapped in an object with two members. *)
Lemma receipts_text m t w : raw_ok t = true -> stable t -> decode_result t = Some w ->
  let o := raw_object [("method", quoted m); ("result", t)] in compact_raw o = true /\ is_Some (decode_result o).
Proof.
  intros Hok Hst Hd o. destruct (quoted_reads m) as [Hm1 Hm2]. pose proof (quoted_stable m) as Hm3.
  assert (Hk : Forall (fun kv => member_ok kv = true) [("method", quoted m); ("result", t)]) by members_ok.
  destruct (raw_object_ok [("method", quoted m); ("result", t)] ltac:(done) Hk) as (Ho & fs & Hj). fold o in Ho, Hj. split.
  - assert (Hs : stable o) by (apply raw_object_stable; by repeat constructor). specialize (Hs ""). rewrite !str_app_nil in Hs.
    unfold compact_raw. rewrite Ho. by rewrite bool_decide_eq_true_2.
  - pose proof (json_shape_complete o) as Hsh. rewrite Hj in Hsh. destruct Hsh as (sh & E & Hsh). unfold o in E.
    rewrite json_shape_raw_object in E by done. injection E as <-. destruct Hsh as [_ Hm]. unfold decode_result, json_Unmarshal in *.
    destruct (json_parse t) as [j|] eqn:Et; [|done]. cbn in Hm. unfold member_parse in Hm. cbn in Hm. rewrite Hm2 in Hm. cbn in Hm. rewrite Et in Hm.
    injection Hm as <-. rewrite Hj. cbn. destruct (to_interface j); [by eexists|done].
Qed.

Lemma receipts_writable m x : match x with Some v => writable_value v = true | None => True end -> writable_value (GReceipts m x) = true.
Proof.
  intros Hx. assert (Ht : exists t w, match x with None => Some "null" | Some v => marshal_gvalue v end = Some t /\ raw_ok t = true /\ stable t /\ decode_result t = Some w).
  { destruct x as [v|]; [|by exists "null", None; split_and!; [..|apply stable_verbatim|]].
    apply writable_value_spec in Hx as (t & w & H1 & H2 & H3 & H4 & _). by exists t, w. }
  destruct Ht as (t & w & E & H1 & H2 & H3). destruct (receipts_text m t w H1 H2 H3) as [Hc [w' Hd]]. unfold writable_value.
  assert (Hg : marshal_gvalue (GReceipts m x) = Some (raw_object [("method", quoted m); ("result", t)])).
  { cbn. destruct x as [v|]; [by rewrite E|by injection E as <-]. }
  by rewrite Hg, Hc, Hd.
Qed.
End values.

(** ** Errors *)

(** An error whose response can be written: a plain one, or an [RPCErr] with an int code and valid data. *)
Definition ok_error (err : error) : Prop := match as_RPCErr err with Some e => writable_err e = true | None => True end.

Lemma sentinel_ok t : ok_error (ESentinel t).
Proof. by destruct t. Qed.

Lemma ErrInvalidRequest_ok msg : ok_error (ERPC (ErrInvalidRequest msg)).
Proof. done. Qed.

Lemma ErrInvalidParams_ok msg : ok_error (ERPC (ErrInvalidParams msg)).
Proof. done. Qed.

(** An error that wraps a sentinel, or is one. *)
Lemma errors_Is_ok err t : errors_Is (Some err) t = true -> ok_error err.
Proof. destruct err; [intros _; apply sentinel_ok|done..]. Qed.

Create HintDb replies.

#[export] Hint Resolve sentinel_ok ErrInvalidRequest_ok ErrInvalidParams_ok errors_Is_ok : replies.

Section errors.
Context `{HX : HexUtil}.

Lemma NewRPCErrorRes_writable id err : writable_raw id = true -> ok_error err -> writable (NewRPCErrorRes id err) = true.
Proof. unfold ok_error, NewRPCErrorRes, writable. cbn. intros ->. by destruct (as_RPCErr err) as [e|]; [intros ->|]. Qed.

Lemma writable_result v x i : match x with Some g => writable_value g = true | None => True end -> writable_raw i = true ->
  writable (mkRPCRes v x None i) = true.
Proof. unfold writable. cbn. intros Hx ->. by destruct x as [g|]; [rewrite Hx|]. Qed.

Lemma sendable_id req : sendable req -> writable_raw (req_ID req) = true.
Proof. intros [_ [t Ht]]. unfold writable_raw. by rewrite Ht. Qed.
End errors.

(** ** What a backend answers *)

Section backend_answers.
Context {W : Type} {MW : MovingWindow W} {HX : HexUtil} {BX : BlockRPC} {RX : ReceiptsRPC} {SS : SortSlice} {SSL : SortSliceLaws}.

Definition all_writable (rs : list RPCRes) : Prop := Forall (fun r => writable r = true) rs.

#[global] Instance all_writable_proper : Proper (Permutation ==> iff) all_writable.
Proof. intros l l' H. unfold all_writable. by rewrite H. Qed.

Lemma decode_RPCRes_writable body r : decode_RPCRes body = Some r -> writable r = true.
Proof. intros H%decode_RPCRes_decoded. by apply decoded_writable. Qed.

Lemma decode_responses_writable single resB ptrs rs : decode_responses single resB = inl ptrs -> deref_all ptrs = Returns rs -> all_writable rs.
Proof.
  intros H Hd. assert (Hp : Forall (fun p => forall r, p = Some r -> writable r = true) ptrs).
  { unfold decode_responses in H. destruct single.
    - destruct (decode_RPCRes resB) as [r|] eqn:E; [|done]. injection H as <-. constructor; [|constructor].
      intros r' [= <-]. by eapply decode_RPCRes_writable.
    - destruct (decode_res_slice resB) as [l|] eqn:E; [|by destruct (responseIsNotBatched resB)]. injection H as ->.
      unfold decode_res_slice in E. destruct (unmarshal_raw_slice resB) as [raws|]; [|done].
      apply mapM_Some in E. eapply Forall2_Forall_r; [exact E|]. apply Forall_true. intros raw p Hp r ->.
      unfold decode_res_ptr in Hp. destruct (json_parse raw) as [[]|]; try done;
        (destruct (decode_RPCRes raw) as [r'|] eqn:Er; [|done]; injection Hp as <-; by eapply decode_RPCRes_writable). }
  clear H. revert rs Hd. induction Hp as [|p ptrs Hp _ IH]; intros rs Hd; cbn in Hd; [injection Hd as <-; constructor|].
  destruct p as [r|]; [|done]. step_outcome Hd. injection Hd as <-. constructor; [by apply Hp|by apply IH].
Qed.

Lemma set_http_code_writable code l rs : all_writable l -> set_http_code code l = Returns rs -> all_writable rs.
Proof.
  intros Hl. revert rs. induction Hl as [|r l Hr _ IH]; intros rs H; cbn in H; [injection H as <-; constructor|].
  destruct (res_Error r) as [e|] eqn:E; [|done]. step_outcome H. injection H as <-. constructor; [|by apply IH].
  unfold writable in *. rewrite E in Hr. exact Hr.
Qed.

Lemma enrich_writable tr r : writable r = true -> writable (enrich tr r) = true.
Proof.
  intros Hr. unfold enrich. destruct (list_find _ tr) as [[? [? m]]|]; [|done]. unfold writable in *. cbn [res_Result res_Error res_ID].
  rewrite !andb_true_iff in *. destruct Hr as [[Hx He] Hi]. split_and!; [|done|done]. apply receipts_writable. by destruct (res_Result r).
Qed.

Lemma receive_writable ex tr reqs resp (b : Backend W) rs b' reqs' :
  receive ex tr reqs resp b = Returns (inl rs, b', reqs') -> all_writable rs.
Proof.
  unfold receive, fails. destruct (negb _ && negb _); [done|]. destruct (read_body _ _) as [resB|err]; [|by destruct (errors_Is _ _)].
  destruct (decode_responses _ resB) as [ptrs|[err []]] eqn:Ed; [|done..]. destruct (negb (length reqs =? _)%nat); [done|].
  intros H. step_outcome H. step_outcome H. step_outcome H. injection H as <- _ _.
  pose proof (decode_responses_writable _ _ _ _ Ed E) as Hm.
  assert (Hm1 : all_writable a0) by (destruct (StatusCode resp =? 200); [by injection E0 as <-|by eapply set_http_code_writable]).
  unfold sortBatchRPCResponse in E1. case_bool_decide; [|done]. injection E1 as <-. rewrite sort_Slice_perm.
  apply Forall_map. eapply Forall_impl; [exact Hm1|]. intros r. apply enrich_writable.
Qed.

Lemma doForward_writable ctx net reqs isBatch now (b : Backend W) rs b' reqs' :
  doForward ctx net reqs isBatch now b = Returns (inl rs, b', reqs') -> all_writable rs.
Proof.
  intros H. unfold doForward in H. step_outcome H. destruct a as [[reqs1 tr] [err|]]; [done|].
  destruct (build_request _ _ _) as [rq|]; [|done]. destruct (ex_build (net rq)); [done|].
  destruct (DoLimited (net rq)) as [resp|err]; [by eapply receive_writable|]. by destruct (errors_Is (Some err) ErrContextCanceled).
Qed.

Lemma forward_loop_writable ctx env isBatch fuel : forall i reqs (b : Backend W) last rs b' reqs' evs,
  forward_loop ctx env isBatch fuel i reqs b last = Returns (inl rs, b', reqs', evs) -> all_writable rs.
Proof.
  induction fuel as [|fuel IH]; intros i reqs b last rs b' reqs' evs H; cbn [forward_loop] in H; [done|].
  destruct reqs as [|r0 rs0]; [done|]. step_outcome H. destruct a as [[[ok|err] b1] reqs1].
  - injection H as <- <- <- <-. by eapply doForward_writable.
  - destruct (ends_loop err); [done|]. destruct (at_jitter env i). step_outcome H. destruct a as [[[r2 b2] reqs2] evs2].
    injection H as -> <- <- <-. by eapply IH.
Qed.
End backend_answers.

(** ** What a group answers *)

Section group_answers.
Context {T : Type} {CT : ConsensusTracker T} {W : Type} {MW : MovingWindow W}.
Context {HX : HexUtil} {BX : BlockRPC} {RX : ReceiptsRPC} {SS : SortSlice} {SSL : SortSliceLaws}.
Implicit Types bg : BackendGroup W.

(** An answer to each of [n] calls, or an error; all of them can be written. *)
Definition complete (n : nat) (resp : BackendGroupRPCResponse) : Prop :=
  match gr_error resp with
  | None => length (gr_RPCRes resp) = n /\ all_writable (gr_RPCRes resp)
  | Some err => ok_error err
  end.

Lemma group_forward_writable ctx env isBatch backends : forall reqs bg resp bg' reqs',
  ForwardRequestToBackendGroup ctx env isBatch backends reqs bg = Returns (resp, bg', reqs') ->
  match gr_error resp with None => all_writable (gr_RPCRes resp) | Some err => ok_error err end.
Proof.
  induction backends as [|be rest IH]; intros reqs bg resp bg' reqs' H; cbn [ForwardRequestToBackendGroup] in H; [injection H as <- <- <-; done|].
  step_outcome H. destruct reqs as [|r0 rs0]; [injection H as <- <- <-; constructor|].
  step_outcome H. destruct a0 as [[[res b1] reqs1] evs]. destruct (dispose _ res) as [rs|by' err|] eqn:Ed.
  - injection H as <- <- <-. destruct res as [rs'|err]; cbn in Ed; [|by repeat case_match]. injection Ed as <-.
    by eapply forward_loop_writable.
  - injection H as <- <- <-. cbn. unfold dispose in Ed. destruct res as [|e]; [done|].
    destruct (_ || _ || _) eqn:E1 in Ed; [|destruct (_ || _ || _) eqn:E2 in Ed; [|done]]; injection Ed as <- <-;
      rewrite !orb_true_iff in *; naive_solver eauto with replies.
  - by eapply IH.
Qed.

Lemma group_forward_complete ctx env isBatch backends reqs bg resp bg' reqs' :
  ForwardRequestToBackendGroup ctx env isBatch backends reqs bg = Returns (resp, bg', reqs') -> complete (length reqs) resp.
Proof.
  intros H. unfold complete. pose proof (group_forward_writable _ _ _ _ _ _ _ _ _ H) as Hw. destruct (gr_error resp) eqn:E; [done|].
  split; [|done]. by apply group_forward_ok in H as [Hl _].
Qed.

Lemma overwrite_writable rctx : forall reqs i out ovs, Forall sendable reqs -> overwrite rctx i reqs = Returns (out, ovs) ->
  Forall (fun ov => writable (ir_res ov) = true) ovs.
Proof.
  induction reqs as [|req reqs IH]; intros i out ovs Hs H; cbn [overwrite] in H; [injection H as <- <-; constructor|].
  apply Forall_cons in Hs as [Hr%sendable_id Hs]. step_outcome H. destruct a as [[[rw err] req'] res]. step_outcome H. destruct a as [out1 ovs1].
  apply IH in E0; [|done].
  assert (Hres : exists x, res = mkRPCRes JSONRPCVersion x None (req_ID req) /\ match x with Some g => writable_value g = true | None => True end).
  { unfold RewriteTags, RewriteResponse in E. case_bool_decide; [injection E as <- <- <- <-; eexists; split; [done|apply hex_writable]|].
    step_outcome E. destruct a as [[? ?] ?]. injection E as <- <- <- <-. by eexists None. }
  destruct Hres as (x & -> & Hx). destruct rw; injection H as <- <-; try done; (constructor; [|done]); cbn [ir_res].
  - unfold set_Error, writable. cbn [res_Result res_Error res_ID]. rewrite Hr, andb_true_r. apply andb_true_iff.
    split; [by destruct x|]. unfold override_error. by repeat case_match.
  - by apply writable_result.
Qed.

Lemma OverrideResponses_writable ovs : Forall (fun ov => writable (ir_res ov) = true) ovs -> forall res out,
  all_writable res -> OverrideResponses res ovs = Returns out -> all_writable out.
Proof.
  induction 1 as [|ov ovs Hov _ IH]; intros res out Hr H; cbn [OverrideResponses] in H; [by injection H as <-|].
  destruct (0 <? length res)%nat; [destruct (length res <? ir_index ov)%nat; [done|]|]; apply IH in H; try done; apply Forall_app.
  - split; [by apply Forall_take|]. constructor; [done|by apply Forall_drop].
  - by repeat constructor.
Qed.
Lemma multicall_complete ctx env reqs backends : forall bg resps bg', multicall_requests ctx env backends reqs bg = Returns (resps, bg') ->
  Forall (complete (length reqs)) (map snd resps).
Proof.
  induction backends as [|be rest IH]; intros bg resps bg' H; cbn [multicall_requests] in H; [injection H as <- <-; constructor|].
  step_outcome H. destruct a as [[resp bg1] reqs1]. step_outcome H. destruct a as [resps1 bg2]. injection H as <- <-.
  constructor; [by eapply group_forward_complete|by eapply IH].
Qed.

Lemma process_responses_from check n received : Forall (complete n) received -> forall final resp,
  (forall r, final = Some r -> complete n r) -> process_responses check received final = Returns resp -> complete n resp.
Proof.
  induction 1 as [|r received Hr _ IH]; intros final resp Hf H; cbn [process_responses] in H.
  - injection H as <-. destruct final; [by apply Hf|done].
  - assert (Hn : forall r', Some r = Some r' -> complete n r') by (by intros r' [= <-]).
    destruct (gr_error r) eqn:Ee; [by eapply IH|]. destruct check; [|by injection H as <-].
    destruct (gr_RPCRes r) as [|x xs]; [done|]. destruct (IsError x); [by eapply IH|by injection H as <-].
Qed.

Lemma group_Forward_complete ctx env (consensus : option (ConsensusPoller T)) reqs isBatch bg resp reqs' bg' :
  (forall l, ge_arrival env l ≡ₚ map snd l) -> (isBatch = false -> (length reqs <= 1)%nat) -> Forall sendable reqs ->
  group_Forward ctx env consensus reqs isBatch bg = Returns (resp, reqs', bg') -> complete (length reqs) resp.
Proof.
  intros Ha Hb Hs H. unfold group_Forward in H. destruct reqs as [|r0 rs0]; [injection H as <- <- <-; by repeat constructor|].
  set (reqs := r0 :: rs0) in *. change (match consensus with Some cp => _ | None => _ end) with (decisions (T := T) consensus reqs) in H.
  step_outcome H. destruct a as [sent ovs]. destruct (_ && _) eqn:Em.
  - apply andb_true_iff in Em as [Em Eb%negb_true_iff]. apply andb_true_iff in Em as [_ Ev].
    assert (length reqs = length sent) as ->.
    { specialize (Hb Eb). destruct sent as [|? [|]]; try done. subst reqs. cbn in *. lia. }
    unfold ExecuteMulticall in H. step_outcome H. destruct a as [resp1 bg1]. injection H as <- _ _. step_outcome E0. destruct a as [resps bg2].
    step_outcome E0. injection E0 as <- _. refine (process_responses_from _ _ _ _ _ _ _ E2); [|done]. rewrite Ha. by eapply multicall_complete.
  - step_outcome H. destruct a as [[gr bg1] reqs1]. pose proof (group_forward_complete _ _ _ _ _ _ _ _ _ E0) as Hg. unfold complete in Hg.
    destruct (gr_error gr) eqn:Eg; [injection H as <- _ _; unfold complete; by rewrite Eg|]. destruct Hg as [Hl Hw].
    step_outcome H. injection H as <- _ _. unfold complete. cbn [gr_RPCRes gr_error].
    destruct (decisions_carry _ _ _ _ E) as (ds & H1 & H2 & H3 & _). split.
    + pose proof (OverrideResponses_merge ds 0 ovs H2 [] (gr_RPCRes gr) eq_refl ltac:(congruence)) as Ho. cbn [app] in Ho.
      rewrite Ho in E1. injection E1 as <-. rewrite merge_length; congruence.
    + eapply OverrideResponses_writable; [|exact Hw|exact E1].
      destruct consensus; [by eapply overwrite_writable|injection E as <- <-; constructor].
Qed.
End group_answers.
