(* ===== verification/ServerFacts.v ===== *)
(** * Properties of the server: every call is answered at its position, upstream batches, limits *)

From S2P Require Import Prelude Json JsonFacts Geth Rpc Util Http RateLimiter Cache Backend BackendGroup Server Wire Replies.

Section server.
Context {Addr Pub L C I G Tx : Type} {AddrEq : EqDecision Addr}.
Context {LX : FrontendRateLimiter L} {CX : Cache C} {SX : SHA256} {IX : InteropStrategy I} {GX : Groups G}.
Context {TX : TxLib Tx} {KX : Crypto Addr Pub} {HX : HexUtil} {BX : BlockRPC}.
Implicit Types s : Server Addr L C I.

(** ** The id a response must carry *)

(** The id of a valid call; a call that cannot be parsed or is invalid is answered without one. *)
Definition expected_id (n : nat) (raw : string) : string :=
  match ParseRPCReq raw with
  | inr _ => ""
  | inl req =>
      if (n =? 1)%nat && bool_decide (req_Method req = proxydHealthzMethod) then req_ID req
      else match ValidateRPCReq req with Some _ => "" | None => req_ID req end
  end.

Lemma NewRPCErrorRes_id id err : res_ID (NewRPCErrorRes id err) = id.
Proof. done. Qed.

Lemma triage_id now who n raw s v s' : triage now who n raw s = Returns (v, s') ->
  match v with
  | Respond r | Healthz r => res_ID r = expected_id n raw
  | Enqueue _ req => req_ID req = expected_id n raw
  end.
Proof.
  unfold triage, expected_id. destruct (ParseRPCReq raw) as [req|err]; [|by intros [= <- _]].
  destruct (_ && _); [by intros [= <- _]|]. destruct (ValidateRPCReq req); [by intros [= <- _]|].
  case_bool_decide; [by intros [= <- _]|]. case_bool_decide; [by intros [= <- _]|].
  intros H'. step_outcome H'. destruct a as [[] s1]; [by injection H' as <- _|].
  step_outcome H'. destruct a as [[] s2]; [by injection H' as <- _|].
  step_outcome H'. destruct a as [[err|] s3]; by injection H' as <- _.
Qed.

Lemma triage_healthz now who n raw s r s' : triage now who n raw s = Returns (Healthz r, s') -> n = 1%nat.
Proof.
  unfold triage. destruct (ParseRPCReq raw) as [req|err]; [|done].
  destruct (Nat.eqb_spec n 1) as [->|]; [done|]. cbn [andb]. destruct (ValidateRPCReq req); [done|].
  case_bool_decide; [done|]. case_bool_decide; [done|].
  intros H'. step_outcome H'. destruct a as [[] s1]; [done|]. step_outcome H'. destruct a as [[] s2]; [done|].
  step_outcome H'. by destruct a as [[err|] s3].
Qed.

(** ** Sorting the calls into batches *)

(** [e] waits in some batch. *)
Definition waits (bt : batching) (e : batchElem) : Prop := exists bg l, bt_batches bt !! bg = Some l /\ e ∈ l.

(** After the calls before position [i]. *)
Record sorted_out (reqs : list string) (i : nat) (bt : batching) : Prop := {
  so_length : length (bt_responses bt) = length reqs;
  so_covered : forall j, (j < i)%nat ->
    (exists r, bt_responses bt !! j = Some (Some r)) \/ exists e, waits bt e /\ el_Index e = j;
  so_responses : forall j raw r, reqs !! j = Some raw -> bt_responses bt !! j = Some (Some r) ->
    res_ID r = expected_id (length reqs) raw;
  so_waiting : forall e, waits bt e ->
    exists raw, reqs !! el_Index e = Some raw /\ req_ID (el_Req e) = expected_id (length reqs) raw;
  so_ids : forall n g l e, bt_batches bt !! (n, g) = Some l -> e ∈ l -> (n <= default O (bt_ids bt !! req_ID (el_Req e)))%nat;
  so_distinct : forall bg l, bt_batches bt !! bg = Some l -> NoDup (map (fun e => req_ID (el_Req e)) l);
}.

Lemma sorted_out_start reqs : sorted_out reqs 0 (mkBatching (replicate (length reqs) None) ∅ ∅).
Proof.
  constructor; cbn.
  - apply length_replicate.
  - lia.
  - intros j raw r Hj Hr. rewrite lookup_replicate_2 in Hr by (by eapply lookup_lt_Some). done.
  - intros e (bg & l & H & _). cbn in H. by rewrite lookup_empty in H.
  - intros n g l e H. by rewrite lookup_empty in H.
  - intros bg l H. by rewrite lookup_empty in H.
Qed.

Lemma respond_sorted reqs i bt raw r : sorted_out reqs i bt -> reqs !! i = Some raw ->
  res_ID r = expected_id (length reqs) raw -> sorted_out reqs (S i) (respond i r bt).
Proof.
  intros [H1 H2 H3 H4 H5 H6] Hi Hr. constructor; cbn; try done.
  - by rewrite length_insert.
  - intros j Hj. destruct (decide (j = i)) as [->|Hne].
    + left. exists r. apply list_lookup_insert_eq. rewrite H1. by eapply lookup_lt_Some.
    + rewrite list_lookup_insert_ne by done. apply H2. lia.
  - intros j raw' r' Hj Hr'. destruct (decide (j = i)) as [->|Hne].
    + rewrite list_lookup_insert_eq in Hr' by (rewrite H1; by eapply lookup_lt_Some). congruence.
    + rewrite list_lookup_insert_ne in Hr' by done. eauto.
Qed.

Lemma enqueue_waits group req i bt e : waits (enqueue group req i bt) e <-> waits bt e \/ e = mkBatchElem req i.
Proof.
  unfold waits, enqueue. cbn. generalize (S (default O (bt_ids bt !! req_ID req)), group) as k. intros k.
  destruct (bt_batches bt !! k) as [l0|] eqn:Ek; cbn; split.
  - intros (bg & l & Hl & He). rewrite lookup_insert_Some in Hl. destruct Hl as [[<- <-]|[_ Hl]]; [|left; eauto].
    apply elem_of_app in He as [He| ->%list_elem_of_singleton]; [left; eauto|by right].
  - intros [(bg & l & Hl & He)| ->].
    + destruct (decide (bg = k)) as [->|Hne].
      * assert (Some l = Some l0) as [= ->] by (etrans; [symmetry; exact Hl|exact Ek]). exists k, (l0 ++ [mkBatchElem req i]). rewrite lookup_insert_eq.
        split; [done|]. apply elem_of_app. by left.
      * exists bg, l. by rewrite lookup_insert_ne.
    + exists k, (l0 ++ [mkBatchElem req i]). rewrite lookup_insert_eq. split; [done|]. apply elem_of_app. right. by left.
  - intros (bg & l & Hl & He). rewrite lookup_insert_Some in Hl. destruct Hl as [[<- <-]|[_ Hl]]; [|left; eauto].
    apply list_elem_of_singleton in He. by right.
  - intros [(bg & l & Hl & He)| ->].
    + exists bg, l. rewrite lookup_insert_ne; [done|]. intros ->.
      assert (Some l = None) by (etrans; [symmetry; exact Hl|exact Ek]). done.
    + exists k, [mkBatchElem req i]. rewrite lookup_insert_eq. split; [done|by left].
Qed.

Lemma enqueue_sorted reqs i bt raw group req : sorted_out reqs i bt -> reqs !! i = Some raw ->
  req_ID req = expected_id (length reqs) raw -> sorted_out reqs (S i) (enqueue group req i bt).
Proof.
  intros [H1 H2 H3 H4 H5 H6] Hi Hr. constructor; try done.
  - intros j Hj. destruct (decide (j = i)) as [->|Hne].
    + right. exists (mkBatchElem req i). split; [|done]. apply enqueue_waits. by right.
    + destruct (H2 j) as [?|(e & He & Ee)]; [lia|by left|]. right. exists e. split; [|done]. apply enqueue_waits. by left.
  - intros e [He| ->]%enqueue_waits; [by apply H4|]. exists raw. done.
  - intros n g l e Hl He. unfold enqueue in *. cbn in *. set (m := S (default O (bt_ids bt !! req_ID req))) in *.
    assert (Hmono : forall id, (default O (bt_ids bt !! id) <= default O (<[req_ID req := m]> (bt_ids bt) !! id))%nat).
    { intros id. destruct (decide (id = req_ID req)) as [->|Hne]; [rewrite lookup_insert_eq; cbn; lia|by rewrite lookup_insert_ne]. }
    rewrite lookup_insert_Some in Hl. destruct Hl as [[[= <- <-] <-]|[_ Hl]].
    + apply elem_of_app in He as [He| ->%list_elem_of_singleton]; [|by rewrite lookup_insert_eq].
      destruct (bt_batches bt !! (m, group)) as [l0|] eqn:E0; [|by apply elem_of_nil in He].
      etrans; [by eapply H5|apply Hmono].
    + etrans; [by eapply H5|apply Hmono].
  - intros bg l Hl. unfold enqueue in *. cbn in *. set (m := S (default O (bt_ids bt !! req_ID req))) in *.
    rewrite lookup_insert_Some in Hl. destruct Hl as [[<- <-]|[_ Hl]]; [|by eapply H6].
    destruct (bt_batches bt !! (m, group)) as [l0|] eqn:E0; cbn; [|by repeat constructor; set_solver].
    rewrite map_app. apply NoDup_app. split; [by eapply H6|]. split; [|apply NoDup_singleton].
    intros id Hid ->%list_elem_of_singleton. apply list_elem_of_fmap in Hid as (e & Ee & He).
    specialize (H5 _ _ _ _ E0 He). cbn in Ee. rewrite <- Ee in H5. subst m. lia.
Qed.

Lemma sort_out_sorted clk who reqs : forall rest i bt s bt' s', reqs = take i reqs ++ rest -> (i <= length reqs)%nat ->
  sorted_out reqs i bt -> sort_out clk who (length reqs) i rest bt s = Returns (inr bt', s') ->
  sorted_out reqs (length reqs) bt'.
Proof.
  induction rest as [|raw rest IH]; intros i bt s bt' s' Hs Hle Hso H; cbn [sort_out] in H.
  - injection H as <- <-. assert (length reqs = i) as ->; [|done].
    apply (f_equal length) in Hs. rewrite app_nil_r, length_take in Hs. lia.
  - assert (Hi : reqs !! i = Some raw).
    { rewrite Hs. rewrite lookup_app_r; rewrite length_take; [|lia]. by replace (i - i `min` length reqs)%nat with O by lia. }
    assert (Hlt : (i < length reqs)%nat) by (by eapply lookup_lt_Some).
    assert (Hs' : reqs = take (S i) reqs ++ rest).
    { rewrite (take_S_r _ _ _ Hi), <- app_assoc. exact Hs. }
    step_outcome H. destruct a as [[r|r|group req] s1]; apply triage_id in E.
    + apply IH in H; [done|done|lia|]. by eapply respond_sorted.
    + done.
    + apply IH in H; [done|done|lia|]. by eapply enqueue_sorted.
Qed.

(** ** Serving the batches *)

(** The responses of a successful call carry the ids of its requests. *)
Definition keeps_ids : Prop := forall group reqs isBatch g resp reqs' g',
  group_forward group reqs isBatch g = Returns (resp, reqs', g') -> gr_error resp = None ->
  map res_ID (gr_RPCRes resp) = map req_ID reqs.

Definition answered (responses : list (option RPCRes)) (j : nat) : Prop := exists r, responses !! j = Some (Some r).

(** What every step of the second loop keeps. *)
Definition answers (reqs : list string) (responses : list (option RPCRes)) : Prop :=
  length responses = length reqs /\
  (keeps_ids -> forall j raw r, reqs !! j = Some raw -> responses !! j = Some (Some r) ->
     res_ID r = expected_id (length reqs) raw).

Definition elem_ok (reqs : list string) (e : batchElem) : Prop :=
  exists raw, reqs !! el_Index e = Some raw /\ req_ID (el_Req e) = expected_id (length reqs) raw.

(** From [responses] to [responses']: the calls [elems] are answered, and no answer is lost. *)
Record served (reqs : list string) (elems : list batchElem) (responses responses' : list (option RPCRes)) : Prop := {
  sv_answers : answers reqs responses';
  sv_kept : forall j, answered responses j -> answered responses' j;
  sv_done : forall e, e ∈ elems -> answered responses' (el_Index e);
}.

Lemma served_nil reqs responses : answers reqs responses -> served reqs [] responses responses.
Proof. intros H. constructor; [done|done|]. by intros e ?%elem_of_nil. Qed.

Lemma served_app reqs l1 l2 r1 r2 r3 : served reqs l1 r1 r2 -> served reqs l2 r2 r3 -> served reqs (l1 ++ l2) r1 r3.
Proof. intros [A1 K1 D1] [A2 K2 D2]. constructor; [done|auto|]. intros e [He|He]%elem_of_app; auto. Qed.

Lemma served_one reqs e r responses : answers reqs responses -> elem_ok reqs e ->
  (keeps_ids -> res_ID r = req_ID (el_Req e)) -> served reqs [e] responses (<[el_Index e := Some r]> responses).
Proof.
  intros [Hl Hids] (raw & Hraw & He) Hr. assert (Hlt : (el_Index e < length responses)%nat) by (rewrite Hl; by eapply lookup_lt_Some).
  assert (Hk : forall j, answered responses j -> answered (<[el_Index e:=Some r]> responses) j).
  { intros j [r' Hj]. destruct (decide (j = el_Index e)) as [->|Hne].
    - exists r. by apply list_lookup_insert_eq.
    - exists r'. by rewrite list_lookup_insert_ne. }
  constructor; [|done|].
  - split; [by rewrite length_insert|]. intros Hki j raw' r' Hj Hr'. destruct (decide (j = el_Index e)) as [->|Hne].
    + rewrite list_lookup_insert_eq in Hr' by done. injection Hr' as <-. rewrite Hr by done. congruence.
    + rewrite list_lookup_insert_ne in Hr' by done. eauto.
  - intros e' ->%list_elem_of_singleton. exists r. by apply list_lookup_insert_eq.
Qed.

Lemma served_perm reqs l1 l2 r1 r2 : (forall e, e ∈ l2 -> e ∈ l1) -> served reqs l1 r1 r2 -> served reqs l2 r1 r2.
Proof. intros H [A K D]. constructor; auto. Qed.

Lemma server_GetRPC_id ctx req c r c' : server_GetRPC ctx req c = (Some r, c') -> res_ID r = req_ID req.
Proof.
  unfold server_GetRPC, GetRPC, GetRPCMethod. intros H. repeat case_match; simplify_eq; done.
Qed.

Lemma lookup_batch_served ctx reqs : forall batch responses c responses' hit misses c',
  answers reqs responses -> Forall (elem_ok reqs) batch ->
  lookup_batch ctx batch responses c = (responses', hit, misses, c') ->
  exists hits, batch ≡ₚ hits ++ misses /\ served reqs hits responses responses'.
Proof.
  induction batch as [|e batch IH]; intros responses c responses' hit misses c' Ha Hb H; cbn [lookup_batch] in H.
  - injection H as <- <- <- <-. exists []. split; [done|by apply served_nil].
  - apply Forall_cons in Hb as [He Hb]. destruct (server_GetRPC ctx (el_Req e) c) as [[r|] c1] eqn:Eg.
    + apply server_GetRPC_id in Eg. pose proof (served_one reqs e r responses Ha He (fun _ => Eg)) as Hs.
      destruct (lookup_batch ctx batch _ c1) as [[[r1 h1] m1] c2] eqn:El. injection H as <- <- <- <-.
      apply IH in El as (hits & Hp & Hs'); [|by destruct Hs|done]. exists (e :: hits). split; [cbn; by rewrite Hp|].
      by apply (served_app _ [e] hits _ _ _ Hs).
    + destruct (lookup_batch ctx batch _ c1) as [[[r1 h1] m1] c2] eqn:El. injection H as <- <- <- <-.
      apply IH in El as (hits & Hp & Hs'); [|done|done]. exists hits. split; [|done].
      rewrite Hp. by rewrite Permutation_middle.
Qed.

Lemma store_served ctx reqs0 : forall elems reqs res responses c responses' c',
  answers reqs0 responses -> Forall (elem_ok reqs0) elems ->
  (keeps_ids -> map res_ID res = map (fun e => req_ID (el_Req e)) elems) ->
  store ctx elems reqs res responses c = Returns (responses', c') -> served reqs0 elems responses responses'.
Proof.
  induction elems as [|e elems IH]; intros reqs res responses c responses' c' Ha Hb Hids H; cbn [store] in H.
  - injection H as <- <-. by apply served_nil.
  - apply Forall_cons in Hb as [He Hb]. destruct res as [|r res]; [done|]. step_outcome H.
    assert (Hr : keeps_ids -> res_ID r = req_ID (el_Req e)) by (intros Hk; specialize (Hids Hk); by injection Hids).
    pose proof (served_one reqs0 e r responses Ha He Hr) as Hs.
    apply IH in H; [|by destruct Hs|done|intros Hk; specialize (Hids Hk); by injection Hids].
    by apply (served_app _ [e] elems _ _ _ Hs).
Qed.

Lemma forward_minibatch_served ctx reqs group isBatch elems p p' :
  answers reqs (pg_responses p) -> Forall (elem_ok reqs) elems ->
  forward_minibatch ctx group isBatch elems p = Returns (p', None) ->
  served reqs elems (pg_responses p) (pg_responses p').
Proof.
  intros Ha He H. unfold forward_minibatch in H. step_outcome H. destruct a as [[resp reqs1] g].
  destruct (gr_error resp) as [err|] eqn:Ee.
  - destruct (receipts_error err); [done|]. step_outcome H. destruct a as [r1 c1]. injection H as <-. cbn.
    eapply store_served; [done|done| |exact E0]. intros _. by rewrite map_map.
  - step_outcome H. destruct a as [r1 c1]. injection H as <-. cbn.
    eapply store_served; [done|done| |exact E0]. intros Hk. rewrite (Hk _ _ _ _ _ _ _ E Ee). unfold createBatchRequest. by rewrite map_map.
Qed.

Lemma forward_minibatches_served ctx reqs group isBatch expired : forall minis i p p',
  answers reqs (pg_responses p) -> Forall (Forall (elem_ok reqs)) minis ->
  forward_minibatches ctx group isBatch expired i minis p = Returns (p', None) ->
  served reqs (concat minis) (pg_responses p) (pg_responses p').
Proof.
  induction minis as [|elems minis IH]; intros i p p' Ha Hm H; cbn [forward_minibatches] in H.
  - injection H as <-. by apply served_nil.
  - apply Forall_cons in Hm as [He Hm]. destruct (expired i); [done|]. step_outcome H. destruct a as [p1 [err|]]; [done|].
    apply forward_minibatch_served with (reqs := reqs) in E; [|done|done].
    apply IH in H; [|by destruct E|done]. cbn. by eapply served_app.
Qed.

(** The minibatches hold the misses, in order. *)
Lemma minibatches_concat k misses : 0 < k ->
  concat (map (minibatch k misses) (seq 0 (numBatches k (length misses)))) = misses.
Proof.
  intros Hk. unfold numBatches. rewrite (proj2 (Z.ltb_lt 0 k)) by done.
  set (kn := Z.to_nat k). set (n := Z.to_nat _).
  assert (Hn : (length misses <= n * kn)%nat).
  { subst n kn. apply Nat2Z.inj_le. rewrite Nat2Z.inj_mul, !Z2Nat.id; [|lia|apply Z.div_pos; lia].
    pose proof (Z.mod_pos_bound (Z.of_nat (length misses) + k - 1) k Hk).
    pose proof (Z.div_mod (Z.of_nat (length misses) + k - 1) k). lia. }
  assert (H : forall m a, concat (map (minibatch k misses) (seq a m)) = take (m * kn) (drop (a * kn) misses)).
  { induction m as [|m IH]; intros a; [done|]. cbn [seq map concat]. rewrite IH. unfold minibatch. fold kn.
    replace (S a * kn)%nat with (a * kn + kn)%nat by lia. rewrite <- drop_drop.
    replace (S m * kn)%nat with (kn + m * kn)%nat by lia. by rewrite <- take_take_drop. }
  rewrite H. cbn. by rewrite take_ge.
Qed.

Lemma minibatch_elems k misses i e : e ∈ minibatch k misses i -> e ∈ misses.
Proof.
  unfold minibatch. intros [j Hj]%list_elem_of_lookup. apply lookup_take_Some in Hj as [Hj _]. rewrite lookup_drop in Hj.
  by eapply list_elem_of_lookup_2.
Qed.

Lemma lookup_batch_sublist ctx : forall batch responses c responses' hit misses c',
  lookup_batch ctx batch responses c = (responses', hit, misses, c') -> misses `sublist_of` batch.
Proof.
  induction batch as [|e batch IH]; intros responses c responses' hit misses c' H; cbn [lookup_batch] in H; [by injection H as <- <- <- <-|].
  destruct (server_GetRPC ctx (el_Req e) c) as [[r|] c1].
  - destruct (lookup_batch ctx batch _ c1) as [[[r1 h1] m1] c2] eqn:El. injection H as <- <- <- <-. apply IH in El. by constructor.
  - destruct (lookup_batch ctx batch _ c1) as [[[r1 h1] m1] c2] eqn:El. injection H as <- <- <- <-. apply IH in El. by constructor.
Qed.

Lemma minibatch_nonempty k misses i : 0 < k -> (i < numBatches k (length misses))%nat -> minibatch k misses i <> [].
Proof.
  intros Hk Hi. unfold numBatches in Hi. rewrite (proj2 (Z.ltb_lt 0 k)) in Hi by done.
  assert (Hlt : (i * Z.to_nat k < length misses)%nat).
  { apply Nat2Z.inj_lt. rewrite Nat2Z.inj_mul, Z2Nat.id by lia.
    pose proof (Z.div_pos (Z.of_nat (length misses) + k - 1) k ltac:(lia) Hk).
    apply Nat2Z.inj_lt in Hi. rewrite Z2Nat.id in Hi by done.
    pose proof (Z.mod_pos_bound (Z.of_nat (length misses) + k - 1) k Hk).
    pose proof (Z.div_mod (Z.of_nat (length misses) + k - 1) k). nia. }
  intros E%(f_equal length). unfold minibatch in E. rewrite length_take, length_drop in E. cbn in E. lia.
Qed.

Lemma serve_batches_served ctx reqs k isBatch expired : 0 < k -> forall batches cached p p' cached',
  answers reqs (pg_responses p) -> Forall (fun b => Forall (elem_ok reqs) (snd b)) batches ->
  serve_batches ctx k isBatch expired batches cached p = Returns (p', cached', None) ->
  served reqs (concat (map snd batches)) (pg_responses p) (pg_responses p').
Proof.
  intros Hk. induction batches as [|[bg batch] batches IH]; intros cached p p' cached' Ha Hb H; cbn [serve_batches] in H.
  - injection H as <- <-. by apply served_nil.
  - apply Forall_cons in Hb as [He Hb]. cbn [snd] in He.
    destruct (lookup_batch ctx batch _ _) as [[[r1 hit] misses] c1] eqn:El. step_outcome H. destruct a as [p1 [err|]]; [done|].
    apply lookup_batch_served with (reqs := reqs) in El as (hits & Hp & Hs1); [|done|done].
    assert (Hm : Forall (elem_ok reqs) misses).
    { rewrite Hp in He. by apply Forall_app in He as [_ He]. }
    apply forward_minibatches_served with (reqs := reqs) in E; [|by destruct Hs1|].
    2: { apply Forall_map, Forall_true. intros i. apply Forall_forall. intros e He'%minibatch_elems. by eapply Forall_forall in Hm. }
    rewrite minibatches_concat in E by done. cbn [pg_responses] in E.
    apply IH in H; [|by destruct E|done]. cbn. eapply served_app; [|exact H].
    eapply served_perm; [|by eapply served_app]. intros e. by rewrite Hp.
Qed.

(** ** What the limits leave untouched *)

(** The configuration of the server: the fields no request changes. *)
Definition same_config s s' : Prop :=
  sv_maxUpstreamBatchSize s' = sv_maxUpstreamBatchSize s /\ sv_rpcMethodMappings s' = sv_rpcMethodMappings s /\
  sv_allowedChainIds s' = sv_allowedChainIds s /\ sv_highPrioSigners s' = sv_highPrioSigners s /\
  sv_globallyLimitedMethods s' = sv_globallyLimitedMethods s /\
  sv_enableRequestLog s' = sv_enableRequestLog s /\ sv_maxRequestBodyLogLen s' = sv_maxRequestBodyLogLen s.

#[local] Instance same_config_preorder : PreOrder same_config.
Proof. split; [by intros s|]. intros s1 s2 s3 (A1 & A2 & A3 & A4 & A5 & A6 & A7) (B1 & B2 & B3 & B4 & B5 & B6 & B7). by split_and!; etrans. Qed.

(** Asking a limiter: nobody is asked, or the limiter there is for the method is put back. *)
Lemma isLimited_inv now who method s b s' : isLimited now who method s = Returns (b, s') ->
  (b = false /\ s' = s /\ (rq_exempt who = true \/ limiter_for s who method = None)) \/
  exists lim put ok err lim', limiter_for s who method = Some (lim, put) /\ lim_Take now (rq_xff who) lim = Returns (ok, err, lim') /\
    s' = put lim' /\ (b = false -> ok = true /\ err = None).
Proof.
  unfold isLimited. intros H. destruct (negb _ && rq_exempt who) eqn:Ex.
  { injection H as <- <-. left. split_and!; [done|done|]. left. by apply andb_true_iff in Ex as [_ ?]. }
  destruct (limiter_for s who method) as [[lim put]|] eqn:El; [|injection H as <- <-; left; auto].
  right. step_outcome H. destruct a as [[ok err] lim']. exists lim, put, ok, err, lim'. split; [done|]. split; [done|].
  destruct err; injection H as <- <-; (split; [done|]); [done|]. by destruct ok.
Qed.

(** Putting a limiter back. *)
Lemma limiter_for_put s who method lim put : limiter_for s who method = Some (lim, put) -> forall lim',
  same_config s (put lim') /\ sv_senderLim (put lim') = sv_senderLim s /\ sv_interopSenderLim (put lim') = sv_interopSenderLim s.
Proof.
  unfold limiter_for. intros H lim'. destruct (bool_decide _).
  - destruct (sv_mainLim s); [|done]. by injection H as <- <-.
  - destruct (isHighPrio s who); [destruct (sv_highPrioOverrideLims s !! method)|destruct (sv_overrideLims s !! method)]; try done; by injection H as <- <-.
Qed.

Lemma isLimited_config now who method s b s' : isLimited now who method s = Returns (b, s') -> same_config s s'.
Proof.
  intros [(_ & -> & _)|(lim & put & ok & err & lim' & Hl & _ & -> & _)]%isLimited_inv; [done|].
  by eapply limiter_for_put in Hl as [? _].
Qed.

Lemma rateLimitSender_config now tx s err s' : rateLimitSender now tx s = Returns (err, s') -> same_config s s'.
Proof. unfold rateLimitSender. intros H. destruct (sv_senderLim s); [step_outcome H|]; by injection H as _ <-. Qed.

Lemma rateLimitInteropSender_config now tx s err s' : rateLimitInteropSender now tx s = Returns (err, s') -> same_config s s'.
Proof. unfold rateLimitInteropSender. intros H. destruct (sv_interopSenderLim s); [step_outcome H|]; by injection H as _ <-. Qed.

Lemma check_send_config now req s r s' : check_send now req s = Returns (r, s') -> same_config s s'.
Proof.
  unfold check_send, validateInteropSendRpcRequest. intros H.
  case_bool_decide; [|by injection H as <- <-]. destruct (convertSendReqToSendTx req) as [tx|]; [|by injection H as <- <-].
  step_outcome H. destruct a as [err s1]. apply rateLimitSender_config in E. destruct err; [by injection H as <- <-|]. etrans; [exact E|].
  destruct (checkInteropAndReturnAccessList tx) as [l []]; [|by injection H as <- <-]. cbn [negb] in H.
  step_outcome H. destruct a as [err s2]. apply rateLimitInteropSender_config in E0. destruct err; [by injection H as <- <-|]. etrans; [exact E0|].
  destruct (reqSizeLimitCheck _ _); [by injection H as <- <-|]. step_outcome H. by injection H as <- <-.
Qed.

(** The limit of the method, if it has one. *)
Lemma override_inv now who method s b s' :
  (match sv_overrideLims s !! method with Some _ => isLimited now who method s | None => Returns (false, s) end) = Returns (b, s') ->
  isLimited now who method s = Returns (b, s') \/ (b = false /\ s' = s).
Proof. destruct (sv_overrideLims s !! method); [by left|]. intros [= <- <-]. by right. Qed.

Lemma triage_config now who n raw s v s' : triage now who n raw s = Returns (v, s') -> same_config s s'.
Proof.
  unfold triage. intros H. destruct (ParseRPCReq raw) as [req|]; [|by injection H as <- <-].
  destruct (_ && _); [by injection H as <- <-|]. destruct (ValidateRPCReq req); [by injection H as <- <-|].
  case_bool_decide; [by injection H as <- <-|]. case_bool_decide; [by injection H as <- <-|].
  step_outcome H. destruct a as [b s1]. apply isLimited_config in E. destruct b; [by injection H as <- <-|]. etrans; [exact E|].
  step_outcome H. destruct a as [b s2]. assert (H2 : same_config s1 s2) by (apply override_inv in E0 as [E0|[_ ->]]; [by eapply isLimited_config|done]).
  destruct b; [by injection H as <- <-|]. etrans; [exact H2|].
  step_outcome H. destruct a as [r s3]. apply check_send_config in E1. etrans; [exact E1|]. destruct r; by injection H as <- <-.
Qed.

Lemma sort_out_config clk who n : forall reqs i bt s r s', sort_out clk who n i reqs bt s = Returns (r, s') -> same_config s s'.
Proof.
  induction reqs as [|raw reqs IH]; intros i bt s r s' H; cbn [sort_out] in H; [by injection H as <- <-|].
  step_outcome H. destruct a as [v s1]. apply triage_config in E. etrans; [exact E|].
  destruct v; [by eapply IH|by injection H as <- <-|by eapply IH].
Qed.

Lemma sort_out_healthz clk who n : forall reqs i bt s r s',
  sort_out clk who n i reqs bt s = Returns (inl r, s') -> n = 1%nat /\ exists raw, raw ∈ reqs /\ res_ID r = expected_id n raw.
Proof.
  induction reqs as [|raw reqs IH]; intros i bt s r s' H; cbn [sort_out] in H; [done|].
  step_outcome H. destruct a as [v s1]. destruct v as [r1|r1|g1 q1].
  - apply IH in H as (-> & raw' & Hr & He). split; [done|]. exists raw'. split; [by right|done].
  - injection H as <- <-. split; [by eapply triage_healthz|]. exists raw. split; [by left|]. by apply triage_id in E.
  - apply IH in H as (-> & raw' & Hr & He). split; [done|]. exists raw'. split; [by right|done].
Qed.

(** ** What the checks admit *)

Lemma isLimited_senderLim now who method s b s' : isLimited now who method s = Returns (b, s') -> sv_senderLim s' = sv_senderLim s.
Proof.
  intros [(_ & -> & _)|(lim & put & ok & err & lim' & Hl & _ & -> & _)]%isLimited_inv; [done|].
  by eapply limiter_for_put in Hl as (_ & ? & _).
Qed.

Lemma main_admitted now who s s1 : isLimited now who "" s = Returns (false, s1) ->
  (rq_exempt who = false -> forall lim, sv_mainLim s = Some lim -> exists lim', lim_Take now (rq_xff who) lim = Returns (true, None, lim')) /\
  sv_overrideLims s1 = sv_overrideLims s /\ sv_senderLim s1 = sv_senderLim s /\ same_config s s1.
Proof.
  intros H. split_and!; [|  |by eapply isLimited_senderLim|by eapply isLimited_config];
    apply isLimited_inv in H as [(_ & -> & Hn)|(lim0 & put & ok & err & lim' & Hl & Ht & -> & Hb)]; unfold limiter_for in *;
    rewrite bool_decide_eq_true_2 in * by done.
  - intros Hx lim Hl. rewrite Hl in Hn. destruct Hn; [congruence|done].
  - intros Hx lim Hm. rewrite Hm in Hl. injection Hl as -> _. destruct (Hb eq_refl) as [-> ->]. by exists lim'.
  - done.
  - destruct (sv_mainLim s); [|done]. by injection Hl as <- <-.
Qed.

Lemma override_admitted now who method s s' lim : isLimited now who method s = Returns (false, s') ->
  rq_exempt who = false -> method <> "" -> sv_overrideLims s !! method = Some lim -> isHighPrio s who = false ->
  exists lim', lim_Take now (rq_xff who) lim = Returns (true, None, lim').
Proof.
  intros H Hx Hne Hl Hp. assert (Hf : exists put, limiter_for s who method = Some (lim, put)).
  { unfold limiter_for. rewrite bool_decide_eq_false_2, Hp, Hl by done. by eexists. }
  destruct Hf as [put0 Hf]. apply isLimited_inv in H as [(_ & _ & [?|?])|(lim0 & put & ok & err & lim' & Hl' & Ht & _ & Hb)]; [congruence..|].
  rewrite Hf in Hl'. injection Hl' as <- _. destruct (Hb eq_refl) as [-> ->]. by exists lim'.
Qed.

Lemma send_admitted now req s s' : check_send now req s = Returns (None, s') ->
  req_Method req ∈ ["eth_sendRawTransaction"; "eth_sendRawTransactionConditional"] ->
  exists tx, convertSendReqToSendTx req = inl tx /\
    forall lim, sv_senderLim s = Some lim -> isAllowedChainId s (tx_ChainId tx) = true /\ exists signer from lim',
      types_Sender signer tx = inl from /\ lim_Take now (sender_key from (tx_Nonce tx)) lim = Returns (true, None, lim').
Proof.
  intros H Hin. unfold check_send in H. rewrite bool_decide_eq_true_2 in H by done.
  destruct (convertSendReqToSendTx req) as [tx|]; [|done]. exists tx. split; [done|]. intros lim Hl.
  unfold rateLimitSender in H. rewrite Hl in H. step_outcome H. step_outcome E. destruct a0 as [err lim1]. injection E as <-. cbn [fst] in H.
  destruct err; [done|]. unfold genericRateLimitSender in E0.
  destruct (isAllowedChainId s (tx_ChainId tx)); [|done]. split; [done|]. cbn [negb] in E0.
  destruct (types_Sender _ tx) as [from|] eqn:Ef; [|done]. step_outcome E0.
  destruct a as [[[] [err|]] lim'] eqn:Et; try done. by eexists _, from, lim'.
Qed.

(** ** Where a panic comes from *)

(** What the server relies on: a call of a group with requests that can be sent answers every one of
    them, or fails, and what it answers can be written. A call that is not a batch has one request. *)
Definition groups_answer : Prop := forall group reqs isBatch g resp reqs' g',
  group_forward group reqs isBatch g = Returns (resp, reqs', g') -> Forall sendable reqs ->
  (isBatch = false -> (length reqs <= 1)%nat) -> complete (length reqs) resp.

(** The errors of the interop strategy can be written. *)
Definition strategy_ok : Prop := forall l i err i', ValidateAccessList l i = Returns (Some err, i') -> ok_error err.

(** The responses there are so far can be written. *)
Definition all_written (responses : list (option RPCRes)) : Prop :=
  Forall (fun o => match o with Some r => writable r = true | None => True end) responses.

Lemma all_written_insert i r responses : writable r = true -> all_written responses -> all_written (<[i := Some r]> responses).
Proof. intros Hr H. by apply Forall_insert. Qed.

Lemma all_written_none n : all_written (replicate n None).
Proof. apply Forall_replicate. done. Qed.

(** *** The limiters do not panic *)

Context {LS : SafeLimiter L}.

Definition opt_ok (o : option L) : Prop := match o with Some lim => lim_ok lim | None => True end.

(** All limiters of the server are safe to ask. *)
Record limiters_ok s : Prop := {
  ok_main : opt_ok (sv_mainLim s);
  ok_override : map_Forall (fun _ => lim_ok) (sv_overrideLims s);
  ok_highPrio : map_Forall (fun _ => lim_ok) (sv_highPrioOverrideLims s);
  ok_sender : opt_ok (sv_senderLim s);
  ok_interop : opt_ok (sv_interopSenderLim s);
}.

Lemma limiter_for_ok s who method lim put : limiters_ok s -> limiter_for s who method = Some (lim, put) ->
  lim_ok lim /\ forall lim', lim_ok lim' -> limiters_ok (put lim').
Proof.
  intros [H1 H2 H3 H4 H5] H. unfold limiter_for in H. destruct (bool_decide _).
  - destruct (sv_mainLim s); [|done]. injection H as <- <-. split; [done|]. intros lim' H'. by constructor.
  - destruct (isHighPrio s who).
    + destruct (sv_highPrioOverrideLims s !! method) as [l|] eqn:E; [|done]. injection H as <- <-. split; [by eapply H3|].
      intros lim' H'. constructor; [done|done| |done|done]. by apply map_Forall_insert_2.
    + destruct (sv_overrideLims s !! method) as [l|] eqn:E; [|done]. injection H as <- <-. split; [by eapply H2|].
      intros lim' H'. constructor; [done| |done|done|done]. by apply map_Forall_insert_2.
Qed.

Lemma isLimited_returns now who method s : limiters_ok s -> exists b s', isLimited now who method s = Returns (b, s') /\ limiters_ok s'.
Proof.
  intros Hs. unfold isLimited. destruct (_ && _); [by eexists _, _|].
  destruct (limiter_for s who method) as [[lim put]|] eqn:El; [|by eexists _, _].
  destruct (limiter_for_ok _ _ _ _ _ Hs El) as [Hl Hput].
  destruct (lim_ok_Take now (rq_xff who) lim Hl) as (ok & err & lim' & -> & Hl'). cbn [outcome_bind].
  destruct err; (eexists _, _; split; [done|by apply Hput]).
Qed.

Lemma genericRateLimitSender_returns now tx lim s : lim_ok lim ->
  exists err lim', genericRateLimitSender now tx lim s = Returns (err, lim') /\ lim_ok lim'.
Proof.
  intros Hl. unfold genericRateLimitSender. destruct (negb _); [by eexists _, _|]. destruct (types_Sender _ tx) as [from|]; [|by eexists _, _].
  destruct (lim_ok_Take now (sender_key from (tx_Nonce tx)) lim Hl) as ([] & [err|] & lim' & -> & Hl'); by eexists _, _.
Qed.

Lemma rateLimitSender_returns now tx s : limiters_ok s -> exists err s', rateLimitSender now tx s = Returns (err, s') /\ limiters_ok s'.
Proof.
  intros Hs. pose proof (ok_sender _ Hs) as Hl. unfold rateLimitSender. destruct (sv_senderLim s) as [lim|]; [|by eexists _, _].
  destruct (genericRateLimitSender_returns now tx lim s Hl) as (err & lim' & -> & Hl'). eexists _, _. split; [done|].
  destruct Hs. by constructor.
Qed.

Lemma rateLimitInteropSender_returns now tx s : limiters_ok s ->
  exists err s', rateLimitInteropSender now tx s = Returns (err, s') /\ limiters_ok s'.
Proof.
  intros Hs. pose proof (ok_interop _ Hs) as Hl. unfold rateLimitInteropSender. destruct (sv_interopSenderLim s) as [lim|]; [|by eexists _, _].
  destruct (genericRateLimitSender_returns now tx lim s Hl) as (err & lim' & -> & Hl'). eexists _, _. split; [done|].
  destruct Hs. by constructor.
Qed.

(** With such limiters only the interop strategy can panic. *)
Definition safely {A} (m : outcome (A * Server Addr L C I)) : Prop :=
  match m with Returns (_, s') => limiters_ok s' | Panics msg => exists l i, ValidateAccessList l i = Panics msg end.

Lemma check_send_safe now req s : limiters_ok s -> safely (check_send now req s).
Proof.
  intros Hs. unfold check_send. case_bool_decide; [|done]. destruct (convertSendReqToSendTx req) as [tx|]; [|done].
  destruct (rateLimitSender_returns now tx s Hs) as (err & s1 & -> & Hs1). cbn [outcome_bind]. destruct err; [done|].
  unfold validateInteropSendRpcRequest. destruct (checkInteropAndReturnAccessList tx) as [l []]; [|done]. cbn [negb].
  destruct (rateLimitInteropSender_returns now tx s1 Hs1) as (err & s2 & -> & Hs2). cbn [outcome_bind]. destruct err; [done|].
  destruct (reqSizeLimitCheck _ _); [done|]. destruct (ValidateAccessList l (sv_interopStrategy s2)) as [r|m] eqn:Ev; [|by eexists _, _].
  destruct Hs2. by constructor.
Qed.

Lemma triage_safe now who n raw s : limiters_ok s -> safely (triage now who n raw s).
Proof.
  intros Hs. unfold triage. destruct (ParseRPCReq raw) as [req|]; [|done]. destruct (_ && _); [done|]. destruct (ValidateRPCReq req); [done|].
  case_bool_decide; [done|]. case_bool_decide; [done|].
  destruct (isLimited_returns now who "" s Hs) as ([] & s1 & -> & Hs1); cbn [outcome_bind]; [done|].
  assert (Ho : exists b s2, (match sv_overrideLims s1 !! req_Method req with
     | Some _ => isLimited now who (req_Method req) s1 | None => Returns (false, s1) end) = Returns (b, s2) /\ limiters_ok s2).
  { destruct (sv_overrideLims s1 !! req_Method req); [by apply isLimited_returns|by eexists _, _]. }
  destruct Ho as ([] & s2 & -> & Hs2); cbn [outcome_bind]; [done|]. pose proof (check_send_safe now req s2 Hs2) as Hc.
  destruct (check_send now req s2) as [[[err|] s3]|m]; done.
Qed.

Lemma sort_out_safe clk who n : forall reqs i bt s, limiters_ok s -> safely (sort_out clk who n i reqs bt s).
Proof.
  induction reqs as [|raw reqs IH]; intros i bt s Hs; cbn [sort_out]; [done|].
  pose proof (triage_safe (clk i) who n raw s Hs) as Ht. destruct (triage (clk i) who n raw s) as [[v s1]|m]; [|done]. cbn [outcome_bind].
  destruct v; [by apply IH|done|by apply IH].
Qed.

Lemma server_PutRPC_returns ctx req r c : writable r = true -> exists c', server_PutRPC ctx req r c = Returns c'.
Proof.
  intros Hm. unfold server_PutRPC. destruct c as [c|]; [|by eexists]. unfold PutRPC. destruct (handlers _) as [h|]; [|by eexists].
  unfold PutRPCMethod. destruct (negb _); [by eexists|]. destruct (negb _); [by eexists|]. unfold mustMarshalJSON.
  unfold writable in Hm. destruct (res_Result r) as [v|]; [|by eexists]. rewrite !andb_true_iff in Hm. destruct Hm as [[Hv _] _].
  apply writable_value_spec in Hv as (t & _ & -> & _). by eexists.
Qed.

Lemma store_returns ctx : forall elems reqs res responses c, length res = length elems -> all_writable res ->
  exists responses' c', store ctx elems reqs res responses c = Returns (responses', c') /\ (all_written responses -> all_written responses').
Proof.
  induction elems as [|e elems IH]; intros reqs res responses c Hl Hm; cbn [store]; [by eexists _, _|].
  destruct res as [|r res]; [done|]. apply Forall_cons in Hm as [Hr Hm]. injection Hl as Hl.
  assert (Hp : exists c', (match res_Error r, res_Result r with
    | None, Some _ => server_PutRPC ctx (default (el_Req e) (head reqs)) r c | _, _ => Returns c end) = Returns c').
  { destruct (res_Error r); [by eexists|]. destruct (res_Result r) eqn:Ev; [|by eexists]. by apply server_PutRPC_returns. }
  destruct Hp as [c' ->]. cbn [outcome_bind].
  destruct (IH (tail reqs) res (<[el_Index e := Some r]> responses) c' Hl Hm) as (responses' & c2 & Hs & Hw). exists responses', c2.
  split; [done|]. intros H. by apply Hw, all_written_insert.
Qed.

(** A cached response is the result of a decoder. *)
Lemma server_GetRPC_writable ctx req c r c' : sendable req -> server_GetRPC ctx req c = (Some r, c') -> writable r = true.
Proof.
  intros Hs%sendable_id H. unfold server_GetRPC in H. destruct c as [c|]; [|done]. unfold GetRPC in H. destruct (handlers _) as [h|]; [|done].
  unfold GetRPCMethod in H. destruct (negb _); [done|]. destruct (cache_Get _ c) as [[val|err] c1]; [|done]. case_bool_decide; [done|].
  destruct (decode_result val) as [x|] eqn:E; [|done]. injection H as <- <-. apply writable_result; [|done].
  destruct x as [v|]; [|done]. by eapply wf_value_writable, decode_result_wf.
Qed.

Lemma lookup_batch_written ctx : forall batch responses c responses' hit misses c', Forall (fun e => sendable (el_Req e)) batch ->
  lookup_batch ctx batch responses c = (responses', hit, misses, c') -> all_written responses -> all_written responses'.
Proof.
  induction batch as [|e batch IH]; intros responses c responses' hit misses c' Hs H Hw; cbn [lookup_batch] in H; [by injection H as <- _ _ _|].
  apply Forall_cons in Hs as [He Hs]. destruct (server_GetRPC ctx (el_Req e) c) as [[r|] c1] eqn:E.
  - destruct (lookup_batch _ _ _ _) as [[[r1 h1] m1] c2] eqn:El. injection H as <- _ _ _. eapply IH; [done|exact El|].
    apply all_written_insert; [by eapply server_GetRPC_writable|done].
  - destruct (lookup_batch _ _ _ _) as [[[r1 h1] m1] c2] eqn:El. injection H as <- _ _ _. by eapply IH.
Qed.

(** *** What the server answers itself *)

Lemma ValidateRPCReq_ok req err : ValidateRPCReq req = Some err -> ok_error err.
Proof. unfold ValidateRPCReq. intros H. repeat case_match; simplify_eq; eauto with replies. Qed.

Lemma convertSend_ok req err : convertSendReqToSendTx req = inr err -> ok_error err.
Proof. unfold convertSendReqToSendTx. intros H. repeat case_match; simplify_eq; eauto with replies. Qed.

Lemma genericRateLimitSender_ok now tx lim s err lim' : genericRateLimitSender now tx lim s = Returns (Some err, lim') -> ok_error err.
Proof.
  unfold genericRateLimitSender. intros H. destruct (negb _); [injection H as <- _; eauto with replies|].
  destruct (types_Sender _ tx); [|injection H as <- _; eauto with replies]. step_outcome H.
  destruct a as [[[] [e|]] l]; try done; injection H as <- _; eauto with replies.
Qed.

Lemma check_send_ok now req s err s' : strategy_ok -> check_send now req s = Returns (Some err, s') -> ok_error err.
Proof.
  intros Hst H. unfold check_send in H. case_bool_decide; [|done].
  destruct (convertSendReqToSendTx req) as [tx|e] eqn:Ec; [|injection H as <- _; by eapply convertSend_ok].
  step_outcome H. destruct a as [[e|] s1].
  { injection H as <- _. unfold rateLimitSender in E. destruct (sv_senderLim s) as [lim|]; [|done]. step_outcome E. destruct a as [e' lim'].
    injection E as -> _. by eapply genericRateLimitSender_ok. }
  unfold validateInteropSendRpcRequest in H. destruct (checkInteropAndReturnAccessList tx) as [l []]; [|done]. cbn [negb] in H.
  step_outcome H. destruct a as [[e|] s2].
  { injection H as <- _. unfold rateLimitInteropSender in E0. destruct (sv_interopSenderLim s1) as [lim|]; [|done]. step_outcome E0. destruct a as [e' lim'].
    injection E0 as -> _. by eapply genericRateLimitSender_ok. }
  destruct (reqSizeLimitCheck tx _) as [e|] eqn:Es.
  { injection H as <- _. unfold reqSizeLimitCheck in Es. repeat case_match; simplify_eq; eauto with replies. }
  step_outcome H. destruct a as [e i]. injection H as -> _. by eapply Hst.
Qed.

Lemma triage_written now who n raw s v s' : strategy_ok -> triage now who n raw s = Returns (v, s') ->
  match v with Respond r | Healthz r => writable r = true | Enqueue _ _ => True end.
Proof.
  intros Hst H. unfold triage in H. destruct (ParseRPCReq raw) as [req|e] eqn:Ep.
  2: { injection H as <- _. unfold ParseRPCReq in Ep. destruct (decode_RPCReq raw); [done|]. by injection Ep as <-. }
  pose proof (sendable_id _ (parsed_sendable _ _ Ep)) as Hid. destruct (_ && _); [injection H as <- _; by apply writable_result|].
  destruct (ValidateRPCReq req) as [e|] eqn:Ev; [injection H as <- _; apply NewRPCErrorRes_writable; [done|by eapply ValidateRPCReq_ok]|].
  case_bool_decide; [injection H as <- _; by apply writable_result|].
  assert (Hrej : forall e, ok_error e -> match reject req e with Respond r | Healthz r => writable r = true | Enqueue _ _ => True end)
    by (intros e He; by apply NewRPCErrorRes_writable).
  case_bool_decide; [injection H as <- _; by apply Hrej|]. step_outcome H. destruct a as [[] s1]; [injection H as <- _; by apply Hrej|].
  step_outcome H. destruct a as [[] s2]; [injection H as <- _; by apply Hrej|].
  step_outcome H. destruct a as [[e|] s3]; injection H as <- _; [|done]. apply Hrej. by eapply check_send_ok.
Qed.

Lemma sort_out_written clk who n : strategy_ok -> forall reqs i bt s r s', sort_out clk who n i reqs bt s = Returns (r, s') ->
  all_written (bt_responses bt) -> match r with inl res => writable res = true | inr bt' => all_written (bt_responses bt') end.
Proof.
  intros Hst. induction reqs as [|raw reqs IH]; intros i bt s r s' H Hw; cbn [sort_out] in H; [by injection H as <- _|].
  step_outcome H. destruct a as [v s1]. apply triage_written in E; [|done]. destruct v as [x|x|group req].
  - eapply IH; [exact H|]. by apply all_written_insert.
  - by injection H as <- _.
  - by eapply IH.
Qed.

(** The request [req] is one of the texts, and its method is mapped to [group]. *)
Definition asked (reqs : list string) (mappings : gmap string string) (group : string) (req : RPCReq) : Prop :=
  exists raw, raw ∈ reqs /\ ParseRPCReq raw = inl req /\ mappings !! req_Method req = Some group.

Lemma asked_sendable reqs mappings group req : asked reqs mappings group req -> sendable req.
Proof. intros (raw & _ & Hp & _). by eapply parsed_sendable. Qed.

Lemma triage_asked now who n raw s group req s' : triage now who n raw s = Returns (Enqueue group req, s') ->
  ParseRPCReq raw = inl req /\ sv_rpcMethodMappings s !! req_Method req = Some group.
Proof.
  unfold triage. intros H. destruct (ParseRPCReq raw) as [req'|]; [|done].
  destruct (_ && _); [done|]. destruct (ValidateRPCReq req'); [done|]. case_bool_decide; [done|]. case_bool_decide as Eg; [done|].
  step_outcome H. destruct a as [[] s1]; [done|]. step_outcome H. destruct a as [[] s2]; [done|].
  step_outcome H. destruct a as [[err|] s3]; [done|]. injection H as <- -> <-. split; [done|].
  by destruct (sv_rpcMethodMappings s !! req_Method req) eqn:Em.
Qed.

(** What is queued for a group was asked of it. *)
Definition queued_asked (reqs : list string) (mappings : gmap string string) (bt : batching) : Prop :=
  forall bg l, bt_batches bt !! bg = Some l -> Forall (fun e => asked reqs mappings (snd bg) (el_Req e)) l.

Lemma queued_asked_empty reqs mappings n : queued_asked reqs mappings (mkBatching (replicate n None) ∅ ∅).
Proof. intros bg l Hl. cbn in Hl. by rewrite lookup_empty in Hl. Qed.

Lemma sort_out_asked clk who n reqs mappings : forall rest i bt s bt' s', (forall raw, raw ∈ rest -> raw ∈ reqs) ->
  sv_rpcMethodMappings s = mappings -> queued_asked reqs mappings bt ->
  sort_out clk who n i rest bt s = Returns (inr bt', s') -> queued_asked reqs mappings bt'.
Proof.
  induction rest as [|raw rest IH]; intros i bt s bt' s' Hin Hs Hq H; cbn [sort_out] in H; [by injection H as <- <-|].
  step_outcome H. destruct a as [v s1]. pose proof (triage_config _ _ _ _ _ _ _ E) as (_ & Hm & _).
  destruct v as [r|r|group req]; [|done|]; (eapply IH; [| | |exact H]; [intros x Hx; apply Hin; by right|by rewrite Hm|]); [exact Hq|].
  apply triage_asked in E as [Hp Hg]. intros bg l Hl. unfold enqueue in Hl. cbn in Hl. apply lookup_insert_Some in Hl as [[<- <-]|[_ Hl]]; [|by apply Hq].
  apply Forall_app. split; [|constructor; [|constructor]; exists raw; rewrite <- Hs; split_and!; [apply Hin; by left|done|done]].
  destruct (bt_batches bt !! (S (default O (bt_ids bt !! req_ID req)), group)) as [l0|] eqn:E0; [exact (Hq _ _ E0)|constructor].
Qed.

Section panics.
Context (Inv : G -> Prop) (P : string -> RPCReq -> Prop) (isBatch : bool).
Context (Hinv : forall group rs g resp rs' g', Inv g -> group_forward group rs isBatch g = Returns (resp, rs', g') -> Inv g').
Context (Hg : groups_answer) (HP : forall group req, P group req -> sendable req).

(** The calls of a minibatch: some, with distinct ids, and only one without a batch. *)
Definition mini_ok (group : string) (elems : list batchElem) : Prop :=
  elems <> [] /\ Forall (fun e => P group (el_Req e)) elems /\ NoDup (map (fun e => req_ID (el_Req e)) elems) /\
  (isBatch = false -> (length elems <= 1)%nat).

(** A group was called with such calls, and panicked. *)
Definition call_panics (msg : string) : Prop := exists group rs g0, group_forward group rs isBatch g0 = Panics msg /\
  Inv g0 /\ rs <> [] /\ Forall (P group) rs /\ NoDup (map req_ID rs).

(** What carrying on from [p] to [p'] keeps. *)
Definition carried (p p' : progress (C := C) (G := G)) : Prop :=
  Inv (pg_groups p') /\ (all_written (pg_responses p) -> all_written (pg_responses p')).

Lemma forward_minibatch_panic ctx group elems p : mini_ok group elems -> Inv (pg_groups p) ->
  match forward_minibatch ctx group isBatch elems p with
  | Returns (p', _) => carried p p'
  | Panics msg => call_panics msg
  end.
Proof.
  intros (Hne & Hps & Hnd & Hb) Hi. unfold forward_minibatch.
  destruct (group_forward group (createBatchRequest elems) isBatch (pg_groups p)) as [[[resp reqs1] g1]|m] eqn:E; cbn [outcome_bind].
  2: { eexists group, _, _. split; [exact E|]. split; [done|]. unfold createBatchRequest. split; [by destruct elems|].
       rewrite Forall_map, map_map. done. }
  pose proof (Hinv _ _ _ _ _ _ Hi E) as Hi'. assert (Hs : Forall (fun e => sendable (el_Req e)) elems).
  { eapply Forall_impl; [exact Hps|]. intros e. apply HP. }
  specialize (Hg _ _ _ _ _ _ _ E). unfold createBatchRequest in Hg. rewrite Forall_map, length_map in Hg.
  specialize (Hg Hs Hb). clear E. rename Hg into E.
  unfold complete in E. destruct (gr_error resp) as [err|].
  - destruct (receipts_error err); [by split|].
    destruct (store_returns ctx elems reqs1 (map (fun e => NewRPCErrorRes (req_ID (el_Req e)) err) elems) (pg_responses p) (pg_cache p))
      as (rs & c & Hr & Hw); [by rewrite length_map| |by rewrite Hr].
    apply Forall_map. eapply Forall_impl; [exact Hs|]. intros e He%sendable_id. by apply NewRPCErrorRes_writable.
  - destruct E as [Hl Hm]. destruct (store_returns ctx elems reqs1 (gr_RPCRes resp) (pg_responses p) (pg_cache p)) as (rs & c & Hr & Hw); [done|done|by rewrite Hr].
Qed.

Lemma forward_minibatches_panic ctx group expired : forall minis i p, Forall (mini_ok group) minis -> Inv (pg_groups p) ->
  match forward_minibatches ctx group isBatch expired i minis p with
  | Returns (p', _) => carried p p'
  | Panics msg => call_panics msg
  end.
Proof.
  induction minis as [|elems minis IH]; intros i p Hm Hi; cbn [forward_minibatches]; [by split|]. apply Forall_cons in Hm as [He Hm].
  destruct (expired i); [by split|]. pose proof (forward_minibatch_panic ctx group elems p He Hi) as H.
  destruct (forward_minibatch ctx group isBatch elems p) as [[p1 [err|]]|m]; cbn [outcome_bind]; [done| |done].
  destruct H as [Hi1 Hw1]. specialize (IH (S i) p1 Hm Hi1). destruct (forward_minibatches _ _ _ _ _ _ _) as [[p2 e2]|m]; [|done].
  destruct IH as [Hi2 Hw2]. split; auto.
Qed.

Definition batch_ok (b : batchGroup * list batchElem) : Prop :=
  Forall (fun e => P (snd (fst b)) (el_Req e)) (snd b) /\ NoDup (map (fun e => req_ID (el_Req e)) (snd b)) /\
  (isBatch = false -> (length (snd b) <= 1)%nat).

Lemma minibatches_ok k bg batch misses : batch_ok (bg, batch) -> misses `sublist_of` batch ->
  Forall (mini_ok (snd bg)) (map (minibatch k misses) (seq 0 (numBatches k (length misses)))).
Proof.
  intros (Hps & Hn & Hb) Hs. destruct (Z.ltb_spec 0 k) as [Hk|Hk]; [|unfold numBatches; rewrite (proj2 (Z.ltb_ge 0 k)) by done; constructor].
  apply Forall_map, Forall_forall. intros i Hi%elem_of_seq.
  assert (Hsub : minibatch k misses i `sublist_of` batch).
  { etrans; [|exact Hs]. unfold minibatch. etrans; [apply sublist_take|apply sublist_drop]. }
  split; [apply minibatch_nonempty; [done|lia]|]. split; [apply Forall_forall; intros e He; rewrite Forall_forall in Hps; by eapply Hps, elem_of_sublist|].
  split; [|intros Hx; specialize (Hb Hx); apply sublist_length in Hsub; cbn in Hb; lia].
  eapply sublist_NoDup; [exact Hn|]. apply (fmap_sublist (fun e => req_ID (el_Req e))), Hsub.
Qed.

Lemma serve_batches_panic ctx k expired : forall batches cached p, Forall batch_ok batches -> Inv (pg_groups p) ->
  match serve_batches ctx k isBatch expired batches cached p with
  | Returns (p', _, _) => carried p p'
  | Panics msg => call_panics msg
  end.
Proof.
  induction batches as [|[bg batch] batches IH]; intros cached p Hb Hi; cbn [serve_batches]; [by split|]. apply Forall_cons in Hb as [Hbg Hb].
  destruct (lookup_batch ctx batch _ _) as [[[r1 hit] misses] c1] eqn:El. pose proof (lookup_batch_sublist _ _ _ _ _ _ _ _ El) as Hsub.
  assert (Hw0 : all_written (pg_responses p) -> all_written r1).
  { eapply lookup_batch_written; [|exact El]. destruct Hbg as [Hps _]. eapply Forall_impl; [exact Hps|]. intros e. apply HP. }
  pose proof (forward_minibatches_panic ctx (snd bg) (expired bg) _ 0 (mkProgress r1 (pg_servedBy p) c1 (pg_groups p)) (minibatches_ok k bg batch misses Hbg Hsub) Hi) as Hf.
  destruct (forward_minibatches _ _ _ _ _ _ _) as [[p1 [err|]]|m]; cbn [outcome_bind]; [destruct Hf; split; auto| |done].
  destruct Hf as [Hi1 Hw1]. specialize (IH (cached || hit) p1 Hb Hi1). destruct (serve_batches _ _ _ _ _ _ _) as [[[p2 c2] e2]|m]; [|done].
  destruct IH as [Hi2 Hw2]. split; auto.
Qed.

End panics.

(** A request that is not a batch leads to batches of one call. *)
Lemma sorted_out_single reqs bt : length reqs = 1%nat -> sorted_out reqs (length reqs) bt ->
  forall bg l, bt_batches bt !! bg = Some l -> (length l <= 1)%nat.
Proof.
  intros Hn [_ _ _ H4 _ H6] bg l Hl. pose proof (H6 bg l Hl) as Hd. destruct l as [|e1 [|e2 l]]; [cbn; lia|cbn; lia|exfalso].
  assert (Hw : forall e, e ∈ e1 :: e2 :: l -> waits bt e) by (intros e He; by exists bg, (e1 :: e2 :: l)).
  destruct (H4 e1) as (raw1 & R1 & I1); [apply Hw; by left|]. destruct (H4 e2) as (raw2 & R2 & I2); [apply Hw; right; by left|].
  assert (el_Index e1 = el_Index e2) as Hi by (apply lookup_lt_Some in R1; apply lookup_lt_Some in R2; lia).
  assert (raw1 = raw2) as -> by congruence.
  cbn in Hd. apply NoDup_cons in Hd as [Hd _]. apply Hd. rewrite I1, <- I2. by left.
Qed.

(** ** Properties *)

(** The range over the batches visits each of them once. *)
Definition range_ok (env : batch_env) : Prop := forall m, be_range env m ≡ₚ map_to_list m.

Lemma handleBatchRPC_complete ctx env who reqs isBatch s g responses cached by' s' g' :
  range_ok env -> 0 < sv_maxUpstreamBatchSize s ->
  handleBatchRPC ctx env who reqs isBatch s g = Returns (inl (responses, cached, by'), s', g') ->
  length responses = length reqs /\
  (forall j, (j < length reqs)%nat -> answered responses j) /\
  (keeps_ids -> forall j raw r, reqs !! j = Some raw -> responses !! j = Some (Some r) ->
     res_ID r = expected_id (length reqs) raw).
Proof.
  intros Hr Hk H. unfold handleBatchRPC in H. step_outcome H. destruct a as [[res|bt] s1].
  - apply sort_out_healthz in E as (En & raw & Hraw & Hid). injection H as <- <- <- <- <-. rewrite En in *.
    destruct reqs as [|raw0 [|]]; try done. apply list_elem_of_singleton in Hraw as ->. split; [done|]. split.
    + intros [|j] Hj; [by exists res|cbn in Hj; lia].
    + intros _ [|j] raw' r Hj Hr'; [|done]. cbn in Hj, Hr'. by simplify_eq.
  - destruct (sort_out_config _ _ _ _ _ _ _ _ _ E) as [Hmax _].
    apply sort_out_sorted in E; [|done|lia|apply sorted_out_start]. destruct E as [H1 H2 H3 H4 _ _].
    step_outcome H. destruct a as [[p cached1] [err|]]; [done|]. injection H as <- <- <- <- <-.
    assert (Hb : forall bg l, (bg, l) ∈ be_range env (bt_batches bt) <-> bt_batches bt !! bg = Some l).
    { intros bg l. by rewrite (Hr (bt_batches bt)), elem_of_map_to_list. }
    apply serve_batches_served with (reqs := reqs) in E as [[A1 A2] K D].
    + split; [done|]. split; [|done]. intros j Hj. destruct (H2 j Hj) as [Hj'|(e & (bg & l & Hl & He) & <-)]; [by apply K|].
      apply D, list_elem_of_In, in_concat. exists l. rewrite <- !list_elem_of_In. split; [|done].
      apply list_elem_of_fmap. exists (bg, l). split; [done|]. by apply Hb.
    + by rewrite Hmax.
    + split; [done|]. intros _. exact H3.
    + apply Forall_forall. intros [bg l] Hl%Hb. apply Forall_forall. intros e He. apply H4. by exists bg, l.
Qed.

(** C2: a batch is answered completely: there is one response per call, none is missing, and the
    response at a position carries the id of the call at that position (no id if the call is
    malformed) as long as the backend groups answer with the ids they were sent - whatever the cache
    holds, however often ids repeat, and in whatever order the upstream batches are served. The
    upstream batch size is taken to be positive: it is never zero, and a negative one would send nothing. *)
Theorem batch_complete ctx env who reqs isBatch s g responses cached by' s' g' :
  range_ok env -> 0 < sv_maxUpstreamBatchSize s ->
  handleBatchRPC ctx env who reqs isBatch s g = Returns (inl (responses, cached, by'), s', g') ->
  length responses = length reqs /\
  (forall j, (j < length reqs)%nat -> answered responses j) /\
  (keeps_ids -> forall j raw r, reqs !! j = Some raw -> responses !! j = Some (Some r) ->
     res_ID r = expected_id (length reqs) raw).
Proof. apply handleBatchRPC_complete. Qed.

(** The server adds no panic of its own: as long as the groups answer every request of a successful
    call, and the limiters are safe to ask, a request panics only where the interop strategy or a group panics - no response is missing
    when the responses are stored, and nothing that is cached fails to be marshalled. A group that
    panics was called with requests of the client that are mapped to it and have distinct ids. And all
    responses can be written. *)
Lemma handleBatchRPC_panics (Inv : G -> Prop) ctx env who reqs isBatch s g :
  (forall group rs g resp rs' g', Inv g -> group_forward group rs isBatch g = Returns (resp, rs', g') -> Inv g') ->
  groups_answer -> range_ok env -> (isBatch = false -> length reqs = 1%nat) -> Inv g -> limiters_ok s ->
  match handleBatchRPC ctx env who reqs isBatch s g with
  | Returns (h, s', g') => same_config s s' /\ limiters_ok s' /\ Inv g' /\
      (strategy_ok -> forall responses cached by', h = inl (responses, cached, by') -> all_written responses)
  | Panics msg =>
      (exists l i, ValidateAccessList l i = Panics msg) \/ call_panics Inv (asked reqs (sv_rpcMethodMappings s)) isBatch msg
  end.
Proof.
  intros Hinv Hg Hr Hb Hi Hl. unfold handleBatchRPC.
  pose proof (sort_out_safe (be_clock env) who (length reqs) reqs 0 (mkBatching (replicate (length reqs) None) ∅ ∅) s Hl) as Hl1.
  destruct (sort_out _ _ _ _ _ _ _) as [[[res|bt] s1]|m] eqn:E; cbn [outcome_bind].
  - split; [by eapply sort_out_config|]. split; [done|]. split; [done|]. intros Hst responses cached by' [= <- _ _].
    apply sort_out_written in E; [by repeat constructor|done|apply all_written_none].
  - pose proof (sort_out_asked _ _ _ reqs (sv_rpcMethodMappings s) _ _ _ _ _ _ ltac:(done) eq_refl (queued_asked_empty _ _ _) E) as Hq.
    pose proof (sort_out_config _ _ _ _ _ _ _ _ _ E) as Hc.
    assert (Hw : strategy_ok -> all_written (bt_responses bt)) by (intros Hst; apply sort_out_written in E; [done|done|apply all_written_none]).
    apply sort_out_sorted in E; [|done|lia|apply sorted_out_start].
    assert (Hbs : Forall (batch_ok (asked reqs (sv_rpcMethodMappings s)) isBatch) (be_range env (bt_batches bt))).
    { apply Forall_forall. intros [bg l] Hin. rewrite (Hr (bt_batches bt)), elem_of_map_to_list in Hin. split; [by apply Hq|].
      split; [by eapply so_distinct|]. intros Hx. eapply sorted_out_single; [by apply Hb|exact E|exact Hin]. }
    pose proof (serve_batches_panic Inv _ isBatch Hinv Hg (asked_sendable reqs _) ctx (sv_maxUpstreamBatchSize s1) (be_expired env) _ false
      (mkProgress (bt_responses bt) [] (sv_cache s1) g) Hbs Hi) as Hs.
    destruct (serve_batches _ _ _ _ _ _ _) as [[[p cached] [err|]]|m]; cbn [outcome_bind]; [| |by right];
      destruct Hs as [Hs1 Hs2]; (split; [done|]); (split; [destruct Hl1; by constructor|]); (split; [done|]); [done|]. intros Hst responses c' by' [= <- _ _]. by apply Hs2, Hw.
  - by left.
Qed.

(** C7: what is sent upstream: every minibatch is non-empty, has at most [maxUpstreamBatchSize]
    calls, no two of them with the same id - so sorting its responses does not panic, whatever the
    backend answers - and together they are the calls the cache did not answer, in order. The size is
    taken to be positive. *)
Theorem upstream_batches clk who reqs s bt s' k ctx bg batch responses c responses' hit misses c' :
  sort_out clk who (length reqs) 0 reqs (mkBatching (replicate (length reqs) None) ∅ ∅) s = Returns (inr bt, s') ->
  bt_batches bt !! bg = Some batch -> 0 < k ->
  lookup_batch ctx batch responses c = (responses', hit, misses, c') ->
  concat (map (minibatch k misses) (seq 0 (numBatches k (length misses)))) = misses /\
  forall i, (i < numBatches k (length misses))%nat ->
    minibatch k misses i <> [] /\ Z.of_nat (length (minibatch k misses i)) <= k /\
    NoDup (map req_ID (createBatchRequest (minibatch k misses i))) /\
    forall res, exists sorted, sortBatchRPCResponse (createBatchRequest (minibatch k misses i)) res = Returns sorted.
Proof.
  intros Hs Hb Hk Hl. split; [by apply minibatches_concat|]. intros i Hi.
  apply sort_out_sorted in Hs; [|done|lia|apply sorted_out_start]. pose proof (so_distinct _ _ _ Hs _ _ Hb) as Hn.
  assert (Hsub : misses `sublist_of` batch) by (by eapply lookup_batch_sublist).
  assert (Hd : NoDup (map req_ID (createBatchRequest (minibatch k misses i)))).
  { unfold createBatchRequest. rewrite map_map. eapply sublist_NoDup; [exact Hn|]. apply (fmap_sublist (fun e => req_ID (el_Req e))).
    etrans; [|exact Hsub]. unfold minibatch. etrans; [apply sublist_take|apply sublist_drop]. }
  split_and!; [|unfold minibatch; rewrite length_take; lia|done|].
  - apply minibatch_nonempty; done.
  - intros res. unfold sortBatchRPCResponse. rewrite bool_decide_eq_true_2 by done. by eexists.
Qed.

(** C6: nothing is forwarded that should not be. A call that is queued for a backend group was
    parsed and is valid; its method is mapped to that very group; the main limiter and the one of its
    method have admitted the client, unless it is exempt or signed with high priority; and a
    transaction being sent decodes, and with a limit on senders its chain is allowed, its signature
    yields a sender and that sender is within the limit. *)
Theorem forwarded_admitted now who n raw s group req s' :
  triage now who n raw s = Returns (Enqueue group req, s') ->
  ParseRPCReq raw = inl req /\ ValidateRPCReq req = None /\
  sv_rpcMethodMappings s !! req_Method req = Some group /\ group <> "" /\
  (rq_exempt who = false ->
     (forall lim, sv_mainLim s = Some lim -> exists lim', lim_Take now (rq_xff who) lim = Returns (true, None, lim')) /\
     (forall lim, isHighPrio s who = false -> req_Method req <> "" -> sv_overrideLims s !! req_Method req = Some lim ->
        exists lim', lim_Take now (rq_xff who) lim = Returns (true, None, lim'))) /\
  (req_Method req ∈ ["eth_sendRawTransaction"; "eth_sendRawTransactionConditional"] ->
     exists tx, convertSendReqToSendTx req = inl tx /\
       forall lim, sv_senderLim s = Some lim -> isAllowedChainId s (tx_ChainId tx) = true /\ exists signer from lim',
         types_Sender signer tx = inl from /\ lim_Take now (sender_key from (tx_Nonce tx)) lim = Returns (true, None, lim')).
Proof.
  unfold triage. intros H. destruct (ParseRPCReq raw) as [req'|]; [|done].
  destruct (_ && _); [done|]. destruct (ValidateRPCReq req') eqn:Ev; [done|].
  case_bool_decide as Ea; [done|]. case_bool_decide as Eg; [done|].
  destruct (isLimited now who "" s) as [[[] s1]|] eqn:E1; cbn [outcome_bind] in H; [done| |done].
  destruct (match sv_overrideLims s1 !! req_Method req' with Some _ => _ | None => _ end) as [[[] s2]|] eqn:E2; cbn [outcome_bind] in H; [done| |done].
  step_outcome H. destruct a as [[err|] s3]; [done|]. injection H as <- -> <-.
  destruct (main_admitted _ _ _ _ E1) as (Hm & Ho & Hs & Hc).
  split; [done|]. split; [done|]. split.
  { by destruct (sv_rpcMethodMappings s !! req_Method req) eqn:Em. }
  split; [done|]. split.
  - intros Hx. split; [by apply Hm|]. intros lim Hp Hne Hl. rewrite Ho, Hl in E2.
    eapply override_admitted; [exact E2|done|done|by rewrite Ho| ]. unfold isHighPrio in *.
    by destruct Hc as (_ & _ & _ & -> & _).
  - intros Hin. apply (send_admitted now req s2 s3) in E as (tx & Htx & Hlim); [|done]. exists tx. split; [done|].
    assert (sv_senderLim s2 = sv_senderLim s /\ same_config s1 s2) as [Hs2 Hc2].
    { rewrite <- Hs. destruct (sv_overrideLims s1 !! req_Method req); [|by injection E2 as <-].
      split; [by eapply isLimited_senderLim|by eapply isLimited_config]. }
    intros lim Hl. destruct (Hlim lim ltac:(congruence)) as [Hch Hrest]. split; [|done].
    unfold isAllowedChainId in *. destruct Hc as (_ & _ & Hc & _), Hc2 as (_ & _ & Hc2 & _). by rewrite Hc2, Hc in Hch.
Qed.

End server.

(** A negative length for logged bodies, which no check refuses, panics on every request. *)
Example negative_log_length text maxLen : maxLen < 0 -> truncate text maxLen = Panics "slice bounds out of range".
Proof.
  intros H. unfold truncate. destruct (Z.eqb_spec maxLen 0); [lia|]. rewrite (proj2 (Z.ltb_lt maxLen 0)) by done.
  by rewrite (proj2 (Z.ltb_lt _ _)) by lia.
Qed.

Module server_samples.
Import Cache.samples.

(** A transaction is its text; every sender is the same. *)
#[local] Instance text_txs : TxLib string := {|
  hex_Bytes t := if String.prefix "0x" t then inl (String.substring 2 (String.length t) t) else inr "hex string without 0x prefix";
  tx_UnmarshalBinary d := if bool_decide (d = "") then inr "typed transaction too short" else inl d;
  tx_ChainId _ := 10;
  types_Sender _ _ := inl "0xaa";
  tx_Nonce t := Z.of_nat (String.length t);
  tx_MarshalJSON t := Some t;
  TxToInteropAccessList _ := [];
|}.

(** Addresses and keys are texts, and a key is its own address. *)
#[local] Instance text_crypto : Crypto string string := {|
  nullAddress := "0x0";
  hexutil_Decode _ := None;
  keccak256_Hex t := t;
  TextHash t := t;
  Ecrecover h _ := Some h;
  UnmarshalPubkey := Some;
  PubkeyToAddress k := k;
  HexToAddress a := a;
  VerifySignature _ _ _ := true;
|}.

#[local] Instance no_interop : InteropStrategy unit := fun _ i => Returns (None, i).

(** A group that answers every call; its state counts the exchanges. *)
#[local] Instance echo_groups : Groups nat := fun group reqs _ g =>
  Returns (mkGroupResponse (map (fun r => NewRPCRes (req_ID r) (GRawMessage "1")) reqs) (group +:+ "/node") None, reqs, S g).

Definition no_limits : RateLimitConfig := mkRateLimitConfig 0 0 [] [] ∅ "".
Definition base_limits : RateLimitConfig := mkRateLimitConfig 5 Second [] [] {[ "eth_chainId" := mkOverride 1 Second false ]} "".

Definition sample_server : option (Server string MemoryFrontendRateLimiter
    (cacheWithCompression (memory_cache (gmap string string))) unit) :=
  match NewServer {[ "eth_chainId" := "main"; "eth_sendRawTransaction" := "main" ]} 0 ∅ 0 1 false (Some empty_cache)
    base_limits no_limits [] (mkSenderConfig true Second 1 [10]) (mkSenderConfig false 0 0 []) true 64 0
    (fun dur max _ => NewMemoryFrontendRateLimit dur max) (fun _ => inr (ENew "no patterns")) 0 tt [] with
  | inl s => Some s
  | inr _ => None
  end.

Definition client : requestor := mkRequestor false "0x0" "10.0.0.1".
Definition chain_call : string := jtext "{'jsonrpc':'2.0','method':'eth_chainId','params':[],'id':7}".
Definition send_call : string := jtext "{'jsonrpc':'2.0','method':'eth_sendRawTransaction','params':['0x01'],'id':7}".
Definition calls : list string := [chain_call; "oops"; send_call; chain_call].

Definition in_order_env : batch_env := mkBatchEnv (fun _ => 0) (fun m => map_to_list m) (fun _ _ => false) (fun l => l).

Lemma echo_keeps_ids : keeps_ids (G := nat).
Proof. intros group reqs isBatch g resp reqs' g' [= <- <- <-] _. cbn. rewrite map_map. by apply map_ext. Qed.

(** The run the witnesses look at, evaluated once. *)
Definition on_sample (f : Server string MemoryFrontendRateLimiter
    (cacheWithCompression (memory_cache (gmap string string))) unit -> bool) : bool :=
  match sample_server with Some s => f s | None => false end.

Lemma sample_batch : on_sample (fun s => (0 <? sv_maxUpstreamBatchSize s) &&
  match handleBatchRPC background in_order_env client calls true s O with
  | Returns (inl _, _, g) => (g =? 2)%nat
  | _ => false
  end) = true.
Proof. vm_compute. reflexivity. Qed.

Lemma sample_send : on_sample (fun s => match sv_mainLim s with Some _ => true | None => false end &&
  match triage 0 client 4 send_call s with
  | Returns (Enqueue group _, _) => bool_decide (group = "main")
  | _ => false
  end) = true.
Proof. vm_compute. reflexivity. Qed.

Lemma sample_sorted : on_sample (fun s =>
  match sort_out (fun _ => 0) client 4 0 calls (mkBatching (replicate 4 None) ∅ ∅) s with
  | Returns (inr bt, _) =>
      match bt_batches bt !! (1%nat, "main") with
      | Some batch => let '(_, _, misses, _) := lookup_batch background batch (bt_responses bt) (sv_cache s) in
                      (0 <? numBatches 1 (length misses))%nat
      | None => false
      end
  | _ => false
  end) = true.
Proof. vm_compute. reflexivity. Qed.

Lemma batch_complete_witness : exists s responses cached by' s' g', sample_server = Some s /\
  handleBatchRPC background in_order_env client calls true s O = Returns (inl (responses, cached, by'), s', g') /\
  g' = 2%nat /\ map (fun r => res_ID <$> r) responses = [Some "7"; Some ""; Some "7"; Some "7"].
Proof.
  pose proof sample_batch as Hs. unfold on_sample in Hs. destruct sample_server as [s|] eqn:Es; [|discriminate].
  apply andb_true_iff in Hs as [Hk%Z.ltb_lt Hs].
  destruct (handleBatchRPC background in_order_env client calls true s O) as [[[[[[responses cached] by']|err] s'] g']|msg] eqn:E;
    try discriminate.
  exists s, responses, cached, by', s', g'. split; [done|]. split; [done|]. split; [by apply Nat.eqb_eq|].
  destruct (batch_complete background in_order_env client calls true s O responses cached by' s' g') as (Hl & Ha & Hid);
    [by intros m|exact Hk|exact E|].
  specialize (Hid echo_keeps_ids). cbn [length calls] in *.
  destruct (Ha 0%nat ltac:(lia)) as [r0 H0], (Ha 1%nat ltac:(lia)) as [r1 H1], (Ha 2%nat ltac:(lia)) as [r2 H2], (Ha 3%nat ltac:(lia)) as [r3 H3].
  pose proof (Hid 0%nat _ _ eq_refl H0) as I0. pose proof (Hid 1%nat _ _ eq_refl H1) as I1.
  pose proof (Hid 2%nat _ _ eq_refl H2) as I2. pose proof (Hid 3%nat _ _ eq_refl H3) as I3. clear Hid E Ha.
  destruct responses as [|x0 [|x1 [|x2 [|x3 [|]]]]]; try discriminate. cbn in H0, H1, H2, H3.
  injection H0 as ->. injection H1 as ->. injection H2 as ->. injection H3 as ->. cbn [map fmap option_fmap option_map].
  rewrite I0, I1, I2, I3. vm_compute. reflexivity.
Defined.

Lemma forwarded_admitted_witness : exists s req s', sample_server = Some s /\
  triage 0 client 4 send_call s = Returns (Enqueue "main" req, s') /\ sv_rpcMethodMappings s !! req_Method req = Some "main" /\
  exists lim lim', sv_mainLim s = Some lim /\ lim_Take 0 "10.0.0.1" lim = Returns (true, None, lim').
Proof.
  pose proof sample_send as Hs. unfold on_sample in Hs. destruct sample_server as [s|] eqn:Es; [|discriminate].
  destruct (sv_mainLim s) as [lim|] eqn:Hlim; [|discriminate]. cbn [andb] in Hs.
  destruct (triage 0 client 4 send_call s) as [[[r|r|group req] s']|msg] eqn:E; try discriminate.
  apply bool_decide_eq_true in Hs as ->.
  destruct (forwarded_admitted 0 client 4 send_call s "main" req s' E) as (_ & _ & Hm & _ & Hl & _).
  exists s, req, s'. split; [done|]. split; [done|]. split; [done|]. destruct (Hl eq_refl) as [Hmain _].
  destruct (Hmain lim Hlim) as [lim' Ht]. by exists lim, lim'.
Defined.

Lemma upstream_batches_witness : exists s bt s' batch responses' hit misses c', sample_server = Some s /\
  sort_out (fun _ => 0) client 4 0 calls (mkBatching (replicate 4 None) ∅ ∅) s = Returns (inr bt, s') /\
  bt_batches bt !! (1%nat, "main") = Some batch /\
  lookup_batch background batch (bt_responses bt) (sv_cache s) = (responses', hit, misses, c') /\
  NoDup (map req_ID (createBatchRequest (minibatch 1 misses 0))).
Proof.
  pose proof sample_sorted as Hs. unfold on_sample in Hs. destruct sample_server as [s|] eqn:Es; [|discriminate].
  destruct (sort_out (fun _ => 0) client 4 0 calls (mkBatching (replicate 4 None) ∅ ∅) s) as [[[r|bt] s']|msg] eqn:E;
    try discriminate.
  destruct (bt_batches bt !! (1%nat, "main")) as [batch|] eqn:Eb; [|discriminate].
  destruct (lookup_batch background batch (bt_responses bt) (sv_cache s)) as [[[responses' hit] misses] c'] eqn:El.
  exists s, bt, s', batch, responses', hit, misses, c'. split; [done|]. split; [done|]. split; [done|]. split; [done|].
  destruct (upstream_batches (fun _ => 0) client calls s bt s' 1 background (1%nat, "main") batch (bt_responses bt) (sv_cache s)
    responses' hit misses c') as [_ H]; [exact E|exact Eb|lia|exact El|]. apply (H 0%nat). by apply Nat.ltb_lt in Hs.
Defined.

End server_samples.
