(* ===== verification/Interop.v ===== *)
(** * Validation of interop transactions (src/interop.go, src/interop_strategy.go, [ParseInteropError] of src/backend.go)

    A transaction that executes messages of other chains carries an access list, which is validated
    by supervisors before the transaction is forwarded. The strategies are: ask the first supervisor,
    ask all of them and take the first success, or ask a healthy one in turn. The supervisor's types
    ([op-supervisor]) and the client that calls it are parameters. *)

From S2P Require Import Prelude Json JsonFacts Geth Rpc Util Http Server.

(** ** The supervisor's library *)

Inductive supervisor_error : Type :=
| ErrUninitialized | ErrSkipped | ErrUnknownChain | ErrConflict | ErrIneffective | ErrOutOfOrder
| ErrAwaitReplacementBlock | ErrStop | ErrOutOfScope | ErrPreviousToFirst | ErrFuture | ErrNotExact
| ErrDataCorruption | ErrUnexpectedMinSafetyLevel | ErrNoRPCSource.

(** [Access] objects are encoded as one or more hashes; a hash is its text. *)
Class SupervisorTypes (Access : Type) : Type := {
  supervisor_text : supervisor_error -> string;
  ParseAccess : list string -> list string * Access + string;
  EncodeAccess : Access -> list string;
  acc_ChainID : Access -> string;
  acc_BlockNumber : Access -> Z;
  acc_LogIndex : Access -> Z;
  acc_Timestamp : Access -> Z;
  acc_Checksum : Access -> string;
}.

Definition EncodeAccessList `{!SupervisorTypes Access} (l : list Access) : list string := concat (map EncodeAccess l).

(** What is documented of the encoding: parsing takes the encoding of one object off the front. *)
Class SupervisorLaws (Access : Type) `{!SupervisorTypes Access} : Prop := {
  parse_encode a rest : ParseAccess (EncodeAccess a ++ rest) = inl (rest, a);
  encode_nonempty a : EncodeAccess a <> [];
  parse_shorter l rest a : ParseAccess l = inl (rest, a) -> (length rest < length l)%nat;
}.

(** ** [fmt.Errorf] without arguments *)

Definition fmt_flag (c : Ascii.ascii) : bool := bool_decide (code c ∈ [35; 48; 43; 45; 32]).

Fixpoint skip_flags (s : string) : string :=
  match s with
  | String c s' => if fmt_flag c then skip_flags s' else s
  | EmptyString => EmptyString
  end.

(** [parsenum]: the digits at the front, or [None] when the number is too large. *)
Fixpoint fmt_num (num : Z) (s : string) : option (Z * string) :=
  match s with
  | String c s' =>
      if is_digit c then if 1000000 <? num then None else fmt_num (num * 10 + (code c - 48)) s'
      else Some (num, s)
  | EmptyString => Some (num, EmptyString)
  end.

(** What follows a width or precision; a number that is too large swallows the rest. *)
Definition skip_num (s : string) : bool * string :=
  match fmt_num 0 s with
  | None => (false, EmptyString)
  | Some (_, s') => (negb (String.length s' =? String.length s)%nat, s')
  end.

(** The text up to the first closing bracket, and what follows it. *)
Fixpoint to_bracket (s : string) : option (string * string) :=
  match s with
  | EmptyString => None
  | String c s' =>
      if code c =? 93 then Some (EmptyString, s')
      else match to_bracket s' with Some (a, b) => Some (String c a, b) | None => None end
  end.

(** [argNumber]: whether the arguments are still good, whether an index was found, and the rest. No
    index is in range. *)
Definition fmt_index (good : bool) (s : string) : bool * bool * string :=
  match s with
  | String c s' =>
      if code c =? 91 then
        if (String.length s <? 3)%nat then (false, false, s')
        else
          match to_bracket s' with
          | None => (false, false, s')
          | Some (n, rest) =>
              match fmt_num 0 n with
              | Some (_, EmptyString) => (false, negb (bool_decide (n = "")), rest)
              | _ => (false, false, rest)
              end
          end
      else (good, false, s)
  | EmptyString => (good, false, s)
  end.

(** A width or a precision, given by a star or by digits: the text written, whether it was a number,
    whether it was a star, and the rest. *)
Definition fmt_size (bad : string) (s : string) : string * bool * bool * string :=
  match s with
  | String c s' =>
      if code c =? 42 then (bad, false, true, s')
      else let '(present, s') := skip_num s in (EmptyString, present, false, s')
  | EmptyString => (EmptyString, false, false, s)
  end.

(** One directive, after the percent sign: the text written and, unless the format ends, the rest. *)
Definition fmt_directive (s : string) : string * option string :=
  let '(good, after, s) := fmt_index true (skip_flags s) in
  let '(out, present, star, s) := fmt_size "%!(BADWIDTH)" s in
  let good := good && negb (after && present) in
  let after := after && negb star in
  let '(out, good, after, s) :=
    (match s with
     | String c s' =>
         if code c =? 46 then
           let good := good && negb after in
           let '(good, after, s') := fmt_index good s' in
           let '(out', _, star, s') := fmt_size "%!(BADPREC)" s' in
           (out +:+ out', good, after && negb star, s')
         else (out, good, after, s)
     | EmptyString => (out, good, after, s)
     end) in
  let '(good, s) := if after then (good, s) else let '(good, _, s) := fmt_index good s in (good, s) in
  match s with
  | EmptyString => (out +:+ "%!(NOVERB)", None)
  | String c s' =>
      let n := default O (rune_extra c s') in
      let verb := if (127 <? code c) && (n =? 0)%nat then utf8_error else str_take (S n) s in
      let rest := str_drop (S n) s in
      if code c =? 37 then (out +:+ "%", Some rest)
      else if good then (out +:+ "%!" +:+ verb +:+ "(MISSING)", Some rest)
      else (out +:+ "%!" +:+ verb +:+ "(BADINDEX)", Some rest)
  end.

Fixpoint fmt_go (fuel : nat) (s : string) : string :=
  match fuel with
  | O => s
  | S fuel =>
      match s with
      | EmptyString => EmptyString
      | String c s' =>
          if code c =? 37 then
            match fmt_directive s' with
            | (out, None) => out
            | (out, Some rest) => out +:+ fmt_go fuel rest
            end
          else String c (fmt_go fuel s')
      end
  end.

(** Every directive consumes a character, so the length is enough fuel. *)
Definition fmt_Errorf (format : string) : string := fmt_go (String.length format) format.

(** ** Errors of a supervisor *)

(** What a call of a supervisor may return: an HTTP error of the client, or another error. *)
Inductive check_error : Type :=
| HTTPError (Status : string) (StatusCode : Z) (Body : string)
| OtherError (err : error).

(** The text of the client's HTTP error. *)
Class HTTPErrors : Type := HTTPError_Error : string -> string -> string.

Section parse.
Context {Access : Type} {SX : SupervisorTypes Access} {EX : HTTPErrors}.

Definition check_text (e : check_error) : string :=
  match e with
  | HTTPError status _ body => HTTPError_Error status body
  | OtherError err => error_Error err
  end.

(** The entries of the map: the text of the key, and the codes. *)
Definition interopRPCErrorMap : list (string * RPCErr) :=
  [(supervisor_text ErrUninitialized, mkRPCErr (-320400) "" "" 400);
   (supervisor_text ErrSkipped, mkRPCErr (-320500) "" "" 422);
   (supervisor_text ErrUnknownChain, mkRPCErr (-320501) "" "" 404);
   (supervisor_text ErrConflict, mkRPCErr (-320600) "" "" 409);
   (supervisor_text ErrIneffective, mkRPCErr (-320601) "" "" 422);
   (supervisor_text ErrOutOfOrder, mkRPCErr (-320900) "" "" 409);
   (supervisor_text ErrAwaitReplacementBlock, mkRPCErr (-320901) "" "" 409);
   (supervisor_text ErrStop, mkRPCErr (-321000) "" "" 400);
   (supervisor_text ErrOutOfScope, mkRPCErr (-321100) "" "" 400);
   (supervisor_text ErrPreviousToFirst, mkRPCErr (-321200) "" "" 404);
   (supervisor_text ErrFuture, mkRPCErr (-321401) "" "" 422);
   (supervisor_text ErrNotExact, mkRPCErr (-321500) "" "" 404);
   (supervisor_text ErrDataCorruption, mkRPCErr (-321501) "" "" 422);
   (supervisor_text ErrUnexpectedMinSafetyLevel, mkRPCErr (-32602) "" "" 400);
   ("stopped acces-list check early", mkRPCErr (-32602) "" "" 400);
   ("failed to read data", mkRPCErr (-32602) "" "" 400)].

(** The order in which the map is visited. *)
Definition visit : Type := list (string * RPCErr) -> list (string * RPCErr).

(** The fallback, and the text that is looked up. *)
Definition fallback_error (e : check_error) : outcome (RPCErr * string) :=
  match e with
  | OtherError err => Returns (mkRPCErr JSONRPCErrorInternal (error_Error err) "" 500, error_Error err)
  | HTTPError _ statusCode body =>
      match decode_RPCRes body with
      | None =>
          let p := ErrInvalidParams body in
          Returns (mkRPCErr (err_Code p) (err_Message p) (err_Data p) statusCode, check_text e)
      | Some r =>
          match res_Error r with
          | None => Panics "invalid memory address or nil pointer dereference"
          | Some p => Returns (mkRPCErr (err_Code p) (err_Message p) (err_Data p) statusCode, fmt_Errorf (err_Message p))
          end
      end
  end.

Definition ParseInteropError (v : visit) (e : check_error) : outcome RPCErr :=
  let! r := fallback_error e in
  let '(fallbackErr, errStr) := r in
  match list_find (fun kv => str_Contains errStr (fst kv) = true) (v interopRPCErrorMap) with
  | Some (_, (_, errCodes)) => Returns (let p := RPCErr_Clone errCodes in mkRPCErr (err_Code p) errStr (err_Data p) (err_HTTPErrorCode p))
  | None => Returns fallbackErr
  end.

End parse.

(** ** Access lists *)

Section access.
Context {Access : Type} {SX : SupervisorTypes Access} {EX : HTTPErrors}.

Definition accessObjectToKey (a : Access) : string :=
  acc_ChainID a +:+ "/" +:+ dec_string (acc_BlockNumber a) +:+ "/" +:+ dec_string (acc_LogIndex a) +:+ "/"
  +:+ dec_string (acc_Timestamp a) +:+ "/" +:+ acc_Checksum a.

(** The loop: every object is parsed, the ones with a key not seen before are kept. *)
Fixpoint deduplicate (fuel : nat) (entries : list string) (seen : gset string) : option (list Access + string) :=
  match entries with
  | [] => Some (inl [])
  | _ =>
      match fuel with
      | O => None
      | S fuel =>
          match ParseAccess entries with
          | inr err => Some (inr err)
          | inl (remaining, a) =>
              let key := accessObjectToKey a in
              match deduplicate fuel remaining ({[key]} ∪ seen) with
              | Some (inl l) => Some (inl (if bool_decide (key ∈ seen) then l else a :: l))
              | r => r
              end
          end
      end
  end.

(** Parsing shortens the list, so its length is enough fuel; [None] stands for a loop that goes on. *)
Definition validateAndDeduplicateInteropAccessList (entries : list string) : option (list string + string) :=
  match entries with
  | [] => Some (inl [])
  | _ =>
      match deduplicate (length entries) entries ∅ with
      | Some (inl l) => Some (inl (EncodeAccessList l))
      | Some (inr err) => Some (inr err)
      | None => None
      end
  end.

(** A little in the future, in seconds. *)
Definition getInteropExecutingDescriptorTimestamp (now : Z) : Z := u64 (time_Unix now + 1000).

(** ** What the strategies share *)

Record commonInteropStrategy : Type := mkCommonStrategy {
  cs_urls : list string;
  cs_accessListSizeLimit : Z;
  cs_reqSizeLimit : Z;
  cs_validateAndDeduplicate : bool;
  cs_skipOnNoSupervisorBackend : bool;
}.

Definition commonStrategyOpt : Type := commonInteropStrategy -> commonInteropStrategy.

Definition NewCommonInteropStrategy (urls : list string) (opts : list commonStrategyOpt) : commonInteropStrategy :=
  fold_left (fun c opt => opt c) opts (mkCommonStrategy urls 0 0 true false).

Definition WithReqSizeLimit (n : Z) : commonStrategyOpt := fun c =>
  mkCommonStrategy (cs_urls c) (cs_accessListSizeLimit c) n (cs_validateAndDeduplicate c) (cs_skipOnNoSupervisorBackend c).
Definition WithAccessListSizeLimit (n : Z) : commonStrategyOpt := fun c =>
  mkCommonStrategy (cs_urls c) n (cs_reqSizeLimit c) (cs_validateAndDeduplicate c) (cs_skipOnNoSupervisorBackend c).
Definition WithValidateAndDeduplicateInteropAccessList (b : bool) : commonStrategyOpt := fun c =>
  mkCommonStrategy (cs_urls c) (cs_accessListSizeLimit c) (cs_reqSizeLimit c) b (cs_skipOnNoSupervisorBackend c).
Definition WithSkipOnNoSupervisorBackend (b : bool) : commonStrategyOpt := fun c =>
  mkCommonStrategy (cs_urls c) (cs_accessListSizeLimit c) (cs_reqSizeLimit c) (cs_validateAndDeduplicate c) b.

(** The list to validate, or an answer that ends the validation ([None]: accepted). *)
Definition preflight : Type := list string + option error.

Definition preflightChecksAndCleanupAccessList (v : visit) (s : commonInteropStrategy) (l : list string) : outcome preflight :=
  match cs_urls s with
  | [] =>
      if cs_skipOnNoSupervisorBackend s then Returns (inr None)
      else Returns (inr (Some (ENew (supervisor_text ErrNoRPCSource))))
  | _ =>
      let! r := (if cs_validateAndDeduplicate s then
                   match validateAndDeduplicateInteropAccessList l with
                   | None => Panics "validation does not end"
                   | Some (inl l) => Returns (inl l)
                   | Some (inr err) =>
                       let! e := ParseInteropError v (OtherError (EWrap "failed to read data:" (Some (ENew err)))) in
                       Returns (inr (Some (ERPC e)))
                   end
                 else Returns (inl l) : outcome preflight) in
      match r with
      | inr err => Returns (inr err)
      | inl l =>
          if (0 <? cs_accessListSizeLimit s) && (cs_accessListSizeLimit s <? Z.of_nat (length l))
          then Returns (inr (Some (ESentinel ErrInteropAccessListOutOfBounds)))
          else Returns (inl l)
      end
  end.

(** The supervisors: what one answers to an access list and a timestamp. *)
Definition supervisors : Type := string -> list string -> Z -> option check_error.

(** The HTTP code and the error. *)
Definition performCheckAccessListOp (v : visit) (sup : supervisors) (now : Z) (l : list string) (url : string)
    : outcome (Z * option RPCErr) :=
  match sup url l (getInteropExecutingDescriptorTimestamp now) with
  | None => Returns (200, None)
  | Some e => let! p := ParseInteropError v e in Returns (err_HTTPErrorCode p, Some p)
  end.

(** ** The first supervisor *)

Definition firstSupervisor_ValidateAccessList (v : visit) (sup : supervisors) (now : Z) (s : commonInteropStrategy)
    (l : list string) : outcome (option error) :=
  let! r := preflightChecksAndCleanupAccessList v s l in
  match r with
  | inr err => Returns err
  | inl l =>
      match cs_urls s with
      | [] => Panics "index out of range"
      | url :: _ => let! r := performCheckAccessListOp v sup now l url in Returns (ERPC <$> snd r)
      end
  end.

(** ** All supervisors at once

    After the preflight checks there is one goroutine per supervisor, which sends its answer to a
    channel with room for all of them; one goroutine that waits for these and then drains the channel;
    and the request itself, which receives until an answer is a success or all have been received. *)

(** The request: waiting for so many answers, with the first error so far, or done. *)
Inductive mc_main : Type :=
| Waiting (remaining : nat) (firstErr : option RPCErr)
| Done (err : option error).

Record mc_state : Type := mkMulticall {
  mc_running : list nat;               (** the supervisors that have not answered *)
  mc_chan : list (option RPCErr);      (** the buffer of the channel, oldest first *)
  mc_draining : bool;                  (** the wait group is done and the drainer receives *)
  mc_request : mc_main;
}.

(** The request receives an answer. *)
Definition mc_receive (v : visit) (r : option RPCErr) (remaining : nat) (firstErr : option RPCErr) : outcome mc_main :=
  match r with
  | None => Returns (Done None)
  | Some e =>
      let first := default e firstErr in
      match remaining with
      | S (S remaining) => Returns (Waiting (S remaining) (Some first))
      | _ => let! p := ParseInteropError v (OtherError (ERPC first)) in Returns (Done (Some (ERPC p)))
      end
  end.

Definition mc_init (n : nat) : mc_state := mkMulticall (seq 0 n) [] false (Waiting n None).

(** [answers]: what each supervisor answers. *)
Inductive mc_step (v : visit) (answers : list (option RPCErr)) : mc_state -> mc_state -> Prop :=
| mc_send l1 i l2 r chan d m : answers !! i = Some r ->
    mc_step v answers (mkMulticall (l1 ++ i :: l2) chan d m) (mkMulticall (l1 ++ l2) (chan ++ [r]) d m)
| mc_recv l r chan d k first m : mc_receive v r k first = Returns m ->
    mc_step v answers (mkMulticall l (r :: chan) d (Waiting k first)) (mkMulticall l chan d m)
| mc_wait chan m : mc_step v answers (mkMulticall [] chan false m) (mkMulticall [] chan true m)
| mc_drain l r chan m : mc_step v answers (mkMulticall l (r :: chan) true m) (mkMulticall l chan true m).

(** The whole call: what the preflight checks leave is sent to every supervisor. *)
Inductive multicall_ValidateAccessList (v : visit) (sup : supervisors) (now : nat -> Z) (s : commonInteropStrategy)
    (l : list string) : option error -> Prop :=
| mv_preflight err : preflightChecksAndCleanupAccessList v s l = Returns (inr err) ->
    multicall_ValidateAccessList v sup now s l err
| mv_asked l' answers st err : preflightChecksAndCleanupAccessList v s l = Returns (inl l') ->
    Forall2 (fun url r => exists i code, performCheckAccessListOp v sup (now i) l' url = Returns (code, r)) (cs_urls s) answers ->
    rtc (mc_step v answers) (mc_init (length (cs_urls s))) st -> mc_request st = Done err ->
    multicall_ValidateAccessList v sup now s l err.

(** ** A healthy supervisor in turn *)

Record healthAwareBackend : Type := mkHealthAware {
  hb_url : string;
  hb_lastUnhealthy : option Z;         (** [None]: the zero time *)
  hb_unhealthinessTimeout : Z;
}.

Definition NewHealthAwareBackend (url : string) (timeout : Z) : healthAwareBackend := mkHealthAware url None timeout.

Definition hb_IsHealthy (now : Z) (b : healthAwareBackend) : bool :=
  match hb_lastUnhealthy b with
  | None => true
  | Some last => if hb_unhealthinessTimeout b <=? 0 then true else hb_unhealthinessTimeout b <? now - last
  end.

Definition hb_MarkUnhealthy (now : Z) (b : healthAwareBackend) : healthAwareBackend :=
  mkHealthAware (hb_url b) (Some now) (hb_unhealthinessTimeout b).

(** The error has been parsed by the call, and is parsed again. *)
Definition hb_Validate (v : visit) (sup : supervisors) (now : Z) (l : list string) (b : healthAwareBackend)
    : outcome (Z * option error) :=
  let! r := performCheckAccessListOp v sup now l (hb_url b) in
  match snd r with
  | None => Returns (fst r, None)
  | Some p => let! p := ParseInteropError v (OtherError (ERPC p)) in Returns (fst r, Some (ERPC p))
  end.

(** A backend is referred to by its position. *)
Record loadBalancingBuffer : Type := mkBuffer { lb_backends : list healthAwareBackend; lb_current : nat }.

Definition NewLoadBalancingBuffer (urls : list string) (timeout : Z) : loadBalancingBuffer :=
  mkBuffer (map (fun url => NewHealthAwareBackend url timeout) urls) 0.

Definition Size (b : loadBalancingBuffer) : nat := length (lb_backends b).

Definition GetBackend (b : loadBalancingBuffer) : outcome nat :=
  if (lb_current b <? length (lb_backends b))%nat then Returns (lb_current b) else Panics "index out of range".

Definition NextBackend (b : loadBalancingBuffer) : outcome (nat * loadBalancingBuffer) :=
  if (length (lb_backends b) =? 0)%nat then Panics "integer divide by zero"
  else
    let i := (S (lb_current b) mod length (lb_backends b))%nat in
    Returns (i, mkBuffer (lb_backends b) i).

Record healthAwareStrategy : Type := mkHealthAwareStrategy {
  ha_common : commonInteropStrategy;
  ha_backends : loadBalancingBuffer;
}.

Definition NewHealthAwareLoadBalancingStrategy (urls : list string) (timeout : Z) (opts : list commonStrategyOpt)
    : healthAwareStrategy :=
  mkHealthAwareStrategy (NewCommonInteropStrategy urls opts) (NewLoadBalancingBuffer urls timeout).

(** The attempts; [clk] is read by each of them for the health, for the call and for the mark. *)
Fixpoint ha_attempts (v : visit) (sup : supervisors) (clk : nat -> Z) (l : list string) (retries tick : nat) (backend : nat)
    (b : loadBalancingBuffer) : outcome (option error * loadBalancingBuffer) :=
  match retries with
  | O => let! p := ParseInteropError v (OtherError (ENew "no healthy supervisor backends found")) in Returns (Some (ERPC p), b)
  | S retries =>
      match lb_backends b !! backend with
      | None => Panics "index out of range"
      | Some hb =>
          if negb (hb_IsHealthy (clk tick) hb) then
            let! n := NextBackend b in
            ha_attempts v sup clk l retries (S (S (S tick))) (fst n) (snd n)
          else
            let! r := hb_Validate v sup (clk (S tick)) l hb in
            match r with
            | (_, None) => Returns (None, b)
            | (httpCode, Some err) =>
                if 500 <=? httpCode then
                  let b := mkBuffer (<[backend := hb_MarkUnhealthy (clk (S (S tick))) hb]> (lb_backends b)) (lb_current b) in
                  let! n := NextBackend b in
                  ha_attempts v sup clk l retries (S (S (S tick))) (fst n) (snd n)
                else Returns (Some err, b)
            end
      end
  end.

(** The deferred move to the next backend runs whatever the outcome. *)
Definition healthAware_ValidateAccessList (v : visit) (sup : supervisors) (clk : nat -> Z) (l : list string)
    (s : healthAwareStrategy) : outcome (option error * healthAwareStrategy) :=
  let! r := (let! p := preflightChecksAndCleanupAccessList v (ha_common s) l in
             match p with
             | inr err => Returns (err, ha_backends s)
             | inl l =>
                 let! i := GetBackend (ha_backends s) in
                 ha_attempts v sup clk l (Size (ha_backends s)) 0 i (ha_backends s)
             end : outcome (option error * loadBalancingBuffer)) in
  let! n := NextBackend (snd r) in
  Returns (fst r, mkHealthAwareStrategy (ha_common s) (snd n)).

(** ** The strategies as the server uses them *)

Definition firstSupervisor_strategy (v : visit) (sup : supervisors) (now : Z) : InteropStrategy commonInteropStrategy :=
  fun l s => let! err := firstSupervisor_ValidateAccessList v sup now s l in Returns (err, s).

Definition healthAware_strategy (v : visit) (sup : supervisors) (clk : nat -> Z) : InteropStrategy healthAwareStrategy :=
  fun l s => healthAware_ValidateAccessList v sup clk l s.

End access.
