(* ===== verification/InteropFacts.v ===== *)
(** * Properties of the interop validation: deduplication, the multicall's interleavings, the load balancing *)

From S2P Require Import Prelude Json JsonFacts Geth Rpc Util Http Server Wire Replies ServerFacts Interop.

Section interop.
Context {Access : Type} {SX : SupervisorTypes Access} {SL : SupervisorLaws Access} {EX : HTTPErrors}.

(** ** Access lists *)

(** The objects a list of entries stands for. *)
Inductive parses : list string -> list Access -> Prop :=
| parses_nil : parses [] []
| parses_cons l rest a accs : ParseAccess l = inl (rest, a) -> l <> [] -> parses rest accs -> parses l (a :: accs).

Lemma parses_encode accs : parses (EncodeAccessList accs) accs.
Proof.
  induction accs as [|a accs IH]; [constructor|]. unfold EncodeAccessList. cbn [map concat].
  econstructor; [apply parse_encode| |exact IH]. intros [E _]%app_eq_nil. by eapply encode_nonempty.
Qed.

(** What the loop keeps of the objects, given the keys it has seen. *)
Record kept_of (seen : gset string) (accs kept : list Access) : Prop := {
  ko_sublist : kept `sublist_of` accs;
  ko_distinct : NoDup (map accessObjectToKey kept);
  ko_fresh : forall a, a ∈ kept -> accessObjectToKey a ∉ seen;
  ko_all : forall a, a ∈ accs -> accessObjectToKey a ∈ seen \/ accessObjectToKey a ∈ map accessObjectToKey kept;
}.

Lemma deduplicate_kept entries accs : parses entries accs -> forall fuel seen, (length entries <= fuel)%nat ->
  exists kept, deduplicate fuel entries seen = Some (inl kept) /\ kept_of seen accs kept.
Proof.
  induction 1 as [|l rest a accs Hp Hne Hr IH]; intros fuel seen Hf.
  - exists []. split; [by destruct fuel|]. split; [done|constructor| |]; by intros a ?%elem_of_nil.
  - pose proof (parse_shorter _ _ _ Hp) as Hlt. destruct l as [|e l]; [done|]. destruct fuel as [|fuel]; [cbn in Hf; lia|].
    cbn [deduplicate]. rewrite Hp.
    destruct (IH fuel ({[accessObjectToKey a]} ∪ seen) ltac:(lia)) as (kept & -> & [K1 K2 K3 K4]).
    case_bool_decide as Hs; (eexists; split; [reflexivity|]); constructor.
    + by constructor.
    + done.
    + intros a' Ha'. specialize (K3 a' Ha'). set_solver.
    + intros a' [->|Ha']%elem_of_cons; [by left|]. destruct (K4 a' Ha') as [Hk|Hk]; [|by right].
      left. apply elem_of_union in Hk as [Hk%elem_of_singleton|Hk]; [by rewrite Hk|done].
    + by constructor.
    + cbn. constructor; [|done]. intros (a' & E & Ha')%list_elem_of_fmap. specialize (K3 a' Ha'). set_solver.
    + intros a' [->|Ha']%elem_of_cons; [done|]. specialize (K3 a' Ha'). set_solver.
    + intros a' [->|Ha']%elem_of_cons; [right; by left|]. destruct (K4 a' Ha') as [Hk|Hk]; [|right; by right].
      apply elem_of_union in Hk as [Hk%elem_of_singleton|Hk]; [right; rewrite Hk; by left|by left].
Qed.

Lemma deduplicate_total fuel : forall entries seen, (length entries <= fuel)%nat ->
  exists r, deduplicate fuel entries seen = Some r /\ forall kept, r = inl kept -> exists accs, parses entries accs.
Proof.
  induction fuel as [|fuel IH]; intros [|e l] seen Hf; [|cbn in Hf; lia| |].
  1, 2: exists (inl []); (split; [done|]); intros; exists []; constructor.
  cbn [deduplicate]. destruct (ParseAccess (e :: l)) as [[rest a]|err] eqn:Ep; [|by exists (inr err)].
  pose proof (parse_shorter _ _ _ Ep) as Hlt.
  destruct (IH rest ({[accessObjectToKey a]} ∪ seen) ltac:(cbn in Hf, Hlt; lia)) as ([kept|err] & -> & Hr); [|by eexists].
  eexists. split; [done|]. intros _ _. destruct (Hr kept eq_refl) as [accs Ha]. exists (a :: accs). by econstructor.
Qed.

(** A list without repetitions is kept as it is. *)
Lemma kept_all seen accs kept : kept_of seen accs kept -> NoDup (map accessObjectToKey accs) ->
  (forall a, a ∈ accs -> accessObjectToKey a ∉ seen) -> kept = accs.
Proof.
  intros [K1 K2 K3 K4] Hn Hf. apply sublist_full; [done|].
  rewrite <- (length_map accessObjectToKey accs), <- (length_map accessObjectToKey kept).
  apply submseteq_length, NoDup_submseteq; [done|]. intros k (a & -> & Ha)%list_elem_of_fmap.
  destruct (K4 a Ha) as [Hk|]; [|done]. by destruct (Hf a Ha).
Qed.

(** C26: the cleanup of an access list ends for every list. If the entries parse, the result stands for
    the same objects without repetitions - a sublist of them in their order, in which no two have the
    same key and every key of the input occurs - and cleaning it up again changes nothing; otherwise
    it is an error. *)
Theorem access_list_deduplicated entries :
  (forall accs, parses entries accs -> exists out kept,
     validateAndDeduplicateInteropAccessList entries = Some (inl out) /\ parses out kept /\
     kept `sublist_of` accs /\ NoDup (map accessObjectToKey kept) /\
     (forall a, a ∈ accs -> accessObjectToKey a ∈ map accessObjectToKey kept) /\
     validateAndDeduplicateInteropAccessList out = Some (inl out)) /\
  ((forall accs, ~ parses entries accs) -> exists err, validateAndDeduplicateInteropAccessList entries = Some (inr err)).
Proof.
  assert (Hv : forall l, validateAndDeduplicateInteropAccessList l =
    match deduplicate (length l) l ∅ with Some (inl k) => Some (inl (EncodeAccessList k)) | Some (inr e) => Some (inr e) | None => None end)
    by (by intros [|e l]).
  split.
  - intros accs Hp. destruct (deduplicate_kept entries accs Hp (length entries) ∅ ltac:(lia)) as (kept & Hd & K).
    exists (EncodeAccessList kept), kept. rewrite Hv, Hd. split; [done|]. split; [apply parses_encode|]. destruct K as [K1 K2 K3 K4].
    split_and!; [done|done| |].
    + intros a Ha. destruct (K4 a Ha) as [Hk|]; [set_solver|done].
    + rewrite Hv. destruct (deduplicate_kept _ _ (parses_encode kept) (length (EncodeAccessList kept)) ∅ ltac:(lia)) as (kept' & -> & K').
      do 3 f_equal. eapply kept_all; [exact K'|done|set_solver].
  - intros Hn. rewrite Hv. destruct (deduplicate_total (length entries) entries ∅ ltac:(lia)) as ([kept|err] & -> & Hr).
    + destruct (Hr kept eq_refl) as [accs Ha]. by destruct (Hn accs).
    + by exists err.
Qed.

(** ** The multicall *)

(** What the request knows after taking [taken] off the channel. *)
Definition request_after (v : visit) (n : nat) (taken : list (option RPCErr)) (m : mc_main) : Prop :=
  match m with
  | Waiting k first => (0 < k)%nat /\ (length taken + k = n)%nat /\ Forall is_Some taken /\ first = mjoin (head taken)
  | Done None => None ∈ taken
  | Done (Some err) => length taken = n /\ Forall is_Some taken /\ exists e p, head taken = Some (Some e) /\
      ParseInteropError v (OtherError (ERPC e)) = Returns p /\ err = ERPC p
  end.

(** The answers that were sent are on the channel, taken by the request or lost to the drainer. *)
Definition mc_inv (v : visit) (answers : list (option RPCErr)) (st : mc_state) : Prop :=
  exists sent taken lost, mc_running st ++ sent ≡ₚ seq 0 (length answers) /\
    map (fun i => default None (answers !! i)) sent ≡ₚ taken ++ mc_chan st ++ lost /\
    request_after v (length answers) taken (mc_request st).

Lemma mc_inv_init v answers : answers <> [] -> mc_inv v answers (mc_init (length answers)).
Proof.
  intros Hne. exists [], [], []. cbn. split; [by rewrite app_nil_r|]. split; [done|].
  split_and!; [by destruct answers; [|cbn; lia]|done|done|done].
Qed.

Lemma request_step v n taken k first r m : request_after v n taken (Waiting k first) ->
  mc_receive v r k first = Returns m -> request_after v n (taken ++ [r]) m.
Proof.
  intros (Hk & Hl & Hs & Hf) H. destruct r as [e|]; cbn [mc_receive] in H.
  - assert (Hh : head (taken ++ [Some e]) = Some (Some (default e first))).
    { destruct taken as [|[x|] taken]; cbn in Hf |- *; subst first; [done|done|]. by apply Forall_cons in Hs as [[? ?] _]. }
    assert (Hs' : Forall is_Some (taken ++ [Some e])) by (apply Forall_app; split; [done|by repeat constructor]).
    destruct k as [|[|k]]; [lia| |].
    + step_outcome H. injection H as <-. cbn. rewrite length_app. cbn. split; [lia|]. split; [done|]. by exists (default e first), a.
    + injection H as <-. cbn. rewrite length_app, Hh. cbn. split_and!; [lia|lia|done|done].
  - injection H as <-. cbn. apply elem_of_app. right. by left.
Qed.

Lemma mc_inv_step v answers st st' : mc_step v answers st st' -> mc_inv v answers st -> mc_inv v answers st'.
Proof.
  intros Hstep (sent & taken & lost & H1 & H2 & H3).
  destruct Hstep as [l1 i l2 r chan d m Hr|l r chan d k first m Hr|chan m|l r chan m]; cbn in H1, H2, H3.
  - exists (i :: sent), taken, lost. cbn. split; [|split; [|done]].
    + rewrite <- H1. rewrite <- !app_assoc. cbn. by rewrite Permutation_middle.
    + rewrite Hr, H2. cbn. solve_Permutation.
  - exists sent, (taken ++ [r]), lost. cbn. split; [done|]. split; [|by eapply request_step]. rewrite H2. cbn. solve_Permutation.
  - by exists sent, taken, lost.
  - exists sent, taken, (r :: lost). cbn. split; [done|]. split; [|done]. rewrite H2. cbn. solve_Permutation.
Qed.

(** C18: in every interleaving of the multicall, a success is the answer of a supervisor; and an error
    is only reported when every supervisor has answered with one: it is made from one of them. *)
Theorem multicall_sound v answers st err : answers <> [] ->
  rtc (mc_step v answers) (mc_init (length answers)) st -> mc_request st = Done err ->
  match err with
  | None => None ∈ answers
  | Some err => Forall is_Some answers /\ exists e p, Some e ∈ answers /\
      ParseInteropError v (OtherError (ERPC e)) = Returns p /\ err = ERPC p
  end.
Proof.
  intros Hne Hr Hd. assert (Hi : mc_inv v answers st).
  { eapply (rtc_ind_r (fun st => mc_inv v answers st)); [by apply mc_inv_init| |exact Hr]. intros; by eapply mc_inv_step. }
  destruct Hi as (sent & taken & lost & H1 & H2 & H3). rewrite Hd in H3.
  assert (Hin : forall r, r ∈ taken -> r ∈ answers).
  { intros r Hr'. assert (r ∈ map (fun i => default None (answers !! i)) sent) as (i & -> & Hi)%list_elem_of_fmap.
    { rewrite H2. apply elem_of_app. by left. }
    assert (i ∈ seq 0 (length answers)) as Hlt%elem_of_seq. { rewrite <- H1. apply elem_of_app. by right. }
    destruct (lookup_lt_is_Some_2 answers i ltac:(lia)) as [r Hr0]. rewrite Hr0. by eapply list_elem_of_lookup_2. }
  destruct err as [err|]; cbn in H3; [|by apply Hin].
  destruct H3 as (Hl & Hs & e & p & He & Hp & ->). split; [|exists e, p; split; [|done]].
  - assert (Hlen : length (map (fun i => default None (answers !! i)) sent) = length (taken ++ mc_chan st ++ lost)) by (by rewrite H2).
    rewrite length_map, !length_app in Hlen.
    assert (Hlen1 : length (mc_running st ++ sent) = length answers) by (rewrite H1; apply length_seq). rewrite length_app in Hlen1.
    destruct (mc_running st); [|cbn in Hlen1; lia]. destruct (mc_chan st); [|cbn in Hlen; lia]. destruct lost; [|cbn in Hlen; lia].
    cbn in H1. rewrite !app_nil_r in H2. rewrite H1 in H2.
    assert (Ha : map (fun i => default None (answers !! i)) (seq 0 (length answers)) = answers) by apply map_lookup_seq.
    rewrite Ha in H2. by rewrite H2.
  - apply Hin. destruct taken; [done|]. cbn in He. injection He as ->. by left.
Qed.

(** ** Where the multicall waits forever *)

(** Every supervisor answers before the request receives anything. *)
Lemma mc_all_sent v answers m : forall k, (k <= length answers)%nat ->
  rtc (mc_step v answers) (mkMulticall (seq 0 (length answers)) [] false m)
    (mkMulticall (seq k (length answers - k)) (take k answers) false m).
Proof.
  induction k as [|k IH]; intros Hk; [by rewrite Nat.sub_0_r|]. eapply rtc_r; [apply IH; lia|].
  destruct (lookup_lt_is_Some_2 answers k ltac:(lia)) as [r Hr]. rewrite (take_S_r _ _ _ Hr).
  replace (length answers - k)%nat with (S (length answers - S k)) by lia. cbn [seq]. by apply (mc_send v answers [] k).
Qed.

Lemma mc_all_drained v answers m chan :
  rtc (mc_step v answers) (mkMulticall [] chan true m) (mkMulticall [] [] true m).
Proof. induction chan as [|r chan IH]; [done|]. eapply rtc_l; [apply mc_drain|done]. Qed.

(** C39: the request can wait forever, whatever the supervisors answer: when all of them have answered
    before it receives, the goroutine that drains the channel may take every answer, and the channel is
    never closed - a state is reached in which the request is waiting and nothing can happen. *)
Theorem multicall_blocks v answers : answers <> [] ->
  exists st k first, rtc (mc_step v answers) (mc_init (length answers)) st /\ mc_request st = Waiting k first /\
    forall st', ~ mc_step v answers st st'.
Proof.
  intros Hne. exists (mkMulticall [] [] true (Waiting (length answers) None)), (length answers), None. split; [|split; [done|]].
  - etrans; [apply (mc_all_sent v answers _ (length answers)); lia|]. rewrite Nat.sub_diag. cbn [seq].
    eapply rtc_l; [apply mc_wait|]. apply mc_all_drained.
  - intros st' Hs. inversion Hs. by destruct l1.
Qed.

(** ** The load balancing *)

(** What one backend contributes: nothing if it is not healthy or turns out not to be, or a verdict. *)
Definition ha_try (v : visit) (sup : supervisors) (clk : nat -> Z) (l : list string) (tick : nat) (hb : healthAwareBackend)
    : outcome (option (option error)) :=
  if negb (hb_IsHealthy (clk tick) hb) then Returns None
  else
    let! r := hb_Validate v sup (clk (S tick)) l hb in
    match r with
    | (_, None) => Returns (Some None)
    | (httpCode, Some err) => if 500 <=? httpCode then Returns None else Returns (Some (Some err))
    end.

(** The reference: the backends are asked one after the other until there is a verdict. *)
Fixpoint first_verdict (v : visit) (sup : supervisors) (clk : nat -> Z) (l : list string) (tick : nat)
    (backends : list healthAwareBackend) : outcome (option error) :=
  match backends with
  | [] => let! p := ParseInteropError v (OtherError (ENew "no healthy supervisor backends found")) in Returns (Some (ERPC p))
  | hb :: rest =>
      let! r := ha_try v sup clk l tick hb in
      match r with
      | Some verdict => Returns verdict
      | None => first_verdict v sup clk l (S (S (S tick))) rest
      end
  end.

(** The backends in turn, beginning with the current one. *)
Definition in_turn (b : loadBalancingBuffer) : list healthAwareBackend :=
  drop (lb_current b) (lb_backends b) ++ take (lb_current b) (lb_backends b).

Definition buffer_wf (b : loadBalancingBuffer) : Prop := (lb_current b < length (lb_backends b))%nat.

(** Two states of the buffer over the same supervisors. *)
Definition same_urls (b b' : loadBalancingBuffer) : Prop := map hb_url (lb_backends b') = map hb_url (lb_backends b).

Lemma in_turn_lookup b k : buffer_wf b -> (k < length (lb_backends b))%nat ->
  in_turn b !! k = lb_backends b !! ((lb_current b + k) mod length (lb_backends b))%nat.
Proof.
  unfold buffer_wf, in_turn. intros Hc Hk. set (n := length (lb_backends b)) in *.
  destruct (decide (lb_current b + k < n)%nat) as [Hlt|Hge].
  - rewrite lookup_app_l by (rewrite length_drop; lia). rewrite lookup_drop. by rewrite Nat.mod_small.
  - rewrite lookup_app_r by (rewrite length_drop; lia). rewrite length_drop. fold n.
    rewrite lookup_take_lt by lia. f_equal. apply (Nat.mod_unique _ n 1); lia.
Qed.

Lemma NextBackend_wf b : buffer_wf b ->
  NextBackend b = Returns ((S (lb_current b) mod length (lb_backends b))%nat,
                           mkBuffer (lb_backends b) (S (lb_current b) mod length (lb_backends b))%nat).
Proof. unfold buffer_wf, NextBackend. intros Hc. by rewrite (proj2 (Nat.eqb_neq _ _)) by lia. Qed.

(** The attempts after [k] of them, against the reference on the rest of the turn. *)
Lemma ha_attempts_in_turn v sup clk l b0 : buffer_wf b0 -> forall retries k b,
  (k + retries = length (lb_backends b0))%nat -> same_urls b0 b ->
  lb_current b = ((lb_current b0 + k) mod length (lb_backends b0))%nat ->
  (forall j, (k <= j < length (lb_backends b0))%nat ->
     lb_backends b !! ((lb_current b0 + j) mod length (lb_backends b0))%nat
     = lb_backends b0 !! ((lb_current b0 + j) mod length (lb_backends b0))%nat) ->
  match ha_attempts v sup clk l retries (3 * k) (lb_current b) b with
  | Returns (res, b') => first_verdict v sup clk l (3 * k) (drop k (in_turn b0)) = Returns res /\ same_urls b0 b' /\ buffer_wf b'
  | Panics msg => first_verdict v sup clk l (3 * k) (drop k (in_turn b0)) = Panics msg
  end.
Proof.
  intros Hwf. set (n := length (lb_backends b0)) in *. unfold buffer_wf in Hwf. fold n in Hwf.
  assert (Hlen : forall b, same_urls b0 b -> length (lb_backends b) = n).
  { intros b H%(f_equal length). by rewrite !length_map in H. }
  assert (Hturn : length (in_turn b0) = n) by (unfold in_turn; rewrite length_app, length_drop, length_take; lia).
  induction retries as [|retries IH]; intros k b Hk Hu Hc Hsame; cbn [ha_attempts].
  { rewrite (drop_ge (in_turn b0)) by lia. cbn [first_verdict].
    destruct (ParseInteropError v _) as [p|msg]; cbn [outcome_bind]; [|done]. split; [done|]. split; [done|].
    unfold buffer_wf. rewrite Hlen, Hc by done. apply Nat.mod_upper_bound. lia. }
  assert (Hwfb : buffer_wf b). { unfold buffer_wf. rewrite Hlen, Hc by done. apply Nat.mod_upper_bound. lia. }
  destruct (lookup_lt_is_Some_2 (in_turn b0) k ltac:(lia)) as [hb Hhb].
  rewrite (drop_S _ _ _ Hhb). cbn [first_verdict].
  rewrite in_turn_lookup in Hhb by (unfold buffer_wf; lia). fold n in Hhb.
  assert (Hcur : lb_backends b !! lb_current b = Some hb) by (rewrite Hc, (Hsame k), Hhb by lia; done).
  rewrite Hcur. unfold ha_try.
  assert (Hnext : forall b1, same_urls b0 b1 -> lb_current b1 = lb_current b ->
    (forall i, i <> lb_current b -> lb_backends b1 !! i = lb_backends b !! i) ->
    match (let! n0 := NextBackend b1 in ha_attempts v sup clk l retries (S (S (S (3 * k)))) (fst n0) (snd n0)) with
    | Returns (res, b') => first_verdict v sup clk l (S (S (S (3 * k)))) (drop (S k) (in_turn b0)) = Returns res /\ same_urls b0 b' /\ buffer_wf b'
    | Panics msg => first_verdict v sup clk l (S (S (S (3 * k)))) (drop (S k) (in_turn b0)) = Panics msg
    end).
  { intros b1 Hu1 Hc1 Hs1. rewrite NextBackend_wf by (unfold buffer_wf; rewrite Hc1, Hlen, Hc by done; apply Nat.mod_upper_bound; lia).
    cbn [outcome_bind fst snd]. replace (S (S (S (3 * k)))) with (3 * S k)%nat by lia.
    rewrite (Hlen b1) by done. apply (IH (S k) (mkBuffer (lb_backends b1) (S (lb_current b1) mod n)%nat)); cbn [lb_current lb_backends].
    - lia.
    - done.
    - rewrite Hc1, Hc. replace (lb_current b0 + S k)%nat with (S (lb_current b0 + k)) by lia. apply succ_mod. lia.
    - intros j Hj. rewrite Hs1; [apply Hsame; lia|]. rewrite Hc. apply mod_distinct; lia. }
  destruct (negb (hb_IsHealthy (clk (3 * k)%nat) hb)); cbn [outcome_bind]; [by apply Hnext|].
  destruct (hb_Validate v sup (clk (S (3 * k))) l hb) as [[code [err|]]|msg]; cbn [outcome_bind]; [| |done].
  2: { done. }
  destruct (500 <=? code); cbn [outcome_bind]; [|done]. apply Hnext; cbn [lb_current lb_backends]; [|done|].
  - unfold same_urls in *. cbn. rewrite <- Hu. rewrite list_fmap_insert. apply list_insert_id.
    by rewrite list_lookup_fmap, Hcur.
  - intros i Hi. by apply list_lookup_insert_ne.
Qed.

(** C17: the load balancing refines the reference: the backends are asked in turn from the current one
    on, each at most once, the unhealthy ones and the ones that fail being passed over, and the verdict
    is the first one given - or that no healthy backend was found. The supervisors stay the same and
    the position stays within them. *)
Theorem health_aware_in_turn v sup clk l s : buffer_wf (ha_backends s) ->
  match healthAware_ValidateAccessList v sup clk l s with
  | Returns (res, s') =>
      (let! p := preflightChecksAndCleanupAccessList v (ha_common s) l in
       match p with
       | inr err => Returns err
       | inl l => first_verdict v sup clk l 0 (in_turn (ha_backends s))
       end) = Returns res /\
      ha_common s' = ha_common s /\ same_urls (ha_backends s) (ha_backends s') /\ buffer_wf (ha_backends s')
  | Panics msg =>
      (let! p := preflightChecksAndCleanupAccessList v (ha_common s) l in
       match p with
       | inr err => Returns err
       | inl l => first_verdict v sup clk l 0 (in_turn (ha_backends s))
       end) = Panics msg
  end.
Proof.
  intros Hwf. unfold healthAware_ValidateAccessList.
  assert (Hlast : forall b', buffer_wf b' -> exists b2, NextBackend b' = Returns b2 /\ lb_backends (snd b2) = lb_backends b' /\ buffer_wf (snd b2)).
  { intros b' Hb'. rewrite NextBackend_wf by done. eexists. split; [done|]. split; [done|]. unfold buffer_wf in *. cbn.
    apply Nat.mod_upper_bound. lia. }
  destruct (preflightChecksAndCleanupAccessList v (ha_common s) l) as [[l'|err]|msg]; cbn [outcome_bind]; [| |done].
  - unfold GetBackend. rewrite (proj2 (Nat.ltb_lt _ _) Hwf). cbn [outcome_bind].
    pose proof (ha_attempts_in_turn v sup clk l' (ha_backends s) Hwf (Size (ha_backends s)) 0 (ha_backends s) eq_refl eq_refl
      ltac:(rewrite Nat.add_0_r, Nat.mod_small by done; done) ltac:(done)) as H.
    rewrite Nat.mul_0_r, drop_0 in H. destruct (ha_attempts _ _ _ _ _ _ _ _) as [[res b']|msg]; cbn [outcome_bind]; [|done].
    destruct H as (Hv & Hu & Hb). destruct (Hlast b' Hb) as (b2 & Hn & Hb2 & Hw2). cbn [snd]. rewrite Hn. cbn [outcome_bind].
    split; [done|]. split; [done|]. split; [|done]. unfold same_urls in *. cbn [ha_backends]. by rewrite Hb2.
  - destruct (Hlast _ Hwf) as (b2 & Hn & Hb2 & Hw2). cbn [snd]. rewrite Hn. cbn [outcome_bind fst].
    split; [done|]. split; [done|]. split; [|done]. unfold same_urls. cbn [ha_backends]. by rewrite Hb2.
Qed.

(** Without a supervisor the deferred move divides by zero, also where the others skip the validation. *)
Lemma health_aware_no_urls v sup clk l timeout opts :
  cs_urls (NewCommonInteropStrategy [] opts) = [] ->
  healthAware_ValidateAccessList v sup clk l (NewHealthAwareLoadBalancingStrategy [] timeout opts)
  = Panics "integer divide by zero".
Proof.
  intros Hu. unfold healthAware_ValidateAccessList, preflightChecksAndCleanupAccessList. cbn [ha_common NewHealthAwareLoadBalancingStrategy].
  rewrite Hu. by destruct (cs_skipOnNoSupervisorBackend _).
Qed.

(** ** The errors of the strategies can be written *)

Section strategy_errors.
Context (v : visit) (Hv : forall m kv, kv ∈ v m -> kv ∈ m).

Lemma ParseInteropError_ok e p : ParseInteropError v e = Returns p -> ok_error (ERPC p).
Proof.
  unfold ParseInteropError. intros H. step_outcome H. destruct a as [fallback text].
  destruct (list_find _ (v interopRPCErrorMap)) as [[i [k codes]]|] eqn:Ef.
  - injection H as <-. apply list_find_Some in Ef as (Hi & _ & _). apply list_elem_of_lookup_2, Hv in Hi.
    assert (Hall : Forall (fun kv => writable_err (snd kv) = true) interopRPCErrorMap) by (by repeat constructor).
    rewrite Forall_forall in Hall. specialize (Hall _ Hi). destruct codes. apply writable_err_intro in Hall as [Hc _]. apply writable_err_intro. by split; [|left].
  - injection H as <-. destruct e as [? code body|err]; cbn in E; [|by injection E as <- _].
    destruct (decode_RPCRes body) as [r|] eqn:Ed; [|by injection E as <- _]. apply decode_RPCRes_decoded in Ed as (_ & _ & He & _).
    destruct (res_Error r) as [p|]; [|done]. injection E as <- _. by destruct He.
Qed.

Lemma preflight_ok s l err : preflightChecksAndCleanupAccessList v s l = Returns (inr (Some err)) -> ok_error err.
Proof.
  unfold preflightChecksAndCleanupAccessList. intros H. destruct (cs_urls s); [destruct (cs_skipOnNoSupervisorBackend s); by simplify_eq|].
  step_outcome H. destruct a as [l'|e]; [destruct (_ && _); by simplify_eq|]. simplify_eq. destruct (cs_validateAndDeduplicate s); [|done].
  destruct (validateAndDeduplicateInteropAccessList l) as [[?|text]|]; [done| |done]. step_outcome E. simplify_eq. by eapply ParseInteropError_ok.
Qed.

Lemma firstSupervisor_ok sup now s l err : firstSupervisor_ValidateAccessList v sup now s l = Returns (Some err) -> ok_error err.
Proof.
  unfold firstSupervisor_ValidateAccessList. intros H. step_outcome H. destruct a as [l'|e]; [|simplify_eq; by eapply preflight_ok].
  destruct (cs_urls s); [done|]. step_outcome H. destruct a as [code [p|]]; simplify_eq/=. unfold performCheckAccessListOp in E0.
  destruct (sup _ _ _); [|done]. step_outcome E0. simplify_eq. by eapply ParseInteropError_ok.
Qed.

Lemma multicall_ok sup now s l err : multicall_ValidateAccessList v sup now s l (Some err) -> ok_error err.
Proof.
  inversion 1 as [e Hp|l' answers st e Hp _ Hr Hd]; subst; [by eapply preflight_ok|].
  assert (Hi : match mc_request st with Done (Some e) => ok_error e | _ => True end); [|by rewrite Hd in Hi].
  eapply (rtc_ind_r (fun st => match mc_request st with Done (Some e) => ok_error e | _ => True end)); [|clear|exact Hr]; [done|].
  intros x y _ [l1 i l2 r chan d m _|l1 r chan d k first m Hm|chan m|l1 r chan m] IH; cbn in *; try done. unfold mc_receive in Hm.
  destruct r as [e|]; [|by simplify_eq]. destruct k as [|[|k]]; [..|by simplify_eq]; step_outcome Hm; simplify_eq; by eapply ParseInteropError_ok.
Qed.

Lemma ha_attempts_ok sup clk l : forall retries tick i b err b', ha_attempts v sup clk l retries tick i b = Returns (Some err, b') -> ok_error err.
Proof.
  induction retries as [|n IH]; intros tick i b err b' H; cbn [ha_attempts] in H.
  - step_outcome H. simplify_eq. by eapply ParseInteropError_ok.
  - destruct (lb_backends b !! i) as [hb|]; [|done]. destruct (negb _); [step_outcome H; by eapply IH|]. step_outcome H.
    destruct a as [code [e|]]; [|done]. destruct (500 <=? code); [step_outcome H; by eapply IH|]. simplify_eq. unfold hb_Validate in E. step_outcome E.
    destruct (snd a) as [p|]; [|done]. step_outcome E. simplify_eq. by eapply ParseInteropError_ok.
Qed.

Lemma healthAware_ok sup clk l s err s' : healthAware_ValidateAccessList v sup clk l s = Returns (Some err, s') -> ok_error err.
Proof.
  unfold healthAware_ValidateAccessList. intros H. step_outcome H. step_outcome H. destruct a as [e b]. simplify_eq/=. step_outcome E.
  destruct a as [l'|e]; [|simplify_eq; by eapply preflight_ok]. step_outcome E. by eapply ha_attempts_ok.
Qed.

(** The two strategies that are functions, as the server uses them; the clock is read once for each call. *)
Definition first_strategy (sup : supervisors) (clk : nat -> Z) : InteropStrategy (nat * commonInteropStrategy) := fun l i =>
  let! err := firstSupervisor_ValidateAccessList v sup (clk (fst i)) (snd i) l in Returns (err, (S (fst i), snd i)).

Definition health_aware_strategy (sup : supervisors) (clk : nat -> nat -> Z) : InteropStrategy (nat * healthAwareStrategy) := fun l i =>
  let! r := healthAware_ValidateAccessList v sup (clk (fst i)) l (snd i) in Returns (fst r, (S (fst i), snd r)).

Lemma strategies_ok sup clk clk' : strategy_ok (IX := first_strategy sup clk) /\ strategy_ok (IX := health_aware_strategy sup clk').
Proof.
  split; intros l i err i' H; unfold ValidateAccessList, first_strategy, health_aware_strategy in H; step_outcome H.
  - simplify_eq. by eapply firstSupervisor_ok.
  - destruct a as [e s']. simplify_eq/=. by eapply healthAware_ok.
Qed.
End strategy_errors.

End interop.

Module interop_samples.

(** An access object is a chain and a checksum, encoded as two entries. *)
#[local] Instance pair_access : SupervisorTypes (string * string) := {|
  supervisor_text e := match e with ErrConflict => "conflicting data" | ErrNoRPCSource => "no RPC client configured" | _ => "uninitialized" end;
  ParseAccess l := match l with a :: b :: rest => inl (rest, (a, b)) | _ => inr "not enough entries" end;
  EncodeAccess a := [fst a; snd a];
  acc_ChainID := fst;
  acc_BlockNumber _ := 1;
  acc_LogIndex _ := 0;
  acc_Timestamp _ := 7;
  acc_Checksum := snd;
|}.

#[local] Instance pair_access_laws : SupervisorLaws (string * string).
Proof.
  constructor; [by intros [a b] rest|done|]. intros [|a [|b l]] rest x [= <- _]. cbn. lia.
Qed.

#[local] Instance plain_http_errors : HTTPErrors := fun status body => status +:+ ": " +:+ body.

Lemma access_list_deduplicated_witness : exists out,
  validateAndDeduplicateInteropAccessList ["10"; "0xaa"; "20"; "0xbb"; "10"; "0xaa"] = Some (inl out) /\
  validateAndDeduplicateInteropAccessList out = Some (inl out).
Proof.
  destruct (access_list_deduplicated ["10"; "0xaa"; "20"; "0xbb"; "10"; "0xaa"]) as [H _].
  destruct (H [("10", "0xaa"); ("20", "0xbb"); ("10", "0xaa")]) as (out & kept & Hv & _ & _ & _ & _ & Hi).
  - repeat (econstructor; [reflexivity|discriminate|]). constructor.
  - by exists out.
Defined.

Definition refusal : RPCErr := mkRPCErr (-320600) "conflicting data" "" 409.

Lemma multicall_sound_witness :
  mc_receive (fun l => l) None 1 (Some refusal) = Returns (Done None) /\ None ∈ [Some refusal; None].
Proof.
  split; [reflexivity|].
  apply (multicall_sound (fun l => l) [Some refusal; None] (mkMulticall [] [] false (Done None)) None); [discriminate| |reflexivity].
  eapply rtc_l; [apply (mc_send _ _ [] 0 [1%nat] (Some refusal)); reflexivity|].
  eapply rtc_l; [apply mc_recv; reflexivity|].
  eapply rtc_l; [apply (mc_send _ _ [] 1 [] None); reflexivity|].
  eapply rtc_l; [apply mc_recv; reflexivity|]. apply rtc_refl.
Defined.

Lemma multicall_blocks_witness : exists st k first,
  rtc (mc_step (fun l => l) [None]) (mc_init 1) st /\ mc_request st = Waiting k first /\
  forall st', ~ mc_step (fun l => l) [None] st st'.
Proof. apply (multicall_blocks (fun l => l) [None]). discriminate. Defined.

(** The first supervisor is down, the second refuses. *)
Definition two_supervisors : supervisors := fun url _ _ =>
  if bool_decide (url = "http://a") then Some (HTTPError "503 Service Unavailable" 503 "down")
  else Some (OtherError (ENew "conflicting data")).

Definition balanced : healthAwareStrategy := NewHealthAwareLoadBalancingStrategy ["http://a"; "http://b"] (10 * Second) [].

Lemma health_aware_in_turn_witness : exists res s',
  healthAware_ValidateAccessList (fun l => l) two_supervisors (fun _ => 0) ["10"; "0xaa"] balanced = Returns (res, s') /\
  res = Some (ERPC refusal) /\ same_urls (ha_backends balanced) (ha_backends s') /\ buffer_wf (ha_backends s').
Proof.
  pose proof (health_aware_in_turn (fun l => l) two_supervisors (fun _ => 0) ["10"; "0xaa"] balanced) as H.
  destruct (healthAware_ValidateAccessList (fun l => l) two_supervisors (fun _ => 0) ["10"; "0xaa"] balanced) as [[res s']|msg] eqn:E.
  2: { exfalso. revert E. vm_compute. discriminate. }
  destruct H as (Hr & _ & Hu & Hw); [cbv; lia|]. exists res, s'. split; [done|]. split; [|done].
  revert Hr. vm_compute. by intros [= <-].
Defined.

End interop_samples.
