(* ===== verification/Config.v ===== *)
(** * Configuration and start-up (src/config.go, [Start] of src/proxyd.go)

    From a configuration to the backends, the groups, the resolved secrets and the choice of cache,
    limiter and interop strategy. Environment variables, TLS files and the Redis server are
    arguments; what the process logs is left out, and where it logs a critical error it exits. *)

From S2P Require Import Prelude Json JsonFacts Geth Rpc Util Http RateLimiter Cache Backend BackendFacts Tracker Consensus BackendGroup Server Interop.
From S2P Require Import ConsensusInvariant PollerLoop.

(** ** Values *)

(** [log.Crit] ends the process. *)
Definition Crit {A} (msg : string) : outcome A := Panics msg.

Definition ReadFromEnvOrConfig (Getenv : string -> string) (value : string) : string + error :=
  if str_HasPrefix value "$" then
    let envValue := Getenv (str_TrimPrefix value "$") in
    if bool_decide (envValue = "") then inr (ENew ("config env var " +:+ value +:+ " not found")) else inl envValue
  else if str_HasPrefix value "\" then inl (str_TrimPrefix value "\")
  else inl value.

Definition validateReceiptsTarget (val : string) : string + error :=
  let val := if bool_decide (val = "") then ReceiptsTargetDebugGetRawReceipts else val in
  if bool_decide (val ∈ [ReceiptsTargetDebugGetRawReceipts; ReceiptsTargetAlchemyGetTransactionReceipts;
                         ReceiptsTargetEthGetTransactionReceipts; ReceiptsTargetParityGetTransactionReceipts])
  then inl val else inr (ENew ("invalid receipts target: " +:+ val)).

(** Durations are 64-bit nanoseconds. *)
Definition secondsToDuration (seconds : Z) : Z := i64 (seconds * Second).
Definition millisecondsToDuration (ms : Z) : Z := i64 (ms * Millisecond).

(** ** Sections of the file *)

Record BackendOptions : Type := mkBackendOptions {
  bo_ResponseTimeoutSeconds : Z;
  bo_ResponseTimeoutMilliseconds : Z;
  bo_MaxResponseSizeBytes : Z;
  bo_MaxRetries : Z;
  bo_OutOfServiceSeconds : Z;
  bo_MaxDegradedLatencyThreshold : Z;
  bo_MaxLatencyThreshold : Z;
  bo_MaxErrorRateThreshold : Q;
}.

(** The headers are listed in the order in which the map is visited. *)
Record BackendConfig : Type := mkBackendConfig {
  bc_Username : string;
  bc_Password : string;
  bc_RPCURL : string;
  bc_WSURL : string;
  bc_MaxRPS : Z;
  bc_MaxWSConns : Z;
  bc_CAFile : string;
  bc_ClientCertFile : string;
  bc_ClientKeyFile : string;
  bc_StripTrailingXFF : bool;
  bc_AllowedDynamicHeaders : list string;
  bc_Headers : list (string * string);
  bc_Weight : Z;
  bc_SkipIsSyncingCheck : bool;
  bc_ResponseTimeoutMilliseconds : Z;
  bc_MaxRetries : option Z;
  bc_SafeBlockDriftThreshold : Z;
  bc_FinalizedBlockDriftThreshold : Z;
  bc_ConsensusSkipPeerCountCheck : bool;
  bc_ConsensusForcedCandidate : bool;
  bc_ConsensusReceiptsTarget : string;
}.

Record RedisConfig : Type := mkRedisConfig {
  rc_URL : string;
  rc_Namespace : string;
  rc_ReadURL : string;
  rc_FallbackToMemory : bool;
  rc_RedisCluster : bool;
}.

Record BackendGroupConfig : Type := mkGroupConfig {
  gc_Backends : list string;
  gc_WeightedRouting : bool;
  gc_RoutingStrategy : string;
  gc_MulticallRPCErrorCheck : bool;
  gc_ConsensusAware : bool;
  gc_ConsensusAsyncHandler : string;
  gc_ConsensusPollerInterval : Z;
  gc_ConsensusBanPeriod : Z;
  gc_ConsensusMaxUpdateThreshold : Z;
  gc_ConsensusMaxBlockLag : Z;
  gc_ConsensusMaxBlockRange : Z;
  gc_ConsensusMinPeerCount : Z;
  gc_ConsensusHA : bool;
  gc_ConsensusHAHeartbeatInterval : Z;
  gc_ConsensusHALockPeriod : Z;
  gc_ConsensusHARedis : RedisConfig;
  gc_Fallbacks : list string;
}.

Definition with_strategy (s : string) (b : BackendGroupConfig) : BackendGroupConfig :=
  mkGroupConfig (gc_Backends b) (gc_WeightedRouting b) s (gc_MulticallRPCErrorCheck b) (gc_ConsensusAware b)
    (gc_ConsensusAsyncHandler b) (gc_ConsensusPollerInterval b) (gc_ConsensusBanPeriod b) (gc_ConsensusMaxUpdateThreshold b)
    (gc_ConsensusMaxBlockLag b) (gc_ConsensusMaxBlockRange b) (gc_ConsensusMinPeerCount b) (gc_ConsensusHA b)
    (gc_ConsensusHAHeartbeatInterval b) (gc_ConsensusHALockPeriod b) (gc_ConsensusHARedis b) (gc_Fallbacks b).

(** The configuration afterwards, and whether the strategy is valid. *)
Definition ValidateRoutingStrategy (b : BackendGroupConfig) : outcome (BackendGroupConfig * bool) :=
  if gc_ConsensusAware b && negb (bool_decide (gc_RoutingStrategy b = ""))
  then Crit "consensus_aware and routing strategy are mutually exclusive"
  else
    let b := if gc_ConsensusAware b then with_strategy ConsensusAwareRoutingStrategy b else b in
    if bool_decide (gc_RoutingStrategy b ∈ [ConsensusAwareRoutingStrategy; MulticallRoutingStrategy; FallbackRoutingStrategy])
    then Returns (b, true)
    else if bool_decide (gc_RoutingStrategy b = "") then Returns (with_strategy FallbackRoutingStrategy b, true)
    else Returns (b, false).

(** ** The process, its files and the Redis server *)

Record redis_client : Type := mkRedisClient { rd_url : string; rd_cluster : bool }.

(** Variables and files of the process; what the libraries make of URLs, certificates and keys; and what
    a Redis server answers to a ping. *)
Record process_env : Type := mkProcessEnv {
  pe_Getenv : string -> string;
  pe_ReadFile : string -> string + error;
  pe_AppendCertsFromPEM : string -> option string;
  pe_LoadX509KeyPair : string -> string -> string + error;
  pe_ParseURL : string -> option error;
  pe_ParseClusterURL : string -> option error;
  pe_Ping : redis_client -> option error;
}.

Definition NewRedisClient (env : process_env) (url : string) (enable_cluster : bool) : redis_client + error :=
  match (if enable_cluster then pe_ParseClusterURL env url else pe_ParseURL env url) with
  | Some err => inr err
  | None => inl (mkRedisClient url enable_cluster)
  end.

Definition CheckRedisConnection (env : process_env) (client : redis_client) : option error :=
  match pe_Ping env client with
  | Some err => Some (wrapErr (Some err) "error connecting to redis")
  | None => None
  end.

Definition CreateTLSClient (env : process_env) (ca : string) : tls_config + error :=
  match pe_ReadFile env ca with
  | inr err => inr (wrapErr (Some err) "error reading CA")
  | inl pem =>
      match pe_AppendCertsFromPEM env pem with
      | None => inr (ENew "error parsing TLS client cert")
      | Some roots => inl (mkTLSConfig roots [])
      end
  end.

Definition ParseKeyPair (env : process_env) (crt key : string) : string + error :=
  match pe_LoadX509KeyPair env crt key with
  | inr err => inr (wrapErr (Some err) "error loading x509 key pair")
  | inl cert => inl cert
  end.

(** An empty [ca_file] configures nothing, whatever the other files are. *)
Definition configureBackendTLS (env : process_env) (cfg : BackendConfig) : option tls_config + error :=
  if bool_decide (bc_CAFile cfg = "") then inl None
  else
    match CreateTLSClient env (bc_CAFile cfg) with
    | inr err => inr err
    | inl tlsConfig =>
        if negb (bool_decide (bc_ClientCertFile cfg = "")) && negb (bool_decide (bc_ClientKeyFile cfg = "")) then
          match ParseKeyPair env (bc_ClientCertFile cfg) (bc_ClientKeyFile cfg) with
          | inr err => inr err
          | inl cert => inl (Some (mkTLSConfig (tls_RootCAs tlsConfig) [cert]))
          end
        else inl (Some tlsConfig)
    end.

(** ** One backend *)

Section start.
Context {W : Type} {MW : MovingWindow W}.

(** Every value is read from the environment if it says so. *)
Fixpoint read_headers (Getenv : string -> string) (l : list (string * string)) : list (string * string) + error :=
  match l with
  | [] => inl []
  | (name, value) :: rest =>
      match ReadFromEnvOrConfig Getenv value with
      | inr err => inr err
      | inl v => match read_headers Getenv rest with inr err => inr err | inl rest => inl ((name, v) :: rest) end
      end
  end.

Definition when {A} (b : bool) (x : A) : list A := if b then [x] else [].

(** The options that come from the [backend] section, in order. *)
Definition common_options (o : BackendOptions) : list (BackendOpt (W := W)) :=
  (if negb (bo_ResponseTimeoutMilliseconds o =? 0)
   then [WithTimeout (millisecondsToDuration (bo_ResponseTimeoutMilliseconds o))]
   else when (negb (bo_ResponseTimeoutSeconds o =? 0)) (WithTimeout (secondsToDuration (bo_ResponseTimeoutSeconds o)))) ++
  when (negb (bo_MaxRetries o =? 0)) (WithMaxRetries (bo_MaxRetries o)) ++
  when (negb (bo_MaxResponseSizeBytes o =? 0)) (WithMaxResponseSize (bo_MaxResponseSizeBytes o)) ++
  when (negb (bo_OutOfServiceSeconds o =? 0)) (WithOutOfServiceDuration (secondsToDuration (bo_OutOfServiceSeconds o))) ++
  when (0 <? bo_MaxDegradedLatencyThreshold o) (WithMaxDegradedLatencyThreshold (bo_MaxDegradedLatencyThreshold o)) ++
  when (0 <? bo_MaxLatencyThreshold o) (WithMaxLatencyThreshold (bo_MaxLatencyThreshold o)) ++
  when (negb (Qle_bool (bo_MaxErrorRateThreshold o) 0)) (WithMaxErrorRateThreshold (bo_MaxErrorRateThreshold o)).

(** The options that come from the backend's own section, in order. *)
Definition own_options (Getenv : string -> string) (cfg : BackendConfig) (password : option string)
    (headers : list (string * string)) (tlsConfig : option tls_config) (receiptsTarget : string) : list (BackendOpt (W := W)) :=
  when (negb (bc_MaxRPS cfg =? 0)) (WithMaxRPS (bc_MaxRPS cfg)) ++
  when (negb (bc_MaxWSConns cfg =? 0)) (WithMaxWSConns (bc_MaxWSConns cfg)) ++
  match password with Some p => [WithBasicAuth (bc_Username cfg) p] | None => [] end ++
  [WithHeaders headers] ++
  match tlsConfig with Some t => [WithTLSConfig t] | None => [] end ++
  when (bc_StripTrailingXFF cfg) WithStrippedTrailingXFF ++
  when (negb (bc_ResponseTimeoutMilliseconds cfg =? 0))
    (WithTimeout (millisecondsToDuration (bc_ResponseTimeoutMilliseconds cfg))) ++
  match bc_MaxRetries cfg with Some n => [WithMaxRetries n] | None => [] end ++
  [WithProxydIP (Getenv "PROXYD_IP"); WithSkipIsSyncingCheck (bc_SkipIsSyncingCheck cfg);
   WithSafeBlockDriftThreshold (bc_SafeBlockDriftThreshold cfg);
   WithFinalizedBlockDriftThreshold (bc_FinalizedBlockDriftThreshold cfg);
   WithConsensusSkipPeerCountCheck (bc_ConsensusSkipPeerCountCheck cfg);
   WithConsensusForcedCandidate (bc_ConsensusForcedCandidate cfg); WithWeight (bc_Weight cfg);
   WithConsensusReceiptTarget receiptsTarget].

Definition set_forwardRequestHeaders (l : list string) (b : Backend W) : Backend W := ltac:(set_field b b_forwardRequestHeaders l).

Notation "'try' x := e 'in' k" := (match e with inr err => inr err | inl x => k end)
  (at level 10, x name, e at level 100, k at level 200).

Definition configure_backend (Getenv : string -> string) (tls : BackendConfig -> option tls_config + error) (o : BackendOptions)
    (name : string) (cfg : BackendConfig) : Backend W + error :=
  try rpcURL := ReadFromEnvOrConfig Getenv (bc_RPCURL cfg) in
  try wsURL := ReadFromEnvOrConfig Getenv (bc_WSURL cfg) in
  if bool_decide (rpcURL = "") then inr (ENew ("must define an RPC URL for backend " +:+ name))
  else
    try password := (if bool_decide (bc_Password cfg = "") then inl None
                     else try p := ReadFromEnvOrConfig Getenv (bc_Password cfg) in inl (Some p)) in
    try headers := read_headers Getenv (bc_Headers cfg) in
    match tls cfg with
    | inr err => inr err
    | inl tlsConfig =>
        try target := ReadFromEnvOrConfig Getenv (bc_ConsensusReceiptsTarget cfg) in
        try target := validateReceiptsTarget target in
        inl (set_forwardRequestHeaders (bc_AllowedDynamicHeaders cfg)
               (NewBackend name rpcURL wsURL (common_options o ++ own_options Getenv cfg password headers tlsConfig target)))
    end.

(** All backends, in the order in which the map is visited, by name. *)
Fixpoint configure_backends (Getenv : string -> string) (tls : BackendConfig -> option tls_config + error) (o : BackendOptions)
    (l : list (string * BackendConfig)) (acc : gmap string (Backend W)) : gmap string (Backend W) + error :=
  match l with
  | [] => inl acc
  | (name, cfg) :: rest =>
      try b := configure_backend Getenv tls o name cfg in
      configure_backends Getenv tls o rest (<[name := b]> acc)
  end.

(** ** One group *)

(** The members, whether each is a fallback, and how many fallbacks were found. *)
Fixpoint group_members (byName : gmap string (Backend W)) (fallbacks : list string) (l : list string)
    (acc : list (Backend W)) (flags : gmap string bool) (count : nat)
    : list (Backend W) * gmap string bool * nat + error :=
  match l with
  | [] => inl (acc, flags, count)
  | bName :: rest =>
      match byName !! bName with
      | None => inr (ENew ("backend " +:+ bName +:+ " is not defined"))
      | Some b =>
          let n := length (filter (fun fb => fb = bName) fallbacks) in
          let flags := if bool_decide (n = O) then flags else <[bName := true]> flags in
          let flags := match flags !! bName with Some _ => flags | None => <[bName := false]> flags end in
          group_members byName fallbacks rest (acc ++ [b]) flags (count + n)
      end
  end.

Definition configure_group (byName : gmap string (Backend W)) (bgName : string) (bg : BackendGroupConfig)
    : BackendGroup W + error :=
  try r := group_members byName (gc_Fallbacks bg) (gc_Backends bg) [] ∅ 0 in
  let '(backends, flags, count) := r in
  if negb (count =? length (gc_Fallbacks bg))%nat
  then inr (ENew ("error: number of fallbacks instantiated did not match configured for backend group " +:+ bgName))
  else inl (mkBackendGroup bgName backends (gc_WeightedRouting bg) flags (gc_RoutingStrategy bg) (gc_MulticallRPCErrorCheck bg)).

Fixpoint configure_groups (byName : gmap string (Backend W)) (l : list (string * BackendGroupConfig))
    (acc : gmap string (BackendGroup W)) : gmap string (BackendGroup W) + error :=
  match l with
  | [] => inl acc
  | (name, cfg) :: rest =>
      try g := configure_group byName name cfg in
      configure_groups byName rest (<[name := g]> acc)
  end.

(** The options of a group's poller. *)
Definition consensus_options {T} (c : BackendGroupConfig) : list (ConsensusOpt (T := T)) :=
  when (0 <? gc_ConsensusBanPeriod c) (WithBanPeriod (gc_ConsensusBanPeriod c)) ++
  when (0 <? gc_ConsensusMaxUpdateThreshold c) (WithMaxUpdateThreshold (gc_ConsensusMaxUpdateThreshold c)) ++
  when (0 <? gc_ConsensusMaxBlockLag c) (WithMaxBlockLag (gc_ConsensusMaxBlockLag c)) ++
  when (0 <? gc_ConsensusMinPeerCount c) (WithMinPeerCount (u64 (gc_ConsensusMinPeerCount c))) ++
  when (0 <? gc_ConsensusMaxBlockRange c) (WithMaxBlockRange (gc_ConsensusMaxBlockRange c)) ++
  when (0 <? gc_ConsensusPollerInterval c) (WithPollerInterval (gc_ConsensusPollerInterval c)).

(** ** The whole configuration *)

Record InteropConfig : Type := mkInteropConfig {
  ic_Urls : list string;
  ic_Strategy : string;
  ic_UnhealthinessTimeout : Z;
  ic_ReqSizeLimit : Z;
  ic_AccessListSizeLimit : Z;
  ic_RateLimit : SenderRateLimitConfig;
}.

Record ServerConfig : Type := mkServerConfig {
  sc_WSPort : Z;
  sc_MaxBodySizeBytes : Z;
  sc_MaxConcurrentRPCs : Z;
  sc_DisableConcurrentRequestSemaphore : bool;
  sc_TimeoutSeconds : Z;
  sc_MaxUpstreamBatchSize : Z;
  sc_EnableXServedByHeader : bool;
  sc_EnableRequestLog : bool;
  sc_MaxRequestBodyLogLen : Z;
}.

Record CacheConfig : Type := mkCacheConfig { cc_Enabled : bool; cc_UseInmemCache : bool; cc_TTL : Z }.

(** Maps are listed in the order in which they are visited. *)
Record Config : Type := mkConfig {
  c_WSBackendGroup : string;
  c_Server : ServerConfig;
  c_Cache : CacheConfig;
  c_Redis : RedisConfig;
  c_RateLimit : RateLimitConfig;
  c_RateLimitUseRedis : bool;
  c_HighPrioRateLimit : RateLimitConfig;
  c_HighPrioUseRedis : bool;
  c_HighPrioSigners : list string;
  c_BackendOptions : BackendOptions;
  c_Backends : list (string * BackendConfig);
  c_BatchMaxSize : Z;
  c_Authentication : list (string * string);
  c_BackendGroups : list (string * BackendGroupConfig);
  c_RPCMethodMappings : list (string * string);
  c_WSMethodWhitelist : list string;
  c_SenderRateLimit : SenderRateLimitConfig;
  c_Interop : InteropConfig;
}.

Definition FirstSupervisorStrategy : string := "first-supervisor".
Definition MulticallStrategy : string := "multicall".
Definition HealthAwareLoadBalancingStrategy : string := "health-aware-load-balancing".
Definition defaultInteropValidationStrategy : string := FirstSupervisorStrategy.
Definition defaultInteropReqSizeLimit : Z := 128 * 1024.
Definition defaultInteropAccessListSizeLimit : Z := 1000.
Definition defaultInteropLoadBalancingUnhealthinessTimeout : Z := 10 * Second.
Definition defaultCacheTtl : Z := 1 * Hour.

(** ** Redis *)

(** A new client whose connection - or that of another one - is checked. *)
Definition connect (env : process_env) (fallback : bool) (url : string) (cluster : bool) (checked : option redis_client) : redis_client + error :=
  match NewRedisClient env url cluster with
  | inr err => inr err
  | inl client => match CheckRedisConnection env (default client checked) with
                  | Some err => if fallback then inl client else inr err
                  | None => inl client
                  end
  end.

(** The primary client and the one for reading; the connection that is checked is the primary one
    both times. *)
Definition redis_clients (env : process_env) (r : RedisConfig) : option redis_client * option redis_client + error :=
  try primary := (if bool_decide (rc_URL r = "") then inl None
                  else try u := ReadFromEnvOrConfig (pe_Getenv env) (rc_URL r) in
                       try client := connect env (rc_FallbackToMemory r) u (rc_RedisCluster r) None in inl (Some client)) in
  if bool_decide (rc_ReadURL r = "") then inl (primary, primary)
  else
    match primary with
    | None => inr (ENew "must specify a Redis primary URL. only read endpoint is set")
    | Some client =>
        try ru := ReadFromEnvOrConfig (pe_Getenv env) (rc_ReadURL r) in
        try read := connect env (rc_FallbackToMemory r) ru (rc_RedisCluster r) (Some client) in inl (primary, Some read)
    end.

(** ** The choices *)

Inductive cache_choice : Type :=
| NoCache | InMemoryCache | RedisCache (client : redis_client) (read : option redis_client) (namespace : string) (ttl : Z) (fallback : bool).

Definition choose_cache (c : Config) (clients : option redis_client * option redis_client) : cache_choice :=
  if negb (cc_Enabled (c_Cache c)) then NoCache
  else if cc_UseInmemCache (c_Cache c) then InMemoryCache
  else match fst clients with
       | None => InMemoryCache
       | Some client => RedisCache client (snd clients) (rc_Namespace (c_Redis c))
                     (if cc_TTL (c_Cache c) =? 0 then defaultCacheTtl else cc_TTL (c_Cache c)) (rc_FallbackToMemory (c_Redis c))
       end.

Inductive limiter_choice : Type := MemoryLimiter | RedisLimiter (client : option redis_client) (fallback : bool).

(** What [limiterFactory] captures: limits of either kind of client in Redis put all limiters there,
    over the primary client, if there is one. *)
Definition choose_limiter (c : Config) (clients : option redis_client * option redis_client) : limiter_choice :=
  if c_RateLimitUseRedis c || c_HighPrioUseRedis c then RedisLimiter (fst clients) (rc_FallbackToMemory (c_Redis c)) else MemoryLimiter.

(** [conn] is the Redis that a client talks to. *)
Definition limiterFactory {St} (conn : redis_client -> St) (choice : limiter_choice) (dur max : Z) (prefix : string) : limiter St :=
  match choice with
  | RedisLimiter client fallback =>
      let limiter := NewRedisFrontendRateLimiter (conn <$> client) dur max prefix in
      if fallback then WithFallback (limiter, NewMemoryFrontendRateLimit dur max) else InRedis limiter
  | MemoryLimiter => InMemory (NewMemoryFrontendRateLimit dur max)
  end.

Inductive strategy_choice : Type :=
| UseFirstSupervisor (s : commonInteropStrategy)
| UseMulticall (s : commonInteropStrategy)
| UseHealthAware (s : healthAwareStrategy).

Definition interop_defaults (i : InteropConfig) : InteropConfig :=
  let strategy := if bool_decide (ic_Strategy i = "") then defaultInteropValidationStrategy else ic_Strategy i in
  mkInteropConfig (ic_Urls i) strategy
    (if (ic_UnhealthinessTimeout i =? 0) && bool_decide (strategy = HealthAwareLoadBalancingStrategy)
     then defaultInteropLoadBalancingUnhealthinessTimeout else ic_UnhealthinessTimeout i)
    (if ic_ReqSizeLimit i =? 0 then defaultInteropReqSizeLimit else ic_ReqSizeLimit i)
    (if ic_AccessListSizeLimit i =? 0 then defaultInteropAccessListSizeLimit else ic_AccessListSizeLimit i)
    (ic_RateLimit i).

Definition choose_strategy (i : InteropConfig) : strategy_choice + error :=
  let opts := [WithReqSizeLimit (ic_ReqSizeLimit i); WithAccessListSizeLimit (ic_AccessListSizeLimit i)] in
  if bool_decide (ic_Strategy i ∈ [FirstSupervisorStrategy; ""])
  then inl (UseFirstSupervisor (NewCommonInteropStrategy (ic_Urls i) opts))
  else if bool_decide (ic_Strategy i = MulticallStrategy) then inl (UseMulticall (NewCommonInteropStrategy (ic_Urls i) opts))
  else if bool_decide (ic_Strategy i = HealthAwareLoadBalancingStrategy)
  then inl (UseHealthAware (NewHealthAwareLoadBalancingStrategy (ic_Urls i) (ic_UnhealthinessTimeout i) opts))
  else inr (ENew ("invalid interop validating strategy: " +:+ ic_Strategy i)).

(** ** Start *)

Definition check_sections (c : Config) : option error :=
  if bool_decide (c_Backends c = []) then Some (ENew "must define at least one backend")
  else if bool_decide (c_BackendGroups c = []) then Some (ENew "must define at least one backend group")
  else if bool_decide (c_RPCMethodMappings c = []) then Some (ENew "must define at least one RPC method mapping")
  else if bool_decide ("none" ∈ map fst (c_Authentication c)) then Some (ENew "cannot use none as an auth key")
  else None.

Definition check_limits (c : Config) (clients : option redis_client * option redis_client) : option error :=
  if bool_decide (fst clients = None) && c_RateLimitUseRedis c
  then Some (ENew "must specify a Redis URL if UseRedis is true in rate limit config")
  else if sl_Enabled (c_SenderRateLimit c) then
    if sl_Limit (c_SenderRateLimit c) <=? 0 then Some (ENew "limit in sender_rate_limit must be > 0")
    else if sl_Interval (c_SenderRateLimit c) <? Second then Some (ENew "interval in sender_rate_limit must be >= 1s")
    else None
  else None.

Fixpoint resolve_auth (Getenv : string -> string) (l : list (string * string)) (acc : gmap string string)
    : gmap string string + error :=
  match l with
  | [] => inl acc
  | (secret, alias) :: rest =>
      try s := ReadFromEnvOrConfig Getenv secret in resolve_auth Getenv rest (<[s := alias]> acc)
  end.

Definition check_routes (c : Config) (groups : gmap string (BackendGroup W)) : option error :=
  if negb (bool_decide (c_WSBackendGroup c = "")) && bool_decide (groups !! c_WSBackendGroup c = None)
  then Some (ENew ("ws backend group " +:+ c_WSBackendGroup c +:+ " does not exist"))
  else if bool_decide (c_WSBackendGroup c = "") && negb (sc_WSPort (c_Server c) =? 0)
  then Some (ENew "a ws port was defined, but no ws group was defined")
  else match list_find (fun mg => groups !! snd mg = None) (c_RPCMethodMappings c) with
       | Some (_, (_, g)) => Some (ENew ("undefined backend group " +:+ g))
       | None => None
       end.

(** The semaphore of the backends: none, or its size. *)
Definition rpc_semaphore (c : ServerConfig) : option Z :=
  if sc_DisableConcurrentRequestSemaphore c then None
  else Some (if sc_MaxConcurrentRPCs c =? 0 then 2 ^ 63 - 1 else sc_MaxConcurrentRPCs c).

(** The headers that some backend forwards; Go visits the set in any order. *)
Definition allowedDynamicHeaderSet (l : list (string * BackendConfig)) : gset string :=
  list_to_set (concat (map (fun x => bc_AllowedDynamicHeaders (snd x)) l)).

(** What the server is made from. *)
Record plan : Type := mkPlan {
  pl_backends : gmap string (Backend W);
  pl_groups : gmap string (BackendGroup W);
  pl_wsGroup : option (BackendGroup W);
  pl_auth : gmap string string;
  pl_cache : cache_choice;
  pl_limiter : limiter_choice;
  pl_strategy : strategy_choice;
  pl_semaphore : option Z;
  pl_dynamicHeaders : list string;
}.

Definition fails_with {A} (e : option error) (k : A + error) : A + error := match e with Some err => inr err | None => k end.

Definition Start (env : process_env) (c : Config) : plan + error :=
  fails_with (check_sections c) (
  try clients := redis_clients env (c_Redis c) in
  fails_with (check_limits c clients) (
  try backends := configure_backends (pe_Getenv env) (configureBackendTLS env) (c_BackendOptions c) (c_Backends c) ∅ in
  try groups := configure_groups backends (c_BackendGroups c) ∅ in
  fails_with (check_routes c groups) (
  try auth := resolve_auth (pe_Getenv env) (c_Authentication c) ∅ in
  try strategy := choose_strategy (interop_defaults (c_Interop c)) in
  inl (mkPlan backends groups (if bool_decide (c_WSBackendGroup c = "") then None else groups !! c_WSBackendGroup c)
         auth (choose_cache c clients) (choose_limiter c clients) strategy (rpc_semaphore (c_Server c))
         (elements (allowedDynamicHeaderSet (c_Backends c))))))).

(** The server; the interfaces it is given are made from the choices. *)
Definition new_server {Addr Pub St C I} `{!Crypto Addr Pub} (conn : redis_client -> St)
    (newCache : cache_choice -> option C) (newStrategy : strategy_choice -> I) (compile : string -> (string -> bool) + error)
    (c : Config) (p : plan) : Server Addr (limiter St) C I + error :=
  let interop := interop_defaults (c_Interop c) in
  NewServer (list_to_map (c_RPCMethodMappings c)) (sc_MaxBodySizeBytes (c_Server c)) (pl_auth p)
    (secondsToDuration (sc_TimeoutSeconds (c_Server c))) (sc_MaxUpstreamBatchSize (c_Server c))
    (sc_EnableXServedByHeader (c_Server c)) (newCache (pl_cache p)) (c_RateLimit c) (c_HighPrioRateLimit c)
    (map HexToAddress (c_HighPrioSigners c)) (c_SenderRateLimit c) (ic_RateLimit interop)
    (sc_EnableRequestLog (c_Server c)) (sc_MaxRequestBodyLogLen (c_Server c)) (c_BatchMaxSize c)
    (limiterFactory conn (pl_limiter p)) compile (ic_ReqSizeLimit interop) (newStrategy (pl_strategy p)) (pl_dynamicHeaders p).

(** ** After the server has been started *)

Inductive tracker_choice : Type :=
| InMemoryTracker
| HATracker (client : redis_client) (namespace : string) (opts : list RedisConsensusTrackerOpt).

Definition choose_tracker (env : process_env) (bg : BackendGroup W) (cfg : BackendGroupConfig) : outcome (tracker_choice + error) :=
  if negb (gc_ConsensusHA cfg) then Returns (inl InMemoryTracker)
  else
    let url := rc_URL (gc_ConsensusHARedis cfg) in
    if bool_decide (url = "") then Crit "must specify a consensus_ha_redis config when consensus_ha is true"
    else match connect env false url (rc_RedisCluster (gc_ConsensusHARedis cfg)) None with
         | inr err => Returns (inr err)
         | inl client =>
             Returns (inl (HATracker client (rc_Namespace (gc_ConsensusHARedis cfg) +:+ ":" +:+ bg_Name bg)
               (when (0 <? gc_ConsensusHALockPeriod cfg) (WithLockPeriod (gc_ConsensusHALockPeriod cfg)) ++
                when (0 <? gc_ConsensusHAHeartbeatInterval cfg) (WithHeartbeatInterval (gc_ConsensusHAHeartbeatInterval cfg)))))
         end.

(** The strategy of a group is validated, and a consensus aware group gets its poller, whose
    goroutines are started unless the handler is the noop one. *)
Definition start_group {T} (env : process_env) (newTracker : tracker_choice -> T) (bg : BackendGroup W) (cfg : BackendGroupConfig)
    : outcome (option (PollerAsyncHandler (T := T) (W := W)) + error) :=
  let! r := ValidateRoutingStrategy cfg in
  let '(cfg, valid) := r in
  if negb valid then Crit "Invalid routing strategy provided"
  else if bool_decide (gc_RoutingStrategy cfg = ConsensusAwareRoutingStrategy) then
    if forallb (fun be => match bg_FallbackBackends bg !! be with Some _ => true | None => false end) (gc_Backends cfg)
    then
      let! r := choose_tracker env bg cfg in
      match r with
      | inr err => Returns (inr err)
      | inl tracker =>
          let cp := NewConsensusPoller (newTracker tracker) bg (consensus_options cfg) in
          Returns (inl (Some (if bool_decide (gc_ConsensusAsyncHandler cfg = "noop") then noop_Init bg cp else Init bg cp)))
      end
    else Crit "error backend not found in backend fallback configurations"
  else Returns (inl None).

(** ** The name of a backend survives its options *)

Definition keeps_name (opt : BackendOpt (W := W)) : Prop := forall b, b_Name (opt b) = b_Name b.

Lemma Override_name opts b : Forall keeps_name opts -> b_Name (Override opts b) = b_Name b.
Proof.
  unfold Override. revert b. induction opts as [|opt opts IH]; intros b H; [done|].
  apply Forall_cons in H as [Ho H]. cbn [fold_left]. by rewrite IH.
Qed.

Lemma when_forall {A} (P : A -> Prop) c x : P x -> Forall P (when c x).
Proof. destruct c; by repeat constructor. Qed.

Lemma common_options_name o : Forall keeps_name (common_options o).
Proof.
  unfold common_options. rewrite !Forall_app. split_and!; try (by apply when_forall).
  destruct (negb _); [by repeat constructor|by apply when_forall].
Qed.

Lemma own_options_name Getenv cfg password headers tls target : Forall keeps_name (own_options Getenv cfg password headers tls target).
Proof.
  unfold own_options. rewrite !Forall_app. split_and!; try (by apply when_forall).
  - destruct password; by repeat constructor.
  - by repeat constructor.
  - destruct tls; by repeat constructor.
  - destruct (bc_MaxRetries cfg); by repeat constructor.
  - by repeat constructor.
Qed.

Lemma configure_backend_name Getenv tls o name cfg b : configure_backend Getenv tls o name cfg = inl b -> b_Name b = name.
Proof.
  unfold configure_backend. intros H. repeat (case_match; try discriminate).
  all: injection H as <-; cbn [b_Name set_forwardRequestHeaders]; unfold NewBackend; rewrite Override_name; [done|].
  all: apply Forall_app; split; [apply common_options_name|apply own_options_name].
Qed.

(** ** What the options make of a backend *)

Lemma Override_app opts opts' (b : Backend W) : Override (opts ++ opts') b = Override opts' (Override opts b).
Proof. apply fold_left_app. Qed.

Lemma Override_cons opt opts (b : Backend W) : Override (opt :: opts) b = Override opts (opt b).
Proof. done. Qed.

(** What an option does to a field, whether or not the option is given. *)
Lemma field_when {A} (f : Backend W -> A) c opt b : (forall b, f (opt b) = f b) -> f (Override (when c opt) b) = f b.
Proof. intros H. destruct c; [apply H|done]. Qed.

Lemma field_when_set {A} (f : Backend W -> A) c opt v b : (forall b, f (opt b) = v) -> f (Override (when c opt) b) = if c then v else f b.
Proof. intros H. destruct c; [apply H|done]. Qed.

Lemma field_either {A} (f : Backend W -> A) (c c' : bool) opt opt' b : (forall b, f (opt b) = f b) -> (forall b, f (opt' b) = f b) ->
  f (Override (if c then [opt] else when c' opt') b) = f b.
Proof. intros H H'. destruct c; [apply H|]. by apply field_when. Qed.

Lemma field_opt {A X} (f : Backend W -> A) (opt : X -> BackendOpt) (o : option X) (b : Backend W) : (forall x b, f (opt x b) = f b) ->
  f (Override (match o with Some x => [opt x] | None => [] end) b) = f b.
Proof. intros H. destruct o; [apply H|done]. Qed.

Lemma field_set {A X} (f : Backend W -> A) (opt : X -> BackendOpt) (g : X -> A) (o : option X) (b : Backend W) : (forall x b, f (opt x b) = g x) ->
  f (Override (match o with Some x => [opt x] | None => [] end) b) = match o with Some x => g x | None => f b end.
Proof. intros H. destruct o; [apply H|done]. Qed.

Definition timeout_of (o : BackendOptions) (cfg : BackendConfig) : Z :=
  if negb (bc_ResponseTimeoutMilliseconds cfg =? 0) then millisecondsToDuration (bc_ResponseTimeoutMilliseconds cfg)
  else if negb (bo_ResponseTimeoutMilliseconds o =? 0) then millisecondsToDuration (bo_ResponseTimeoutMilliseconds o)
  else if negb (bo_ResponseTimeoutSeconds o =? 0) then secondsToDuration (bo_ResponseTimeoutSeconds o)
  else 5 * Second.

(** Reads a field of a backend through all its options, the last one first. *)
Ltac through_options f :=
  rewrite ?Override_app, ?Override_cons;
  repeat first [rewrite (field_when f) by (intros; reflexivity) | rewrite (field_either f) by (intros; reflexivity) | rewrite (field_opt f) by (intros; reflexivity)
               | erewrite (field_set f) by (intros; cbn; reflexivity) | erewrite (field_when_set f) by (intros; cbn; reflexivity)
               | progress match goal with |- context [f (Override [] ?b)] => change (f (Override [] b)) with (f b) end
               | progress match goal with |- context [f (?opt ?b)] => let v := eval cbn in (f (opt b)) in
                   match v with f _ => change (f (opt b)) with v end end].

(** A configured backend: its own timeout and retries - even no retries - win over the common ones, which
    win over the defaults; limits that are not set keep their defaults; and the HTTP client uses the
    certificates of the files, if there are any. *)
Theorem configured_backend Getenv tls o name cfg b : configure_backend Getenv tls o name cfg = inl b ->
  b_timeout b = timeout_of o cfg /\
  b_maxRetries b = default (bo_MaxRetries o) (bc_MaxRetries cfg) /\
  b_maxResponseSize b = (if bo_MaxResponseSizeBytes o =? 0 then 2 ^ 63 - 1 else bo_MaxResponseSizeBytes o) /\
  tls cfg = inl (b_TLSClientConfig b) /\ b_weight b = bc_Weight cfg /\ b_rpcURL b <> "".
Proof.
  unfold configure_backend. intros H.
  destruct (ReadFromEnvOrConfig Getenv (bc_RPCURL cfg)) as [rpcURL|]; [|done].
  destruct (ReadFromEnvOrConfig Getenv (bc_WSURL cfg)) as [wsURL|]; [|done].
  case_bool_decide as Hu; [done|]. destruct (if bool_decide _ then _ else _) as [password|]; [|done].
  destruct (read_headers _ _) as [headers|]; [|done]. destruct (tls cfg) as [t|]; [|done].
  destruct (ReadFromEnvOrConfig Getenv (bc_ConsensusReceiptsTarget cfg)) as [r|]; [|done].
  destruct (validateReceiptsTarget r) as [target|]; [|done]. injection H as <-.
  cbn [b_timeout b_maxRetries b_maxResponseSize b_TLSClientConfig b_weight b_rpcURL set_forwardRequestHeaders].
  unfold NewBackend, own_options, common_options. split_and!.
  - through_options (@b_timeout W). unfold timeout_of. destruct (negb _); [done|]. destruct (negb _); [done|]. by destruct (negb _).
  - through_options (@b_maxRetries W). destruct (bc_MaxRetries cfg); [done|]. cbn. by destruct (Z.eqb_spec (bo_MaxRetries o) 0).
  - through_options (@b_maxResponseSize W). by destruct (bo_MaxResponseSizeBytes o =? 0).
  - through_options (@b_TLSClientConfig W). by destruct t.
  - through_options (@b_weight W). done.
  - through_options (@b_rpcURL W). done.
Qed.

Definition named (m : gmap string (Backend W)) : Prop := forall n b, m !! n = Some b -> b_Name b = n.

Lemma configure_backends_named Getenv tls o l : forall acc m, named acc ->
  configure_backends Getenv tls o l acc = inl m -> named m.
Proof.
  induction l as [|[name cfg] l IH]; intros acc m Ha H; cbn [configure_backends] in H; [by injection H as <-|].
  destruct (configure_backend _ _ _ name cfg) as [b|err] eqn:Eb; [|done]. apply configure_backend_name in Eb.
  eapply IH; [|exact H]. intros n b' [[<- <-]|[_ Hn]]%lookup_insert_Some; [done|by apply Ha].
Qed.

Lemma configure_backend_headers Getenv tls o name cfg b : configure_backend Getenv tls o name cfg = inl b ->
  b_forwardRequestHeaders b = bc_AllowedDynamicHeaders cfg.
Proof. unfold configure_backend. intros H. repeat (case_match; try discriminate). all: by injection H as <-. Qed.

Lemma configure_backends_from Getenv tls o l : forall acc m, configure_backends Getenv tls o l acc = inl m ->
  forall n b, m !! n = Some b -> (exists cfg, (n, cfg) ∈ l /\ configure_backend Getenv tls o n cfg = inl b) \/ acc !! n = Some b.
Proof.
  induction l as [|[name cfg] l IH]; intros acc m H n b Hb; cbn [configure_backends] in H; [injection H as <-; by right|].
  destruct (configure_backend _ _ _ name cfg) as [b1|err] eqn:Eb; [|done].
  destruct (IH _ _ H n b Hb) as [(cfg' & Hin & Hc)|Hx]; [left; exists cfg'; split; [by right|done]|].
  apply lookup_insert_Some in Hx as [[<- <-]|[_ Hx]]; [left; exists cfg; split; [by left|done]|by right].
Qed.

(** ** The members of a group *)

(** The flag of a member says whether it is listed as a fallback. *)
Definition flags_ok (fallbacks : list string) (flags : gmap string bool) : Prop :=
  forall n f, flags !! n = Some f -> f = bool_decide (n ∈ fallbacks).

Lemma no_match_filter (n : string) l : filter (fun fb => fb = n) l = [] <-> n ∉ l.
Proof.
  split.
  - intros H Hn. assert (n ∈ filter (fun fb => fb = n) l) as Hin by (by apply list_elem_of_filter).
    rewrite H in Hin. by apply elem_of_nil in Hin.
  - intros Hn. destruct (filter _ l) as [|x r] eqn:E; [done|].
    assert (x ∈ filter (fun fb => fb = n) l) as [-> Hx]%list_elem_of_filter by (rewrite E; by left). done.
Qed.

Lemma group_members_ok byName fallbacks : named byName -> forall l acc flags count backends flags' count',
  group_members byName fallbacks l acc flags count = inl (backends, flags', count') -> flags_ok fallbacks flags ->
  map b_Name backends = map b_Name acc ++ l /\ flags_ok fallbacks flags' /\
  (forall n, n ∈ l \/ is_Some (flags !! n) -> is_Some (flags' !! n)) /\
  (forall b, b ∈ backends -> b ∈ acc \/ byName !! b_Name b = Some b).
Proof.
  intros Hn. induction l as [|bName l IH]; intros acc flags count backends flags' count' H Hf; cbn [group_members] in H.
  - injection H as <- <- <-. rewrite app_nil_r. split_and!; [done|done| |by left]. intros n [Hx|]; [by apply elem_of_nil in Hx|done].
  - destruct (byName !! bName) as [b|] eqn:Eb; [|done]. pose proof (Hn _ _ Eb) as Hname.
    set (flags1 := if bool_decide _ then flags else _) in H.
    set (flags2 := match flags1 !! bName with Some _ => flags1 | None => _ end) in H.
    assert (H1 : flags_ok fallbacks flags1).
    { subst flags1. case_bool_decide as Hl; [done|]. intros n f [[<- <-]|[_ Hx]]%lookup_insert_Some; [|by apply Hf].
      symmetry. apply bool_decide_eq_true_2. destruct (decide (bName ∈ fallbacks)) as [|Hni]; [done|].
      apply no_match_filter in Hni. by rewrite Hni in Hl. }
    assert (H2 : flags_ok fallbacks flags2 /\ (forall n, n = bName \/ is_Some (flags !! n) -> is_Some (flags2 !! n))).
    { subst flags2. destruct (flags1 !! bName) as [f|] eqn:Ef.
      - split; [done|]. intros n [->|Hx]; [by rewrite Ef|]. subst flags1. case_bool_decide; [done|].
        destruct (decide (n = bName)) as [->|]; [by rewrite lookup_insert_eq|by rewrite lookup_insert_ne].
      - assert (Hz : length (filter (fun fb => fb = bName) fallbacks) = O).
        { subst flags1. case_bool_decide; [done|]. by rewrite lookup_insert_eq in Ef. }
        assert (E1 : flags1 = flags) by (subst flags1; by rewrite bool_decide_eq_true_2). rewrite E1 in *. split.
        + intros n f [[<- <-]|[_ Hx]]%lookup_insert_Some; [|by apply Hf]. symmetry. apply bool_decide_eq_false_2, no_match_filter.
          by apply length_zero_iff_nil.
        + intros n Hx. destruct (decide (n = bName)) as [->|Hne]; [by rewrite lookup_insert_eq|].
          rewrite lookup_insert_ne by done. by destruct Hx. }
    destruct H2 as [H2 H2']. apply IH in H as (A & B & C & D); [|done]. split_and!.
    + rewrite A, map_app. cbn. by rewrite Hname, <- app_assoc.
    + done.
    + intros n [[->|Hx]%elem_of_cons|Hx]; apply C; [right; apply H2'; by left|by left|right; apply H2'; by right].
    + intros b' [[Hb'| ->%list_elem_of_singleton]%elem_of_app|Hb']%D; [by left| |by right]. right. by rewrite Hname.
Qed.

(** What a configured group is. *)
Definition group_ok (byName : gmap string (Backend W)) (cfg : BackendGroupConfig) (g : BackendGroup W) : Prop :=
  map b_Name (bg_Backends g) = gc_Backends cfg /\
  (forall b, b ∈ bg_Backends g -> byName !! b_Name b = Some b) /\
  (forall n, n ∈ gc_Backends cfg -> bg_FallbackBackends g !! n = Some (bool_decide (n ∈ gc_Fallbacks cfg))).

Lemma configure_group_ok byName name cfg g : named byName -> configure_group byName name cfg = inl g -> group_ok byName cfg g.
Proof.
  intros Hn. unfold configure_group. destruct (group_members _ _ _ _ _ _) as [[[backends flags] count]|err] eqn:E; [|done].
  destruct (negb _); [done|]. intros [= <-]. apply group_members_ok in E as (A & B & C & D); [|done|].
  2: { intros n f. by rewrite lookup_empty. }
  split_and!; cbn.
  - done.
  - intros b Hb. destruct (D b Hb) as [Hx|]; [by apply elem_of_nil in Hx|done].
  - intros n Hx. destruct (C n (or_introl Hx)) as [f Hf]. rewrite Hf. f_equal. by apply B.
Qed.

Lemma configure_groups_ok byName : named byName -> forall l acc m, configure_groups byName l acc = inl m ->
  (forall n g, acc !! n = Some g -> exists cfg, group_ok byName cfg g) ->
  forall n g, m !! n = Some g -> (exists cfg, (n, cfg) ∈ l /\ group_ok byName cfg g) \/ acc !! n = Some g.
Proof.
  intros Hn. induction l as [|[name cfg] l IH]; intros acc m H Ha n g Hg; cbn [configure_groups] in H; [injection H as <-; by right|].
  destruct (configure_group byName name cfg) as [g0|err] eqn:E0; [|done]. apply configure_group_ok in E0; [|done].
  destruct (IH _ _ H) with (n := n) (g := g) as [(cfg' & Hin & Hok)|Hx]; [|done| |].
  - intros n' g' [[<- <-]|[_ Hx]]%lookup_insert_Some; [by exists cfg|by eapply Ha].
  - left. exists cfg'. split; [by right|done].
  - apply lookup_insert_Some in Hx as [[<- <-]|[_ Hx]]; [|by right]. left. exists cfg. split; [by left|done].
Qed.

(** The two ways to ask for consensus: the strategy, or the deprecated flag. *)
Definition asks_consensus (cfg : BackendGroupConfig) : Prop :=
  (gc_ConsensusAware cfg = false /\ gc_RoutingStrategy cfg = ConsensusAwareRoutingStrategy) \/
  (gc_ConsensusAware cfg = true /\ gc_RoutingStrategy cfg = "").

Lemma asks_consensus_valid cfg : asks_consensus cfg -> exists strategy,
  ValidateRoutingStrategy cfg = Returns (with_strategy strategy cfg, true) /\ strategy = ConsensusAwareRoutingStrategy.
Proof.
  intros [[Hc Hr]|[Hc Hr]]; exists ConsensusAwareRoutingStrategy; (split; [|done]).
  - unfold ValidateRoutingStrategy. rewrite Hc, Hr. cbn [andb]. rewrite bool_decide_eq_true_2 by (by left).
    destruct cfg. unfold with_strategy. cbn in *. by rewrite Hr.
  - unfold ValidateRoutingStrategy. by rewrite Hc, Hr.
Qed.

Lemma Start_inv env c p : Start env c = inl p ->
  configure_backends (pe_Getenv env) (configureBackendTLS env) (c_BackendOptions c) (c_Backends c) ∅ = inl (pl_backends p) /\
  configure_groups (pl_backends p) (c_BackendGroups c) ∅ = inl (pl_groups p) /\ check_routes c (pl_groups p) = None /\
  pl_wsGroup p = (if bool_decide (c_WSBackendGroup c = "") then None else pl_groups p !! c_WSBackendGroup c) /\
  pl_dynamicHeaders p = elements (allowedDynamicHeaderSet (c_Backends c)).
Proof.
  unfold Start. intros H. destruct (check_sections c); [done|]. cbn [fails_with] in H.
  destruct (redis_clients env (c_Redis c)) as [clients|]; [|done]. destruct (check_limits c clients); [done|]. cbn [fails_with] in H.
  destruct (configure_backends _ _ _ _ ∅) as [byName|] eqn:Eb; [|done].
  destruct (configure_groups byName _ ∅) as [groups|] eqn:Eg; [|done].
  destruct (check_routes c groups) as [|] eqn:Er; [done|]. cbn [fails_with] in H.
  destruct (resolve_auth _ _ _) as [auth|]; [|done]. destruct (choose_strategy _) as [st|]; [|done]. by injection H as <-.
Qed.

(** The limiters have a client, unless only the high priority limits are in Redis and there is no URL. *)
Lemma Start_limiter env c p : Start env c = inl p -> (c_HighPrioUseRedis c = true -> rc_URL (c_Redis c) <> "") ->
  match pl_limiter p with RedisLimiter client _ => is_Some client | MemoryLimiter => True end.
Proof.
  unfold Start. intros H Hu. destruct (check_sections c); [done|]. cbn [fails_with] in H.
  destruct (redis_clients env (c_Redis c)) as [clients|] eqn:Er; [|done]. destruct (check_limits c clients) eqn:El; [done|]. cbn [fails_with] in H.
  destruct (configure_backends _ _ _ _ ∅) as [byName|]; [|done]. destruct (configure_groups byName _ ∅) as [groups|]; [|done].
  destruct (check_routes c groups); [done|]. cbn [fails_with] in H.
  destruct (resolve_auth _ _ _) as [auth|]; [|done]. destruct (choose_strategy _) as [st|]; [|done]. injection H as <-. cbn [pl_limiter].
  unfold choose_limiter. destruct (c_RateLimitUseRedis c || c_HighPrioUseRedis c) eqn:Eu; [|done].
  destruct (fst clients) as [client|] eqn:Ec; [by eexists|]. exfalso.
  unfold check_limits in El. rewrite Ec in El. rewrite bool_decide_eq_true_2 in El by done.
  destruct (c_RateLimitUseRedis c); [done|]. cbn in Eu. specialize (Hu Eu). unfold redis_clients in Er.
  rewrite bool_decide_eq_false_2 in Er by done. destruct (ReadFromEnvOrConfig _ _) as [u|]; [|done].
  destruct (connect _ _ u _ None) as [client|]; [|done]. destruct (bool_decide _); [by injection Er as <-|].
  destruct (ReadFromEnvOrConfig _ _) as [ru|]; [|done]. destruct (connect _ _ ru _ _) as [read|]; [|done]. by injection Er as <-.
Qed.

Lemma limiterFactory_ok {St} `{!RedisCounters St} (conn : redis_client -> St) choice dur max prefix :
  match choice with RedisLimiter client _ => is_Some client | MemoryLimiter => True end ->
  lim_ok (limiterFactory conn choice dur max prefix).
Proof. destruct choice as [|client []]; [done|..]; intros [x ->]; by eexists. Qed.

Lemma check_routes_ok c groups : check_routes c groups = None ->
  (forall method g, (method, g) ∈ c_RPCMethodMappings c -> is_Some (groups !! g)) /\
  (sc_WSPort (c_Server c) <> 0 -> c_WSBackendGroup c <> "" /\ is_Some (groups !! c_WSBackendGroup c)).
Proof.
  unfold check_routes. intros Er.
  destruct (negb (bool_decide (c_WSBackendGroup c = "")) && bool_decide (groups !! c_WSBackendGroup c = None)) eqn:E1; [done|].
  destruct (bool_decide (c_WSBackendGroup c = "") && negb (sc_WSPort (c_Server c) =? 0)) eqn:E2; [done|].
  destruct (list_find _ _) as [[? [? ?]]|] eqn:E3; [done|]. split.
  - intros method g Hin. pose proof (list_find_none _ _ E3 _ Hin) as Hx. cbn in Hx. by destruct (groups !! g).
  - intros Hp. apply Z.eqb_neq in Hp. rewrite Hp in E2. case_bool_decide; [done|]. cbn in E1.
    apply bool_decide_eq_false in E1. by destruct (groups !! c_WSBackendGroup c).
Qed.

Lemma Start_mapped env c p : Start env c = inl p -> forall method g, (method, g) ∈ c_RPCMethodMappings c -> is_Some (pl_groups p !! g).
Proof. intros (_ & _ & Hr & _)%Start_inv. by apply check_routes_ok in Hr as [? _]. Qed.

(** What starting a consensus aware group comes to: its poller over a tracker in memory; or, with
    [consensus_ha], an exit without a Redis URL, the error of connecting to Redis, or its poller over
    the tracker in Redis. *)
Definition poller_started {T} (env : process_env) (newTracker : tracker_choice -> T) (g : BackendGroup W) (cfg : BackendGroupConfig)
    (r : outcome (option (PollerAsyncHandler (T := T) (W := W)) + error)) : Prop :=
  let polled t := exists h, r = Returns (inl (Some h)) /\ ah_group h = g /\
    ah_poller h = NewConsensusPoller (newTracker t) g (consensus_options cfg) in
  let redis := gc_ConsensusHARedis cfg in
  if gc_ConsensusHA cfg then
    if bool_decide (rc_URL redis = "") then r = Crit "must specify a consensus_ha_redis config when consensus_ha is true"
    else match connect env false (rc_URL redis) (rc_RedisCluster redis) None with
         | inr err => r = Returns (inr err)
         | inl client => exists opts, polled (HATracker client (rc_Namespace redis +:+ ":" +:+ bg_Name g) opts)
         end
  else polled InMemoryTracker.

Lemma start_group_starts {T} env (newTracker : tracker_choice -> T) byName cfg g : group_ok byName cfg g ->
  asks_consensus cfg -> poller_started env newTracker g cfg (start_group env newTracker g cfg).
Proof.
  intros (_ & _ & Hf) (strategy & Hv & ->)%asks_consensus_valid.
  assert (Hall : forallb (fun be => match bg_FallbackBackends g !! be with Some _ => true | None => false end) (gc_Backends cfg) = true).
  { apply forallb_forall. intros be Hbe%list_elem_of_In. by rewrite (Hf be Hbe). }
  unfold poller_started, start_group. rewrite Hv. cbn [outcome_bind negb].
  rewrite (bool_decide_eq_true_2 (gc_RoutingStrategy (with_strategy _ cfg) = _)) by done. change (gc_Backends (with_strategy _ cfg)) with (gc_Backends cfg). rewrite Hall.
  unfold choose_tracker. cbn [gc_ConsensusHA gc_ConsensusHARedis with_strategy].
  destruct (gc_ConsensusHA cfg); cbn [negb].
  - destruct (bool_decide (rc_URL _ = "")); [reflexivity|]. destruct (connect _ _ _ _ _) as [client|err]; [|reflexivity].
    eexists _, _. split; [reflexivity|]. by destruct (bool_decide (gc_ConsensusAsyncHandler _ = "noop")).
  - eexists. split; [reflexivity|]. by destruct (bool_decide (gc_ConsensusAsyncHandler _ = "noop")).
Qed.


End start.

Definition no_redis : RedisConfig := mkRedisConfig "" "" "" false false.

(** A fallback that is no member goes unnoticed when another one is counted twice. *)
Example undefined_fallback_accepted `{!MovingWindow W} (a : Backend W) : exists g,
  configure_group {[ "a" := a ]} "main" (mkGroupConfig ["a"; "a"] false "" false false "" 0 0 0 0 0 0 false 0 0 no_redis ["a"; "missing"]) = inl g.
Proof. unfold configure_group. cbn [group_members gc_Backends gc_Fallbacks]. rewrite lookup_singleton_eq. cbn. by eexists. Qed.

Module config_samples.

#[local] Instance sum_window : MovingWindow Q := {| mw_New := 0%Q; mw_Add _ q w := (w + q)%Q; mw_Avg _ w := (w, w); mw_Sum _ w := (w, w);
  mw_Clear _ := 0%Q |}.

Definition no_options : BackendOptions := mkBackendOptions 0 0 0 0 0 0 0 0.
Definition node (url : string) : BackendConfig :=
  mkBackendConfig "" "" url "" 0 0 "" "" "" false [] [] 0 false 0 None 0 0 false false "".
Definition nodes : BackendGroupConfig := mkGroupConfig ["a"; "b"] false "" false true "" 0 0 0 0 0 0 false 0 0 no_redis ["b"].
Definition unlimited : RateLimitConfig := mkRateLimitConfig 0 0 [] [] ∅ "".

Definition sample_config : Config :=
  mkConfig "" (mkServerConfig 0 0 0 false 0 0 true false 0) (mkCacheConfig true false 0) no_redis unlimited false unlimited false [] no_options
    [("a", node "$NODE_A"); ("b", node "http://b")] 0 [("$SECRET", "alice")] [("main", nodes)] [("eth_chainId", "main")] []
    (mkSenderConfig false 0 0 []) (mkInteropConfig [] "" 0 0 0 (mkSenderConfig false 0 0 [])).

Definition variables (name : string) : string :=
  if bool_decide (name = "NODE_A") then "http://a" else if bool_decide (name = "SECRET") then "s3cret" else "".
Definition sample_env : process_env := 
  mkProcessEnv variables (fun _ => inr (ENew "no such file")) (fun _ => None) (fun _ _ => inr (ENew "no such file")) (fun _ => None) (fun _ => None) (fun _ => None).


(** Only the limits of ordinary clients are checked for a Redis URL: with high priority limits in Redis
    and no URL the limiters are made over a client that does not exist, and the first request panics. *)
Definition high_prio_config : Config :=
  mkConfig "" (mkServerConfig 0 0 0 false 0 0 true false 0) (mkCacheConfig true false 0) no_redis unlimited false unlimited true [] no_options
    [("a", node "$NODE_A"); ("b", node "http://b")] 0 [] [("main", nodes)] [("eth_chainId", "main")] []
    (mkSenderConfig false 0 0 []) (mkInteropConfig [] "" 0 0 0 (mkSenderConfig false 0 0 [])).

Example high_prio_without_redis : redis_clients sample_env (c_Redis high_prio_config) = inl (None, None) /\
  exists p, Start (W := Q) sample_env high_prio_config = inl p /\ pl_limiter p = RedisLimiter None false /\
    forall (conn : redis_client -> gmap string (Z * Z)) now key dur max prefix,
      lim_Take now key (limiterFactory conn (pl_limiter p) dur max prefix) = Panics "nil pointer dereference".
Proof. split; [reflexivity|]. eexists. split; [vm_compute; reflexivity|]. by split. Qed.

End config_samples.
