(* ===== verification/Semaphore.v ===== *)
(** * The limit on concurrent requests to backends ([LimitedHTTPClient] of src/backend.go)

    All backends share one semaphore, which [Start] makes from the configuration ([rpc_semaphore]).
    The weighted semaphore of golang.org/x/sync is a parameter; requests acquire it, are sent and
    release it, in any interleaving, and may give up while they wait. *)

From S2P Require Import Prelude Json JsonFacts Geth Rpc Util Http RateLimiter Cache Backend BackendFacts BackendGroup Server Config.

(** Acquiring a unit either succeeds at once or has to wait; releasing more than is held panics. *)
Class WeightedSemaphore (S : Type) : Type := {
  sem_NewWeighted : Z -> S;
  sem_size : S -> Z;
  sem_held : S -> Z;
  sem_Acquire : S -> option S;
  sem_Release : S -> outcome S;
}.

Class WeightedSemaphoreLaws (S : Type) `{!WeightedSemaphore S} : Prop := {
  sem_New_spec n : sem_size (sem_NewWeighted n) = n /\ sem_held (sem_NewWeighted n) = 0;
  sem_Acquire_spec s s' : sem_Acquire s = Some s' -> sem_held s + 1 <= sem_size s /\ sem_held s' = sem_held s + 1 /\ sem_size s' = sem_size s;
  sem_Acquire_wait s : sem_Acquire s = None -> sem_size s < sem_held s + 1;
  sem_Release_spec s : 0 < sem_held s -> exists s', sem_Release s = Returns s' /\ sem_held s' = sem_held s - 1 /\ sem_size s' = sem_size s;
}.

(** Where a call of [DoLimited] is. *)
Inductive call_state : Type :=
| Entered
| Sending
| Left (result : http_response + error).

Definition is_sending (c : call_state) : bool := match c with Sending => true | _ => false end.

Section client.
Context {S : Type} {SM : WeightedSemaphore S} {SML : WeightedSemaphoreLaws S}.

Record LimitedHTTPClient : Type := mkLimited { lc_sem : option S; lc_calls : list call_state }.

Definition new_client (sem : option Z) : LimitedHTTPClient := mkLimited (sem_NewWeighted <$> sem) [].

(** A call that could not acquire the semaphore before its context ended has the result of an
    [exchange] with that error; one that could, has the result of one without it, and releases. *)
Inductive client_step : LimitedHTTPClient -> LimitedHTTPClient -> Prop :=
| lc_enter sem calls : client_step (mkLimited sem calls) (mkLimited sem (calls ++ [Entered]))
| lc_unlimited (i : nat) calls : calls !! i = Some Entered ->
    client_step (mkLimited None calls) (mkLimited None (<[i := Sending]> calls))
| lc_acquire (i : nat) s s' calls : calls !! i = Some Entered -> sem_Acquire s = Some s' ->
    client_step (mkLimited (Some s) calls) (mkLimited (Some s') (<[i := Sending]> calls))
| lc_give_up (i : nat) s ex calls : calls !! i = Some Entered -> ex_acquire ex <> None ->
    client_step (mkLimited (Some s) calls) (mkLimited (Some s) (<[i := Left (DoLimited ex)]> calls))
| lc_done_unlimited (i : nat) ex calls : calls !! i = Some Sending -> ex_acquire ex = None ->
    client_step (mkLimited None calls) (mkLimited None (<[i := Left (DoLimited ex)]> calls))
| lc_done (i : nat) ex s s' calls : calls !! i = Some Sending -> ex_acquire ex = None -> sem_Release s = Returns s' ->
    client_step (mkLimited (Some s) calls) (mkLimited (Some s') (<[i := Left (DoLimited ex)]> calls)).

Fixpoint sending (calls : list call_state) : Z :=
  match calls with [] => 0 | c :: calls => Z.b2z (is_sending c) + sending calls end.

Lemma sending_app l l' : sending (l ++ l') = sending l + sending l'.
Proof. induction l as [|c l IH]; [done|]. cbn [app sending]. lia. Qed.

Lemma sending_insert l i c c' : l !! i = Some c -> sending (<[i := c']> l) = sending l - Z.b2z (is_sending c) + Z.b2z (is_sending c').
Proof.
  intros H. rewrite insert_take_drop by (by eapply lookup_lt_Some). rewrite <- (take_drop_middle l i c H) at 3.
  rewrite !sending_app. cbn [sending]. lia.
Qed.

Lemma sending_nonneg l : 0 <= sending l.
Proof. induction l as [|c l IH]; cbn; [done|]. destruct (is_sending c); cbn; lia. Qed.

Lemma sending_pos l i : l !! i = Some Sending -> 0 < sending l.
Proof.
  intros H. pose proof (sending_insert l i Sending Entered H) as E. pose proof (sending_nonneg (<[i := Entered]> l)). cbn in E. lia.
Qed.

(** What is held is what is being sent, and no more than there is. *)
Definition client_inv (size : option Z) (c : LimitedHTTPClient) : Prop :=
  match size, lc_sem c with
  | Some n, Some s => sem_size s = n /\ sem_held s = sending (lc_calls c) /\ sending (lc_calls c) <= Z.max 0 n
  | None, None => True
  | _, _ => False
  end.

Lemma client_step_inv size c c' : client_inv size c -> client_step c c' -> client_inv size c'.
Proof.
  unfold client_inv. intros H Hs. destruct Hs as [sem calls| |i s s' calls Hi Ha|i s ex calls Hi _| |i ex s s' calls Hi _ Hr];
    destruct size as [n|]; cbn [lc_sem lc_calls] in *; try done.
  - destruct sem; [|done]. rewrite sending_app. cbn. lia.
  - apply sem_Acquire_spec in Ha as (H1 & H2 & H3). rewrite (sending_insert _ _ _ _ Hi). cbn. lia.
  - rewrite (sending_insert _ _ _ _ Hi). cbn. lia.
  - destruct (sem_Release_spec s) as (s1 & E & H1 & H2); [apply sending_pos in Hi; lia|]. rewrite E in Hr. injection Hr as <-.
    rewrite (sending_insert _ _ _ _ Hi). cbn. lia.
Qed.

(** C25: the limit on concurrent requests to the backends. However requests come, wait, give up, are
    answered and fail: there are never more on their way than the configuration allows; a request whose
    answer is there can always leave, so giving the slot back does not panic; a slot is free as soon as
    fewer requests are on their way than allowed, so none is lost; and nothing is held once all have left. *)
Theorem rpc_concurrency cfg c : rtc client_step (new_client (rpc_semaphore cfg)) c ->
  (forall n, rpc_semaphore cfg = Some n -> sending (lc_calls c) <= Z.max 0 n) /\
  (forall i ex, lc_calls c !! i = Some Sending -> ex_acquire ex = None ->
     exists c', client_step c c' /\ lc_calls c' = <[i := Left (DoLimited ex)]> (lc_calls c)) /\
  (forall i, lc_calls c !! i = Some Entered -> (forall n, rpc_semaphore cfg = Some n -> sending (lc_calls c) < n) ->
     exists c', client_step c c' /\ lc_calls c' = <[i := Sending]> (lc_calls c)) /\
  (forall s, lc_sem c = Some s -> sending (lc_calls c) = 0 -> sem_held s = 0).
Proof.
  intros Hr. assert (HI : client_inv (rpc_semaphore cfg) c).
  { eapply (rtc_ind_r (client_inv (rpc_semaphore cfg))); [|intros x y _ Hxy Hx; by eapply client_step_inv|exact Hr].
    unfold client_inv, new_client. destruct (rpc_semaphore cfg) as [n|]; cbn; [|done]. destruct (sem_New_spec n). split_and!; lia. }
  unfold client_inv in HI. destruct c as [sem calls]. cbn [lc_sem lc_calls] in *. split_and!.
  - intros n E. rewrite E in HI. destruct sem; [|done]. by destruct HI as (_ & _ & ?).
  - intros i ex Hi He. destruct sem as [s|].
    + destruct (rpc_semaphore cfg) as [n|]; [|done]. destruct HI as (_ & Hh & _).
      destruct (sem_Release_spec s) as (s' & Hs & _); [apply sending_pos in Hi; lia|]. eexists. split; [by eapply lc_done|done].
    + eexists. split; [by eapply lc_done_unlimited|done].
  - intros i Hi Hn. destruct sem as [s|].
    + destruct (rpc_semaphore cfg) as [n|]; [|done]. destruct HI as (Hz & Hh & _). specialize (Hn n eq_refl).
      destruct (sem_Acquire s) as [s'|] eqn:Ea; [|apply sem_Acquire_wait in Ea; lia]. eexists. split; [by eapply lc_acquire|done].
    + eexists. split; [by eapply lc_unlimited|done].
  - intros s -> H0. destruct (rpc_semaphore cfg); [|done]. lia.
Qed.

End client.

(** Counting the units. *)
#[global] Instance counting_semaphore : WeightedSemaphore (Z * Z) := {
  sem_NewWeighted n := (n, 0);
  sem_size := fst;
  sem_held := snd;
  sem_Acquire s := if snd s + 1 <=? fst s then Some (fst s, snd s + 1) else None;
  sem_Release s := if 0 <? snd s then Returns (fst s, snd s - 1) else Panics "semaphore: released more than held";
}.

#[global] Instance counting_semaphore_laws : WeightedSemaphoreLaws (Z * Z).
Proof.
  constructor; cbn.
  - done.
  - intros s s'. destruct (Z.leb_spec (snd s + 1) (fst s)); [|done]. intros [= <-]. cbn. lia.
  - intros s. destruct (Z.leb_spec (snd s + 1) (fst s)); [done|]. lia.
  - intros s H. rewrite (proj2 (Z.ltb_lt _ _) H). by eexists.
Qed.

(** One request is on its way, and one waits for it. *)
Lemma rpc_concurrency_witness : exists c : LimitedHTTPClient (S := Z * Z),
  rtc client_step (new_client (rpc_semaphore (mkServerConfig 0 0 1 false 0 0 true false 0))) c /\ lc_calls c = [Sending; Entered] /\
  sending (lc_calls c) <= 1.
Proof.
  assert (H : rtc client_step (new_client (S := Z * Z) (rpc_semaphore (mkServerConfig 0 0 1 false 0 0 true false 0)))
                (mkLimited (Some (1, 1)) [Sending; Entered])).
  { eapply rtc_l; [apply (lc_enter (Some (1, 0)) [])|]. eapply rtc_l; [apply lc_enter|]. apply rtc_once.
    by apply (lc_acquire 0 (1, 0) (1, 1) [Entered; Entered]). }
  eexists. split; [exact H|]. split; [reflexivity|].
  destruct (rpc_concurrency _ _ H) as [Hb _]. exact (Hb 1 eq_refl).
Defined.
