(* ===== verification/Main.v ===== *)
(** * The command line (src/cmd/proxyd/main.go)

    [main] reads the configuration, sets the level of the logs, starts the proxy and waits for a signal. Decoding the
    TOML file is a parameter; where [main] logs a critical error the process exits. *)

From S2P Require Import Prelude Json JsonFacts Geth Rpc Util Http RateLimiter Cache Backend BackendGroup Server Metrics Interop Config.

(** ** Log levels *)

Inductive Level : Type := LevelTrace | LevelDebug | LevelInfo | LevelWarn | LevelError | LevelCrit.

Definition level_names : list (string * Level) :=
  [("trace", LevelTrace); ("trce", LevelTrace); ("debug", LevelDebug); ("dbug", LevelDebug); ("info", LevelInfo);
   ("warn", LevelWarn); ("error", LevelError); ("eror", LevelError); ("crit", LevelCrit)].

(** The level, and an error for an unknown name. *)
Definition LevelFromString (lvlString : string) : Level * option error :=
  let lvlString := str_ToLower lvlString in
  match list_find (fun nl => fst nl = lvlString) level_names with
  | Some (_, (_, level)) => (level, None)
  | None => (LevelDebug, Some (ENew ("unknown level: " +:+ lvlString)))
  end.

(** The level that [main] sets: an unknown name is the same as none. *)
Definition log_level (name : string) : Level :=
  match LevelFromString name with
  | (level, None) => level
  | (_, Some _) => LevelInfo
  end.

(** ** The process *)

Section main.
Context {Addr Pub St C I W : Type} {MW : MovingWindow W} {KX : Crypto Addr Pub}.

Record started_process : Type := mkProcess {
  ps_level : Level;
  ps_pprof : bool;
  ps_plan : plan (W := W);
  ps_server : Server Addr (limiter St) C I;
}.

(** Until the proxy is started: the pollers are started by the rest of [Start]. *)
Definition main (env : process_env) (DecodeFile : string -> (Config * string * bool) + error) (conn : redis_client -> St)
    (newCache : cache_choice -> option C) (newStrategy : strategy_choice -> I) (compile : string -> (string -> bool) + error)
    (args : list string) : outcome started_process :=
  match args with
  | _ :: file :: _ =>
      match DecodeFile file with
      | inr err => Crit "error reading config file"
      | inl (config, logLevel, enablePprof) =>
          match Start env config with
          | inr err => Crit "error starting proxyd"
          | inl p =>
              match new_server conn newCache newStrategy compile config p with
              | inr err => Crit "error starting proxyd"
              | inl s => Returns (mkProcess (log_level logLevel) enablePprof p s)
              end
          end
      end
  | _ => Crit "must specify a config file on the command line"
  end.

End main.

(** Every name of a level is understood, in any case. *)
Lemma LevelFromString_known name level upper : (name, level) ∈ level_names -> str_ToLower upper = name -> LevelFromString upper = (level, None).
Proof.
  intros Hin Hu. unfold LevelFromString. rewrite Hu. clear Hu. unfold level_names in *. rewrite !elem_of_cons, elem_of_nil in Hin.
  destruct_or?; simplify_eq; vm_compute; reflexivity.
Qed.

(** A name that is no level's does not keep the proxy from starting. *)
Lemma log_level_unknown name : str_ToLower name ∉ map fst level_names -> log_level name = LevelInfo.
Proof.
  intros Hn. unfold log_level, LevelFromString. destruct (list_find _ _) as [[i [n level]]|] eqn:E; [|done].
  apply list_find_Some in E as (Hl & Hx & _). cbn in Hx. destruct Hn. rewrite <- Hx. change n with (fst (n, level)).
  apply list_elem_of_fmap_2. by eapply list_elem_of_lookup_2.
Qed.
