(* ===== verification/Lifecycle.v ===== *)
(** * Start and shutdown of the process (src/server.go, src/proxyd.go, src/cmd/proxyd/main.go)

    [Start] runs the RPC and the WebSocket server in goroutines of their own and returns; [main] waits for
    a signal and calls [Shutdown], which drains one server after the other and then stops the pollers of
    the groups.  Meanwhile connections come and go, requests end and the pollers run.  The servers of
    net/http are modelled as far as their [Shutdown] is documented: it closes the listeners and idle
    connections and waits for the others, but not for hijacked ones (the WebSocket sessions). *)

From S2P Require Import Prelude Json JsonFacts Geth Rpc Util Http SlidingWindow Backend BackendFacts Tracker Consensus.
From S2P Require Import ConsensusFacts ConsensusInvariant PollerLoop.

(** ** A server and the goroutine that runs it *)

Record http_server : Type := mkHttpServer {
  hs_closing : bool;                               (** [Shutdown] was called *)
  hs_idle : nat;                                   (** connections without a request *)
  hs_active : nat;                                 (** requests that are being served *)
  hs_hijacked : nat;                               (** connections taken over by a handler *)
}.

(** The goroutine that calls [RPCListenAndServe] or [WSListenAndServe]; there is none for port 0. *)
Inductive listener : Type := NoPort | Scheduled | Made | Serving | Ended.

(** The goroutine and the field of [Server] it sets. *)
Record side : Type := mkSide { sd_listener : listener; sd_server : option http_server }.

Definition start_side (port : Z) : side := mkSide (if port =? 0 then NoPort else Scheduled) None.

(** [locked]: [srvMu] is held by [Shutdown]. *)
Inductive side_step (locked : bool) : side -> side -> Prop :=
| sd_make : locked = false -> side_step locked (mkSide Scheduled None) (mkSide Made (Some (mkHttpServer false 0 0 0)))
| sd_listen i a h : side_step locked (mkSide Made (Some (mkHttpServer false i a h))) (mkSide Serving (Some (mkHttpServer false i a h)))
| sd_refused l i a h : l = Made \/ l = Serving ->
    side_step locked (mkSide l (Some (mkHttpServer true i a h))) (mkSide Ended (Some (mkHttpServer true i a h)))
| sd_connect i a h : side_step locked (mkSide Serving (Some (mkHttpServer false i a h))) (mkSide Serving (Some (mkHttpServer false (S i) a h)))
| sd_request l c i a h : side_step locked (mkSide l (Some (mkHttpServer c (S i) a h))) (mkSide l (Some (mkHttpServer c i (S a) h)))
| sd_reply l i a h : side_step locked (mkSide l (Some (mkHttpServer false i (S a) h))) (mkSide l (Some (mkHttpServer false (S i) a h)))
| sd_lastReply l c i a h : side_step locked (mkSide l (Some (mkHttpServer c i (S a) h))) (mkSide l (Some (mkHttpServer c i a h)))
| sd_hijack l c i a h : side_step locked (mkSide l (Some (mkHttpServer c i (S a) h))) (mkSide l (Some (mkHttpServer c i a (S h))))
| sd_hangUp l c i a h : side_step locked (mkSide l (Some (mkHttpServer c (S i) a h))) (mkSide l (Some (mkHttpServer c i a h)))
| sd_sessionEnds l c i a h : side_step locked (mkSide l (Some (mkHttpServer c i a (S h)))) (mkSide l (Some (mkHttpServer c i a h))).

(** [http.Server.Shutdown] begins, where there is a server, and is over when only hijacked connections are left. *)
Definition begin_Shutdown (s : side) : side :=
  mkSide (sd_listener s) ((fun srv => mkHttpServer true (hs_idle srv) (hs_active srv) (hs_hijacked srv)) <$> sd_server s).

Definition drained (s : side) : bool :=
  match sd_server s with
  | None => true
  | Some srv => (hs_idle srv =? 0)%nat && (hs_active srv =? 0)%nat
  end.

(** ** The process *)

(** Where [main] is: waiting for a signal, inside [Shutdown], or past it; a listener that fails exits. *)
Inductive main_state : Type :=
| Awaiting_signal
| Draining_rpc
| Draining_ws
| Stopping (groups : gset string)
| Goodbye
| Exited.

(** The process ends with [main]. *)
Definition running_main (m : main_state) : bool := match m with Goodbye | Exited => false | _ => true end.

Definition holds_lock (m : main_state) : bool :=
  match m with Draining_rpc | Draining_ws | Stopping _ => true | _ => false end.

Section process.
Context {T : Type} {CT : ConsensusTracker T} {W : Type} {MW : MovingWindow W}.
Context {HX : HexUtil} {HXL : HexUtilLaws} {BX : BlockRPC} {RX : ReceiptsRPC} {SS : SortSlice} {SSL : SortSliceLaws}.

(** A group's poller with its handler, which may be the one that does nothing. *)
Record async_poller : Type := mkAsync { ap_noop : bool; ap_handler : PollerAsyncHandler (T := T) (W := W) }.

Definition cp_Shutdown (p : async_poller) : async_poller :=
  if ap_noop p then p else mkAsync false (ah_Shutdown (ap_handler p)).

(** [bg.Consensus] is nil without a poller. *)
Definition bg_Shutdown (consensus : option async_poller) : option async_poller := cp_Shutdown <$> consensus.

Record process : Type := mkProc {
  pr_main : main_state;
  pr_rpc : side;
  pr_ws : side;
  pr_groups : gmap string (option async_poller);
}.

(** What [Start] leaves running when it returns. *)
Definition start_process (rpcPort wsPort : Z) (groups : gmap string (option async_poller)) : process :=
  mkProc Awaiting_signal (start_side rpcPort) (start_side wsPort) groups.

(** The steps of a poller other than its own shutdown, which is called by [Shutdown] alone. *)
Inductive process_step : process -> process -> Prop :=
| pr_rpcSide m rpc rpc' ws gs : running_main m = true -> side_step (holds_lock m) rpc rpc' ->
    process_step (mkProc m rpc ws gs) (mkProc m rpc' ws gs)
| pr_wsSide m rpc ws ws' gs : running_main m = true -> side_step (holds_lock m) ws ws' ->
    process_step (mkProc m rpc ws gs) (mkProc m rpc ws' gs)
| pr_listenFails m rpc ws gs : running_main m = true -> sd_listener rpc = Made \/ sd_listener ws = Made ->
    process_step (mkProc m rpc ws gs) (mkProc Exited rpc ws gs)
| pr_poll m rpc ws gs group noop h h' : running_main m = true -> gs !! group = Some (Some (mkAsync noop h)) -> ah_step h h' ->
    ah_cancelled h' = ah_cancelled h ->
    process_step (mkProc m rpc ws gs) (mkProc m rpc ws (<[group := Some (mkAsync noop h')]> gs))
| pr_signal rpc ws gs : process_step (mkProc Awaiting_signal rpc ws gs) (mkProc Draining_rpc (begin_Shutdown rpc) ws gs)
| pr_rpcDrained rpc ws gs : drained rpc = true ->
    process_step (mkProc Draining_rpc rpc ws gs) (mkProc Draining_ws rpc (begin_Shutdown ws) gs)
| pr_wsDrained rpc ws gs : drained ws = true ->
    process_step (mkProc Draining_ws rpc ws gs) (mkProc (Stopping (dom gs)) rpc ws gs)
| pr_stopGroup rpc ws gs todo group consensus : group ∈ todo -> gs !! group = Some consensus ->
    process_step (mkProc (Stopping todo) rpc ws gs)
                 (mkProc (Stopping (todo ∖ {[group]})) rpc ws (<[group := bg_Shutdown consensus]> gs))
| pr_goodbye rpc ws gs : process_step (mkProc (Stopping ∅) rpc ws gs) (mkProc Goodbye rpc ws gs).

(** ** What holds while the process shuts down *)

Definition closed (s : side) : Prop := match sd_server s with None => True | Some srv => hs_closing srv = true end.

Definition stopped (consensus : option async_poller) : Prop :=
  match consensus with None => True | Some p => ap_noop p = true \/ ah_cancelled (ap_handler p) = true end.

Definition quiet (s : side) : Prop := closed s /\ drained s = true.

Definition process_inv (p : process) : Prop :=
  match pr_main p with
  | Awaiting_signal | Exited => True
  | Draining_rpc => closed (pr_rpc p)
  | Draining_ws => quiet (pr_rpc p) /\ closed (pr_ws p)
  | Stopping todo => quiet (pr_rpc p) /\ quiet (pr_ws p) /\ todo ⊆ dom (pr_groups p) /\
      map_Forall (fun g c => g ∈ todo \/ stopped c) (pr_groups p)
  | Goodbye => quiet (pr_rpc p) /\ quiet (pr_ws p) /\ map_Forall (fun _ c => stopped c) (pr_groups p)
  end.

Lemma begin_closed s : closed (begin_Shutdown s).
Proof. destruct s as [l [srv|]]; done. Qed.

Lemma side_step_closed s s' : side_step true s s' -> closed s -> closed s'.
Proof. by destruct 1. Qed.

(** A server that is closed and drained stays so: there is nobody left to send a request. *)
Lemma side_step_quiet s s' : side_step true s s' -> quiet s -> quiet s'.
Proof. intros H [Hc Hd]. split; [by eapply side_step_closed|]. destruct H; cbn in *; try done. all: by rewrite ?andb_false_r in Hd. Qed.

Lemma process_step_inv p p' : process_step p p' -> process_inv p -> process_inv p'.
Proof.
  intros H. destruct H as [m rpc rpc' ws gs Hm Hs|m rpc ws ws' gs Hm Hs|m rpc ws gs _ _|m rpc ws gs g noop h h' Hm Hg _ Hc|rpc ws gs
    |rpc ws gs Hd|rpc ws gs Hd|rpc ws gs todo g c Hin Hg|rpc ws gs]; unfold process_inv; cbn; intros Hi.
  - destruct m; try done; cbn in Hs; naive_solver eauto using side_step_closed, side_step_quiet.
  - destruct m; try done; cbn in Hs; naive_solver eauto using side_step_closed, side_step_quiet.
  - done.
  - destruct m; try done. destruct Hi as (H1 & H2 & Hsub & Hall). split_and!; [done|done|rewrite dom_insert; set_solver|].
    apply map_Forall_insert_2; [|done]. destruct (Hall _ _ Hg) as [?|[Hn|Hn]]; [by left|by right; left|right; right]. cbn in *. congruence.
  - apply begin_closed.
  - split; [done|]. apply begin_closed.
  - destruct Hi as [Hr Hw]. split_and!; [done|done|done|]. intros g c Hg. left. by eapply elem_of_dom_2.
  - destruct Hi as (H1 & H2 & Hsub & Hall). split_and!; [done|done|rewrite dom_insert; set_solver|].
    intros g' c' Hg'. apply lookup_insert_Some in Hg' as [[<- <-]|[Hne Hg']].
    + right. destruct c as [[[] h]|]; [by left|by right|done].
    + destruct (Hall _ _ Hg') as [?|?]; [left; set_solver|by right].
  - destruct Hi as (H1 & H2 & Hsub & Hall). split_and!; [done|done|]. intros g c Hg. destruct (Hall _ _ Hg); [set_solver|done].
Qed.

(** ** The shutdown comes to its end *)

(** The requests in progress end, and idle connections are closed. *)
Lemma side_drains locked s : exists s', rtc (side_step locked) s s' /\ drained s' = true.
Proof.
  destruct s as [l [[c i a h]|]]; [|eexists; by split; [apply rtc_refl|]]. revert i. induction a as [|a IHa]; intros i.
  - induction i as [|i IHi]; [eexists; by split; [apply rtc_refl|]|]. destruct IHi as (s' & Hs & Hd). exists s'. split; [|done].
    eapply rtc_l; [apply sd_hangUp|done].
  - destruct (IHa i) as (s' & Hs & Hd). exists s'. split; [|done]. eapply rtc_l; [apply sd_lastReply|done].
Qed.

Lemma rpc_steps m rpc rpc' ws gs : running_main m = true -> rtc (side_step (holds_lock m)) rpc rpc' ->
  rtc process_step (mkProc m rpc ws gs) (mkProc m rpc' ws gs).
Proof. intros Hm. induction 1 as [|s1 s2 s3 H _ IH]; [done|]. eapply rtc_l; [by apply pr_rpcSide|done]. Qed.

Lemma ws_steps m rpc ws ws' gs : running_main m = true -> rtc (side_step (holds_lock m)) ws ws' ->
  rtc process_step (mkProc m rpc ws gs) (mkProc m rpc ws' gs).
Proof. intros Hm. induction 1 as [|s1 s2 s3 H _ IH]; [done|]. eapply rtc_l; [by apply pr_wsSide|done]. Qed.

Definition says_goodbye (p : process) : Prop := exists p', rtc process_step p p' /\ pr_main p' = Goodbye.

Lemma goodbye_after p p' : rtc process_step p p' -> says_goodbye p' -> says_goodbye p.
Proof. intros H (p'' & H' & E). exists p''. split; [by etrans|done]. Qed.

Lemma stopping_ends rpc ws todo gs : todo ⊆ dom gs -> says_goodbye (mkProc (Stopping todo) rpc ws gs).
Proof.
  revert gs. induction todo as [|g todo Hg IH] using set_ind_L; intros gs Hsub.
  - eexists. split; [apply rtc_once, pr_goodbye|done].
  - assert (Hin : g ∈ dom gs) by set_solver. apply elem_of_dom in Hin as [c Hc].
    eapply goodbye_after; [apply rtc_once; apply (pr_stopGroup _ _ _ _ g c); [set_solver|done]|].
    replace (({[g]} ∪ todo) ∖ {[g]}) with todo by set_solver. apply IH. rewrite dom_insert. set_solver.
Qed.

Lemma draining_ws_ends rpc ws gs : says_goodbye (mkProc Draining_ws rpc ws gs).
Proof.
  destruct (side_drains true ws) as (ws' & Hw & Hd). eapply goodbye_after; [by apply ws_steps|].
  eapply goodbye_after; [by apply rtc_once, pr_wsDrained|]. by apply stopping_ends.
Qed.

Lemma draining_rpc_ends rpc ws gs : says_goodbye (mkProc Draining_rpc rpc ws gs).
Proof.
  destruct (side_drains true rpc) as (rpc' & Hr & Hd). eapply goodbye_after; [by apply rpc_steps|].
  eapply goodbye_after; [by apply rtc_once, pr_rpcDrained|]. apply draining_ws_ends.
Qed.

(** C30: the shutdown is graceful.  In every interleaving of connections, requests, pollers and the goroutines of
    the servers: when the process says goodbye, every server that was made is closed, with no request
    unanswered and no connection open but the hijacked ones, and the poller of every group is
    cancelled; and from the moment of the signal on there is always a way to get there. *)
Theorem graceful_shutdown rpcPort wsPort groups p : rtc process_step (start_process rpcPort wsPort groups) p ->
  (pr_main p = Goodbye -> quiet (pr_rpc p) /\ quiet (pr_ws p) /\ map_Forall (fun _ c => stopped c) (pr_groups p)) /\
  (running_main (pr_main p) = true -> says_goodbye p).
Proof.
  intros H. assert (Hi : process_inv p).
  { eapply (rtc_ind_r process_inv (start_process rpcPort wsPort groups)); [exact I| |exact H]. intros; by eapply process_step_inv. }
  destruct p as [m rpc ws gs]. unfold process_inv in Hi. cbn in *. split; [by intros ->|].
  destruct m; try done; intros _.
  - eapply goodbye_after; [apply rtc_once, pr_signal|]. apply draining_rpc_ends.
  - apply draining_rpc_ends.
  - apply draining_ws_ends.
  - apply stopping_ends, Hi.
Qed.

End process.

(** ** A run: a signal arrives during a request *)

#[local] Existing Instance total_window.

Definition one_group : gmap string (option (async_poller (T := InMemoryConsensusTracker) (W := Q))) :=
  {["main" := Some (mkAsync false PollerLoop.started)]}.

Ltac rpc_side := eapply rtc_l; [apply pr_rpcSide; [reflexivity|]|].

Lemma graceful_shutdown_witness : exists p,
  rtc process_step (start_process 8545 0 one_group) p /\ pr_main p = Draining_rpc /\
  (hs_active <$> sd_server (pr_rpc p)) = Some 1%nat /\ drained (pr_rpc p) = false /\ says_goodbye p.
Proof.
  assert (H : exists p, rtc process_step (start_process 8545 0 one_group) p /\ pr_main p = Draining_rpc /\
            sd_server (pr_rpc p) = Some (mkHttpServer true 0 1 0)).
  { eexists. split.
    - rpc_side; [by apply sd_make|]. rpc_side; [apply sd_listen|]. rpc_side; [apply sd_connect|]. rpc_side; [apply sd_request|].
      eapply rtc_l; [apply pr_signal|]. apply rtc_refl.
    - split; reflexivity. }
  destruct H as (p & Hp & Hm & Hs). exists p. unfold drained. rewrite Hs. split_and!; [done|done|done|done|].
  destruct (graceful_shutdown 8545 0 one_group p Hp) as [_ H]. apply H. by rewrite Hm.
Defined.
