(* ===== verification/WsProxy.v ===== *)
(** * WebSocket proxying ([WSProxier] of src/backend.go)

    Two pumps run side by side: one reads from the client and writes to the backend, or back to the
    client when the proxy answers itself; the other reads from the backend and writes to the client.
    The first one that fails ends the connection. The connections (gorilla's websocket library) are
    arguments: what is read, and whether a write fails. *)

From S2P Require Import Prelude Json JsonFacts Geth Rpc Util Http Cache Wire Replies.

(** ** Connections *)

(** The types of messages of RFC 6455; a read that fails before a message has begun yields no type. *)
Definition TextMessage : Z := 1.
Definition BinaryMessage : Z := 2.
Definition CloseMessage : Z := 8.
Definition noFrame : Z := -1.
Definition CloseNormalClosure : Z := 1000.
Definition CloseNoStatusReceived : Z := 1005.

Inductive ws_error : Type :=
| CloseError (Code : Z) (Text : string) (shown : string)   (** [shown] is its [Error()] *)
| OtherWSError (shown : string).

Inductive ws_write : Type :=
| ToBackend (msgType : Z) (msg : string)
| ToClient (msgType : Z) (msg : string).

Definition ws_read : Type := Z * string * option ws_error.

(** [websocket.FormatCloseMessage]: the payload of a close frame. *)
Class CloseFrames : Type := FormatCloseMessage : Z -> string -> string.

Section proxier.
Context {HX : HexUtil} {CF : CloseFrames}.

Definition formatWSError (err : ws_error) : string :=
  match err with
  | CloseError code text shown =>
      if negb (code =? CloseNoStatusReceived) then FormatCloseMessage code text else FormatCloseMessage CloseNormalClosure shown
  | OtherWSError shown => FormatCloseMessage CloseNormalClosure shown
  end.

Definition must_marshal (r : RPCRes) : outcome string :=
  match RPCRes_MarshalJSON r with Some t => Returns t | None => Panics "json: error calling MarshalJSON" end.

(** The request where there is one, and the error. *)
Definition prepareClientMsg (methodWhitelist : StringSet) (msg : string) : option RPCReq * option error :=
  match ParseRPCReq msg with
  | inr err => (None, Some err)
  | inl req => if negb (Has methodWhitelist (req_Method req)) then (Some req, Some (ESentinel ErrMethodNotWhitelisted)) else (Some req, None)
  end.

Definition parseBackendMsg (msg : string) : RPCRes + error :=
  match ParseRPCRes (inl msg) with
  | inr _ => inr (ESentinel ErrBackendBadResponse)
  | inl res => inl res
  end.

(** ** The pumps: one message, then all of them *)

(** [failing w]: the error of a write. *)
Section pumps.
Context (failing : ws_write -> option error).

(** What is written, and the error that ends the pump. *)
Definition pumped : Type := list ws_write * option error.

Definition write (w : ws_write) : pumped := ([w], failing w).

Definition is_data (msgType : Z) : bool := (msgType =? TextMessage) || (msgType =? BinaryMessage).

Definition client_message (wl : StringSet) (msgType : Z) (msg : string) : outcome pumped :=
  if negb (is_data msgType) then Returns (write (ToBackend msgType msg))
  else
    match prepareClientMsg wl msg with
    | (req, Some err) =>
        let! out := must_marshal (NewRPCErrorRes (match req with Some r => req_ID r | None => "" end) err) in
        Returns (write (ToClient msgType out))
    | (Some req, None) =>
        if bool_decide (req_Method req = "eth_accounts") then
          let! out := must_marshal (NewRPCRes (req_ID req) (GRawMessage "[]")) in
          Returns (write (ToClient msgType out))
        else Returns (write (ToBackend msgType msg))
    | (None, None) => Panics "invalid memory address or nil pointer dereference"
    end.

Definition backend_message (msgType : Z) (msg : string) : outcome pumped :=
  if negb (is_data msgType) then Returns (write (ToClient msgType msg))
  else
    match parseBackendMsg msg with
    | inr err => let! out := must_marshal (NewRPCErrorRes "" err) in Returns (write (ToClient msgType out))
    | inl _ => Returns (write (ToClient msgType msg))
    end.

(** A failed read is passed on as a close frame; the pump goes on with the message unless this fails. *)
Definition pump_one (close : string -> ws_write) (handle : Z -> string -> outcome pumped) (r : ws_read) : outcome pumped :=
  let '(msgType, msg, err) := r in
  let '(written, failed) := (match err with
                             | None => ([], None)
                             | Some e => write (close (formatWSError e))
                             end) in
  match failed with
  | Some e => Returns (written, Some e)
  | None => let! p := handle msgType msg in Returns (written ++ fst p, snd p)
  end.

Fixpoint pump (close : string -> ws_write) (handle : Z -> string -> outcome pumped) (reads : list ws_read) : outcome pumped :=
  match reads with
  | [] => Returns ([], None)
  | r :: rest =>
      let! p := pump_one close handle r in
      match snd p with
      | Some err => Returns p
      | None => let! q := pump close handle rest in Returns (fst p ++ fst q, snd q)
      end
  end.

Definition clientPump (wl : StringSet) (reads : list ws_read) : outcome pumped :=
  pump (ToBackend CloseMessage) (client_message wl) reads.

Definition backendPump (reads : list ws_read) : outcome pumped := pump (ToClient CloseMessage) backend_message reads.

(** ** What reaches the backend *)

(** A message that is passed on: data, a request, of a method that is allowed and not answered here. *)
Definition admissible (wl : StringSet) (r : ws_read) : bool :=
  let '(msgType, msg, _) := r in
  is_data msgType &&
  match ParseRPCReq msg with
  | inl req => Has wl (req_Method req) && negb (bool_decide (req_Method req = "eth_accounts"))
  | inr _ => false
  end.

Definition to_backend (w : ws_write) : option (Z * string) :=
  match w with ToBackend t m => if is_data t then Some (t, m) else None | ToClient _ _ => None end.

(** ** What the proxy answers itself *)

(** The answer to a message that is not passed on. *)
Definition own_answer (wl : StringSet) (msg : string) : option RPCRes :=
  match prepareClientMsg wl msg with
  | (req, Some err) => Some (NewRPCErrorRes (match req with Some r => req_ID r | None => "" end) err)
  | (Some req, None) => if bool_decide (req_Method req = "eth_accounts") then Some (NewRPCRes (req_ID req) (GRawMessage "[]")) else None
  | (None, None) => None
  end.

Definition answered_here (wl : StringSet) (r : ws_read) : option (Z * RPCRes) :=
  let '(msgType, msg, _) := r in if is_data msgType then pair msgType <$> own_answer wl msg else None.

Definition to_client (w : ws_write) : option (Z * string) :=
  match w with ToClient t m => if is_data t then Some (t, m) else None | ToBackend _ _ => None end.

(** A text of the same type that the client reads as the answer. *)
Definition carries (a : Z * RPCRes) (out : Z * string) : Prop := fst out = fst a /\ decode_RPCRes (snd out) = Some (received (snd a)).

Lemma must_marshal_writable r : writable r = true -> exists t, must_marshal r = Returns t /\ decode_RPCRes t = Some (received r).
Proof.
  intros (t & _ & Hm & _ & Hd & _)%encode_res_spec. exists t. unfold must_marshal. rewrite Hm. split; [done|].
  destruct (Hd "" eq_refl) as [_ H]. by rewrite str_app_nil in H.
Qed.

Lemma own_answer_writable wl msg r : own_answer wl msg = Some r -> writable r = true.
Proof.
  unfold own_answer, prepareClientMsg. destruct (ParseRPCReq msg) as [req|err] eqn:E.
  - pose proof (sendable_id _ (parsed_sendable _ _ E)) as Hid. destruct (negb _); [intros [= <-]; by apply NewRPCErrorRes_writable|].
    case_bool_decide; intros [= <-]. by apply writable_result.
  - intros [= <-]. unfold ParseRPCReq in E. destruct (decode_RPCReq msg); [done|]. by injection E as <-.
Qed.

(** What a message leads to: it is passed on unchanged, or it is answered. *)
Definition handled_as (wl : StringSet) (reads : list ws_read) (written : list ws_write) : Prop :=
  omap to_backend written = map fst (filter (fun r => admissible wl r = true) reads) /\
  Forall2 carries (omap (answered_here wl) reads) (omap to_client written).

Lemma handled_as_app wl r1 r2 w1 w2 : handled_as wl r1 w1 -> handled_as wl r2 w2 -> handled_as wl (r1 ++ r2) (w1 ++ w2).
Proof. intros [H1 H2] [H3 H4]. unfold handled_as. rewrite !omap_app, filter_app, map_app, H1, H3. split; [done|by apply Forall2_app]. Qed.

Lemma client_message_handled wl t m e : exists p, client_message wl t m = Returns p /\ handled_as wl [(t, m, e)] (fst p).
Proof.
  unfold client_message, handled_as. cbn [omap list_omap answered_here]. destruct (is_data t) eqn:Ed; cbn [negb].
  2: { eexists. split; [done|]. rewrite filter_cons_False by (cbn; by rewrite Ed). cbn. rewrite Ed. by split. }
  destruct (own_answer wl m) as [r|] eqn:Eo.
  - destruct (must_marshal_writable r (own_answer_writable _ _ _ Eo)) as (out & Hm & Hd).
    assert (Hp : admissible wl (t, m, e) <> true /\ match prepareClientMsg wl m with
      | (req, Some err) => let! out := must_marshal (NewRPCErrorRes (match req with Some r => req_ID r | None => "" end) err) in Returns (write (ToClient t out))
      | (Some req, None) => if bool_decide (req_Method req = "eth_accounts") then
          let! out := must_marshal (NewRPCRes (req_ID req) (GRawMessage "[]")) in Returns (write (ToClient t out)) else Returns (write (ToBackend t m))
      | (None, None) => Panics "invalid memory address or nil pointer dereference" end = Returns (write (ToClient t out))).
    { unfold own_answer, prepareClientMsg, admissible in *. rewrite Ed. destruct (ParseRPCReq m) as [req|err].
      - destruct (Has wl (req_Method req)); cbn [negb] in *; [case_bool_decide; [|done]|]; injection Eo as <-; by rewrite Hm.
      - injection Eo as <-. by rewrite Hm. }
    destruct Hp as [Hna ->]. eexists. split; [done|]. rewrite filter_cons_False by done. cbn. rewrite Ed. split; [done|]. by repeat constructor.
  - unfold own_answer, prepareClientMsg in *. destruct (ParseRPCReq m) as [req|err] eqn:Ep; [|done].
    destruct (Has wl (req_Method req)) eqn:Eh; cbn [negb] in *; [|done]. case_bool_decide as Ea; [done|]. eexists. split; [done|].
    rewrite filter_cons_True by (cbn; by rewrite Ed, Ep, Eh, bool_decide_eq_false_2). cbn. rewrite Ed. by repeat constructor.
Qed.

Lemma pump_one_handled wl r : exists p, pump_one (ToBackend CloseMessage) (client_message wl) r = Returns p /\
  (handled_as wl [r] (fst p) \/ handled_as wl [] (fst p) /\ is_Some (snd p)).
Proof.
  destruct r as [[t m] e]. destruct (client_message_handled wl t m e) as (p & Hp & Hh). unfold pump_one. destruct e as [e|].
  - unfold write. destruct (failing (ToBackend CloseMessage (formatWSError e))) as [err|] eqn:Ef.
    + eexists. split; [done|]. right. split; [|by eexists]. by split.
    + rewrite Hp. eexists. split; [done|]. left. exact Hh.
  - rewrite Hp. eexists. split; [done|]. by left.
Qed.

(** C27: a WebSocket client reaches the backend only through the whitelist, and gets an answer to
    everything else.  The client's pump never panics.  Of all messages read while the connection is up,
    and of a prefix of them once it has ended, the data messages written to the backend are, in order
    and unchanged, the requests of an allowed method (other than the one the proxy answers itself); and
    the data messages written to the client are, in order, texts that decode to the proxy's own answers
    to the other data messages. *)
Theorem ws_whitelisted wl reads : exists written failed n, clientPump wl reads = Returns (written, failed) /\ (n <= length reads)%nat /\
  omap to_backend written = map fst (filter (fun r => admissible wl r = true) (take n reads)) /\
  Forall2 carries (omap (answered_here wl) (take n reads)) (omap to_client written) /\
  (failed = None -> n = length reads).
Proof.
  assert (H : exists written failed n, clientPump wl reads = Returns (written, failed) /\ (n <= length reads)%nat /\
    handled_as wl (take n reads) written /\ (failed = None -> n = length reads)).
  2: { destruct H as (w & f & n & ? & ? & [? ?] & ?). by exists w, f, n. }
  unfold clientPump. induction reads as [|r reads (w2 & f2 & n & Hp2 & Hn & Hh & Hf)]; [by eexists [], None, O|]. cbn [pump].
  destruct (pump_one_handled wl r) as ([w1 [err|]] & -> & Hr); cbn [outcome_bind fst snd] in *.
  - exists w1, (Some err). destruct Hr as [Hr|[Hr _]]; [exists 1%nat|exists O]; (split; [done|]; split; [cbn; lia|]; split; [|done]).
    + cbn [take]. by rewrite take_0.
    + done.
  - rewrite Hp2. cbn [outcome_bind fst snd]. exists (w1 ++ w2), f2, (S n). split; [done|]. split; [cbn; lia|].
    split; [|intros Hx; cbn; by rewrite Hf]. destruct Hr as [Hr|[_ [? ?]]]; [|done]. by apply (handled_as_app wl [r]).
Qed.

(** The backend's pump never panics either: it writes every data message that decodes as a response
    unchanged, and for any other one a text that the client reads as the error of a bad response. *)
Lemma backend_message_relays t m : exists out, backend_message t m = Returns (write (ToClient t out)) /\
  (is_data t = true -> match parseBackendMsg m with
                       | inl _ => out = m
                       | inr err => decode_RPCRes out = Some (received (NewRPCErrorRes "" err))
                       end).
Proof.
  unfold backend_message. destruct (is_data t); cbn [negb]; [|by exists m]. destruct (parseBackendMsg m) as [r|err] eqn:E; [by exists m|].
  destruct (must_marshal_writable (NewRPCErrorRes "" err)) as (out & -> & Hd); [|by exists out].
  apply NewRPCErrorRes_writable; [done|]. unfold parseBackendMsg in E. destruct (ParseRPCRes _); [done|]. injection E as <-. apply sentinel_ok.
Qed.

Lemma backendPump_returns reads : returns (backendPump reads).
Proof.
  unfold backendPump. induction reads as [|[[t m] e] reads [q IH]]; [by eexists|]. cbn [pump]. unfold pump_one.
  destruct (match e with Some e => _ | None => _ end) as [w [err|]]; cbn [outcome_bind snd]; [by eexists|].
  destruct (backend_message_relays t m) as (out & -> & _). cbn [outcome_bind snd fst]. destruct (snd (write _)); [by eexists|]. rewrite IH. by eexists.
Qed.

(** A connection that fails ends: where a write without a message type fails, the failed read of
    a connection ends its pump, after at most one more attempt to pass the failure on. *)
Lemma failed_read_ends wl msg e reads : (forall m, is_Some (failing (ToBackend noFrame m))) ->
  exists written err, clientPump wl ((noFrame, msg, Some e) :: reads) = Returns (written, Some err) /\ (length written <= 2)%nat.
Proof.
  intros Hf. unfold clientPump. cbn [pump]. unfold pump_one, write.
  destruct (failing (ToBackend CloseMessage (formatWSError e))) as [err|]; [eexists _, err; split; [done|cbn; lia]|].
  destruct (Hf msg) as [err Herr]. cbn. unfold write. rewrite Herr. cbn. eexists _, err. split; [done|cbn; lia].
Qed.

End pumps.

(** ** The two pumps and [Proxy] together *)

(** [Proxy] waits for the first error, then closes the client's connection and the backend's. *)
Inductive phase : Type :=
| Awaiting
| Received (err : error)
| ClientClosed (err : error)
| Closed (err : error).

(** A session: the pumps that [Proxy] starts and its channel, which holds two errors. *)
Record ws_session : Type := mkSession {
  ws_clientPump : bool;                            (** running *)
  ws_backendPump : bool;
  ws_errC : list error;
  ws_phase : phase;
  ws_written : list ws_write;
}.

Definition Proxy_start : ws_session := mkSession true true [] Awaiting [].

Definition client_open (ph : phase) : bool := match ph with Awaiting | Received _ => true | _ => false end.
Definition backend_open (ph : phase) : bool := match ph with Closed _ => false | _ => true end.

(** A write to a closed connection fails.  Nothing is assumed of the reads: a failed read may come with a type
    and a part of a message, and messages that are buffered may still be read after a close. *)
Definition writes_ok (ph : phase) (failing : ws_write -> option error) : Prop :=
  forall w, match w with ToClient _ _ => client_open ph = false | ToBackend _ _ => backend_open ph = false end -> is_Some (failing w).

(** The channel after a pump has handled a message: a send blocks while two errors are waiting. *)
Definition report (p : pumped) (errC : list error) : option (bool * list error) :=
  match snd p with
  | None => Some (true, errC)
  | Some e => if (length errC <? 2)%nat then Some (false, errC ++ [e]) else None
  end.

Inductive ws_step (wl : StringSet) : ws_session -> ws_session -> Prop :=
| ws_client bp errC ph tr failing r p up errC' :
    writes_ok ph failing ->
    pump_one failing (ToBackend CloseMessage) (client_message failing wl) r = Returns p -> report p errC = Some (up, errC') ->
    ws_step wl (mkSession true bp errC ph tr) (mkSession up bp errC' ph (tr ++ fst p))
| ws_backend cp errC ph tr failing r p up errC' :
    writes_ok ph failing ->
    pump_one failing (ToClient CloseMessage) (backend_message failing) r = Returns p -> report p errC = Some (up, errC') ->
    ws_step wl (mkSession cp true errC ph tr) (mkSession cp up errC' ph (tr ++ fst p))
| ws_receive cp bp err errC tr :
    ws_step wl (mkSession cp bp (err :: errC) Awaiting tr) (mkSession cp bp errC (Received err) tr)
| ws_closeClient cp bp errC err tr :
    ws_step wl (mkSession cp bp errC (Received err) tr) (mkSession cp bp errC (ClientClosed err) tr)
| ws_closeBackend cp bp errC err tr :
    ws_step wl (mkSession cp bp errC (ClientClosed err) tr) (mkSession cp bp errC (Closed err) tr).

(** How many pumps run, and how many steps the end of the session is away once a pump has stopped. *)
Definition running (st : ws_session) : nat := (Nat.b2n (ws_clientPump st) + Nat.b2n (ws_backendPump st))%nat.
Definition todo (st : ws_session) : nat :=
  (running st + match ws_phase st with Awaiting => 3 | Received _ => 2 | ClientClosed _ => 1 | Closed _ => 0 end)%nat.

(** Every pump that has stopped has left its error in the channel, or [Proxy] has taken it. *)
Definition reported (st : ws_session) : Prop :=
  (length (ws_errC st) + running st + match ws_phase st with Awaiting => 0 | _ => 1 end = 2)%nat.

Lemma report_reported errC p up errC' : report p errC = Some (up, errC') ->
  (length errC' + Nat.b2n up = length errC + 1)%nat.
Proof.
  unfold report. destruct (snd p); [|intros [= <- <-]; cbn; lia].
  destruct (_ <? _)%nat; [|done]. intros [= <- <-]. rewrite length_app. cbn. lia.
Qed.

Lemma ws_step_reported wl st st' : ws_step wl st st' -> reported st -> reported st' /\ (todo st' <= todo st)%nat.
Proof.
  unfold reported, todo, running. destruct 1; cbn [ws_errC ws_phase ws_clientPump ws_backendPump Nat.b2n length];
    try match goal with H : report _ _ = _ |- _ => apply report_reported in H end; try destruct up; cbn [Nat.b2n] in *; lia.
Qed.

(** Whatever a pump reads, it writes something: a close frame, the message or an answer. *)
Lemma client_message_writes failing wl t m p : client_message failing wl t m = Returns p -> exists w, p = write failing w.
Proof.
  unfold client_message. intros H. destruct (negb _); [injection H as <-; by eexists|].
  destruct (prepareClientMsg wl m) as [[req|] [err|]]; [| |step_outcome H; injection H as <-; by eexists|done].
  - step_outcome H. injection H as <-. by eexists.
  - destruct (bool_decide _); [step_outcome H|]; injection H as <-; by eexists.
Qed.

Lemma backend_message_writes failing t m p : backend_message failing t m = Returns p -> exists w, p = write failing w.
Proof. destruct (backend_message_relays failing t m) as (out & -> & _). intros [= <-]. by eexists. Qed.

(** So it stops when all writes fail. *)
Lemma pump_one_stops failing close handle r p : (forall w, is_Some (failing w)) ->
  (forall t m q, handle t m = Returns q -> exists w, q = write failing w) ->
  pump_one failing close handle r = Returns p -> is_Some (snd p).
Proof.
  intros Hf Hh H. destruct r as [[t m] [e|]]; unfold pump_one in H.
  - unfold write in H. destruct (Hf (close (formatWSError e))) as [err He]. rewrite He in H. injection H as <-. by eexists.
  - step_outcome H. destruct (Hh _ _ _ E) as [w ->]. injection H as <-. apply Hf.
Qed.

Lemma closed_stops wl err cp bp errC tr st' : ws_step wl (mkSession cp bp errC (Closed err) tr) st' ->
  (running st' < running (mkSession cp bp errC (Closed err) tr))%nat.
Proof.
  assert (Hw : forall f, writes_ok (Closed err) f -> forall w, is_Some (f w)) by (intros f H [t m|t m]; by apply H).
  inversion 1 as [bp' errC' ph tr' f r p up errC'' Hf Hp Hrep|cp' errC' ph tr' f r p up errC'' Hf Hp Hrep| | |]; subst.
  - eapply pump_one_stops in Hp as [e' He]; [|by apply Hw|apply client_message_writes].
    unfold report in Hrep. rewrite He in Hrep. destruct (_ <? _)%nat; [|done]. injection Hrep as <- <-. cbn. lia.
  - eapply pump_one_stops in Hp as [e' He]; [|by apply Hw|apply backend_message_writes].
    unfold report in Hrep. rewrite He in Hrep. destruct (_ <? _)%nat; [|done]. injection Hrep as <- <-. unfold running. cbn. lia.
Qed.


End proxier.

Module ws_samples.

#[local] Instance plain_close : CloseFrames := fun code text => text.

Definition chain_message : string := jtext "{'jsonrpc':'2.0','method':'eth_chainId','params':[],'id':1}".
Definition accounts_message : string := jtext "{'jsonrpc':'2.0','method':'eth_accounts','params':[],'id':2}".
Definition admin_message : string := jtext "{'jsonrpc':'2.0','method':'admin_peers','params':[],'id':3}".

Lemma ws_whitelisted_witness : exists written,
  clientPump (fun _ => None) (NewStringSetFromStrings ["eth_chainId"; "eth_accounts"])
    [(1, admin_message, None); (1, chain_message, None); (1, accounts_message, None)] = Returns (written, None) /\
  omap to_backend written = [(1, chain_message)] /\ length (omap to_client written) = 2%nat.
Proof.
  destruct (ws_whitelisted (fun _ => None) (NewStringSetFromStrings ["eth_chainId"; "eth_accounts"])
    [(1, admin_message, None); (1, chain_message, None); (1, accounts_message, None)]) as (written & failed & n & E & _ & Hw & Hc & Hn).
  assert (failed = None) as ->. { vm_compute in E. by injection E. }
  exists written. split; [done|]. rewrite (Hn eq_refl) in Hw, Hc. apply Forall2_length in Hc. rewrite Hw, <- Hc. vm_compute. by split.
Defined.

Definition nothing : StringSet := NewStringSetFromStrings [].

(** The client goes away. *)
Definition gone : ws_read := (noFrame, "", Some (CloseError 1006 "" "unexpected EOF")).

Lemma client_stops : ws_step nothing Proxy_start
  (mkSession false true [ENew "closed"] Awaiting [ToBackend CloseMessage (formatWSError (CloseError 1006 "" "unexpected EOF"))]).
Proof.
  apply (ws_client nothing true [] Awaiting [] (fun _ => Some (ENew "closed")) gone
    ([ToBackend CloseMessage (formatWSError (CloseError 1006 "" "unexpected EOF"))], Some (ENew "closed"))); [|reflexivity|reflexivity].
  intros w _. by eexists.
Qed.


End ws_samples.
