(* ===== verification/Routes.v ===== *)
(** * The routes of the two HTTP servers and the WebSocket handler (src/server.go)

    Requests are dispatched by gorilla's mux, which is a parameter: the handler that runs belongs to a
    route whose method fits, and the variables it sees are named in that route's template.  Upgrading
    a connection and dialling a backend are arguments. *)

From S2P Require Import Prelude Json JsonFacts Geth Rpc Util Http RateLimiter Cache Backend BackendGroup Server ServerFacts WsProxy.

(** ** Routes *)

(** A template is literal text and variables, each with the pattern it matches. *)
Inductive segment : Type :=
| Lit (text : string)
| Var (name pattern : string).

Inductive handler : Type := HandlesHealthz | HandlesRPC | HandlesWS.

(** No methods: all of them. *)
Record route : Type := mkRoute {
  rt_template : list segment;
  rt_handler : handler;
  rt_methods : list string;
}.

Inductive dispatched : Type :=
| Handled (h : handler) (vars : gmap string string)
| NotHandled (code : Z).

Class Mux : Type := mux_ServeHTTP : list route -> string -> string -> dispatched.

Definition template_vars (t : list segment) : list string :=
  omap (fun sg => match sg with Var name _ => Some name | Lit _ => None end) t.

Class MuxLaws `{!Mux} : Prop :=
  mux_handled routes method path h vars : mux_ServeHTTP routes method path = Handled h vars ->
    exists rt, rt ∈ routes /\ rt_handler rt = h /\ (rt_methods rt = [] \/ method ∈ rt_methods rt) /\
      forall x, is_Some (vars !! x) -> x ∈ template_vars (rt_template rt).

(** [RPCListenAndServe] *)
Definition rpc_routes : list route :=
  [mkRoute [Lit "/healthz"] HandlesHealthz ["GET"]; mkRoute [Lit "/"; Var "path" ".*"] HandlesRPC ["POST"]].

(** [WSListenAndServe] *)
Definition ws_routes : list route :=
  [mkRoute [Lit "/"] HandlesWS []; mkRoute [Lit "/"; Var "authorization" "[^/]+"] HandlesWS []].

Section routes.
Context {Addr Pub L C I G Tx : Type} {AddrEq : EqDecision Addr}.
Context {LX : FrontendRateLimiter L} {CX : Cache C} {SX : SHA256} {IX : InteropStrategy I} {GX : Groups G}.
Context {TX : TxLib Tx} {KX : Crypto Addr Pub} {HX : HexUtil} {BX : BlockRPC} {MX : Mux} {MXL : MuxLaws}.
Implicit Types s : Server Addr L C I.

(** ** RPC *)

Inductive rpc_reply : Type :=
| TextReply (text : string)
| RPCReply (rep : reply).

Definition HandleHealthz : rpc_reply := TextReply "OK".

Definition with_vars (vars : gmap string string) (r : http_in) : http_in :=
  mkHttpIn vars (hi_Header r) (hi_RemoteAddr r) (hi_Path r) (hi_RawQuery r) (hi_Body r).

Definition serveRPC (env : rpc_env) (method : string) (r : http_in) s (g : G) : outcome (rpc_reply * Server Addr L C I * G) :=
  match mux_ServeHTTP rpc_routes method (hi_Path r) with
  | NotHandled code => Returns (RPCReply (ReplyStatus code), s, g)
  | Handled HandlesHealthz _ => Returns (HandleHealthz, s, g)
  | Handled _ vars => let! x := HandleRPC env (with_vars vars r) s g in Returns (RPCReply (fst (fst x)), snd (fst x), snd x)
  end.

(** ** WebSockets *)

(** What becomes of a request for a connection. *)
Inductive ws_reply : Type :=
| Unauthorized                                     (** status 401 *)
| NotUpgraded (err : error)                        (** the upgrader has answered *)
| NoBackend (err : error)                          (** the client's connection is closed *)
| Proxying (be : nat) (ctx : Context) (session : ws_session).

Definition HandleWS (reqID : string) (upgrade : option error) (dial : nat -> option error) (wsBackends : option (list nat))
    (r : http_in) s : outcome ws_reply :=
  match populateContext reqID r s with
  | None => Returns Unauthorized
  | Some ctx =>
      match upgrade with
      | Some err => Returns (NotUpgraded err)
      | None =>
          match wsBackends with
          | None => Panics "nil pointer dereference"
          | Some backends =>
              match ProxyWS dial backends with
              | inr err => Returns (NoBackend err)
              | inl be => Returns (Proxying be ctx Proxy_start)
              end
          end
      end
  end.

Definition serveWS (reqID method : string) (upgrade : option error) (dial : nat -> option error) (wsBackends : option (list nat))
    (r : http_in) s : outcome (ws_reply + Z) :=
  match mux_ServeHTTP ws_routes method (hi_Path r) with
  | NotHandled code => Returns (inr code)
  | Handled _ vars => let! x := HandleWS reqID upgrade dial wsBackends (with_vars vars r) s in Returns (inl x)
  end.

(** ** Authentication *)

Lemma populateContext_auth reqID r s ctx : populateContext reqID r s = Some ctx -> sv_authenticatedPaths s <> ∅ ->
  exists secret alias, hi_vars r !! "authorization" = Some secret /\ sv_authenticatedPaths s !! secret = Some alias /\
    alias <> "" /\ GetAuthCtx ctx = alias.
Proof.
  unfold populateContext. intros H Ha. rewrite (bool_decide_eq_false_2 (sv_authenticatedPaths s = ∅)) in H by done.
  destruct (hi_vars r !! "authorization") as [secret|] eqn:Hs; cbn [default from_option id] in H; [|done].
  destruct (sv_authenticatedPaths s !! secret) as [alias|] eqn:Hl; cbn [default from_option id] in H; [|by rewrite orb_true_r in H].
  destruct (_ || _) eqn:E; [done|]. apply orb_false_iff in E as [_ E%bool_decide_eq_false]. injection H as <-. exists secret, alias. split; [done|]. split; [done|]. split; [exact E|reflexivity].
Qed.

Lemma rpc_route_vars method path h vars : mux_ServeHTTP rpc_routes method path = Handled h vars ->
  vars !! "authorization" = None /\ (h = HandlesHealthz \/ h = HandlesRPC /\ method = "POST").
Proof.
  intros (rt & Hin & Hh & Hm & Hv)%mux_handled. unfold rpc_routes in Hin. rewrite !elem_of_cons, elem_of_nil in Hin.
  split.
  - destruct (vars !! "authorization") eqn:E; [|done]. exfalso. specialize (Hv "authorization" ltac:(by eexists)).
    destruct Hin as [->|[->|[]]]; cbn in Hv; set_solver.
  - destruct Hin as [->|[->|[]]]; cbn in *; [by left|]. right. destruct Hm as [Hm|Hm]; [done|]. split; [done|]. set_solver.
Qed.

(** With authentication configured no RPC request is ever served. The RPC route binds no variable
    of the name that the secret is read from, so whatever the path, the method, the headers and the
    body are, the reply is a bare status or the health check's, and nothing is forwarded or counted. *)
Theorem rpc_auth_unusable env method r s g : sv_authenticatedPaths s <> ∅ ->
  exists rep, serveRPC env method r s g = Returns (rep, s, g) /\
    (rep = HandleHealthz \/ exists code, rep = RPCReply (ReplyStatus code)).
Proof.
  intros Ha. unfold serveRPC. destruct (mux_ServeHTTP rpc_routes method (hi_Path r)) as [h vars|code] eqn:E; [|eauto].
  apply rpc_route_vars in E as [Hv Hh].
  assert (Hn : forall id, populateContext id (with_vars vars r) s = None).
  { intros id. destruct (populateContext id (with_vars vars r) s) as [ctx|] eqn:Ec; [|done].
    apply populateContext_auth in Ec as (secret & _ & Hs & _); [|done]. cbn in Hs. congruence. }
  destruct Hh as [->|[-> ->]]; [eauto|]. unfold HandleRPC. rewrite Hn. cbn. eauto.
Qed.

(** On the WebSocket server the secret is the path: a session belongs to the holder of one. *)
Lemma ws_authenticated reqID method upgrade dial wsBackends r s be ctx session :
  serveWS reqID method upgrade dial wsBackends r s = Returns (inl (Proxying be ctx session)) -> sv_authenticatedPaths s <> ∅ ->
  exists vars secret alias, mux_ServeHTTP ws_routes method (hi_Path r) = Handled HandlesWS vars /\ vars !! "authorization" = Some secret /\
    sv_authenticatedPaths s !! secret = Some alias /\ alias <> "" /\ GetAuthCtx ctx = alias.
Proof.
  unfold serveWS. intros H Ha. destruct (mux_ServeHTTP ws_routes method (hi_Path r)) as [h vars|code] eqn:E; [|done].
  assert (h = HandlesWS) as ->.
  { apply mux_handled in E as (rt & Hin & <- & _). unfold ws_routes in Hin. rewrite !elem_of_cons, elem_of_nil in Hin. by destruct Hin as [->|[->|[]]]. }
  step_outcome H. injection H as ->. unfold HandleWS in E0. destruct (populateContext reqID (with_vars vars r) s) as [ctx'|] eqn:Ec; [|done].
  destruct upgrade; [done|]. destruct wsBackends as [backends|]; [|done]. destruct (ProxyWS dial backends); [|done]. injection E0 as <- <- <-.
  apply populateContext_auth in Ec as (secret & alias & Hs & Hl & Hne & Hc); [|done]. by exists vars, secret, alias.
Qed.

End routes.

(** ** A router *)

(** Templates of at most one variable, at the end. *)
Definition simple_match (t : list segment) (path : string) : option (gmap string string) :=
  match t with
  | [Lit text] => if bool_decide (path = text) then Some ∅ else None
  | [Lit text; Var name _] => if str_HasPrefix path text then Some {[ name := str_drop (String.length text) path ]} else None
  | _ => None
  end.

Fixpoint simple_serve (routes : list route) (method path : string) : dispatched :=
  match routes with
  | [] => NotHandled 404
  | rt :: rest =>
      match simple_match (rt_template rt) path with
      | Some vars =>
          if bool_decide (rt_methods rt = [] \/ method ∈ rt_methods rt) then Handled (rt_handler rt) vars
          else simple_serve rest method path
      | None => simple_serve rest method path
      end
  end.

#[global] Instance simple_mux : Mux := simple_serve.

#[global] Instance simple_mux_laws : MuxLaws.
Proof.
  intros routes method path h vars. unfold mux_ServeHTTP, simple_mux. induction routes as [|rt routes IH]; cbn [simple_serve]; [done|].
  assert (Hrec : simple_serve routes method path = Handled h vars -> exists rt', rt' ∈ rt :: routes /\ rt_handler rt' = h /\
    (rt_methods rt' = [] \/ method ∈ rt_methods rt') /\ forall x, is_Some (vars !! x) -> x ∈ template_vars (rt_template rt')).
  { intros (rt' & Hin & H)%IH. exists rt'. split; [by right|done]. }
  destruct (simple_match (rt_template rt) path) as [vs|] eqn:Em; [|done]. case_bool_decide as Hm; [|done]. intros [= <- <-].
  exists rt. split; [by left|]. split; [done|]. split; [done|]. intros x [v Hx]. unfold simple_match in Em.
  destruct (rt_template rt) as [|[text|] [|[|name pat] []]]; try done.
  - case_bool_decide; [|done]. injection Em as <-. by rewrite lookup_empty in Hx.
  - destruct (str_HasPrefix path text); [|done]. injection Em as <-. apply lookup_singleton_Some in Hx as [-> _]. by left.
Qed.

Module routes_samples.
Import ServerFacts.server_samples.

#[local] Existing Instance text_txs.
#[local] Existing Instance text_crypto.
#[local] Existing Instance no_interop.
#[local] Existing Instance echo_groups.

Definition guarded_server : option (Server string MemoryFrontendRateLimiter
    (cacheWithCompression (memory_cache (gmap string string))) unit) :=
  match NewServer {[ "eth_chainId" := "main" ]} 0 {[ "secret" := "alice" ]} 0 1 false None
    base_limits no_limits [] (mkSenderConfig false 0 0 []) (mkSenderConfig false 0 0 []) false 0 0
    (fun dur max _ => NewMemoryFrontendRateLimit dur max) (fun _ => inr (ENew "no patterns")) 0 tt [] with
  | inl s => Some s
  | inr _ => None
  end.

Definition with_secret : http_in :=
  mkHttpIn ∅ ∅ "10.0.0.1:4000" "/secret" "" (inl (mkBody chain_call (fun _ => 512) true)).

Lemma guarded : match guarded_server with Some s => bool_decide (sv_authenticatedPaths s = {[ "secret" := "alice" ]}) | None => false end = true.
Proof. vm_compute. reflexivity. Qed.

Lemma rpc_auth_unusable_witness : exists s rep, guarded_server = Some s /\ sv_authenticatedPaths s !! "secret" = Some "alice" /\
  serveRPC (mkRpcEnv "id" in_order_env) "POST" with_secret s O = Returns (rep, s, O) /\ (rep = HandleHealthz \/ exists code, rep = RPCReply (ReplyStatus code)).
Proof.
  pose proof guarded as Hs. destruct guarded_server as [s|] eqn:Es; [|discriminate]. apply bool_decide_eq_true in Hs.
  destruct (rpc_auth_unusable (mkRpcEnv "id" in_order_env) "POST" with_secret s O) as (rep & E & Hr); [rewrite Hs; discriminate|].
  exists s, rep. split; [done|]. split; [by rewrite Hs|]. split; [exact E|exact Hr].
Defined.

End routes_samples.
