(* ===== verification/Sessions.v ===== *)
(** * The WebSocket sessions of the server and the gauges that count them

    [HandleWS] opens sessions, each runs as WsProxy describes, and ends when [Proxy] returns.  Two gauges
    of src/metrics.go are kept along the way: active connections to backends go up in [Backend.ProxyWS] and down in
    [WSProxier.close] (src/backend.go); active clients go up in [HandleWS] and down after [Proxy] (src/server.go). *)

From S2P Require Import Prelude Json JsonFacts Geth Rpc Util Http RateLimiter Cache Backend BackendFacts BackendGroup Server ServerFacts WsProxy.
From S2P Require Import Metrics Routes.

Record conn : Type := mkConn {
  cn_auth : string;
  cn_backend : string;
  cn_session : ws_session;
  cn_done : bool;                                  (** [Proxy] has returned *)
}.

Definition client_active (a : string) (c : conn) : Prop := cn_auth c = a /\ cn_done c = false.
Definition backend_active (b : string) (c : conn) : Prop := cn_backend c = b /\ backend_open (ws_phase (cn_session c)) = true.

#[global] Instance client_active_dec a c : Decision (client_active a c) := ltac:(unfold client_active; apply _).
#[global] Instance backend_active_dec b c : Decision (backend_active b c) := ltac:(unfold backend_active; apply _).

Section sessions.
Context {Addr Pub L C I G Tx : Type} {AddrEq : EqDecision Addr}.
Context {LX : FrontendRateLimiter L} {CX : Cache C} {SX : SHA256} {IX : InteropStrategy I} {GX : Groups G}.
Context {TX : TxLib Tx} {KX : Crypto Addr Pub} {HX : HexUtil} {BX : BlockRPC} {CF : CloseFrames}.
Context {M : Type} {PM : Prometheus M} {PL : PrometheusLaws M}.
Context (wl : StringSet) (backendName : nat -> string).

(** [close] takes the session off the backend's gauge. *)
Definition close_samples (c : conn) (st : ws_session) : list sample :=
  if backend_open (ws_phase (cn_session c)) && negb (backend_open (ws_phase st))
  then [mkSample activeBackendWsConnsGauge [cn_backend c] Dec] else [].

Inductive sessions_step : list conn * M -> list conn * M -> Prop :=
| ss_open reqID upgrade dial wsBackends r (s : Server Addr L C I) be ctx session l m m' :
    HandleWS reqID upgrade dial wsBackends r s = Returns (Proxying be ctx session) ->
    record_all [mkSample activeBackendWsConnsGauge [backendName be] Inc; mkSample activeClientWsConnsGauge [GetAuthCtx ctx] Inc] m
      = Returns m' ->
    sessions_step (l, m) (l ++ [mkConn (GetAuthCtx ctx) (backendName be) session false], m')
| ss_session (i : nat) c st l m m' : l !! i = Some c -> ws_step wl (cn_session c) st -> record_all (close_samples c st) m = Returns m' ->
    sessions_step (l, m) (<[i := mkConn (cn_auth c) (cn_backend c) st (cn_done c)]> l, m')
| ss_finish (i : nat) c err l m m' : l !! i = Some c -> ws_phase (cn_session c) = Closed err -> cn_done c = false ->
    record_all [mkSample activeClientWsConnsGauge [cn_auth c] Dec] m = Returns m' ->
    sessions_step (l, m) (<[i := mkConn (cn_auth c) (cn_backend c) (cn_session c) true]> l, m').

Definition count (P : conn -> Prop) {D : forall c, Decision (P c)} (l : list conn) : Q := inject_Z (Z.of_nat (length (filter P l))).

Definition counted (st : list conn * M) : Prop :=
  (forall a, (prom_value (snd st) activeClientWsConnsGauge [a] == count (client_active a) (fst st))%Q) /\
  (forall b, (prom_value (snd st) activeBackendWsConnsGauge [b] == count (backend_active b) (fst st))%Q).

(** ** Counting *)

Definition one (P : Prop) `{!Decision P} : Q := if decide P then 1 else 0.

Lemma count_app (P : conn -> Prop) {D : forall c, Decision (P c)} l l' : (count P (l ++ l') == count P l + count P l')%Q.
Proof. unfold count. rewrite filter_app, length_app, Nat2Z.inj_add, inject_Z_plus. reflexivity. Qed.

Lemma count_cons (P : conn -> Prop) {D : forall c, Decision (P c)} c l : (count P (c :: l) == one (P c) + count P l)%Q.
Proof.
  unfold count, one. rewrite filter_cons. destruct (decide (P c)); [|by rewrite Qplus_0_l]. cbn [length].
  rewrite Nat2Z.inj_succ, <- Z.add_1_l, inject_Z_plus. reflexivity.
Qed.

Lemma count_insert (P : conn -> Prop) {D : forall c, Decision (P c)} l i c c' : l !! i = Some c ->
  (count P (<[i := c']> l) == count P l - one (P c) + one (P c'))%Q.
Proof.
  intros H. rewrite insert_take_drop by (by eapply lookup_lt_Some). rewrite <- (take_drop_middle l i c H) at 3.
  rewrite !count_app, !count_cons. ring.
Qed.

Lemma one_iff (P Q : Prop) `{!Decision P, !Decision Q} : (P <-> Q) -> one P = one Q.
Proof. intros H. unfold one. by apply decide_ext. Qed.

Lemma one_true (P : Prop) `{!Decision P} : P -> one P = 1%Q.
Proof. intros. unfold one. by rewrite decide_True. Qed.

Lemma one_false (P : Prop) `{!Decision P} : ~ P -> one P = 0%Q.
Proof. intros. unfold one. by rewrite decide_False. Qed.

Lemma record_one m ls op m0 m1 : record_all [mkSample m ls op] m0 = Returns m1 ->
  (prom_value m1 m ls == apply_op op (prom_value m0 m ls))%Q /\
  forall m' ls', (mt_name m', ls') <> (mt_name m, ls) -> prom_value m1 m' ls' = prom_value m0 m' ls'.
Proof.
  cbn [record_all]. intros H. step_outcome H. injection H as ->. split; [exact (prom_Record_value _ _ _ E)|].
  intros m' ls'. exact (prom_Record_other _ _ _ m' ls' E).
Qed.

Lemma count_one_more P {D : forall c, Decision (P c)} l c : (count P (l ++ [c]) == count P l + one (P c))%Q.
Proof. rewrite count_app, count_cons. unfold count at 2. cbn. ring. Qed.

Lemma count_none P {D : forall c, Decision (P c)} l : Forall (fun c => ~ P c) l -> (count P l == 0)%Q.
Proof. induction 1 as [|c l Hc _ IH]; [done|]. rewrite count_cons, IH, one_false by done. reflexivity. Qed.

(** ** The gauges *)

Lemma open_counted be ctx session l m m' : ws_phase session = Awaiting -> counted (l, m) ->
  record_all [mkSample activeBackendWsConnsGauge [be] Inc; mkSample activeClientWsConnsGauge [GetAuthCtx ctx] Inc] m = Returns m' ->
  counted (l ++ [mkConn (GetAuthCtx ctx) be session false], m').
Proof.
  intros Hs [Hc Hb] H. cbn [record_all] in H. step_outcome H. step_outcome H. injection H as ->.
  destruct (record_one activeBackendWsConnsGauge [be] Inc m a) as [Vb Ob]; [cbn [record_all]; by rewrite E|].
  destruct (record_one activeClientWsConnsGauge [GetAuthCtx ctx] Inc a m') as [Vc Oc]; [cbn [record_all]; by rewrite E0|].
  cbn [fst snd] in *. split; intros x; cbn [fst snd]; rewrite count_one_more; unfold one.
  - destruct (decide (client_active x _)) as [[<- _]|Hn]; cbn [cn_auth] in *.
    + rewrite Vc. cbn [apply_op]. rewrite Ob by done. by rewrite Hc.
    + rewrite Oc, Ob by (intros [= ->]; by apply Hn). rewrite Hc. ring.
  - rewrite Oc by done. destruct (decide (backend_active x _)) as [[<- _]|Hn]; cbn [cn_backend] in *.
    + rewrite Vb. cbn [apply_op]. by rewrite Hb.
    + rewrite Ob; [rewrite Hb; ring|]. intros [= ->]. apply Hn. split; [done|]. cbn. by rewrite Hs.
Qed.

(** A closed session stays closed. *)
Lemma ws_step_open st st' : ws_step wl st st' -> backend_open (ws_phase st) = false -> backend_open (ws_phase st') = false.
Proof. by destruct 1. Qed.

Lemma session_counted l m m' i c st : counted (l, m) -> l !! i = Some c -> ws_step wl (cn_session c) st ->
  record_all (close_samples c st) m = Returns m' -> counted (<[i := mkConn (cn_auth c) (cn_backend c) st (cn_done c)]> l, m').
Proof.
  intros [Hc Hb] Hi Hs H. unfold close_samples in H. cbn [fst snd] in *.
  pose proof (ws_step_open _ _ Hs) as Ho. split; intros x; cbn [fst snd]; rewrite (count_insert _ _ _ _ _ Hi).
  - assert (Hv : prom_value m' activeClientWsConnsGauge [x] = prom_value m activeClientWsConnsGauge [x]).
    { destruct (_ && _); [|by injection H as <-]. apply record_one in H as [_ H]. by apply H. }
    rewrite Hv, Hc, (one_iff (client_active x (mkConn _ _ _ _)) (client_active x c)) by done. ring.
  - set (c' := mkConn _ _ st _).
    destruct (backend_open (ws_phase (cn_session c))) eqn:E1, (backend_open (ws_phase st)) eqn:E2; cbn [andb negb] in H.
    + injection H as <-. rewrite Hb, (one_iff (backend_active x c') (backend_active x c)) by (unfold backend_active; cbn; by rewrite E1, E2). ring.
    + assert (Hn : one (backend_active x c') = 0%Q) by (apply one_false; intros [_ Hx]; cbn in Hx; congruence). rewrite Hn.
      apply record_one in H as [V O]. destruct (decide (cn_backend c = x)) as [<-|Hne].
      * rewrite V. cbn [apply_op]. rewrite Hb, (one_true (backend_active _ c)) by done. ring.
      * rewrite O by congruence. rewrite Hb, (one_false (backend_active x c)) by (by intros [? _]). ring.
    + by specialize (Ho eq_refl).
    + injection H as <-. rewrite Hb, !one_false; [ring|..]; intros [_ Hx]; cbn in Hx; congruence.
Qed.

Lemma finish_counted l m m' i c : counted (l, m) -> l !! i = Some c -> cn_done c = false ->
  record_all [mkSample activeClientWsConnsGauge [cn_auth c] Dec] m = Returns m' ->
  counted (<[i := mkConn (cn_auth c) (cn_backend c) (cn_session c) true]> l, m').
Proof.
  intros [Hc Hb] Hi Hd [V O]%record_one. cbn [fst snd] in *. split; intros x; cbn [fst snd]; rewrite (count_insert _ _ _ _ _ Hi).
  - rewrite (one_false (client_active x (mkConn _ _ _ true))) by (by intros [_ ?]). destruct (decide (cn_auth c = x)) as [<-|Hne].
    + rewrite V. cbn [apply_op]. rewrite Hc, (one_true (client_active _ c)) by done. ring.
    + rewrite O by congruence. rewrite Hc, (one_false (client_active x c)) by (by intros [? _]). ring.
  - rewrite O by done. rewrite Hb, (one_iff (backend_active x (mkConn _ _ _ _)) (backend_active x c)) by done. ring.
Qed.

(** C29: the gauges of active WebSocket connections tell the truth. From a registry in which they are
    zero, through any interleaving of sessions that are opened, proxy messages, are closed and end,
    the gauge of a client is the number of its sessions whose [Proxy] has not returned, and the gauge
    of a backend is the number of its sessions whose connection is not closed; when all sessions have
    ended both are zero again. *)
Theorem ws_gauges m0 l m : (forall x, prom_value m0 activeClientWsConnsGauge [x] == 0)%Q ->
  (forall x, prom_value m0 activeBackendWsConnsGauge [x] == 0)%Q -> rtc sessions_step ([], m0) (l, m) ->
  counted (l, m) /\ (Forall (fun c => cn_done c = true /\ backend_open (ws_phase (cn_session c)) = false) l ->
    forall x, (prom_value m activeClientWsConnsGauge [x] == 0 /\ prom_value m activeBackendWsConnsGauge [x] == 0)%Q).
Proof.
  intros Hc Hb Hr. assert (H : counted (l, m)).
  { eapply (rtc_ind_r counted); [|intros y z _ Hyz Hy|exact Hr]; [by split|].
    destruct Hyz as [reqID upgrade dial wsBackends r s be ctx session l1 m1 m1' Hh Hrec|i c st l1 m1 m1' Hi Hs Hrec|i c err l1 m1 m1' Hi Hp Hd Hrec].
    - eapply open_counted; [|exact Hy|exact Hrec]. unfold HandleWS in Hh. repeat (case_match; try discriminate). by injection Hh as _ _ <-.
    - by eapply session_counted.
    - by eapply finish_counted. }
  split; [done|]. intros Hall x. destruct H as [H1 H2]. cbn [fst snd] in *. rewrite H1, H2. rewrite Forall_forall in Hall.
  rewrite !count_none; [done|..]; apply Forall_forall; intros c [? ?]%Hall [? ?]; congruence.
Qed.

End sessions.

Module sessions_samples.
Import ServerFacts.server_samples.

#[local] Existing Instance text_txs.
#[local] Existing Instance text_crypto.
#[local] Existing Instance no_interop.
#[local] Existing Instance echo_groups.
#[local] Existing Instance ws_samples.plain_close.

Definition knock : http_in := mkHttpIn ∅ ∅ "10.0.0.1:4000" "/" "" (inl (mkBody "" (fun _ => 512) true)).

Lemma accepted : on_sample (fun s =>
  match HandleWS "id" None (fun _ => None) (Some [0%nat]) knock s with
  | Returns (Proxying be ctx _) => bool_decide (be = 0%nat) && bool_decide (GetAuthCtx ctx = "none")
  | _ => false
  end) = true.
Proof. vm_compute. reflexivity. Qed.

Definition sample_step : list conn * registry -> list conn * registry -> Prop :=
  sessions_step (Addr := string) (L := MemoryFrontendRateLimiter) (C := cacheWithCompression (memory_cache (gmap string string)))
    (I := unit) ws_samples.nothing (fun _ => "a").

(** One session. *)
Lemma ws_gauges_witness : exists l (m : registry), rtc sample_step ([], prom_NewRegistry) (l, m) /\
  length l = 1%nat /\ (prom_value m activeClientWsConnsGauge ["none"] == count (client_active "none") l)%Q.
Proof.
  pose proof accepted as H. unfold on_sample in H. destruct sample_server as [s|] eqn:Es; [|discriminate].
  destruct (HandleWS _ _ _ _ _ s) as [[| | |be ctx session]|] eqn:E; try discriminate.
  apply andb_true_iff in H as [_ Ha%bool_decide_eq_true].
  assert (Hr : returns (record_all [mkSample activeBackendWsConnsGauge ["a"] Inc; mkSample activeClientWsConnsGauge [GetAuthCtx ctx] Inc]
                          (prom_NewRegistry : registry))).
  { apply record_all_ok. rewrite Ha. by repeat constructor. }
  destruct Hr as [m Hm]. eexists _, m.
  assert (Hs : rtc sample_step ([], prom_NewRegistry) ([mkConn (GetAuthCtx ctx) "a" session false], m)).
  { apply rtc_once. by eapply (ss_open _ _ _ _ _ _ _ _ be ctx session []). }
  split; [exact Hs|]. split; [done|].
  destruct (ws_gauges (Addr := string) (L := MemoryFrontendRateLimiter) (C := cacheWithCompression (memory_cache (gmap string string)))
    (I := unit) (M := registry) ws_samples.nothing (fun _ => "a") prom_NewRegistry [mkConn (GetAuthCtx ctx) "a" session false] m) as [[H _] _];
    [intros; reflexivity|intros; reflexivity|exact Hs|apply H].
Defined.

End sessions_samples.
