(* ===== verification/System.v ===== *)
(** The proxy as a whole: the server over backend groups made of backends.

    [deployed] instantiates the interface the server is proved against ([Groups] of Server) with the
    groups of BackendGroup, and the facts the server relies on are discharged for it.  The theorems
    follow a request through all the layers: what is parsed can be sent, what a group does with it
    returns, and so does the whole request. *)

From S2P Require Import Prelude Json JsonFacts JsonRaw Geth Rpc Util Http RateLimiter Rewriter Cache SlidingWindow.
From S2P Require Import Backend BackendFacts Tracker Consensus ConsensusInvariant BackendGroup BackendGroupFacts Server ServerFacts.
From S2P Require Import PollerLoop Interop Config JsonCompact Metrics Wire Replies.

(** ** Panics of a backend *)

Section backend.
Context {W : Type} {MW : MovingWindow W}.
Context {HX : HexUtil} {BX : BlockRPC} {RX : ReceiptsRPC} {SS : SortSlice}.
Implicit Types b : Backend W.

(** The answer, if there is one, has no null response, and a response with status 400 has an error. *)
Definition answers_well (ex : exchange) : Prop := forall resp max resB single ptrs,
  DoLimited ex = inl resp -> read_body max (Body resp) = inl resB -> decode_responses single resB = inl ptrs ->
  Forall (fun p => exists r, p = Some r /\ (StatusCode resp = 400 -> res_Error r <> None)) ptrs.

(** Calls that can be sent: no receipts to translate, valid texts, distinct ids. *)
Definition forwardable (reqs : list RPCReq) : Prop :=
  untranslated reqs /\ Forall sendable reqs /\ NoDup (map req_ID reqs).

Lemma deref_all_returns {A} (P : A -> Prop) (l : list (option A)) :
  Forall (fun p => exists r, p = Some r /\ P r) l -> exists rs, deref_all l = Returns rs /\ Forall P rs.
Proof.
  induction 1 as [|p l (r & -> & Hr) _ (rs & IH & Hrs)]; [by exists []|]. exists (r :: rs). cbn. rewrite IH. by split; [|constructor].
Qed.

Lemma set_http_code_returns code l : Forall (fun r => res_Error r <> None) l -> returns (set_http_code code l).
Proof.
  induction 1 as [|r l Hr _ [rs IH]]; [by exists []|]. cbn. destruct (res_Error r); [|done]. rewrite IH. by eexists.
Qed.

Lemma receive_returns ex tr reqs resp b : DoLimited ex = inl resp -> answers_well ex -> NoDup (map req_ID reqs) ->
  returns (receive ex tr reqs resp b).
Proof.
  intros Hd Hw Hn. unfold receive, fails. destruct (negb (StatusCode resp =? 200) && negb (StatusCode resp =? 400)) eqn:Es; [by eexists|].
  destruct (read_body _ _) as [resB|err] eqn:Er; [|destruct (errors_Is _ _); by eexists].
  destruct (decode_responses _ resB) as [ptrs|[err []]] eqn:Ed; [|by eexists..].
  destruct (negb (length reqs =? _)%nat); [by eexists|]. specialize (Hw _ _ _ _ _ Hd Er Ed). apply deref_all_returns in Hw as (rs & -> & Hrs). cbn [outcome_bind].
  assert (Hc : returns (if StatusCode resp =? 200 then Returns rs else set_http_code (StatusCode resp) rs)).
  { destruct (Z.eqb_spec (StatusCode resp) 200); [by eexists|]. apply set_http_code_returns. eapply Forall_impl; [exact Hrs|].
    intros r Hr. apply Hr. cbn in Es. by apply negb_false_iff, Z.eqb_eq in Es. }
  destruct Hc as [rs1 ->]. cbn [outcome_bind]. unfold sortBatchRPCResponse. rewrite bool_decide_eq_true_2 by done. by eexists.
Qed.

Lemma doForward_returns ctx net reqs isBatch now b : forwardable reqs -> (forall rq, answers_well (net rq)) ->
  returns (doForward ctx net reqs isBatch now b).
Proof.
  intros (Hu & Hs & Hn) Hw. unfold doForward. rewrite translate_untranslated by done. cbn [outcome_bind].
  unfold build_request. destruct (marshal_reqs_sendable reqs Hs) as [body ->]. cbn [fmap option_fmap option_map].
  set (rq := mkRequest _ _ body). destruct (ex_build (net rq)); [by eexists|].
  destruct (DoLimited (net rq)) as [resp|err] eqn:Ed; [by apply receive_returns|].
  destruct (errors_Is (Some err) ErrContextCanceled); by eexists.
Qed.

Lemma forward_loop_returns ctx env isBatch reqs fuel : reqs <> [] -> forwardable reqs ->
  (forall i rq, answers_well (at_net env i rq)) -> forall i b last, returns (forward_loop ctx env isBatch fuel i reqs b last).
Proof.
  intros Hne Hf Hw. induction fuel as [|fuel IH]; intros i b last; cbn [forward_loop]; [by eexists|].
  destruct reqs as [|r0 rs0]; [done|].
  destruct (doForward_returns ctx (at_net env i) (r0 :: rs0) isBatch (at_now env i) b Hf (Hw i)) as [[[res b1] reqs1] E].
  rewrite E. cbn [outcome_bind]. apply doForward_untranslated in E as ->; [|by destruct Hf].
  destruct res as [rs|err]; [by eexists|]. destruct (ends_loop err); [by eexists|]. destruct (at_jitter env i) as [j1 j2].
  destruct (IH (S i) b1 (Some err)) as [[f evs] ->]. by eexists.
Qed.

End backend.

(** ** Panics of a group *)

Section group.
Context {T : Type} {CT : ConsensusTracker T} {W : Type} {MW : MovingWindow W}.
Context {HX : HexUtil} {HXL : HexUtilLaws} {BX : BlockRPC} {BXL : BlockRPCLaws} {RX : ReceiptsRPC}.
Context {SS : SortSlice} {SSL : SortSliceLaws}.
Implicit Types bg : BackendGroup W.

(** A range request has a filter. *)
Definition has_filter (req : RPCReq) : Prop := req_Method req ∈ range_methods -> unmarshal_maps (req_Params req) <> Some [].

Lemma RewriteTags_returns rctx req res : has_filter req -> returns (RewriteTags rctx req res).
Proof.
  intros Hf. unfold RewriteTags, RewriteResponse. case_bool_decide; [by eexists|].
  assert (Hr : returns (RewriteRequest rctx req)); [|destruct Hr as [r ->]; by eexists].
  unfold RewriteRequest. case_bool_decide as Hm; [|destruct (block_param _) as [[[? ?] ?]|]; by eexists].
  specialize (Hf Hm). unfold rewriteRange. destruct (unmarshal_maps _) as [[|m p]|]; [done| |by eexists].
  cbn [lookup list_lookup]. repeat case_match; by eexists.
Qed.

Lemma RewriteRequest_err rctx req rw e req' : RewriteRequest rctx req = Returns (rw, Some e, req') -> rw = RewriteOverrideError.
Proof.
  unfold RewriteRequest. case_bool_decide.
  - unfold rewriteRange. intros H'. repeat (case_match; simplify_eq/=; try done).
  - destruct (block_param _) as [[[pos rq] mode]|]; [|by intros [= <- <- <-]].
    unfold rewriteParam. intros H'. repeat (case_match; simplify_eq/=; try done).
Qed.

Lemma RewriteRequest_method rctx req rw e req' : RewriteRequest rctx req = Returns (rw, e, req') -> req_Method req' = req_Method req.
Proof.
  unfold RewriteRequest. case_bool_decide.
  - unfold rewriteRange. intros H'. repeat (case_match; simplify_eq/=; try done).
  - destruct (block_param _) as [[[pos rq] mode]|]; [|by intros [= <- <- <-]].
    unfold rewriteParam. intros H'. repeat (case_match; simplify_eq/=; try done).
Qed.

(** The consensus blocks fit an int64; they need not be in order. *)
Definition fits_i64 (rctx : RewriteContext) : Prop :=
  0 <= rc_latest rctx < 2 ^ 63 /\ 0 <= rc_safe rctx < 2 ^ 63 /\ 0 <= rc_finalized rctx < 2 ^ 63.

Lemma tag_switch_fits rctx n b : fits_i64 rctx -> tag_switch rctx n = ReplaceBlock b -> 0 <= b < 2 ^ 63.
Proof. intros (H1 & H2 & H3) H. unfold tag_switch in H. repeat case_match; simplify_eq; done. Qed.

Lemma rewriteTag_utf8 rctx s t rw : fits_i64 rctx -> valid_utf8 0 s = true -> rewriteTag rctx s = inl (t, rw) -> valid_utf8 0 t = true.
Proof.
  intros Hf Hs H. unfold rewriteTag in H. destruct (remarshalBlockNumberOrHash (JStr s)) as [b|]; [|done].
  destruct (bnh_BlockNumber b) as [n|]; [|by injection H as <- <-].
  destruct (tag_switch rctx n) as [|m|] eqn:Et; [by injection H as <- <-| |done]. injection H as <- <-.
  apply tag_switch_fits in Et; [|done]. apply hex_utf8. unfold in_u64. lia.
Qed.

Lemma rewrite_value_wf rctx mode v val : fits_i64 rctx -> wf_json v = true -> rewrite_value rctx mode v = inl (val, true) -> wf_json val = true.
Proof.
  intros Hf Hv H. unfold rewrite_value in H.
  assert (Hstr : forall s, v = JStr s -> match rewriteTag rctx s with inl (t, rw) => inl (JStr t, rw) | inr err => inr err end = inl (val, true) ->
    wf_json val = true).
  { intros s -> Hr. destruct (rewriteTag rctx s) as [[t rw]|] eqn:E; [|done]. injection Hr as <- _. by eapply rewriteTag_utf8. }
  destruct mode; [|destruct v; try done; by eapply Hstr].
  destruct (remarshalBlockNumberOrHash v) as [b|]; [|destruct v; try done; by eapply Hstr].
  unfold rewriteTagBlockNumberOrHash in H. destruct (bnh_BlockNumber b) as [n|]; [|done].
  destruct (tag_switch rctx n) as [|m|] eqn:Et; [done| |done]. injection H as <-. apply tag_switch_fits in Et; [|done].
  rewrite i64_small by (unfold in_i64; lia). by apply bnh_json_object.
Qed.

Lemma rewriteTagMap_wf rctx m key m' b : fits_i64 rctx -> wf_map m = true -> valid_utf8 0 key = true ->
  rewriteTagMap rctx m key = inl (m', b) -> wf_map m' = true.
Proof.
  intros Hf Hm Hk H. unfold rewriteTagMap in H. destruct (map_get m key) as [v|] eqn:Ev; [|by injection H as <- <-].
  pose proof (map_get_wf _ _ _ Hm Ev) as Hv. destruct v as [| | |s| |]; try done; [by injection H as <- <-|].
  case_bool_decide; [by injection H as <- <-|]. destruct (rewriteTag rctx s) as [[t [|]]|] eqn:Et; [| |done]; injection H as <- <-; [|done].
  apply map_set_wf; [done|done|]. by eapply rewriteTag_utf8.
Qed.

Lemma marshal_array_marshals l : forallb wf_json l = true -> is_Some (marshal_raw (json_Marshal (JArr l))).
Proof. intros H. by apply raw_ok_marshals, marshal_raw_ok. Qed.

Lemma RewriteRequest_sendable rctx req rw req' : fits_i64 rctx -> sendable req ->
  RewriteRequest rctx req = Returns (rw, None, req') -> sendable req'.
Proof.
  intros Hw [Hp Hi] H. pose proof (RewriteRequest_id _ _ _ _ _ H) as [Hid _]. split; [|by rewrite Hid].
  unfold RewriteRequest in H. case_bool_decide as Hm.
  - unfold rewriteRange in H. destruct (unmarshal_maps (req_Params req)) as [p|] eqn:Ep; [|done]. apply unmarshal_maps_wf in Ep.
    destruct (p !! 0%nat) as [m0|] eqn:E0; [|done]. pose proof (range_defaults_wf m0 (forallb_lookup _ _ _ _ Ep E0)) as H1.
    destruct (rewriteTagMap rctx (range_defaults m0) "fromBlock") as [[m2 bf]|] eqn:E1; [|done].
    destruct (rewriteTagMap rctx m2 "toBlock") as [[m3 bt]|] eqn:E2; [|done]. destruct (check_range rctx _ m3); [done|].
    assert (H3 : wf_map m3 = true).
    { apply (rewriteTagMap_wf rctx m2 "toBlock" m3 bt); [done| |reflexivity|exact E2].
      by apply (rewriteTagMap_wf rctx (range_defaults m0) "fromBlock" m2 bf). }
    destruct (bf || bt); injection H as <- <-; [|done]. cbn [req_Params set_Params]. apply marshal_array_marshals.
    assert (Hl : forallb wf_map (<[0%nat := m3]> p) = true) by (by apply forallb_insert). rewrite forallb_forall in Hl |- *.
    intros x Hx. specialize (Hl x Hx). unfold wf_map in Hl. by apply andb_true_iff in Hl as [? _].
  - destruct (block_param _) as [[[pos rq] mode]|]; [|by injection H as <- <-]. injection H as H. unfold rewriteParam in H.
    destruct (unmarshal_slice (req_Params req)) as [p|] eqn:Ep; [|done]. apply unmarshal_slice_wf in Ep.
    pose proof (with_default_wf p pos rq Ep) as Hd. destruct (with_default p pos rq !! pos) as [v|] eqn:Ev; [|by injection H as <- <-].
    destruct (rewrite_value rctx mode v) as [[val [|]]|] eqn:Er; [| |done]; injection H as <- <-; [|done].
    cbn [req_Params set_Params]. apply marshal_array_marshals, forallb_insert; [done|].
    eapply rewrite_value_wf; [done| |exact Er]. by eapply forallb_lookup.
Qed.

Lemma RewriteTags_sent rctx req res rw err req' res' : fits_i64 rctx -> sendable req ->
  RewriteTags rctx req res = Returns (rw, err, req', res') -> rw = RewriteNone \/ rw = RewriteOverrideRequest ->
  req_ID req' = req_ID req /\ req_Method req' = req_Method req /\ sendable req'.
Proof.
  intros Hw Hs H Hrw. pose proof (RewriteTags_id _ _ _ _ _ _ _ H) as [Hid _]. split; [done|].
  unfold RewriteTags, RewriteResponse in H. case_bool_decide; [injection H as <- <- <- <-; naive_solver|].
  step_outcome H. destruct a as [[rw1 e1] r1]. injection H as <- <- <- <-. split; [by eapply RewriteRequest_method|].
  destruct e1; [|by eapply RewriteRequest_sendable]. apply RewriteRequest_err in E. naive_solver.
Qed.

Lemma overwrite_returns rctx reqs : Forall has_filter reqs -> forall i, returns (overwrite rctx i reqs).
Proof.
  induction 1 as [|req reqs Hf _ IH]; intros i; cbn [overwrite]; [by eexists|].
  destruct (RewriteTags_returns rctx req (mkRPCRes JSONRPCVersion None None (req_ID req)) Hf) as [[[[rw err] req'] res] ->].
  cbn [outcome_bind]. destruct (IH (S i)) as [[out ovs] ->]. cbn [outcome_bind]. destruct rw; by eexists.
Qed.

Lemma overwrite_sent rctx : fits_i64 rctx -> forall reqs i out ovs, Forall sendable reqs -> overwrite rctx i reqs = Returns (out, ovs) ->
  map req_ID out `sublist_of` map req_ID reqs /\ map req_Method out `sublist_of` map req_Method reqs /\ Forall sendable out.
Proof.
  intros Hw. induction reqs as [|req reqs IH]; intros i out ovs Hs H; cbn [overwrite] in H; [by injection H as <- <-|].
  apply Forall_cons in Hs as [Hr Hs]. step_outcome H. destruct a as [[[rw err] req'] res]. step_outcome H. destruct a as [out1 ovs1].
  apply IH in E0 as (H1 & H2 & H3); [|done]. pose proof (RewriteTags_sent _ _ _ _ _ _ _ Hw Hr E) as Hsent.
  destruct rw; injection H as <- <-.
  - destruct Hsent as (Hi & Hm & Hq); [by left|]. cbn. rewrite Hi, Hm. by split_and!; constructor.
  - by split_and!; [constructor|constructor|].
  - destruct Hsent as (Hi & Hm & Hq); [by right|]. cbn. rewrite Hi, Hm. by split_and!; constructor.
  - by split_and!; [constructor|constructor|].
Qed.

(** What a consensus group may assume of its poller, and any group of the calls. *)
Definition group_calls (consensus : option (ConsensusPoller T)) (reqs : list RPCReq) : Prop :=
  forwardable reqs /\ match consensus with Some cp => fits_i64 (rewrite_context cp) /\ Forall has_filter reqs | None => True end.

Lemma decisions_forwardable consensus reqs : group_calls consensus reqs ->
  exists sent ovs, decisions consensus reqs = Returns (sent, ovs) /\ forwardable sent.
Proof.
  intros [(Hu & Hs & Hn) Hc]. destruct consensus as [cp|]; [|by exists reqs, []]. destruct Hc as [Hw Hf].
  destruct (overwrite_returns (rewrite_context cp) reqs Hf 0) as [[sent ovs] E]. exists sent, ovs. split; [exact E|].
  apply overwrite_sent in E as (H1 & H2 & H3); [|done|done]. split_and!; [|done|by eapply sublist_NoDup].
  intros Hin. apply Hu. by eapply elem_of_sublist.
Qed.

(** The shuffles permute, every response arrives once, and the backends answer well. *)
Definition group_env_ok (env : group_env) : Prop :=
  shuffles_ok (ge_shuffles env) /\ (forall l, ge_arrival env l ≡ₚ map snd l) /\
  forall be i rq, answers_well (at_net (ge_attempts env be) i rq).

Lemma healthy_in_range clk bg be : healthy_at clk bg be = true -> (be < length (bg_Backends bg))%nat.
Proof. unfold healthy_at. destruct (bg_Backends bg !! be) eqn:E; [|done]. intros _. by eapply lookup_lt_Some. Qed.

Lemma ordered_in_range clk sh bg (consensus : option (ConsensusPoller T)) : shuffles_ok sh ->
  Forall (fun be => (be < length (bg_Backends bg))%nat) (orderedBackendsForRequest clk sh bg consensus).
Proof.
  intros (S1 & S2 & S3). unfold orderedBackendsForRequest, loadBalancedConsensusGroup, weightedShuffle. destruct consensus as [cp|].
  - assert (Hh : forall (Q : nat -> Prop) `{!forall be, Decision (Q be)} l,
      Forall (fun be => (be < length (bg_Backends bg))%nat) (filter (fun be => healthy_at clk bg be = true /\ Q be) l)).
    { intros Q HQ l. apply Forall_forall. intros be [[Hbe _] _]%list_elem_of_filter. by eapply healthy_in_range. }
    apply Forall_app. split; [|rewrite S2; apply (Hh (fun be => degraded_at clk bg be = true))].
    case_match; rewrite ?S3, S1; apply (Hh (fun be => degraded_at clk bg be = false)).
  - assert (Hs : forall (Q : nat -> Prop) `{!forall be, Decision (Q be)},
      Forall (fun be => (be < length (bg_Backends bg))%nat) (filter Q (seq 0 (length (bg_Backends bg))))).
    { intros Q HQ. apply Forall_forall. intros be [_ Hbe%elem_of_seq]%list_elem_of_filter. lia. }
    case_match; rewrite Forall_app, ?S3; by split.
Qed.

Lemma group_forward_returns ctx env isBatch reqs backends : forwardable reqs ->
  (forall be i rq, answers_well (at_net (env be) i rq)) -> forall bg,
  Forall (fun be => (be < length (bg_Backends bg))%nat) backends ->
  exists resp bg', ForwardRequestToBackendGroup ctx env isBatch backends reqs bg = Returns (resp, bg', reqs) /\
    length (bg_Backends bg') = length (bg_Backends bg).
Proof.
  intros Hf Hw. induction backends as [|be rest IH]; intros bg Hr; cbn [ForwardRequestToBackendGroup]; [by eexists _, _|].
  apply Forall_cons in Hr as [Hbe Hr]. unfold backend_at. destruct (lookup_lt_is_Some_2 _ _ Hbe) as [b ->]. cbn [outcome_bind].
  destruct reqs as [|r0 rs0]; [by eexists _, _|].
  destruct (forward_loop_returns ctx (env be) isBatch (r0 :: rs0) (Z.to_nat (b_maxRetries b + 1)) ltac:(done) Hf (Hw be) 0 b None)
    as [[[[res b1] reqs1] evs] E]. unfold Forward. rewrite E. cbn [outcome_bind].
  apply forward_loop_untranslated in E as ->; [|by destruct Hf].
  assert (Hl : length (bg_Backends (set_backend be b1 bg)) = length (bg_Backends bg)) by apply length_insert.
  destruct (dispose _ res); [by eexists _, _|by eexists _, _|].
  destruct (IH (set_backend be b1 bg)) as (resp & bg' & -> & Hl'); [by rewrite Hl|]. exists resp, bg'. split; [done|congruence].
Qed.

Lemma multicall_returns ctx env reqs backends : forwardable reqs -> (forall be i rq, answers_well (at_net (env be) i rq)) ->
  forall bg, Forall (fun be => (be < length (bg_Backends bg))%nat) backends -> returns (multicall_requests ctx env backends reqs bg).
Proof.
  intros Hf Hw. induction backends as [|be rest IH]; intros bg Hr; cbn [multicall_requests]; [by eexists|].
  apply Forall_cons in Hr as [Hbe Hr].
  destruct (group_forward_returns ctx env false reqs [be] Hf Hw bg) as (resp & bg' & -> & Hl); [by repeat constructor|].
  cbn [outcome_bind]. destruct (IH bg') as [[resps bg2] ->]; [by rewrite Hl|]. by eexists.
Qed.

Lemma group_Forward_returns ctx env consensus reqs isBatch bg : group_env_ok env -> group_calls consensus reqs ->
  returns (group_Forward ctx env consensus reqs isBatch bg).
Proof.
  intros (Hsh & Ha & Hw) Hc. unfold group_Forward. destruct reqs as [|r0 rs0]; [by eexists|].
  set (reqs := r0 :: rs0) in *. destruct (decisions_forwardable consensus reqs Hc) as (sent & ovs & Ed & Hf).
  change (match consensus with Some cp => _ | None => _ end) with (decisions consensus reqs). rewrite Ed. cbn [outcome_bind].
  destruct (_ && _) eqn:Em.
  - apply andb_true_iff in Em as [Em _]. apply andb_true_iff in Em as [_ Ev]. unfold ExecuteMulticall.
    destruct (multicall_returns ctx (ge_attempts env) sent (seq 0 (length (bg_Backends bg))) Hf Hw bg) as [[resps bg'] E].
    { apply Forall_forall. intros be Hbe%elem_of_seq. lia. }
    rewrite E. cbn [outcome_bind]. apply multicall_answered in E as [_ Hans]; [|done].
    destruct (process_responses_spec (bg_multicallRPCErrorCheck bg) (ge_arrival env resps)) with (final := @None BackendGroupRPCResponse)
      as (resp & Hp & _); [by rewrite Ha|]. unfold ProcessMulticallResponses. rewrite Hp. by eexists.
  - destruct (group_forward_returns ctx (ge_attempts env) isBatch sent (orderedBackendsForRequest (ge_clock env) (ge_shuffles env) bg consensus)
      Hf Hw bg) as (resp & bg' & E & _); [by apply ordered_in_range|]. rewrite E. cbn [outcome_bind].
    destruct (gr_error resp) eqn:Eg; [by eexists|]. apply group_forward_ok in E as [Hl _]; [|done].
    destruct (decisions_override consensus reqs sent ovs (gr_RPCRes resp) Ed Hl) as [res ->]. by eexists.
Qed.

End group.

(** ** The groups of a running proxy *)

Section system.
Context {Addr Pub St C I Tx T W : Type} {AddrEq : EqDecision Addr}.
Context {RC : RedisCounters St} {CX : Cache C} {SX : SHA256} {IX : InteropStrategy I}.
Context {TX : TxLib Tx} {KX : Crypto Addr Pub} {CT : ConsensusTracker T} {MW : MovingWindow W}.
Context {HX : HexUtil} {HXL : HexUtilLaws} {BX : BlockRPC} {BXL : BlockRPCLaws} {RX : ReceiptsRPC}.
Context {SS : SortSlice} {SSL : SortSliceLaws}.
#[local] Abbreviation L := (limiter St).
Implicit Types s : Server Addr L C I.

(** The groups by name, each with its poller if it is consensus aware, and how many calls were made. *)
Definition deployment : Type := nat * gmap string (BackendGroup W * option (ConsensusPoller T)).

(** [s.BackendGroups[name].Forward(ctx, reqs, isBatch)]; [genv] is the environment of each call. *)
Definition deployed (ctx : Context) (genv : nat -> group_env) : Groups deployment := fun group reqs isBatch d =>
  match snd d !! group with
  | Some (bg, consensus) =>
      let! r := group_Forward ctx (genv (fst d)) consensus reqs isBatch bg in
      let '(resp, reqs', bg') := r in Returns (resp, reqs', (S (fst d), <[group := (bg', consensus)]> (snd d)))
  | None =>
      match reqs with
      | [] => Returns (mkGroupResponse [] "" None, [], d)
      | _ => Panics "nil pointer dereference"
      end
  end.

Lemma deployed_answers ctx genv : (forall k l, ge_arrival (genv k) l ≡ₚ map snd l) -> groups_answer (GX := deployed ctx genv).
Proof.
  intros Ha group reqs isBatch d resp reqs' d' H Hs Hb. unfold group_forward, deployed in H.
  destruct (snd d !! group) as [[bg cs]|]; [|by destruct reqs; [injection H as <- <- <-; repeat constructor|]].
  step_outcome H. destruct a as [[resp1 reqs1] bg1]. injection H as <- <- <-. by eapply group_Forward_complete.
Qed.

(** Every method is mapped to a group that exists, and the consensus blocks of every group fit an int64. *)
Definition deployed_ok (mappings : gmap string string) (d : deployment) : Prop :=
  (forall method group, mappings !! method = Some group -> is_Some (snd d !! group)) /\
  (forall group bg cp, snd d !! group = Some (bg, Some cp) -> fits_i64 (rewrite_context cp)).

Lemma deployed_ok_insert mappings d n group bg cs : deployed_ok mappings d ->
  match cs with Some cp => fits_i64 (rewrite_context cp) | None => True end ->
  deployed_ok mappings (n, <[group := (bg, cs)]> (snd d)).
Proof.
  intros [H1 H2] Hcs. split; cbn [snd].
  - intros m g Hg. destruct (decide (g = group)) as [->|Hne]; [rewrite lookup_insert_eq; by eexists|].
    rewrite lookup_insert_ne by done. by eapply H1.
  - intros g bg' cp Hg. apply lookup_insert_Some in Hg as [[_ [= _ ->]]|[_ Hg]]; [done|by eapply H2].
Qed.

Lemma deployed_keeps ctx genv mappings isBatch group rs d resp rs' d' : deployed_ok mappings d ->
  group_forward (Groups := deployed ctx genv) group rs isBatch d = Returns (resp, rs', d') -> deployed_ok mappings d'.
Proof.
  intros Hd H. unfold group_forward, deployed in H.
  destruct (snd d !! group) as [[bg cs]|] eqn:E; [|by destruct rs; [injection H as <- <- <-|]].
  step_outcome H. destruct a as [[resp1 reqs1] bg1]. injection H as <- <- <-. apply deployed_ok_insert; [done|].
  destruct cs as [cp|]; [|done]. destruct Hd as [_ Hd]. by eapply Hd.
Qed.

(** A call whose parameters cannot make the proxy panic: it asks for no receipts, and if it asks for
    a range there is a filter. *)
Definition safe_call (req : RPCReq) : Prop := req_Method req <> ConsensusGetReceiptsMethod /\ has_filter req.

Lemma asked_group_calls reqs mappings group cs rs : (forall raw req, raw ∈ reqs -> ParseRPCReq raw = inl req -> safe_call req) ->
  match cs with Some cp => fits_i64 (rewrite_context (T := T) cp) | None => True end ->
  Forall (asked reqs mappings group) rs -> NoDup (map req_ID rs) -> group_calls cs rs.
Proof.
  intros Hsafe Hcs Ha Hn. assert (Hs : Forall safe_call rs).
  { eapply Forall_impl; [exact Ha|]. intros req (raw & Hin & Hp & _). by eapply Hsafe. }
  split; [split_and!; [|  |done]|].
  - intros (req & Em & Hin)%list_elem_of_fmap. rewrite Forall_forall in Hs. destruct (Hs req Hin) as [Hm _]. congruence.
  - eapply Forall_impl; [exact Ha|]. intros req (raw & _ & Hp & _). by eapply parsed_sendable.
  - destruct cs; [|done]. split; [done|]. eapply Forall_impl; [exact Hs|]. by intros req [_ ?].
Qed.

Lemma handleBatchRPC_returns ctx genv env who reqs isBatch s d : (forall k, group_env_ok (genv k)) -> range_ok env ->
  (forall l i, returns (ValidateAccessList l i)) -> deployed_ok (sv_rpcMethodMappings s) d -> limiters_ok s ->
  (isBatch = false -> length reqs = 1%nat) -> (forall raw req, raw ∈ reqs -> ParseRPCReq raw = inl req -> safe_call req) ->
  exists h s' d', handleBatchRPC (GX := deployed ctx genv) ctx env who reqs isBatch s d = Returns (h, s', d') /\
    same_config s s' /\ limiters_ok s' /\ deployed_ok (sv_rpcMethodMappings s') d' /\
    (strategy_ok -> forall responses cached by', h = inl (responses, cached, by') -> all_written responses).
Proof.
  intros Henv Hr Hi Hd Hl Hb Hsafe.
  pose proof (handleBatchRPC_panics (GX := deployed ctx genv) (deployed_ok (sv_rpcMethodMappings s)) ctx env who reqs isBatch s d) as H.
  destruct (handleBatchRPC _ _ _ _ _ _ _) as [[[h s'] d']|msg] eqn:E.
  - exists h, s', d'. split; [done|]. destruct H as (Hc & Hl' & Hd' & Hw); [intros ???????; by apply deployed_keeps| |done|done|done|done|].
    + apply deployed_answers. intros k l. by destruct (Henv k) as (_ & ? & _).
    + split; [done|]. split; [done|]. split; [|done]. by destruct Hc as (_ & -> & _).
  - exfalso. destruct H as [(l & i & Hp)|(group & rs & d0 & Hp & [H1 H2] & Hne & Ha & Hn)];
      [intros ???????; by apply deployed_keeps| |done|done|done|done| |].
    + apply deployed_answers. intros k l. by destruct (Henv k) as (_ & ? & _).
    + destruct (Hi l i). congruence.
    + destruct rs as [|r0 rs0]; [done|]. set (rs := r0 :: rs0) in *. pose proof Ha as Ha0.
      apply Forall_cons in Ha0 as [(raw & _ & _ & Hm) _]. destruct (H1 _ _ Hm) as [[bg cs] Hg].
      unfold group_forward, deployed in Hp. rewrite Hg in Hp.
      destruct (group_Forward_returns ctx (genv (fst d0)) cs rs isBatch bg) as [[[resp reqs'] bg'] Hf]; [done| |by rewrite Hf in Hp].
      eapply asked_group_calls; [exact Hsafe| |exact Ha|done]. destruct cs; [by eapply H2|done].
Qed.

(** ** Requests, one after the other *)

(** The calls of a request, alone or in a batch. *)
Definition calls_of (r : http_in) (req : RPCReq) : Prop :=
  exists s text, read_request s r = inl text /\
    exists raw, (raw = text \/ exists batch, ParseBatchRPCReq text = inl batch /\ raw ∈ batch) /\ ParseRPCReq raw = inl req.

(** One request, forwarded under the context that is made for it. *)
Definition serve (genv : nat -> group_env) (env : rpc_env) (r : http_in) s (d : deployment)
    : outcome (reply * Server Addr L C I * deployment) :=
  HandleRPC (GX := deployed (default background (populateContext (re_reqID env) r s)) genv) env r s d.

(** No response of a batch is missing, and all responses can be written. *)
Definition full_reply (rep : reply) : Prop :=
  match rep with
  | ReplyStatus code => code = 401
  | ReplyRes _ _ _ _ => writable_reply rep = true
  | ReplyBatch _ _ res => writable_reply rep = true /\ res <> [] /\ Forall is_Some res
  end.

(** What the client gets: a refusal, or a body it can read, with all responses of a batch. *)
Definition delivered (rep : reply) : Prop :=
  match rep with
  | ReplyStatus code => code = 401
  | ReplyRes _ _ _ _ => exists body, reply_text rep = Some body /\ reads rep body
  | ReplyBatch _ _ res => (exists body, reply_text rep = Some body /\ reads rep body) /\ res <> [] /\ Forall is_Some res
  end.

Lemma full_delivered rep : full_reply rep -> delivered rep.
Proof. destruct rep; [done|exact (reads_text _)|]. intros [Hw H]. split; [|done]. by apply reads_text. Qed.

Lemma all_answered responses : (forall j, (j < length responses)%nat -> answered responses j) -> Forall is_Some responses.
Proof.
  intros H. apply Forall_lookup. intros j x Hx. destruct (H j) as [r Hr]; [by eapply lookup_lt_Some|].
  rewrite Hr in Hx. injection Hx as <-. by eexists.
Qed.

Lemma writeRPCError_full err : ok_error err -> full_reply (writeRPCError "" err).
Proof. intros He. apply NewRPCErrorRes_writable; [done|]. unfold ok_error in *. destruct (as_RPCErr err) eqn:E; [by rewrite E|done]. Qed.

#[local] Hint Resolve writeRPCError_full : replies.

Lemma reply_batch_full s h : (forall responses cached by', h = inl (responses, cached, by') -> responses <> [] /\ Forall is_Some responses /\ all_written responses) ->
  full_reply (reply_batch s h).
Proof.
  intros H. destruct h as [[[responses cached] by']|err].
  - destruct (H _ _ _ eq_refl) as (H1 & H2 & H3). split; [|done]. cbn. apply forallb_forall. intros o Ho%list_elem_of_In.
    unfold all_written in H3. rewrite Forall_forall in H3. specialize (H3 o Ho). by destruct o.
  - unfold reply_batch. repeat case_match; eauto with replies.
Qed.

Lemma reply_single_full s (h : handled) : (forall responses cached by', h = inl (responses, cached, by') -> answered responses 0 /\ all_written responses) ->
  exists rep, reply_single s h = Returns rep /\ full_reply rep.
Proof.
  intros H. destruct h as [[[responses cached] by']|err].
  - destruct (H _ _ _ eq_refl) as ([x Hx] & Hw). destruct responses as [|y ys]; [done|]. injection Hx as ->. eexists. split; [done|].
    by apply Forall_cons in Hw as [Hw _].
  - unfold reply_single. destruct (receipts_error err); (eexists; split; [done|eauto with replies]).
Qed.

(** What every state of a running proxy has. *)
Record system_ok (st : Server Addr L C I * deployment) : Prop := {
  so_batches : 0 < sv_maxUpstreamBatchSize (fst st);
  so_log : sv_enableRequestLog (fst st) = true -> 0 <= sv_maxRequestBodyLogLen (fst st);
  so_limiters : limiters_ok (fst st);
  so_deployed : deployed_ok (sv_rpcMethodMappings (fst st)) (snd st);
}.

Lemma system_ok_next s d s' d' : system_ok (s, d) -> same_config s s' -> limiters_ok s' -> deployed_ok (sv_rpcMethodMappings s') d' ->
  system_ok (s', d').
Proof. intros [H1 H2 _ _] (A1 & _ & _ & _ & _ & A6 & A7) Hl Hd. constructor; cbn in *; [by rewrite A1|by rewrite A6, A7|done|done]. Qed.

(** The body is cut to a length that is not negative. *)
Lemma log_request_returns s text : (sv_enableRequestLog s = true -> 0 <= sv_maxRequestBodyLogLen s) -> returns (log_request s text).
Proof.
  intros H. unfold log_request. destruct (sv_enableRequestLog s); [|by eexists]. specialize (H eq_refl).
  assert (Ht : returns (truncate text (sv_maxRequestBodyLogLen s))).
  { unfold truncate. set (n := if _ =? 0 then _ else _). assert (0 <= n) by (subst n; unfold maxRequestBodyLogLen; destruct (_ =? 0); lia).
    rewrite (proj2 (Z.ltb_ge n 0)) by lia. destruct (n <? _); by eexists. }
  destruct Ht as [line ->]. by eexists.
Qed.

Lemma serve_returns genv env r s d : (forall k, group_env_ok (genv k)) -> range_ok (re_batch env) ->
  (forall l i, returns (ValidateAccessList l i)) -> strategy_ok -> system_ok (s, d) ->
  (forall req, calls_of r req -> safe_call req) ->
  exists rep s' d', serve genv env r s d = Returns (rep, s', d') /\ full_reply rep.
Proof.
  intros Henv Hr Hi Hst [Hk Hlog Hl Hd] Hsafe. cbn [fst snd] in *. unfold serve, HandleRPC.
  assert (Hearly : forall rep, full_reply rep -> exists rep' s' d', Returns (rep, s, d) = Returns (rep', s', d') /\ full_reply rep') by (intros rep Hrep; by exists rep, s, d).
  destruct (populateContext (re_reqID env) r s) as [ctx|]; cbn [default from_option id]; [|by apply Hearly].
  case_bool_decide; [apply Hearly; eauto with replies|]. destruct (read_request s r) as [text|err] eqn:Et; [|apply Hearly; eauto with replies].
  destruct (if bool_decide _ then _ else _) as [signer|err]; [|apply Hearly; eauto with replies].
  destruct (log_request_returns s text Hlog) as [line ->]. cbn [outcome_bind]. destruct (IsBatch text).
  - destruct (ParseBatchRPCReq text) as [reqs|] eqn:Eb; [|apply Hearly; eauto with replies]. destruct (_ <? _); [apply Hearly; eauto with replies|].
    destruct (Nat.eqb_spec (length reqs) 0) as [|Hne]; [apply Hearly; eauto with replies|]. set (who := mkRequestor _ _ _).
    destruct (handleBatchRPC_returns ctx genv (re_batch env) who reqs true s d) as (h & s' & d' & E & Hc & Hl' & Hd' & Hw); try done.
    { intros raw req Hin Hp. apply Hsafe. exists s, text. split; [done|]. exists raw. split; [|done]. right. by exists reqs. }
    rewrite E. cbn [outcome_bind]. eexists _, s', d'. split; [done|]. apply reply_batch_full.
    intros responses cached by' ->. apply handleBatchRPC_complete in E as (Hlen & Ha & _); [|done|done]. rewrite <- Hlen in *.
    split_and!; [by destruct responses|by apply all_answered|by eapply Hw].
  - set (who := mkRequestor _ _ _).
    destruct (handleBatchRPC_returns ctx genv (re_batch env) who [text] false s d) as (h & s' & d' & E & Hc & Hl' & Hd' & Hw); try done.
    { intros raw req ->%list_elem_of_singleton Hp. apply Hsafe. exists s, text. split; [done|]. exists text. split; [by left|done]. }
    rewrite E. cbn [outcome_bind]. destruct (reply_single_full s' h) as (rep & -> & Hf); [|by eexists _, _, _].
    intros responses cached by' ->. apply handleBatchRPC_complete in E as (_ & Ha & _); [|done|done]. split; [apply Ha; cbn; lia|by eapply Hw].
Qed.

(** A request changes neither the routes nor which groups there are, whether it is safe or not. *)
Lemma serve_keeps genv env r s d rep s' d' : (forall k l, ge_arrival (genv k) l ≡ₚ map snd l) -> range_ok (re_batch env) ->
  serve genv env r s d = Returns (rep, s', d') -> system_ok (s, d) -> system_ok (s', d').
Proof.
  intros Ha Hr H Hok. unfold serve, HandleRPC in H.
  destruct (populateContext (re_reqID env) r s) as [ctx|]; cbn [default from_option id] in H; [|by injection H as <- <- <-].
  case_bool_decide; [by injection H as <- <- <-|]. destruct (read_request s r) as [text|err]; [|by injection H as <- <- <-].
  destruct (if bool_decide _ then _ else _) as [signer|err]; [|by injection H as <- <- <-]. set (who := mkRequestor _ _ _) in H. step_outcome H.
  assert (Hh : forall reqs isBatch h s1 d1, (isBatch = false -> length reqs = 1%nat) ->
    handleBatchRPC (GX := deployed ctx genv) ctx (re_batch env) who reqs isBatch s d = Returns (h, s1, d1) -> system_ok (s1, d1)).
  { intros reqs isBatch h s1 d1 Hb E'.
    pose proof (handleBatchRPC_panics (GX := deployed ctx genv) (deployed_ok (sv_rpcMethodMappings s)) ctx (re_batch env) who reqs isBatch s d) as Hp.
    rewrite E' in Hp. destruct Hp as (Hc & Hl1 & Hd1 & _);
      [intros ???????; by apply deployed_keeps|by apply deployed_answers|done|done|apply (so_deployed _ Hok)|apply (so_limiters _ Hok)|].
    eapply system_ok_next; [exact Hok|done|done|]. by destruct Hc as (_ & -> & _). }
  destruct (IsBatch text).
  - destruct (ParseBatchRPCReq text) as [reqs|]; [|by injection H as <- <- <-]. destruct (_ <? _); [by injection H as <- <- <-|].
    destruct (_ =? _)%nat; [by injection H as <- <- <-|]. step_outcome H. destruct a0 as [[h s1] d1]. injection H as _ <- <-. by eapply Hh in E0.
  - step_outcome H. destruct a0 as [[h s1] d1]. step_outcome H. injection H as _ <- <-. by eapply Hh in E0.
Qed.

(** ** A running proxy *)

Section running.
Context (penv : process_env) (c : Config) (newTracker : tracker_choice -> T) (genv : nat -> group_env).

(** The server is started over groups without pollers. *)
Definition boot (p : plan (W := W)) : deployment := (0%nat, (fun bg => (bg, None)) <$> pl_groups p).

(** What a configuration needs beyond what [Start] checks. *)
Definition config_safe : Prop :=
  0 <= sc_MaxUpstreamBatchSize (c_Server c) /\
  (sc_EnableRequestLog (c_Server c) = true -> 0 <= sc_MaxRequestBodyLogLen (c_Server c)) /\
  (c_HighPrioUseRedis c = true -> rc_URL (c_Redis c) <> "").

(** Requests are handled, of whatever clients and whatever calls; [Start] gives the consensus aware
    groups their pollers, while the server is already running; and the pollers make their steps. *)
Inductive system_step : Server Addr L C I * deployment -> Server Addr L C I * deployment -> Prop :=
| sys_request env r rep s d s' d' : range_ok (re_batch env) -> serve genv env r s d = Returns (rep, s', d') ->
    system_step (s, d) (s', d')
| sys_start group cfg bg h s d : snd d !! group = Some (bg, None) -> (group, cfg) ∈ c_BackendGroups c ->
    start_group penv newTracker bg cfg = Returns (inl (Some h)) -> fits_i64 (rewrite_context (ah_poller h)) ->
    system_step (s, d) (s, (fst d, <[group := (ah_group h, Some (ah_poller h))]> (snd d)))
| sys_poll group bg cp bg' cp' s d : snd d !! group = Some (bg, Some cp) -> poller_step (bg, cp) (bg', cp') ->
    fits_i64 (rewrite_context cp') -> system_step (s, d) (s, (fst d, <[group := (bg', Some cp')]> (snd d))).

Lemma system_step_ok st st' : (forall k l, ge_arrival (genv k) l ≡ₚ map snd l) -> system_ok st -> system_step st st' -> system_ok st'.
Proof.
  intros Ha Hok. destruct 1 as [env r rep s d s' d' Hr H|group cfg bg h s d _ _ _ Hf|group bg cp bg' cp' s d _ _ Hf].
  - by eapply serve_keeps.
  - destruct Hok. constructor; [done|done|done|]. by apply deployed_ok_insert.
  - destruct Hok. constructor; [done|done|done|]. by apply deployed_ok_insert.
Qed.

(** The limiters of a new server are made by the factory. *)
Lemma new_server_inv conn newCache newStrategy compile (p : plan (W := W)) s :
  new_server conn newCache newStrategy compile c p = inl s ->
  sv_rpcMethodMappings s = list_to_map (c_RPCMethodMappings c) /\
  sv_maxUpstreamBatchSize s = or_default (sc_MaxUpstreamBatchSize (c_Server c)) defaultMaxUpstreamBatchSize /\
  sv_enableRequestLog s = sc_EnableRequestLog (c_Server c) /\ sv_maxRequestBodyLogLen s = sc_MaxRequestBodyLogLen (c_Server c) /\
  ((forall dur max prefix, lim_ok (limiterFactory conn (pl_limiter p) dur max prefix)) -> limiters_ok s).
Proof.
  unfold new_server, NewServer. intros H. repeat (case_match; try discriminate).
  all: injection H as <-; split_and!; [done..|]; intros Hf; constructor; cbn; repeat case_match; try done; try apply Hf.
  all: intros m lim Hm; rewrite map_lookup_imap in Hm; apply bind_Some in Hm as (o & _ & [= <-]); apply Hf.
Qed.

(** A configuration that starts, starts well. *)
Lemma started_ok conn newCache newStrategy compile p s : Start penv c = inl p -> config_safe ->
  new_server conn newCache newStrategy compile c p = inl s -> system_ok (s, boot p).
Proof.
  intros Hp (Hk & Hlog & Hu) (Hm & Hs & He & Hn & Hl)%new_server_inv. constructor; cbn [fst snd].
  - rewrite Hs. unfold or_default. destruct (Z.eqb_spec (sc_MaxUpstreamBatchSize (c_Server c)) 0); [done|lia].
  - by rewrite He, Hn.
  - apply Hl. intros dur max prefix. apply limiterFactory_ok. by eapply Start_limiter.
  - split; cbn [snd boot].
    + intros method group. rewrite Hm, lookup_fmap. intros Hg%elem_of_list_to_map_2. apply (Start_mapped _ _ _ Hp) in Hg as [g ->]. by eexists.
    + intros group bg cp. rewrite lookup_fmap. by destruct (pl_groups p !! group).
Qed.


End running.

End system.

(** ** A sample system *)

Lemma read_whole data max text : ReadAll (String.length (rest data) + 2) (fun _ => 512) (LimitReader data max) "" = Some (text, None) ->
  text = rest data.
Proof.
  destruct (Z.ltb_spec max 0) as [Hm|Hm].
  - rewrite Nat.add_comm. cbn [Nat.add ReadAll]. unfold Read, LimitedReader_Reader, LimitedReader_Read. cbn [lr_N LimitReader].
    by rewrite (proj2 (Z.leb_le max 0)) by lia.
  - rewrite ReadAll_limited by lia. intros [= <- H]. unfold limited in *. by destruct (within _ _ _).
Qed.

Lemma read_body_whole max data resB : read_body max (BodyBytes data) = inl resB -> resB = rest data.
Proof. unfold read_body. destruct (ReadAll _ _ _ _) as [[t [[]|]]|] eqn:E; try done. intros [= <-]. by eapply read_whole. Qed.

Module system_samples.
Import ServerFacts.server_samples.

#[local] Existing Instance text_txs.
#[local] Existing Instance text_crypto.
#[local] Existing Instance no_interop.
#[local] Existing Instance total_window.

Definition post (text : string) : http_in :=
  mkHttpIn ∅ ∅ "10.0.0.1:4000" "/" "" (inl (mkBody text (fun _ => 512) true)).

Lemma read_request_whole {Addr L C I} (s : Server Addr L C I) body text : read_request s (post body) = inl text -> text = body.
Proof. unfold read_request. cbn [post hi_Body]. destruct (ReadAll _ _ _ _) as [[t [[]|]]|] eqn:E; try done. intros [= <-]. by apply read_whole in E. Qed.

Lemma accepted_answers_well rq : answers_well (accepted rq).
Proof.
  intros resp max resB single ptrs [= <-] ->%read_body_whole. cbn [rest Body]. destruct single; intros H; vm_compute in H; [|done].
  injection H as <-. constructor; [|constructor]. eexists. split; [done|]. cbn. intros; discriminate.
Qed.

Definition sample_env (_ : nat) : group_env := quiet (fun _ => accepted).

(** One consensus aware group; the limits of high priority clients, and so all of them, are in Redis, and
    the first 64 bytes of a request are logged. *)
Definition sample_config : Config :=
  mkConfig "" (mkServerConfig 0 0 0 false 0 1 true true 64) (mkCacheConfig true true 0) (mkRedisConfig "redis://localhost" "" "" true false) base_limits false no_limits true []
    config_samples.no_options [("a", config_samples.node "http://a"); ("b", config_samples.node "http://b")] 0 []
    [("main", config_samples.nodes)] [("eth_chainId", "main"); ("eth_sendRawTransaction", "main")] []
    (mkSenderConfig true Second 1 [10]) (mkInteropConfig [] "" 0 0 0 (mkSenderConfig false 0 0 [])).

Definition new_tracker (_ : tracker_choice) : InMemoryConsensusTracker := NewInMemoryConsensusTracker.
Definition new_conn (_ : redis_client) : gmap string (Z * Z) := ∅.
Definition new_cache (_ : cache_choice) : option (cacheWithCompression (memory_cache (gmap string string))) := Some Cache.samples.empty_cache.
Definition no_patterns (_ : string) : (string -> bool) + error := inr (ENew "no patterns").

Definition sample_plan : plan (W := Q) + error := Start config_samples.sample_env sample_config.
Definition sample_start (p : plan (W := Q)) : Server string (limiter (gmap string (Z * Z))) _ unit + error :=
  new_server new_conn new_cache (fun _ => tt) no_patterns sample_config p.
Definition sample_group (bg : BackendGroup Q) : outcome (option PollerAsyncHandler + error) :=
  start_group config_samples.sample_env new_tracker bg config_samples.nodes.

Lemma sample_starts : match sample_plan with
  | inl p => match sample_start p, sample_group <$> pl_groups p !! "main" with
             | inl _, Some (Returns (inl (Some h))) => let r := rewrite_context (ah_poller h) in
                 (0 <=? rc_latest r) && (rc_latest r <? 2 ^ 63) && (0 <=? rc_safe r) && (rc_safe r <? 2 ^ 63) &&
                 (0 <=? rc_finalized r) && (rc_finalized r <? 2 ^ 63)
             | _, _ => false
             end
  | inr _ => false
  end = true.
Proof. vm_compute. reflexivity. Qed.

Definition sample_rpc : rpc_env := mkRpcEnv "id" in_order_env.
Definition two_in_a_batch : string := "[" +:+ chain_call +:+ "," +:+ send_call +:+ "]".

(** The method of a text, if it is a request. *)
Definition harmless (raw : string) : bool :=
  match ParseRPCReq raw with
  | inl req => negb (bool_decide (req_Method req = ConsensusGetReceiptsMethod)) && negb (bool_decide (req_Method req ∈ range_methods))
  | inr _ => true
  end.

Lemma harmless_safe raw req : harmless raw = true -> ParseRPCReq raw = inl req -> safe_call req.
Proof.
  unfold harmless. intros H E. rewrite E in H. apply andb_true_iff in H as [H1%negb_true_iff H2%negb_true_iff].
  apply bool_decide_eq_false in H1, H2. split; [done|]. by intros Hr.
Qed.

Lemma post_safe {Addr St C I} body req : harmless body = true ->
  match ParseBatchRPCReq body with inl l => forallb harmless l | inr _ => true end = true ->
  calls_of (Addr := Addr) (St := St) (C := C) (I := I) (post body) req -> safe_call req.
Proof.
  intros H1 H2 (s & text & ->%read_request_whole & raw & Hraw & Hp). destruct Hraw as [->|(batch & Hb & Hin)]; [by eapply harmless_safe|].
  rewrite Hb in H2. rewrite forallb_forall in H2. eapply harmless_safe; [by apply H2, list_elem_of_In|exact Hp].
Qed.

Lemma sample_env_ok k : group_env_ok (sample_env k).
Proof. split; [by repeat split|]. split; [done|]. intros be i rq. apply accepted_answers_well. Qed.


End system_samples.
