(* ===== verification/MockServer.v ===== *)
(** * The mock backend of the tests (src/tools/mockserver/handler/handler.go)

    A handler that answers calls with responses from a file and from overrides.  Reading and decoding
    the YAML file are parameters.  It encodes its replies with the default encoding of a struct: the
    method [MarshalJSON] belongs to the pointer, and the handler marshals a value. *)

From S2P Require Import Prelude Json JsonFacts JsonRaw Geth Rpc.

Record MethodTemplate : Type := mkTemplate {
  t_Method : string;
  t_Block : string;
  t_Response : string;
  t_ResponseCode : Z;
}.

(** Templates are pointers, which a file with an empty entry leaves nil. *)
Record MockedHandler : Type := mkMocked {
  mh_Overrides : list (option MethodTemplate);
  mh_Autoload : bool;
  mh_AutoloadFile : string;
}.

Definition AddOverride (template : option MethodTemplate) (mh : MockedHandler) : MockedHandler :=
  mkMocked (mh_Overrides mh ++ [template]) (mh_Autoload mh) (mh_AutoloadFile mh).
Definition ResetOverrides (mh : MockedHandler) : MockedHandler := mkMocked [] (mh_Autoload mh) (mh_AutoloadFile mh).

(** A file that cannot be read is empty, and a text that is no YAML gives what was decoded of it. *)
Definition LoadFromFile (ReadFile : string -> option string) (Unmarshal : string -> list (option MethodTemplate)) (file : string)
    : list (option MethodTemplate) := Unmarshal (default "" (ReadFile file)).

(** ** Requests *)

(** A value decoded into an [interface{}] although an error is reported: a number that does not fit is nil. *)
Fixpoint to_interface_anyway (j : json) : json :=
  match j with
  | JNum lit => match float_text lit with Some t => JNum t | None => JNull end
  | JArr l => JArr (map to_interface_anyway l)
  | JObj fs => JObj (obj_of_members (map (fun kv => (fst kv, to_interface_anyway (snd kv))) fs))
  | j => j
  end.

(** A map of members; anything but an object leaves it nil. *)
Definition request_map (j : json) : list (string * json) :=
  match j with
  | JObj fs => obj_of_members (map (fun kv => (fst kv, to_interface_anyway (snd kv))) fs)
  | _ => []
  end.

Definition read_requests (body : string) : list (list (string * json)) :=
  if IsBatch body then
    match json_parse body with
    | Some (JArr l) => map request_map l
    | _ => []
    end
  else [match json_parse body with Some j => request_map j | None => [] end].

(** The comparison of an [interface{}] with a string. *)
Definition is_str (v : option json) (s : string) : bool := match v with Some (JStr x) => bool_decide (x = s) | _ => false end.

(** [(r["params"].([]interface{})[0]).(string)] *)
Definition block_param (r : list (string * json)) : outcome string :=
  match obj_lookup "params" r with
  | Some (JArr (JStr block :: _)) => Returns block
  | Some (JArr []) => Panics "index out of range"
  | _ => Panics "interface conversion"
  end.

(** ** Replies *)

(** [WriteHeader] on the status so far: the first one counts, an informational one does not. *)
Definition WriteHeader (code : Z) (status : option Z) : outcome (option Z) :=
  match status with
  | Some _ => Returns status
  | None =>
      if (code <? 100) || (999 <? code) then Panics "invalid WriteHeader code"
      else if (code <=? 199) && negb (code =? 101) then Returns None
      else Returns (Some code)
  end.

(** The last template for the method and the block is taken, the status is that of the first. *)
Fixpoint select_template (template : list (option MethodTemplate)) (method : option json) (block selected : string) (status : option Z)
    : outcome (string * option Z) :=
  match template with
  | [] => Returns (selected, status)
  | None :: _ => Panics "nil pointer dereference"
  | Some t :: rest =>
      if is_str method (t_Method t) && bool_decide (t_Block t = block) then
        let! status := (if t_ResponseCode t =? 0 then Returns status else WriteHeader (t_ResponseCode t) status) in
        select_template rest method block (t_Response t) status
      else select_template rest method block selected status
  end.

(** [json.Marshal(rpcRes)] of the value: all four fields under the names they have in Go. *)
Definition marshal_RPCRes_value `{!HexUtil} (r : RPCRes) : option string :=
  match (match res_Result r with Some v => marshal_gvalue v | None => Some "null" end),
        (match res_Error r with Some e => marshal_err e | None => Some "null" end), marshal_raw (res_ID r) with
  | Some result, Some error, Some id =>
      Some (raw_object [("JSONRPC", quoted (res_JSONRPC r)); ("Result", result); ("Error", error); ("ID", id)])
  | _, _, _ => None
  end.

(** The response to one request, if there is one. *)
Definition respond_one `{!HexUtil} (template : list (option MethodTemplate)) (r : list (string * json)) (status : option Z)
    : outcome (list string * option Z) :=
  let method := obj_lookup "method" r in
  let! block := (if is_str method "eth_getBlockByNumber" || is_str method "debug_getRawReceipts"
                 then block_param r else Returns "") in
  let! s := select_template template method block "" status in
  let '(selected, status) := s in
  if bool_decide (selected = "") then Returns ([], status)
  else match decode_RPCRes selected with
       | None => Panics "invalid response"
       | Some rpcRes =>
           let id := json_Marshal (default JNull (obj_lookup "id" r)) in
           Returns ([default "" (marshal_RPCRes_value (mkRPCRes (res_JSONRPC rpcRes) (res_Result rpcRes) (res_Error rpcRes) id))], status)
       end.

Fixpoint respond_all `{!HexUtil} (template : list (option MethodTemplate)) (rs : list (list (string * json))) (status : option Z)
    : outcome (list string * option Z) :=
  match rs with
  | [] => Returns ([], status)
  | r :: rs =>
      let! x := respond_one template r status in
      let! y := respond_all template rs (snd x) in
      Returns (fst x ++ fst y, snd y)
  end.

(** The status and the body of the reply to the text that was read. *)
Definition Handler `{!HexUtil} (ReadFile : string -> option string) (Unmarshal : string -> list (option MethodTemplate))
    (body : string) (mh : MockedHandler) : outcome (Z * string) :=
  let template := (if mh_Autoload mh then LoadFromFile ReadFile Unmarshal (mh_AutoloadFile mh) else []) ++ mh_Overrides mh in
  let! x := respond_all template (read_requests body) None in
  let '(responses, status) := x in
  Returns (default 200 status,
           if IsBatch body then "[" +:+ str_Join responses "," +:+ "]" else default "" (head responses)).

(** ** The proxy understands the replies *)

(** The members have other names than in [MarshalJSON], which decoding does not mind. *)
Lemma value_roundtrip `{!HexUtil} r : wf_response r = true ->
  exists t, marshal_RPCRes_value r = Some t /\ decode_RPCRes t = Some (on_the_wire r).
Proof.
  destruct r as [v x e i]. unfold wf_response, marshal_RPCRes_value, on_the_wire. simpl.
  rewrite !andb_true_iff. intros [[[Hv Hx] He] Hi].
  destruct (quoted_raw _ "" Hv) as [Hv1 Hv2]. apply compact_raw_spec in Hi as [Hi1 ->].
  assert (Hr : exists tx, match x with Some v => marshal_gvalue v | None => Some "null" end = Some tx /\ raw_ok tx = true /\ decode_result tx = Some x).
  { destruct x as [x|]; [by apply wf_result_roundtrip|by exists "null"]. }
  assert (Hr' : exists te, match e with Some e => marshal_err e | None => Some "null" end = Some te /\ raw_ok te = true /\
    decode_err te None = Some ((fun e => mkRPCErr (err_Code e) (err_Message e) (err_Data e) 0) <$> e)).
  { destruct e as [e|]; [by apply marshal_err_roundtrip|by exists "null"]. }
  destruct Hr as (tx & -> & Hx1 & Hx2), Hr' as (te & -> & He1 & He2). eexists. split; [done|].
  unfold decode_RPCRes, decode_struct. rewrite json_shape_raw_object by (done || members_ok). cbn [decode_members].
  change (to_lower "JSONRPC") with (to_lower "jsonrpc"). change (to_lower "Result") with (to_lower "result").
  change (to_lower "Error") with (to_lower "error"). change (to_lower "ID") with (to_lower "id"). by run_fields.
Qed.

Definition matches (m block : string) (t : MethodTemplate) : Prop := t_Method t = m /\ t_Block t = block.

#[global] Instance matches_dec m block t : Decision (matches m block t) := ltac:(unfold matches; apply _).

(** Templates without a status of their own: the last one that fits is selected. *)
Lemma select_last m block ts : Forall (fun t => t_ResponseCode t = 0) ts -> forall selected status,
  select_template (map Some ts) (Some (JStr m)) block selected status =
    Returns (default selected (t_Response <$> last (filter (matches m block) ts)), status).
Proof.
  induction 1 as [|t ts Hc _ IH]; intros selected status; [done|]. cbn [map select_template]. rewrite filter_cons.
  destruct (decide (matches m block t)) as [[<- <-]|Hn].
  - unfold is_str. rewrite !bool_decide_eq_true_2 by done. cbn [andb]. rewrite Hc. cbn [Z.eqb outcome_bind]. rewrite IH. f_equal.
    destruct (filter _ ts) as [|t' l] eqn:E; [done|]. rewrite last_cons_cons.
    destruct (last (t' :: l)) eqn:El; [done|]. by apply last_None in El.
  - assert (E : is_str (Some (JStr m)) (t_Method t) && bool_decide (t_Block t = block) = false).
    { apply andb_false_iff. destruct (decide (t_Method t = m)) as [<-|Hm]; [right|left]; apply bool_decide_eq_false_2; [by intros <-; apply Hn|congruence]. }
    rewrite E. apply IH.
Qed.

(** The mock backend stands in for a node. Asked with a single call, it replies with the last
    template for the call's method and block, overrides after the file, and the proxy decodes the
    reply to that response under the id of the call - although the names of the members are not
    those of JSON-RPC. *)
Theorem mock_reply `{!HexUtil} ReadFile Unmarshal mh body fs m block ts t r :
  IsBatch body = false -> json_parse body = Some (JObj fs) ->
  let req := request_map (JObj fs) in let id := json_Marshal (default JNull (obj_lookup "id" req)) in
  obj_lookup "method" req = Some (JStr m) ->
  (if bool_decide (m ∈ ["eth_getBlockByNumber"; "debug_getRawReceipts"]) then block_param req = Returns block else block = "") ->
  (if mh_Autoload mh then LoadFromFile ReadFile Unmarshal (mh_AutoloadFile mh) else []) ++ mh_Overrides mh = map Some ts ->
  Forall (fun t => t_ResponseCode t = 0) ts -> last (filter (matches m block) ts) = Some t -> t_Response t <> "" ->
  decode_RPCRes (t_Response t) = Some r -> wf_response (mkRPCRes (res_JSONRPC r) (res_Result r) (res_Error r) id) = true ->
  exists reply, Handler ReadFile Unmarshal body mh = Returns (200, reply) /\
    decode_RPCRes reply = Some (on_the_wire (mkRPCRes (res_JSONRPC r) (res_Result r) (res_Error r) id)).
Proof.
  intros Hb Hp req id Hm Hblock Hts Hc Hl Hne Hd Hw. destruct (value_roundtrip _ Hw) as (text & Ht & Hdt).
  exists text. split; [|done]. unfold Handler. rewrite Hts. unfold read_requests. rewrite Hb, Hp. cbn [respond_all]. unfold respond_one.
  fold req. rewrite Hm.
  assert (Hbl : (if is_str (Some (JStr m)) "eth_getBlockByNumber" || is_str (Some (JStr m)) "debug_getRawReceipts" then block_param req else Returns "") = Returns block).
  { unfold is_str. destruct (decide (m ∈ ["eth_getBlockByNumber"; "debug_getRawReceipts"])) as [Hin|Hin].
    - rewrite bool_decide_eq_true_2 in Hblock by done. rewrite !elem_of_cons, elem_of_nil in Hin. destruct Hin as [->|[->|[]]]; exact Hblock.
    - rewrite bool_decide_eq_false_2 in Hblock by done. rewrite !bool_decide_eq_false_2 by set_solver. by rewrite Hblock. }
  rewrite Hbl. cbn [outcome_bind]. rewrite select_last by done. rewrite Hl. cbn [outcome_bind]. change (default "" (t_Response <$> Some t)) with (t_Response t).
  rewrite bool_decide_eq_false_2 by done. rewrite Hd. fold id. rewrite Ht. reflexivity.
Qed.

Module mock_samples.

Definition chain_template : MethodTemplate := mkTemplate "eth_chainId" "" (jtext "{'jsonrpc':'2.0','id':67,'result':'0x1'}") 0.
Definition mock : MockedHandler := AddOverride (Some chain_template) (mkMocked [] false "").
Definition question : string := jtext "{'jsonrpc':'2.0','method':'eth_chainId','params':[],'id':7}".

Lemma mock_reply_witness : exists reply, Handler (fun _ => None) (fun _ => []) question mock = Returns (200, reply) /\
  decode_RPCRes reply = Some (mkRPCRes "2.0" (Some (GJson (JStr "0x1"))) None "7").
Proof.
  destruct (decode_RPCRes (t_Response chain_template)) as [r|] eqn:E; [|vm_compute in E; discriminate].
  assert (r = mkRPCRes "2.0" (Some (GJson (JStr "0x1"))) None "67") as -> by (vm_compute in E; congruence).
  exact (mock_reply (fun _ => None) (fun _ => []) mock question _ "eth_chainId" "" [chain_template] chain_template _
    eq_refl eq_refl eq_refl eq_refl eq_refl ltac:(by repeat constructor) eq_refl ltac:(discriminate) E eq_refl).
Defined.

End mock_samples.
